(* ===== verification/_CoqProject ===== *)
-Q . S2P
Prelude.v
Format.v
BTree.v
Time.v
Wire.v
WireLaws.v
Types.v
Tree.v
TreeFacts.v
Decomposition.v
Proofs.v
Inclusion.v
Consistency.v
InclusionFacts.v
ConsistencyFacts.v
ProofCodecs.v
Tile.v
TileFacts.v
PathFacts.v
LogEntry.v
LogEntryFacts.v
Signing.v
Checkpoint.v
CheckpointFacts.v
PruningCheckpoint.v
Verify.v
ReadPlan.v
KV.v
KVContract.v
Lease.v
LeaseFacts.v
Hsm.v
Signer.v
SignerFacts.v
ObjectStore.v
ObjectStoreFacts.v
Retention.v
Clock.v
ClockSleep.v
Batch.v
BatchFacts.v
Acme.v
AcmeFacts.v
ParseInt.v
Replicator.v
ReplicatorFacts.v
ReplicatorLink.v
AwsErrors.v
DynamoDb.v
DynamoDbFacts.v
DynamoDbRefines.v
DynamoDbContract.v
LeaseDynamoDb.v
S3.v
S3Server.v
S3Facts.v
S3Worm.v
S3Sample.v
S3Contract.v
F64.v
Metrics.v
MetricsAdmin.v
Emf.v
SoftHsm.v
SoftHsmFacts.v
Conformance.v
ConformanceFacts.v
VectorGenerator.v
Sha256.v
VectorGeneratorFacts.v
KVTypes.v
Suite.v
KvSuite.v
KvSuiteFacts.v
StoreSuite.v
LeaseSuite.v
HsmSuite.v
AdminModels.v
AdminApi.v
Backend.v
