(* ===== verification/Prelude.v ===== *)
(** * Verification library of the MTC-CA workspace

    The repository is a Rust workspace for a Merkle Tree Certificate authority: an append-only
    issuance log whose entries are certificates, signed statements ("checkpoints") about the log's
    Merkle tree, proofs that relying parties check against them, tiles from which proofs are
    served, and the multi-region protocol that keeps one writer on the log. This library models the
    crates that carry that logic, under [src/crates/], and proves what makes them correct.

    ** How the program's parts interact

    A log entry ([mtc::log_entry]) is serialized by the TLS-presentation codec ([mtc::wire]); its
    hash is a leaf of the tree ([mtc::tree]). The tree yields inclusion and consistency proofs
    ([mtc::proof]) and is published as tiles ([mtc::tile]); a proof server plans the tile slots a
    proof needs ([mtc-read]). A checkpoint ([mtc::checkpoint]) signs a subtree of the log
    ([mtc::signing]); a pruning checkpoint ([mtc::pruning_checkpoint]) names a pruned range. A
    relying party ([mtc-verify]) checks an entry against a checkpoint. Writers coordinate through
    a lease item with a fencing epoch ([coordination]) in a replicated key-value store
    ([cloud-types]), of which [cloud-memory] is the in-process backend.

    Clients obtain accounts from the ACME front end ([acme-core]). Submitted entries are queued and
    cut into batches ([ca-service]); a checkpoint is signed on a hardware module with retries and
    framed as an object ([checkpoint-signer], over the [Hsm] trait); objects are written once and
    retained for as long as the policy says ([retention], over the [ObjectStore] and [ObjectLock]
    traits). Time comes from an injected clock ([clock]). The backends behind these traits are chosen by
    configuration ([cloud-backend]) and conform to shared suites ([cloud-test-suite]); the [storage]
    facade will put them behind one trait. Operators watch the service through its admin API ([admin],
    over the generated [admin-api-server]), which [mtcctl] reads with the generated client
    ([admin-api-client]), and through its metrics ([metrics]), scraped from an endpoint or written to a
    log; [dev-replicator] copies objects and items between regions in development.

    ** Files

    - [Prelude.v] (this file): results, the [?] operator, stateful code that can fail, machine
      integers, bytes and fixed-size arrays.
    - [Wire.v], [WireLaws.v] ([mtc/src/wire.rs], [wire/reader.rs], [wire/writer.rs],
      [wire/error.rs]): the reader over a slice with its nesting budget, the writers, the codec
      traits as classes [TlsSerialize] and [TlsParse]; the laws of a codec as the class [TlsLaws],
      and that every combinator keeps them.
    - [Types.v] ([mtc/src/types.rs]): hashes, identifiers, UTF-8.
    - [Tree.v], [TreeFacts.v], [Decomposition.v] ([mtc/src/tree/], [leaf.rs]): the [Hasher] trait as
      a class, the tree and its hashes, the decomposition of a range into aligned blocks.
    - [Proofs.v], [Inclusion.v], [Consistency.v], [InclusionFacts.v], [ConsistencyFacts.v],
      [ProofCodecs.v] ([mtc/src/proof.rs], [proof/]): both proof systems and their codecs.
    - [Tile.v], [TileFacts.v] ([mtc/src/tile/]): geometry, paths, the tile planner, tile files.
    - [LogEntry.v], [LogEntryFacts.v] ([mtc/src/log_entry/]): claims, subjects, entries, leaf hash.
    - [Signing.v] ([mtc/src/signing/]): algorithms, keys, the [SignatureScheme] trait as a class.
    - [Checkpoint.v], [CheckpointFacts.v] ([mtc/src/checkpoint/]), [PruningCheckpoint.v]
      ([mtc/src/pruning_checkpoint.rs]).
    - [Verify.v] ([mtc-verify/src/lib.rs]): the relying party.
    - [ReadPlan.v] ([mtc-read/src/lib.rs]): the read-path planner.
    - [KV.v] ([cloud-types/src/replicated_kv.rs], [errors.rs], [cloud-memory/src/replicated_kv.rs]):
      the store; [KVContract.v]: what its trait promises, and that the backend keeps it.
    - [Lease.v], [LeaseFacts.v] ([coordination/src/]): the lease protocol, alone and interleaved.
    - [Format.v], [BTree.v], [Time.v]: what several components use of the standard library, with its
      laws: numbers in names, ordered maps, instants and durations. [PathFacts.v]: tile paths.
    - [Hsm.v] ([cloud-types/src/hsm.rs], [cloud-memory/src/hsm.rs]): the module's trait
      as a class, the in-memory module.
    - [Signer.v], [SignerFacts.v] ([checkpoint-signer/src/]): retries, framing, signing.
    - [ObjectStore.v], [ObjectStoreFacts.v] ([cloud-types/src/object_store.rs], [object_lock.rs] and
      their [cloud-memory] backends): write-once objects under retention.
    - [Retention.v] ([retention/src/]): durations, policies, configuration.
    - [Clock.v] ([clock/src/fake.rs], [tokio.rs]): the fake clock as racing threads,
      intervals. [ClockSleep.v] ([tokio.rs], [lib.rs]): tasks that sleep on it, the system clock.
    - [Batch.v], [BatchFacts.v] ([ca-service/src/]): the intake queue and the batch builder.
    - [Acme.v], [AcmeFacts.v] ([acme-core/src/]): nonces, signed requests, accounts, routes.
    - [ParseInt.v]: the standard library's number parsers. [Replicator.v], [ReplicatorFacts.v],
      [ReplicatorLink.v] ([dev-replicator/src/]): the lag scheduler, the
      pollers of tables and buckets; links, control requests, the poll cycle, the configuration.
    - [AwsErrors.v] ([cloud-aws/src/error.rs]), [DynamoDb.v] ([ddb_replicated_kv.rs]): the store over
      DynamoDB. [DynamoDbFacts.v], [DynamoDbRefines.v], [DynamoDbContract.v]: the expressions' value,
      the server's laws (class [DynamoDbServer]), the contract of the store's trait.
    - [LeaseDynamoDb.v]: the lease protocol over that backend.
    - [S3.v] ([cloud-aws/src/s3_object_store.rs], [s3_object_lock.rs]): the object store over S3, as
      programs of SDK calls. [S3Server.v]: the service's laws (class [S3Server]); [S3Sample.v]: a bucket
      with them that runs; [S3Facts.v], [S3Worm.v], [S3Contract.v]: the contract, and retention with
      operations interleaved.
    - [SoftHsm.v], [SoftHsmFacts.v] ([cloud-softhsm/src/]): the [Hsm] trait over a PKCS #11 token, the
      laws of tokens (class [Pkcs11Token]), a token that runs.
    - [F64.v]: binary64, and the integers it represents. [Metrics.v] ([metrics/src/names.rs],
      [registry.rs]): the metric table, the registry and its handles. [Emf.v]
      ([metrics/src/emf.rs]): the exporter of CloudWatch events. [MetricsAdmin.v]
      ([metrics/src/admin.rs]): the endpoint that serves the Prometheus text.
    - [Conformance.v], [ConformanceFacts.v] ([conformance/src/]): test vectors, their evaluation and
      discovery. [VectorGenerator.v], [VectorGeneratorFacts.v] ([conformance/examples/generate_vectors.rs]):
      the seed vectors. [Sha256.v]: SHA-256, to run them.
    - [KVTypes.v]: the types of the store's values. [Suite.v]: test programs over the calls of a trait.
      [KvSuite.v], [StoreSuite.v], [HsmSuite.v] ([cloud-test-suite/src/]), [LeaseSuite.v]
      ([coordination/src/suite.rs]) and [KvSuiteFacts.v]: the conformance suites of the backends.
    - [AdminModels.v] ([admin-api-server/src/models.rs], [admin-api-client/src/models/]): the admin API's
      models, their JSON, form encodings and header values. [AdminApi.v] ([admin/src/],
      [admin-api-server/src/server/], [admin-api-client/src/apis/], [mtcctl/src/]): the service, the
      generated server and client, the command-line tool.
    - [Backend.v] ([cloud-backend/src/], [cloud-aws/src/config.rs], [storage/src/]): the choice of backends,
      the SDK clients' settings, the storage facade.

    ** How code is modelled

    Definitions keep the source's names and branches. An integer of width [w] is a [Z] with its
    checked, saturating or wrapping operation written out; a [Vec] or slice is a list, a
    [BTreeMap] a [gmap]; a function returning [Result] returns [result], one that also mutates its
    argument is in the monad [M], whose error case keeps the state it leaves. Loops and recursion
    without a structural measure take fuel, and each has a lemma that the fuel given is enough:
    64 for a recursion that halves a [u64] range (proof generation, path lengths, sibling ranges),
    128 for [decompose_range] (at most two blocks per bit), the number of hashes for the Merkle
    Tree Hash, the length of the body for the element loop of a vector, ten levels for
    [build_tiles]. An [async fn] over the store and a clock is a tree of clock readings and store
    calls ([Lease.Prog]). The retry loop's fuel is its retry budget, so that it never runs out.
    Atomics are threads that interleave at their loads and compare-exchanges ([Clock]); a suspended
    future is a value, resumed by an event of its runtime ([Batch.Suspended]); what holds for every
    sequence of events or calls holds for every interleaving of their callers.

    Code outside the repository is a parameter with its documented behaviour: the [sha2] crate is
    a streaming state whose updates only depend on the bytes fed ([Tree.Sha2]); the [p256] crate is
    [Signing.P256], whose laws say that a signature made with a key verifies under it; [tokio]'s
    channel is [Batch.Mpsc], a bounded queue, and its connection [MetricsAdmin.TcpStream]; [serde_json] and [base64ct] are [Acme.Json] and
    [Acme.Base64], of which nothing is assumed; the random source is its successive outcomes. No
    hash function is assumed collision-free, which none to 32 bytes is: security theorems say
    "or else these two different inputs, both hashed in the computations named, have one digest"
    ([Tree.collision_in]). Witnesses instantiate the parameters with concrete toy functions.

    ** What the theorems show

    - The relying party: an accepted entry is the log's entry at its index under a checkpoint the
      key signed, and every honest proof is accepted ([Verify]).
    - Proofs: the iterative verifiers decide what a recursive reconstruction decides; generation
      succeeds and verifies; an accepted inclusion proof is the generated one; an accepted
      consistency proof shows the old log is a prefix of the new one ([InclusionFacts],
      [ConsistencyFacts]); the root is the RFC 9162 Merkle Tree Hash ([TreeFacts]).
    - Codecs: for each wire format, bytes parse to a value exactly when the value satisfies its
      constructors' conditions and serializes to those bytes, so parsing is injective, total on
      encodings and accepts no second encoding ([WireLaws], [ProofCodecs], [LogEntryFacts],
      [CheckpointFacts], [PruningCheckpoint], [TileFacts]).
    - Signatures bind the payload's fields ([CheckpointFacts]).
    - Tiles: what is written, that the root can be rebuilt from it, which tiles a proof needs, and
      that a proof assembled from them as planned is the prover's ([TileFacts], [ReadPlan],
      [Decomposition]).
    - The store: the in-memory backend keeps what the trait documents, for transactions that name each
      key once (with two operations on one key it keeps only the last one's write), and an error never
      changes anything ([KVContract]).
    - The lease: against that contract, with lost messages, stale reads and arbitrary clocks, the
      epoch only grows, each epoch is granted once and has one holder, and a write conditioned on
      a passed epoch does nothing ([LeaseFacts]).
    - The pipeline: no accepted entry is lost, duplicated or reordered, a shutdown drains them all,
      and submitters are answered with their positions ([BatchFacts]).
    - Signing a checkpoint: every outcome of the retries; what is published is the wire form of what
      the module signed, and verifies; names of objects tell them apart ([SignerFacts], [Hsm],
      [PathFacts]).
    - Objects: the in-memory store keeps the documented contract, a retained object cannot change,
      and the policy's window is enforced ([ObjectStoreFacts], [Retention]).
    - The fake clock is linearizable and never goes back ([Clock]); a task that sleeps on it is not done
      before its deadline and no wake-up is lost ([ClockSleep]).
    - Accounts: nonces are good once, an account goes to its key's holder, requests cannot be
      replayed until their nonce happens to be issued again ([AcmeFacts]).
    - The replicator applies each discovered change at most once, not before its lag
      ([ReplicatorFacts]).
    - The DynamoDB backend keeps the contract of the store, over any server that evaluates the
      expressions it is sent as documented; the calls for which it does ([supported] ones) are the
      keys with a partition, conditions and updates addressing attributes of maps, transactions of
      distinct keys within the limit ([DynamoDbContract]). So the lease
      protocol's epochs are granted once over it too ([LeaseDynamoDb]).
    - The S3 backend keeps what the object store's traits document, over any service with the documented
      behaviour of versions and locks, but for an extension of a window to a later instant already over,
      which it refuses; and what is retained stays readable and unchanged while
      operations interleave, but for one race and one resurrection that its examples run
      ([S3Contract]).
    - On a PKCS #11 token a generated key cannot be extracted, and what is published with it verifies under
      the exported key ([SoftHsmFacts]).
    - The counts a metrics exporter reports add up ([Emf]). The endpoint answers by the request line
      alone, however the request arrives, and every connection ends ([MetricsAdmin]).
    - What the admin service's state says is what its client reads and [mtcctl status] prints, failures
      included ([AdminApi]); which models survive their form encoding ([AdminModels]).
    - The handles the factory builds are of one store, so that what one retains the other keeps
      ([Backend]).
    - The conformance runner decides its vectors' expectations, and the vectors the generator writes
      pass it; run with SHA-256, the generator's are the committed ones ([ConformanceFacts],
      [VectorGeneratorFacts]).
    - The numbers of the in-memory store stay [u64]s through any calls and count exactly: what would
      leave the range is refused ([KVTypes]).
    - A backend that keeps a trait's contract passes that trait's suite, whatever the interleaving
      of its concurrent cases; the in-memory backends and, for the store, the DynamoDB backend do, and
      backends with a dropped guard do not ([KvSuiteFacts], [StoreSuite], [LeaseSuite], [HsmSuite]).

    ** What is not modelled

    Derived traits, and error texts where errors carry what their text says; I/O errors of
    foreign writers; the async runtime beyond interleaving at store calls, watch channels and the
    events a component waits for; a mutex is the atomicity of what it guards. Cancelling a [next_batch] is
    the runtime's. A task on a blocking thread that is not joined has not run ([SoftHsm]). What [proptest]
    draws is a parameter of the suites; the S3 and PKCS #11 backends are not put through theirs (their
    contracts are [S3Contract]'s and [SoftHsmFacts]'s).

    Of the source files there remain: the SDK's clients and its transport, which only their settings
    and calls stand for; the binaries that wire the parts; accessors that return a field, which are
    the records' projections; the generated API's generic support that nothing uses ([Nullable],
    [ByteArray], generic header conversions); unit tests, examples, benches and fixtures ([mtc-testutil],
    [admin-api-tests]), which exercise what is modelled here. The storage facade's methods have no
    bodies yet. *)

From Stdlib Require Export ZArith Lia.
From Stdlib Require Import Eqdep_dec.
From Stdlib Require Export Strings.Byte.
From stdpp Require Export base tactics numbers list strings sets.

(** ** Results: the [Result] type and the [?] operator of the source *)

Inductive result (A E : Type) : Type :=
| Ok (a : A)
| Err (e : E).
Arguments Ok {A E} a.
Arguments Err {A E} e.

Lemma Ok_inj {A E} (x y : A) : Ok (E := E) x = Ok y -> x = y.
Proof. congruence. Qed.

Declare Scope mtc_scope.
Delimit Scope mtc_scope with mtc.

(** [let? x := e in k] is the source's [let x = e?; k]. *)
Notation "'let?' x ':=' e 'in' k" :=
  (match e with Ok x => k | Err err => Err err end)
  (at level 10, x name, e at level 100, k at level 200) : mtc_scope.

(** [Result::map_err]. *)
Definition map_err {A E F} (f : E -> F) (r : result A E) : result A F :=
  match r with Ok a => Ok a | Err e => Err (f e) end.

(** [Option::ok_or]. *)
Definition ok_or {A E} (o : option A) (e : E) : result A E :=
  match o with Some a => Ok a | None => Err e end.

(** [Result::ok]. *)
Definition ok {A E} (r : result A E) : option A :=
  match r with Ok a => Some a | Err _ => None end.

(** [Result::unwrap_or]. *)
Definition unwrap_or {A E} (d : A) (r : result A E) : A :=
  match r with Ok a => a | Err _ => d end.

(** ** Stateful code that can fail

    A function taking [&mut S] and returning [Result<A, E>]: the state it leaves behind is
    part of the outcome on the error path too. *)

Definition M (S E A : Type) : Type := S -> result A E * S.

Definition ret {S E A} (a : A) : M S E A := fun s => (Ok a, s).
Definition throw {S E A} (e : E) : M S E A := fun s => (Err e, s).
Definition bind {S E A B} (m : M S E A) (k : A -> M S E B) : M S E B :=
  fun s => match m s with
           | (Ok a, s') => k a s'
           | (Err e, s') => (Err e, s')
           end.
Definition read_state {S E} : M S E S := fun s => (Ok s, s).
Definition lift {S E A} (r : result A E) : M S E A := fun s => (r, s).

(** [?] converting the error with [From]. *)
Definition map_error {S E F A} (f : E -> F) (m : M S E A) : M S F A :=
  fun s => let '(r, s') := m s in
           (match r with Ok a => Ok a | Err e => Err (f e) end, s').

(** [let! x := m in k] is [let x = m?; k] for such code. *)
Notation "'let!' x ':=' e 'in' k" := (bind e (fun x => k))
  (at level 10, x name, e at level 100, k at level 200) : mtc_scope.
Notation "'do!' e ';' k" := (bind e (fun _ => k))
  (at level 10, e at level 100, k at level 200) : mtc_scope.

Lemma bind_Ok_inv {S E A B} (m : M S E A) (k : A -> M S E B) s b s'' :
  bind m k s = (Ok b, s'') -> exists a s', m s = (Ok a, s') /\ k a s' = (Ok b, s'').
Proof. unfold bind. destruct (m s) as [[a|e] s'] eqn:Em; [eauto|discriminate]. Qed.

(** ** Machine integers

    A [u8], [u16], [u32], [u64] or [usize] is a [Z]; [in_uint w] is its range. *)

Definition in_uint (w : Z) (z : Z) : Prop := (0 <= z < 2 ^ w)%Z.
Abbreviation in_u8 := (in_uint 8).
Abbreviation in_u16 := (in_uint 16).
Abbreviation in_u24 := (in_uint 24).
Abbreviation in_u32 := (in_uint 32).
Abbreviation in_u64 := (in_uint 64).

Definition u64_max : Z := 2 ^ 64 - 1.
Definition usize_max : Z := 2 ^ 64 - 1.

(** [checked_add] / [checked_mul] at width [w]. *)
Definition checked_add (w a b : Z) : option Z :=
  if (a + b <? 2 ^ w)%Z then Some (a + b)%Z else None.
Definition checked_mul (w a b : Z) : option Z :=
  if (a * b <? 2 ^ w)%Z then Some (a * b)%Z else None.
Definition saturating_add (w a b : Z) : Z := Z.min (a + b) (2 ^ w - 1).
Definition saturating_sub (a b : Z) : Z := Z.max (a - b) 0.

(** [T::try_from] between integer types: [Some] exactly when the value fits width [w]. *)
Definition try_from_uint (w z : Z) : option Z :=
  if ((0 <=? z) && (z <? 2 ^ w))%Z then Some z else None.

(** [ilog2] and [trailing_zeros] (of a non-zero value). *)
Definition ilog2 (z : Z) : Z := Z.log2 z.

Fixpoint pos_trailing_zeros (p : positive) : Z :=
  match p with
  | xO p' => Z.succ (pos_trailing_zeros p')
  | _ => 0
  end.

(** [u64::trailing_zeros]: the width for [0]. *)
Definition trailing_zeros (z : Z) : Z :=
  match z with
  | Z.pos p => pos_trailing_zeros p
  | _ => 64
  end.

(** The length of a [Vec] or slice as a [usize]. *)
Definition len {A} (l : list A) : Z := Z.of_nat (length l).

(** [slice.get(a..b)]: [None] when the range is inverted or ends past the slice. *)
Definition slice_get {A} (l : list A) (a b : Z) : option (list A) :=
  if ((a <=? b) && (b <=? len l))%Z
  then Some (take (Z.to_nat (b - a)) (drop (Z.to_nat a) l))
  else None.

(** ** Bytes *)

Definition byte_val (b : byte) : Z := Z.of_N (Byte.to_N b).

(** [z as u8]. *)
Definition byte_of_Z (z : Z) : byte :=
  match Byte.of_N (Z.to_N (z mod 256)) with Some b => b | None => x00 end.

(** [to_be_bytes] of an integer that is [n] bytes wide. *)
Fixpoint to_be_bytes (n : nat) (z : Z) : list byte :=
  match n with
  | O => []
  | S n' => to_be_bytes n' (z / 256) ++ [byte_of_Z z]
  end.

(** [from_be_bytes]. *)
Definition from_be_bytes (bs : list byte) : Z :=
  fold_left (fun acc b => acc * 256 + byte_val b)%Z bs 0%Z.

#[export] Instance byte_eq_dec : EqDecision byte := Byte.byte_eq_dec.

(** ** Fixed-size byte arrays [[u8; N]] *)

Record array (n : nat) : Type := Array {
  arr_list : list byte;
  arr_len : Nat.eqb (length arr_list) n = true
}.
Arguments Array {n} arr_list arr_len.
Arguments arr_list {n} a.
Arguments arr_len {n} a.

(** [<[u8; N]>::try_from(slice)]. *)
Definition array_of (n : nat) (l : list byte) : option (array n) :=
  match Nat.eqb (length l) n as b return Nat.eqb (length l) n = b -> option (array n) with
  | true => fun H => Some (Array l H)
  | false => fun _ => None
  end eq_refl.

Lemma repeat_len_eqb (n : nat) : Nat.eqb (length (repeat x00 n)) n = true.
Proof. rewrite repeat_length. apply Nat.eqb_refl. Qed.

(** [[0u8; N]]. *)
Definition zero_array (n : nat) : array n := Array (repeat x00 n) (repeat_len_eqb n).

(** ** Lemmas on bytes and arrays *)

Lemma byte_val_range b : (0 <= byte_val b < 256)%Z.
Proof. unfold byte_val. pose proof (Byte.to_N_bounded b). lia. Qed.

Lemma byte_of_val b : byte_of_Z (byte_val b) = b.
Proof.
  unfold byte_of_Z. rewrite Z.mod_small by apply byte_val_range.
  unfold byte_val. rewrite N2Z.id, Byte.of_to_N. reflexivity.
Qed.

Lemma byte_val_of_Z z : byte_val (byte_of_Z z) = (z mod 256)%Z.
Proof.
  pose proof (Z.mod_pos_bound z 256 ltac:(lia)) as Hb.
  unfold byte_of_Z. destruct (Byte.of_N _) as [b|] eqn:E.
  - apply Byte.to_of_N in E. unfold byte_val. rewrite E. lia.
  - apply Byte.of_N_None_iff in E. lia.
Qed.

Lemma byte_val_inj b b' : byte_val b = byte_val b' -> b = b'.
Proof. intros H. rewrite <- (byte_of_val b), H. apply byte_of_val. Qed.

Lemma length_to_be_bytes n z : length (to_be_bytes n z) = n.
Proof. revert z. induction n; intros z; simpl; [done|]. rewrite length_app, IHn. simpl. lia. Qed.

Lemma from_be_bytes_snoc bs b : from_be_bytes (bs ++ [b]) = (from_be_bytes bs * 256 + byte_val b)%Z.
Proof. unfold from_be_bytes. rewrite fold_left_app. reflexivity. Qed.

Lemma from_be_bytes_bound bs : (0 <= from_be_bytes bs < 256 ^ len bs)%Z.
Proof.
  induction bs as [|b bs IH] using rev_ind; [done|].
  rewrite from_be_bytes_snoc. unfold len in *. rewrite length_app. simpl.
  rewrite Nat2Z.inj_add, Z.pow_add_r by lia. pose proof (byte_val_range b). simpl. lia.
Qed.

Lemma from_to_be_bytes n z : (0 <= z < 256 ^ Z.of_nat n)%Z -> from_be_bytes (to_be_bytes n z) = z.
Proof.
  revert z. induction n as [|n IH]; intros z Hz.
  - change (256 ^ Z.of_nat 0)%Z with 1%Z in Hz. simpl. unfold from_be_bytes. simpl. lia.
  - cbn [to_be_bytes]. rewrite from_be_bytes_snoc, byte_val_of_Z, IH.
    + pose proof (Z.div_mod z 256). lia.
    + rewrite Nat2Z.inj_succ, Z.pow_succ_r in Hz by lia.
      split; [apply Z.div_pos; lia|]. apply Z.div_lt_upper_bound; lia.
Qed.

Lemma to_from_be_bytes bs : to_be_bytes (length bs) (from_be_bytes bs) = bs.
Proof.
  induction bs as [|b bs IH] using rev_ind; [done|].
  rewrite from_be_bytes_snoc, length_app, Nat.add_comm. cbn [length Nat.add to_be_bytes].
  pose proof (byte_val_range b) as Hb.
  replace ((from_be_bytes bs * 256 + byte_val b) / 256)%Z with (from_be_bytes bs)
    by (apply Z.div_unique with (byte_val b); lia).
  rewrite IH. do 2 f_equal.
  apply byte_val_inj. rewrite byte_val_of_Z.
  symmetry. apply Z.mod_unique with (from_be_bytes bs); lia.
Qed.

Lemma to_be_bytes_inj n z z' :
  (0 <= z < 256 ^ Z.of_nat n)%Z -> (0 <= z' < 256 ^ Z.of_nat n)%Z ->
  to_be_bytes n z = to_be_bytes n z' -> z = z'.
Proof. intros Hz Hz' H. rewrite <- (from_to_be_bytes n z), H by done. by apply from_to_be_bytes. Qed.

Lemma array_length {n} (a : array n) : length (arr_list a) = n.
Proof. apply Nat.eqb_eq, arr_len. Qed.

Lemma array_eq {n} (a b : array n) : arr_list a = arr_list b -> a = b.
Proof.
  destruct a as [l Hl], b as [m Hm]. simpl. intros ->. f_equal.
  apply (UIP_dec Bool.bool_dec).
Qed.

#[export] Instance array_eq_dec n : EqDecision (array n).
Proof.
  intros a b. destruct (decide (arr_list a = arr_list b)) as [H|H].
  - left. by apply array_eq.
  - right. by intros ->.
Defined.

Lemma array_of_Some n l (a : array n) : array_of n l = Some a -> arr_list a = l.
Proof.
  unfold array_of.
  generalize (eq_refl (Nat.eqb (length l) n)).
  generalize (Nat.eqb (length l) n) at 2 3. intros [] H ?; by simplify_eq.
Qed.

Lemma array_of_length n l : length l = n -> exists a, array_of n l = Some a /\ arr_list a = l.
Proof.
  intros Hl. destruct (array_of n l) as [a|] eqn:E.
  - exists a. eauto using array_of_Some.
  - exfalso. revert E. unfold array_of.
    generalize (eq_refl (Nat.eqb (length l) n)).
    generalize (Nat.eqb (length l) n) at 2 3. intros [] H ?; [done|].
    apply Nat.eqb_neq in H. done.
Qed.

Lemma array_of_list {n} (a : array n) : array_of n (arr_list a) = Some a.
Proof.
  destruct (array_of_length n (arr_list a) (array_length a)) as (b & -> & Hb).
  f_equal. by apply array_eq.
Qed.

(** ** Lengths *)

Lemma len_app {A} (l l' : list A) : len (l ++ l') = (len l + len l')%Z.
Proof. unfold len. rewrite length_app. lia. Qed.

Lemma len_cons {A} (x : A) l : len (x :: l) = (1 + len l)%Z.
Proof. unfold len. simpl. lia. Qed.

Lemma len_nonneg {A} (l : list A) : (0 <= len l)%Z.
Proof. unfold len. lia. Qed.

(** ** Big-endian integers as arrays *)

Lemma be_array_len n z : Nat.eqb (length (to_be_bytes n z)) n = true.
Proof. rewrite length_to_be_bytes. apply Nat.eqb_refl. Qed.

Definition be_array (n : nat) (z : Z) : array n := Array (to_be_bytes n z) (be_array_len n z).

Lemma be_array_from {n} (a : array n) : a = be_array n (from_be_bytes (arr_list a)).
Proof.
  apply array_eq. simpl. pose proof (to_from_be_bytes (arr_list a)) as E.
  by rewrite array_length in E.
Qed.

Lemma from_be_array_range {n} (a : array n) :
  (0 <= from_be_bytes (arr_list a) < 256 ^ Z.of_nat n)%Z.
Proof.
  pose proof (from_be_bytes_bound (arr_list a)) as E. unfold len in E. by rewrite array_length in E.
Qed.
