(* ===== verification/Format.v ===== *)
(** * Numbers in names: decimal, zero-padded decimal and hexadecimal

    The [format!] directives the program builds names with ([{}], [{:03}], [{:016}], [{:016x}]),
    and that they tell numbers apart. *)

From Stdlib Require Import Ascii.
From stdpp Require Import pretty.
From S2P Require Import Prelude.

Local Open Scope Z_scope.

(** [format!("{n}")]. *)
Definition decimal (n : Z) : string := pretty (Z.to_N n).

Fixpoint zeros (k : nat) : string :=
  match k with O => "" | S k' => String "0"%char (zeros k') end.

(** [format!("{s:0w}")] of the digits [s]. *)
Definition zero_pad (w : nat) (s : string) : string := (zeros (w - String.length s) +:+ s)%string.

(** [format!("{n:016x}")]: the two digits of each byte of a [u64]. *)
Definition hex_digit (d : Z) : ascii :=
  match String.get (Z.to_nat d) "0123456789abcdef" with Some c => c | None => "0"%char end.
Fixpoint hex_bytes (bs : list byte) : string :=
  match bs with
  | [] => ""
  | b :: bs' => String (hex_digit (byte_val b / 16)) (String (hex_digit (byte_val b mod 16)) (hex_bytes bs'))
  end.
Definition hex016 (n : Z) : string := hex_bytes (to_be_bytes 8 n).

(** ** Strings *)

Lemma app_inv_head_str (s a b : string) : (s +:+ a)%string = (s +:+ b)%string -> a = b.
Proof. induction s as [|c s IH]; [done|]. intros [= ?]. by apply IH. Qed.

Lemma length_str_app (a b : string) : String.length (a +:+ b) = (String.length a + String.length b)%nat.
Proof. induction a as [|c a IH]; [done|]. simpl. by f_equal. Qed.

Lemma str_app_assoc (a b c : string) : ((a +:+ b) +:+ c)%string = (a +:+ (b +:+ c))%string.
Proof. induction a as [|x a IH]; [done|]. exact (f_equal (String x) IH). Qed.

Lemma str_app_nil (a : string) : (a +:+ "")%string = a.
Proof. induction a as [|x a IH]; [done|]. exact (f_equal (String x) IH). Qed.

Lemma app_inj_str (a b c d : string) :
  String.length a = String.length c -> (a +:+ b)%string = (c +:+ d)%string -> a = c /\ b = d.
Proof.
  revert c. induction a as [|x a IH]; intros [|y c] Hl E; try done.
  injection E as -> E. simpl in Hl. destruct (IH c ltac:(lia) E) as [-> ->]. done.
Qed.

(** A character that does not occur in a string. *)
Fixpoint avoids (c : ascii) (s : string) : Prop :=
  match s with
  | EmptyString => True
  | String d s' => d <> c /\ avoids c s'
  end.

Lemma avoids_app c a b : avoids c (a +:+ b)%string <-> avoids c a /\ avoids c b.
Proof. induction a as [|x a IH]; simpl; tauto. Qed.

(** The first occurrence of a separator splits a string in one way. *)
Lemma split_at_str c a b r s :
  avoids c a -> avoids c b -> (a +:+ String c r)%string = (b +:+ String c s)%string -> a = b /\ r = s.
Proof.
  revert b. induction a as [|x a IH]; intros [|y b] Ha Hb E.
  - by injection E.
  - injection E as -> _. by destruct Hb.
  - injection E as -> _. by destruct Ha.
  - injection E as -> E. destruct Ha as [_ Ha], Hb as [_ Hb].
    by destruct (IH b Ha Hb E) as [-> ->].
Qed.

(** ** Decimal digits *)

Definition is_digit (c : ascii) : bool :=
  let n := Ascii.N_of_ascii c in ((48 <=? n)%N && (n <=? 57)%N)%bool.

Fixpoint all_digits (s : string) : Prop :=
  match s with
  | EmptyString => True
  | String c s' => is_digit c = true /\ all_digits s'
  end.

Lemma all_digits_app a b : all_digits (a +:+ b)%string <-> all_digits a /\ all_digits b.
Proof. induction a as [|x a IH]; simpl; tauto. Qed.

Lemma all_digits_avoid c s : is_digit c = false -> all_digits s -> avoids c s.
Proof.
  intros Hc. induction s as [|d s IH]; [done|]. intros [Hd Hs]. split; [|by apply IH].
  intros ->. congruence.
Qed.

Lemma all_digits_zeros k : all_digits (zeros k).
Proof. induction k; by simpl. Qed.

Lemma pretty_N_char_digit x : is_digit (pretty_N_char x) = true.
Proof. unfold pretty_N_char. by repeat case_match. Qed.

Lemma all_digits_go x s : all_digits s -> all_digits (pretty_N_go x s).
Proof.
  revert s. induction (N.lt_wf_0 x) as [x _ IH]. intros s Hs.
  destruct (decide (x = 0)%N) as [->|Hx]; [by rewrite pretty_N_go_0|].
  rewrite pretty_N_go_step by lia. apply IH; [apply N.div_lt; lia|].
  split; [apply pretty_N_char_digit|done].
Qed.

Lemma all_digits_decimal n : all_digits (decimal n).
Proof.
  unfold decimal, pretty, pretty_N. case_decide; [done|]. by apply all_digits_go.
Qed.

Lemma decimal_inj n m : 0 <= n -> 0 <= m -> decimal n = decimal m -> n = m.
Proof. unfold decimal. intros Hn Hm E. apply (inj pretty) in E. lia. Qed.

(** ** Padding *)

(** The number that a string of digits stands for: padding does not change it. *)
Fixpoint digits_value (acc : Z) (s : string) : Z :=
  match s with
  | EmptyString => acc
  | String c s' => digits_value (acc * 10 + (Z.of_N (Ascii.N_of_ascii c) - 48)) s'
  end.

Lemma digits_value_app acc a b : digits_value acc (a +:+ b)%string = digits_value (digits_value acc a) b.
Proof. revert acc. induction a as [|c a IH]; intros acc; [done|]. apply IH. Qed.

Lemma digits_value_zeros k : digits_value 0 (zeros k) = 0.
Proof. induction k as [|k IH]; [done|]. exact IH. Qed.

Lemma pretty_N_char_value x : (x < 10)%N -> Z.of_N (Ascii.N_of_ascii (pretty_N_char x)) - 48 = Z.of_N x.
Proof.
  intros Hx. destruct x as [|p]; [done|].
  do 4 (destruct p as [p|p|]; try lia; try done).
Qed.

Lemma digits_value_go x s acc :
  exists k, 0 <= k /\ digits_value acc (pretty_N_go x s) = digits_value (acc * 10 ^ k + Z.of_N x) s.
Proof.
  revert s. induction (N.lt_wf_0 x) as [x _ IH]. intros s.
  destruct (decide (x = 0)%N) as [->|Hx].
  { exists 0. split; [done|]. rewrite pretty_N_go_0. f_equal. change (10 ^ 0) with 1. lia. }
  rewrite pretty_N_go_step by lia.
  destruct (IH (x `div` 10)%N ltac:(apply N.div_lt; lia) (String (pretty_N_char (x `mod` 10)) s))
    as (k & Hk & ->).
  exists (k + 1). split; [lia|]. cbn [digits_value].
  rewrite pretty_N_char_value by (apply N.mod_lt; lia). f_equal.
  rewrite Z.pow_add_r, N2Z.inj_div, N2Z.inj_mod by lia. change (10 ^ 1) with 10.
  pose proof (Z.div_mod (Z.of_N x) 10). change (Z.of_N 10) with 10. lia.
Qed.

Lemma digits_value_decimal n : 0 <= n -> digits_value 0 (decimal n) = n.
Proof.
  intros Hn. unfold decimal, pretty, pretty_N. case_decide as H0; [simpl; lia|].
  destruct (digits_value_go (Z.to_N n) "" 0) as (k & _ & ->). simpl. lia.
Qed.

Lemma digits_value_pad w n : 0 <= n -> digits_value 0 (zero_pad w (decimal n)) = n.
Proof.
  intros Hn. unfold zero_pad. rewrite digits_value_app, digits_value_zeros.
  by apply digits_value_decimal.
Qed.

Lemma zero_pad_inj w n m :
  0 <= n -> 0 <= m -> zero_pad w (decimal n) = zero_pad w (decimal m) -> n = m.
Proof. intros Hn Hm E. rewrite <- (digits_value_pad w n), E by done. by apply digits_value_pad. Qed.

Lemma all_digits_pad w n : all_digits (zero_pad w (decimal n)).
Proof. apply all_digits_app. split; [apply all_digits_zeros|apply all_digits_decimal]. Qed.

Lemma length_zeros k : String.length (zeros k) = k.
Proof. induction k; simpl; congruence. Qed.

Lemma length_zero_pad w s : (String.length s <= w)%nat -> String.length (zero_pad w s) = w.
Proof. intros H. unfold zero_pad. rewrite length_str_app, length_zeros. lia. Qed.

Lemma length_go k : forall x s,
  Z.of_N x < 10 ^ Z.of_nat k -> (String.length (pretty_N_go x s) <= k + String.length s)%nat.
Proof.
  induction k as [|k IH]; intros x s Hx.
  - change (10 ^ Z.of_nat 0) with 1 in Hx. assert (x = 0%N) as -> by lia. by rewrite pretty_N_go_0.
  - destruct (decide (x = 0)%N) as [->|Hne]; [rewrite pretty_N_go_0; lia|].
    rewrite pretty_N_go_step by lia. etrans; [apply IH|simpl; lia].
    rewrite N2Z.inj_div. apply Z.div_lt_upper_bound; [lia|].
    rewrite Nat2Z.inj_succ, Z.pow_succ_r in Hx by lia. lia.
Qed.

Lemma length_decimal k n :
  (0 < k)%nat -> 0 <= n < 10 ^ Z.of_nat k -> (String.length (decimal n) <= k)%nat.
Proof.
  intros Hk Hn. unfold decimal, pretty, pretty_N. case_decide; [simpl; lia|].
  etrans; [apply (length_go k); lia|simpl; lia].
Qed.

(** ** Hexadecimal *)

Lemma hex_digit_value d : 0 <= d < 16 ->
  let n := Z.of_N (Ascii.N_of_ascii (hex_digit d)) in d = if n <? 58 then n - 48 else n - 87.
Proof.
  intros Hd. assert (d = 0 \/ d = 1 \/ d = 2 \/ d = 3 \/ d = 4 \/ d = 5 \/ d = 6 \/ d = 7 \/ d = 8 \/
    d = 9 \/ d = 10 \/ d = 11 \/ d = 12 \/ d = 13 \/ d = 14 \/ d = 15) as H by lia.
  by repeat destruct H as [->|H]; [..|subst].
Qed.

Lemma hex_digit_inj d e : 0 <= d < 16 -> 0 <= e < 16 -> hex_digit d = hex_digit e -> d = e.
Proof. intros Hd He E. rewrite (hex_digit_value d Hd), (hex_digit_value e He), E. done. Qed.

Lemma hex_bytes_inj bs : forall bs', hex_bytes bs = hex_bytes bs' -> bs = bs'.
Proof.
  induction bs as [|b bs IH]; intros [|b' bs'] E; try done.
  assert (forall x y s t, String x s = String y t -> x = y /\ s = t) as Hinj by (intros; split; congruence).
  cbn [hex_bytes] in E. apply Hinj in E as [E1 E]. apply Hinj in E as [E2 E].
  pose proof (byte_val_range b). pose proof (byte_val_range b').
  apply hex_digit_inj in E1; [|Z.to_euclidean_division_equations; lia..].
  apply hex_digit_inj in E2; [|Z.to_euclidean_division_equations; lia..].
  f_equal; [|by apply IH]. apply byte_val_inj.
  rewrite (Z.div_mod (byte_val b) 16), (Z.div_mod (byte_val b') 16) by done. congruence.
Qed.

(** [write!(out, "{byte:02x}")] for each byte in turn. *)
Lemma fold_hex_bytes_from acc bs :
  foldl (fun out b => out +:+ hex_bytes [b])%string acc bs = (acc +:+ hex_bytes bs)%string.
Proof.
  revert acc. induction bs as [|b bs IH]; intros acc; [by rewrite str_app_nil|].
  cbn [foldl]. by rewrite IH, str_app_assoc.
Qed.

Lemma fold_hex_bytes bs : foldl (fun out b => out +:+ hex_bytes [b])%string ""%string bs = hex_bytes bs.
Proof. apply fold_hex_bytes_from. Qed.

Lemma length_hex_bytes bs : String.length (hex_bytes bs) = (2 * length bs)%nat.
Proof. induction bs as [|b bs IH]; [done|]. cbn [hex_bytes String.length length]. lia. Qed.

Lemma hex016_inj n m : in_u64 n -> in_u64 m -> hex016 n = hex016 m -> n = m.
Proof. intros Hn Hm E. apply hex_bytes_inj in E. by apply to_be_bytes_inj in E. Qed.
