(* ===== verification/BTree.v ===== *)
(** * Ordered maps

    A [BTreeMap<String, A>] is a finite map; iterating over one goes through its entries in the order
    of their keys. *)

From stdpp Require Import gmap sorting.
From S2P Require Import Prelude.

(** A sorted list whose keys are distinct is strictly sorted. *)
Lemma sorted_strictly {B K} (key : B -> K) (R : B -> B -> Prop) l :
  NoDup (key <$> l) -> StronglySorted R l -> StronglySorted (fun a b => R a b /\ key a <> key b) l.
Proof.
  induction l as [|x l IH]; csimpl; [constructor|].
  intros [Hk Hnd]%NoDup_cons [Hs Hl]%StronglySorted_inv. constructor; [by apply IH|].
  rewrite !Forall_forall in *. intros y Hin. split; [by apply Hl|].
  intros E. apply Hk. rewrite E. by apply list_elem_of_fmap_2.
Qed.

Section BTree.
Context {A : Type}.
Implicit Types (m : gmap string A) (kv : string * A).

(** The order of the keys. *)
Definition entry_le (a b : string * A) : Prop := String.le a.1 b.1.
#[export] Instance entry_le_dec a b : Decision (entry_le a b) := _.

(** [map.iter()]. *)
Definition btree_iter m : list (string * A) := merge_sort entry_le (map_to_list m).

(** [map.iter().filter(|(key, _)| key.starts_with(prefix))]. *)
Definition btree_with_prefix (prefix : string) m : list (string * A) :=
  filter (fun kv => is_true (String.prefix prefix kv.1)) (btree_iter m).

(** Its strict part. *)
Definition entry_lt (a b : string * A) : Prop := String.le a.1 b.1 /\ a.1 <> b.1.

#[export] Instance entry_le_total : Total entry_le.
Proof. intros a b. unfold entry_le. apply (total String.le). Qed.
#[export] Instance entry_le_trans : Transitive entry_le.
Proof. intros a b c. unfold entry_le. by etrans. Qed.

Lemma sorted_entries (l : list (string * A)) :
  NoDup l.*1 -> StronglySorted entry_le l -> StronglySorted entry_lt l.
Proof. apply sorted_strictly. Qed.

Lemma StronglySorted_filter {B} (R : B -> B -> Prop) (P : B -> Prop) `{forall x, Decision (P x)} l :
  StronglySorted R l -> StronglySorted R (filter P l).
Proof.
  induction l as [|x l IH]; [done|]. intros [Hs Hl]%StronglySorted_inv. rewrite filter_cons.
  case_decide; [|by apply IH]. constructor; [by apply IH|].
  rewrite !Forall_forall in *. intros y [_ Hy]%list_elem_of_filter. by apply Hl.
Qed.

Lemma StronglySorted_fmap {B C} (R : B -> B -> Prop) (R' : C -> C -> Prop) (f : B -> C) l :
  (forall x y, R x y -> R' (f x) (f y)) -> StronglySorted R l -> StronglySorted R' (f <$> l).
Proof.
  intros Hf. induction 1 as [|x l Hs IH Hl]; csimpl; [constructor|]. constructor; [done|].
  rewrite Forall_fmap. eapply Forall_impl; [done|]. intros y. apply Hf.
Qed.

(** The entries under a prefix: each once, in the order of the keys. *)
Lemma btree_with_prefix_sorted prefix m : StronglySorted entry_lt (btree_with_prefix prefix m).
Proof.
  apply sorted_entries.
  - eapply sublist_NoDup; [|apply fmap_sublist, sublist_filter].
    unfold btree_iter. rewrite merge_sort_Permutation. apply NoDup_fst_map_to_list.
  - apply StronglySorted_filter, (StronglySorted_merge_sort _).
Qed.

Lemma elem_of_btree_with_prefix prefix m k v :
  (k, v) ∈ btree_with_prefix prefix m <-> m !! k = Some v /\ String.prefix prefix k = true.
Proof.
  unfold btree_with_prefix, btree_iter. rewrite list_elem_of_filter, merge_sort_Permutation.
  rewrite elem_of_map_to_list. cbn. tauto.
Qed.
End BTree.
