(* ===== verification/Time.v ===== *)
(** * Time

    A [SystemTime] is its nanoseconds since [UNIX_EPOCH]; the platform holds the seconds in an
    [i64]. A [Duration] is its nanoseconds. *)

From S2P Require Import Prelude.

Local Open Scope Z_scope.

Definition nanos_per_milli : Z := 10 ^ 6.
Definition nanos_per_sec : Z := 10 ^ 9.

(** [SystemTime::checked_add], of a non-negative duration. *)
Definition system_time_checked_add (t d : Z) : option Z :=
  if t + d <? 2 ^ 63 * nanos_per_sec then Some (t + d) else None.

(** [Duration::as_millis]. *)
Definition as_millis (d : Z) : Z := d / nanos_per_milli.
