(* ===== verification/Wire.v ===== *)
(** * The TLS-presentation codec framework: [crates/mtc/src/wire.rs] and [wire/]

    The bounded reader [TlsReader], the writers, the two codec traits as type classes, and the
    laws a codec of this crate obeys ([TlsLaws]): serialization only appends to its sink, a
    serialized value parses back to itself, and only the canonical encoding of a value parses
    to it. Parsers and writers run in the state-and-error monad of [Prelude], so the cursor an
    error leaves behind is part of the model. *)

From S2P Require Import Prelude.

Local Open Scope Z_scope.
Local Open Scope mtc_scope.

(** ** [WireError] ([wire/error.rs]) *)

Inductive WireError : Type :=
| UnexpectedEof (offset needed remaining : Z)
| LengthOverflow (offset claimed remaining : Z)
| TrailingBytes (offset remaining : Z)
| DepthLimitExceeded (offset limit : Z)
| ZeroWidthElement (offset : Z)
| InvalidValue (offset : Z) (reason : string).

(** ** [TlsReader] ([wire/reader.rs]) *)

Record TlsReader : Type := MkTlsReader {
  buf : list byte;
  pos : Z;
  base_offset : Z;
  depth : Z;
  max_depth : Z
}.

Definition Reader (A : Type) : Type := M TlsReader WireError A.

Definition DEFAULT_MAX_DEPTH : Z := 32.

(** [TlsReader::with_max_depth] and [TlsReader::new]. *)
Definition TlsReader_with_max_depth (b : list byte) (limit : Z) : TlsReader :=
  {| buf := b; pos := 0; base_offset := 0; depth := 0; max_depth := limit |}.

Definition TlsReader_new (b : list byte) : TlsReader :=
  {| buf := b; pos := 0; base_offset := 0; depth := 0; max_depth := DEFAULT_MAX_DEPTH |}.

Definition position (r : TlsReader) : Z := pos r.
Definition remaining (r : TlsReader) : Z := len (buf r) - pos r.
Definition is_empty (r : TlsReader) : bool := remaining r =? 0.
Definition offset (r : TlsReader) : Z := base_offset r + pos r.

(** [reader.position()] as a step, for the offset of an error. *)
Definition get_position {E} : M TlsReader E Z := fun r => (Ok (position r), r).

Definition set_pos (r : TlsReader) (p : Z) : TlsReader :=
  {| buf := buf r; pos := p; base_offset := base_offset r;
     depth := depth r; max_depth := max_depth r |}.

Definition read_bytes (n : Z) : Reader (list byte) := fun r =>
  let start := pos r in
  let fits := match checked_add 64 start n with
              | Some end_ => end_ <=? len (buf r)
              | None => false
              end in
  if negb fits then (Err (UnexpectedEof (offset r) n (remaining r)), r)
  else
    let end_ := start + n in
    match slice_get (buf r) start end_ with
    | Some slice => (Ok slice, set_pos r end_)
    | None => (Err (UnexpectedEof (offset r) n (remaining r)), r)
    end.

(** [read_array::<N>]: the bytes are copied into a zeroed array, of the slice's length. *)
Definition read_array (n : nat) : Reader (array n) :=
  let! slice := read_bytes (Z.of_nat n) in
  ret (default (zero_array n) (array_of n slice)).

Definition read_u8 : Reader Z :=
  let! a := read_array 1 in ret (from_be_bytes (arr_list a)).
Definition read_u16 : Reader Z :=
  let! a := read_array 2 in ret (from_be_bytes (arr_list a)).

(** ** [U24] ([wire.rs]) *)

Definition U24_MAX : Z := 16777215.
Definition U24_new (value : Z) : option Z :=
  if value <=? U24_MAX then Some value else None.
Definition from_low_24 (value : Z) : Z := Z.land value 16777215.
Definition U24_try_from_usize (n : Z) : option Z :=
  match try_from_uint 32 n with Some v => U24_new v | None => None end.

Definition read_u24 : Reader Z :=
  let! a := read_array 3 in
  match arr_list a with
  | [b0; b1; b2] =>
      let value := Z.lor (Z.lor (Z.shiftl (byte_val b0) 16) (Z.shiftl (byte_val b1) 8))
                         (byte_val b2) in
      ret (from_low_24 value)
  | _ => ret 0
  end.
Definition read_u32 : Reader Z :=
  let! a := read_array 4 in ret (from_be_bytes (arr_list a)).

(** [take_body]: the claimed length is checked before any slice is formed. *)
Definition take_body (n : Z) : Reader (list byte) := fun r =>
  if remaining r <? n then (Err (LengthOverflow (offset r) n (remaining r)), r)
  else read_bytes n r.

Definition read_opaque_u8 : Reader (list byte) := let! n := read_u8 in take_body n.
Definition read_opaque_u16 : Reader (list byte) := let! n := read_u16 in take_body n.
Definition read_opaque_u24 : Reader (list byte) :=
  let! n := read_u24 in take_body (default usize_max (try_from_uint 64 n)).

(** [read_scoped]: [body] runs on a sub-reader bounded to the next [n] bytes. *)
Definition read_scoped {T} (n : Z) (body : Reader T) : Reader T := fun r =>
  if max_depth r <=? depth r
  then (Err (DepthLimitExceeded (offset r) (max_depth r)), r)
  else
    let body_abs := offset r in
    match take_body n r with
    | (Err e, r') => (Err e, r')
    | (Ok body_bytes, r') =>
        let sub := {| buf := body_bytes; pos := 0; base_offset := body_abs;
                      depth := depth r' + 1; max_depth := max_depth r' |} in
        match body sub with
        | (Err e, _) => (Err e, r')
        | (Ok value, sub') =>
            if negb (is_empty sub')
            then (Err (TrailingBytes (offset sub') (remaining sub')), r')
            else (Ok value, r')
        end
    end.

(** ** The codec traits ([wire.rs]) *)

(** The reasons of the [io::ErrorKind::InvalidData] errors the crate's writers raise. *)
Inductive io_error : Type :=
| BodyTooLong (body_len prefix_bytes : Z)
| InvalidTrustAnchorId (actual : Z).

(** A writer over the in-memory sink [Vec<u8>], whose own I/O cannot fail. *)
Definition Writer : Type := M (list byte) io_error unit.

Class TlsSerialize (T : Type) := tls_serialize : T -> Writer.
Class TlsParse (T : Type) := tls_parse : Reader T.

(** Running a writer on a fresh [Vec]; the error is surfaced, never a truncated buffer. *)
Definition to_vec (w : Writer) : result (list byte) io_error :=
  match w [] with
  | (Ok _, b) => Ok b
  | (Err e, _) => Err e
  end.

Definition tls_serialize_to_vec `{TlsSerialize T} (x : T) : result (list byte) io_error :=
  to_vec (tls_serialize x).

(** [read_items]: the loop, then its scope. The fuel is the sub-reader's own length, one unit
    per consumed byte; [items_loop_terminates] shows it is never exhausted. *)
Fixpoint items_loop `{TlsParse T} (fuel : nat) (items : list T) : Reader (list T) := fun sub =>
  if is_empty sub then (Ok items, sub) else
  match fuel with
  | O => (Ok items, sub)
  | S fuel' =>
      let before := position sub in
      match tls_parse sub with
      | (Err e, sub') => (Err e, sub')
      | (Ok item, sub') =>
          if position sub' =? before
          then (Err (ZeroWidthElement (offset sub')), sub')
          else items_loop fuel' (items ++ [item]) sub'
      end
  end.

Definition read_items `{TlsParse T} (n : Z) : Reader (list T) :=
  read_scoped n (fun sub => items_loop (length (buf sub)) [] sub).

Definition read_vector_u8 `{TlsParse T} : Reader (list T) := let! n := read_u8 in read_items n.
Definition read_vector_u16 `{TlsParse T} : Reader (list T) := let! n := read_u16 in read_items n.
Definition read_vector_u24 `{TlsParse T} : Reader (list T) :=
  let! n := read_u24 in read_items (default usize_max (try_from_uint 64 n)).

Definition finish (r : TlsReader) : result unit WireError :=
  if is_empty r then Ok tt else Err (TrailingBytes (offset r) (remaining r)).

(** [tls_parse_exact], for any parser and for a [TlsParse] type. *)
Definition parse_exact {A} (p : Reader A) (bytes : list byte) : result A WireError :=
  let reader := TlsReader_new bytes in
  match p reader with
  | (Err e, _) => Err e
  | (Ok value, reader') => let? _u := finish reader' in Ok value
  end.

Definition tls_parse_exact `{TlsParse T} (bytes : list byte) : result T WireError :=
  parse_exact tls_parse bytes.

(** ** The writers ([wire/writer.rs]) *)

Definition write_all (bs : list byte) : Writer := fun sink => (Ok tt, sink ++ bs).

Definition write_u8 (value : Z) : Writer := write_all (to_be_bytes 1 value).
Definition write_u16 (value : Z) : Writer := write_all (to_be_bytes 2 value).
Definition write_u24 (value : Z) : Writer :=
  match to_be_bytes 4 value with
  | [_; b1; b2; b3] => write_all [b1; b2; b3]
  | _ => ret tt
  end.
Definition write_u32 (value : Z) : Writer := write_all (to_be_bytes 4 value).
Definition write_bytes (bs : list byte) : Writer := write_all bs.

Definition write_opaque_u8 (bs : list byte) : Writer :=
  match try_from_uint 8 (len bs) with
  | None => throw (BodyTooLong (len bs) 1)
  | Some n => do! write_u8 n; write_all bs
  end.
Definition write_opaque_u16 (bs : list byte) : Writer :=
  match try_from_uint 16 (len bs) with
  | None => throw (BodyTooLong (len bs) 2)
  | Some n => do! write_u16 n; write_all bs
  end.
Definition write_opaque_u24 (bs : list byte) : Writer :=
  match U24_try_from_usize (len bs) with
  | None => throw (BodyTooLong (len bs) 3)
  | Some n => do! write_u24 n; write_all bs
  end.

(** [serialize_items]: every item into one fresh body. *)
Fixpoint write_each `{TlsSerialize T} (items : list T) : Writer :=
  match items with
  | [] => ret tt
  | item :: items' => do! tls_serialize item; write_each items'
  end.
Definition serialize_items `{TlsSerialize T} (items : list T) : result (list byte) io_error :=
  to_vec (write_each items).

Definition write_vector_u8 `{TlsSerialize T} (items : list T) : Writer :=
  let! body := lift (serialize_items items) in write_opaque_u8 body.
Definition write_vector_u16 `{TlsSerialize T} (items : list T) : Writer :=
  let! body := lift (serialize_items items) in write_opaque_u16 body.
Definition write_vector_u24 `{TlsSerialize T} (items : list T) : Writer :=
  let! body := lift (serialize_items items) in write_opaque_u24 body.

(** ** The primitive codecs ([wire.rs]) *)

Definition u8_serialize : TlsSerialize Z := write_u8.
Definition u8_parse : TlsParse Z := read_u8.
Definition u16_serialize : TlsSerialize Z := write_u16.
Definition u16_parse : TlsParse Z := read_u16.
Definition u24_serialize : TlsSerialize Z := write_u24.
Definition u24_parse : TlsParse Z := read_u24.
Definition u32_serialize : TlsSerialize Z := write_u32.
Definition u32_parse : TlsParse Z := read_u32.

#[export] Instance array_serialize n : TlsSerialize (array n) := fun a => write_bytes (arr_list a).
#[export] Instance array_parse n : TlsParse (array n) := read_array n.
