(* ===== verification/WireLaws.v ===== *)
(** * Laws of the wire codec

    The Hoare-style combinators every codec proof of the development is built from
    ([parses] and [consumes] for readers, [appends] and [writes] for writers), the interface
    [TlsLaws] a codec promises to its clients, its instances for the primitive types, and its
    transport through opaque strings and length-prefixed vectors. *)

From S2P Require Import Prelude Wire.

Local Open Scope Z_scope.
Local Open Scope mtc_scope.

(** ** Definitions *)

(** The invariant of [TlsReader]: the cursor is inside the slice, whose length a Rust slice
    bounds by [isize::MAX]. *)
Definition isize_max : Z := 2 ^ 63 - 1.
Definition reader_ok (r : TlsReader) : Prop :=
  0 <= pos r <= len (buf r) /\ len (buf r) <= isize_max.

(** The bytes not yet consumed, and the reader after consuming [n] of them. *)
Definition rest (r : TlsReader) : list byte := drop (Z.to_nat (pos r)) (buf r).
Definition advance (r : TlsReader) (n : Z) : TlsReader := set_pos r (pos r + n).

(** [p] reads [bs] as [x], using [d] levels of the depth budget. *)
Definition parses {E A} (p : M TlsReader E A) (bs : list byte) (x : A) (d : Z) : Prop :=
  forall r tl, reader_ok r -> rest r = bs ++ tl -> depth r + d <= max_depth r ->
  p r = (Ok x, advance r (len bs)).

(** Whatever [p] accepts, it consumed exactly some [bs] related to the value by [R]. *)
Definition consumes {E A} (p : M TlsReader E A) (R : A -> list byte -> Prop) : Prop :=
  forall r x r', reader_ok r -> p r = (Ok x, r') ->
  exists bs, R x bs /\ rest r = bs ++ rest r' /\ r' = advance r (len bs).

(** A writer only appends to its sink, and what it appends does not depend on the sink. *)
Definition appends (w : Writer) : Prop :=
  forall s, w s = (fst (w []), s ++ snd (w [])).

(** [w] succeeds, writing [bs]. *)
Definition writes (w : Writer) (bs : list byte) : Prop := w [] = (Ok tt, bs).

(** The interface of a codec: what the readers and writers of the types containing [T], and
    the protocols storing a [T], rely on. [tls_valid] is the invariant the source's
    constructors establish for the fields it keeps private. *)
Class TlsLaws (T : Type) `{!TlsSerialize T, !TlsParse T} := {
  tls_valid : T -> Prop;
  tls_depth : Z;
  tls_depth_nonneg : 0 <= tls_depth;
  tls_append : forall x, appends (tls_serialize x);
  tls_roundtrip : forall x bs,
    tls_valid x -> writes (tls_serialize x) bs -> parses tls_parse bs x tls_depth;
  tls_canonical : consumes tls_parse (fun x bs => tls_valid x /\ writes (tls_serialize x) bs)
}.

(** Codecs none of whose encodings is empty: the ones a vector may hold. *)
Class TlsNonEmpty (T : Type) `{!TlsSerialize T} :=
  tls_non_empty : forall x, ~ writes (tls_serialize x) [].

(** ** Readers *)

Lemma rest_length r : reader_ok r -> len (rest r) = remaining r.
Proof. intros [Hp _]. unfold rest, remaining, len in *. rewrite length_drop. lia. Qed.

Lemma reader_ok_advance r bs tl :
  reader_ok r -> rest r = bs ++ tl -> reader_ok (advance r (len bs)).
Proof.
  intros Hr Hrest. pose proof (rest_length r Hr) as Hl. rewrite Hrest, len_app in Hl.
  destruct Hr as [Hp Hm]. unfold reader_ok, advance, set_pos, remaining in *. simpl.
  pose proof (len_nonneg bs). pose proof (len_nonneg tl). lia.
Qed.

Lemma rest_advance r bs tl :
  reader_ok r -> rest r = bs ++ tl -> rest (advance r (len bs)) = tl.
Proof.
  intros [Hp _] Hrest. unfold rest, advance, set_pos in *. simpl.
  rewrite Z2Nat.inj_add, <- drop_drop, Hrest by (unfold len; lia).
  unfold len. rewrite Nat2Z.id. apply drop_app_length.
Qed.

Lemma advance_advance r a b : advance (advance r a) b = advance r (a + b).
Proof. unfold advance, set_pos. simpl. f_equal. lia. Qed.

Lemma advance_0 r : advance r 0 = r.
Proof. destruct r. unfold advance, set_pos. simpl. f_equal. lia. Qed.

Lemma reader_ok_new bs : len bs <= isize_max -> reader_ok (TlsReader_new bs).
Proof. intros H. split; [|done]. simpl. pose proof (len_nonneg bs). lia. Qed.

Lemma rest_new bs : rest (TlsReader_new bs) = bs.
Proof. reflexivity. Qed.

Lemma read_bytes_ok r bs tl :
  reader_ok r -> rest r = bs ++ tl -> read_bytes (len bs) r = (Ok bs, advance r (len bs)).
Proof.
  intros Hr Hrest. pose proof (rest_length r Hr) as Hl. rewrite Hrest, len_app in Hl.
  pose proof (len_nonneg bs). pose proof (len_nonneg tl).
  destruct Hr as [Hp Hm]. unfold remaining, isize_max in *.
  unfold read_bytes, checked_add.
  rewrite (proj2 (Z.ltb_lt _ _)) by lia. rewrite (proj2 (Z.leb_le _ _)) by lia. simpl.
  unfold slice_get. rewrite !(proj2 (Z.leb_le _ _)) by lia. simpl.
  replace (pos r + len bs - pos r) with (len bs) by lia.
  change (drop (Z.to_nat (pos r)) (buf r)) with (rest r). rewrite Hrest.
  unfold len at 1. rewrite Nat2Z.id, take_app_length. reflexivity.
Qed.

(** A read past the end fails and leaves the cursor where it was. *)
Lemma read_bytes_eof r n :
  reader_ok r -> remaining r < n ->
  read_bytes n r = (Err (UnexpectedEof (offset r) n (remaining r)), r).
Proof.
  intros [Hp Hm] Hn. unfold remaining, read_bytes, checked_add in *.
  destruct (Z.ltb_spec (pos r + n) (2 ^ 64)); [|done].
  rewrite (proj2 (Z.leb_gt _ _)) by lia. done.
Qed.

Lemma rest_split r n :
  reader_ok r -> 0 <= n <= remaining r ->
  exists bs tl, rest r = bs ++ tl /\ len bs = n.
Proof.
  intros Hr Hn. exists (take (Z.to_nat n) (rest r)), (drop (Z.to_nat n) (rest r)).
  split; [by rewrite take_drop|].
  pose proof (rest_length r Hr). unfold len in *. rewrite length_take. lia.
Qed.

Lemma parses_read_bytes bs : parses (read_bytes (len bs)) bs bs 0.
Proof. intros r tl Hr Hrest _. by eapply read_bytes_ok. Qed.

Lemma consumes_read_bytes n :
  0 <= n -> consumes (read_bytes n) (fun x bs => x = bs /\ len bs = n).
Proof.
  intros Hn r x r' Hr H.
  destruct (Z.le_gt_cases n (remaining r)) as [Hle|Hgt].
  - destruct (rest_split r n Hr ltac:(lia)) as (bs & tl & Hrest & <-).
    rewrite (read_bytes_ok r bs tl Hr Hrest) in H. simplify_eq.
    exists x. split_and!; [done..| |done]. by erewrite rest_advance.
  - rewrite read_bytes_eof in H by done. done.
Qed.

Lemma parses_weaken {E A} (p : M TlsReader E A) bs x d d' :
  parses p bs x d -> d <= d' -> parses p bs x d'.
Proof. intros H Hd r tl Hr Hrest Hdep. eapply H; [done..|lia]. Qed.

Lemma parses_ret {E A} (x : A) : parses (E := E) (ret x) [] x 0.
Proof. intros r tl _ _ _. change (len []) with 0. by rewrite advance_0. Qed.

Lemma parses_bind {E A B} (p : M TlsReader E A) (k : A -> M TlsReader E B) bs1 bs2 x y d :
  parses p bs1 x d -> parses (k x) bs2 y d -> parses (bind p k) (bs1 ++ bs2) y d.
Proof.
  intros Hp Hk r tl Hr Hrest Hd. rewrite <- app_assoc in Hrest. unfold bind.
  rewrite (Hp r (bs2 ++ tl)) by done.
  rewrite (Hk _ tl), len_app, advance_advance; eauto using reader_ok_advance, rest_advance.
Qed.

Lemma parses_map {E A B} (p : M TlsReader E A) (f : A -> B) bs x y d :
  0 <= d -> parses p bs x d -> f x = y -> parses (let! a := p in ret (f a)) bs y d.
Proof.
  intros Hd Hp <-. rewrite <- (app_nil_r bs). eapply parses_bind; [done|].
  eapply parses_weaken; [apply parses_ret|done].
Qed.

Lemma consumes_weaken {E A} (p : M TlsReader E A) (R R' : A -> list byte -> Prop) :
  consumes p R -> (forall x bs, R x bs -> R' x bs) -> consumes p R'.
Proof. intros H HR r x r' Hr Hp. destruct (H _ _ _ Hr Hp) as (bs & ? & ? & ?). eauto. Qed.

Lemma consumes_ret {E A} (x : A) : consumes (E := E) (ret x) (fun y bs => y = x /\ bs = []).
Proof.
  intros r y r' _ H. unfold ret in H. simplify_eq. exists [].
  change (len []) with 0. by rewrite advance_0.
Qed.

Lemma consumes_throw {E A} (e : E) (R : A -> list byte -> Prop) : consumes (throw e) R.
Proof. intros r x r' _ H. done. Qed.

Lemma consumes_bind {E A B} (p : M TlsReader E A) (k : A -> M TlsReader E B) R1 (R : B -> list byte -> Prop) :
  consumes p R1 ->
  (forall x bs1, R1 x bs1 -> consumes (k x) (fun y bs2 => R y (bs1 ++ bs2))) ->
  consumes (bind p k) R.
Proof.
  intros Hp Hk r y r' Hr H. apply bind_Ok_inv in H as (x & r1 & Hx & Hy).
  destruct (Hp _ _ _ Hr Hx) as (bs1 & HR1 & Hrest1 & ->).
  destruct (Hk _ _ HR1 _ _ _ (reader_ok_advance _ _ _ Hr Hrest1) Hy)
    as (bs2 & HR2 & Hrest2 & ->).
  exists (bs1 ++ bs2). rewrite len_app, <- advance_advance, <- app_assoc, Hrest1, Hrest2. done.
Qed.

Lemma consumes_map {E A B} (p : M TlsReader E A) (f : A -> B) R1 (R : B -> list byte -> Prop) :
  consumes p R1 -> (forall x bs, R1 x bs -> R (f x) bs) -> consumes (let! a := p in ret (f a)) R.
Proof.
  intros Hp HR. eapply consumes_bind; [done|]. intros x bs HR1.
  eapply consumes_weaken; [apply consumes_ret|]. intros y ? [-> ->]. rewrite app_nil_r. auto.
Qed.

(** ** Steps that do not read *)

Lemma parses_lift {E A} (x : A) : parses (E := E) (lift (Ok x)) [] x 0.
Proof. intros r tl _ _ _. change (len []) with 0. by rewrite advance_0. Qed.

Lemma consumes_lift {E A} (e : result A E) :
  consumes (lift e) (fun x bs => e = Ok x /\ bs = []).
Proof.
  intros r x r' _ He. unfold lift in He. simplify_eq. exists [].
  change (len []) with 0. by rewrite advance_0.
Qed.

(** [get_position] may depend on the reader, which only matters for errors. *)
Lemma parses_position {E A} (k : Z -> M TlsReader E A) bs x d :
  (forall p, parses (k p) bs x d) -> parses (bind get_position k) bs x d.
Proof. intros Hk r tl Hr Hrest Hd. exact (Hk (position r) r tl Hr Hrest Hd). Qed.

Lemma consumes_position {E A} (k : Z -> M TlsReader E A) R :
  (forall p, consumes (k p) R) -> consumes (bind get_position k) R.
Proof. intros Hk r x r' Hr He. exact (Hk (position r) r x r' Hr He). Qed.

(** Errors of another type do not change what a reader accepts. *)
Lemma parses_map_error {E F A} (f : E -> F) (p : M TlsReader E A) bs x d :
  parses p bs x d -> parses (map_error f p) bs x d.
Proof. intros Hp r tl Hr Hrest Hd. unfold map_error. by rewrite (Hp r tl). Qed.

Lemma consumes_map_error {E F A} (f : E -> F) (p : M TlsReader E A) R :
  consumes p R -> consumes (map_error f p) R.
Proof.
  intros Hp r x r' Hr He. unfold map_error in He. destruct (p r) as [[y|e] r1] eqn:E1; simplify_eq.
  by apply Hp.
Qed.

(** ** Primitive readers *)

Lemma parses_read_array {n} (a : array n) : parses (read_array n) (arr_list a) a 0.
Proof.
  unfold read_array. eapply parses_map; [done| |by rewrite array_of_list].
  replace (Z.of_nat n) with (len (arr_list a)) by (unfold len; by rewrite array_length).
  apply parses_read_bytes.
Qed.

Lemma consumes_read_array n : consumes (read_array n) (fun a bs => arr_list a = bs).
Proof.
  unfold read_array. eapply consumes_map; [apply consumes_read_bytes; lia|].
  intros x bs [-> Hl]. unfold len in Hl.
  destruct (array_of_length n bs ltac:(lia)) as (a & -> & Ha). done.
Qed.

Lemma parses_read_uint n (f : array n -> Z) z :
  (forall a, f a = from_be_bytes (arr_list a)) ->
  0 <= z < 256 ^ Z.of_nat n ->
  parses (let! a := read_array n in ret (f a)) (to_be_bytes n z) z 0.
Proof.
  intros Hf Hz.
  destruct (array_of_length n (to_be_bytes n z) (length_to_be_bytes n z)) as (a & _ & Ha).
  eapply parses_map; [done|rewrite <- Ha; apply parses_read_array|].
  by rewrite Hf, Ha, from_to_be_bytes.
Qed.

Lemma consumes_read_uint n (f : array n -> Z) :
  (forall a, f a = from_be_bytes (arr_list a)) ->
  consumes (let! a := read_array n in ret (f a))
    (fun z bs => 0 <= z < 256 ^ Z.of_nat n /\ bs = to_be_bytes n z).
Proof.
  intros Hf. eapply consumes_map; [apply consumes_read_array|].
  intros a bs <-. rewrite Hf. pose proof (from_be_bytes_bound (arr_list a)) as Hb.
  unfold len in Hb. rewrite array_length in Hb. split; [done|].
  rewrite <- (array_length a) at 2. by rewrite to_from_be_bytes.
Qed.

Lemma land_shiftl_small a b k : 0 <= k -> 0 <= b < 2 ^ k -> Z.land (Z.shiftl a k) b = 0.
Proof.
  intros Hk Hb. apply Z.bits_inj'. intros i Hi. rewrite Z.land_spec, Z.bits_0.
  destruct (Z.lt_ge_cases i k).
  - by rewrite Z.shiftl_spec_low.
  - rewrite <- (Z.mod_small b (2 ^ k)), Z.mod_pow2_bits_high by lia. apply andb_false_r.
Qed.

Lemma lor_shiftl_add a b k :
  0 <= k -> 0 <= b < 2 ^ k -> Z.lor (Z.shiftl a k) b = a * 2 ^ k + b.
Proof.
  intros Hk Hb. pose proof (Z.add_lor_land (Z.shiftl a k) b) as H.
  rewrite land_shiftl_small in H by done. rewrite Z.shiftl_mul_pow2 in H |- * by done. lia.
Qed.

(** The shifts of [read_u24] assemble the big-endian value of its three bytes. *)
Lemma read_u24_value b0 b1 b2 :
  from_low_24 (Z.lor (Z.lor (Z.shiftl (byte_val b0) 16) (Z.shiftl (byte_val b1) 8)) (byte_val b2))
  = from_be_bytes [b0; b1; b2].
Proof.
  pose proof (byte_val_range b0). pose proof (byte_val_range b1). pose proof (byte_val_range b2).
  replace (Z.shiftl (byte_val b0) 16) with (Z.shiftl (Z.shiftl (byte_val b0) 8) 8)
    by (rewrite Z.shiftl_shiftl by lia; done).
  rewrite <- Z.shiftl_lor, (lor_shiftl_add (byte_val b0)), lor_shiftl_add by lia.
  unfold from_low_24. change 16777215 with (Z.ones 24). rewrite Z.land_ones by lia.
  unfold from_be_bytes. simpl. rewrite Z.mod_small; lia.
Qed.

Lemma read_u24_eq : forall r, read_u24 r = (let! a := read_array 3 in ret (from_be_bytes (arr_list a))) r.
Proof.
  intros r. unfold read_u24, bind. destruct (read_array 3 r) as [[a|e] r']; [|done].
  pose proof (array_length a) as Hl.
  destruct (arr_list a) as [|b0 [|b1 [|b2 [|]]]]; try done. by rewrite read_u24_value.
Qed.

Lemma parses_ext {E A} (p q : M TlsReader E A) bs x d :
  (forall r, p r = q r) -> parses q bs x d -> parses p bs x d.
Proof. intros Hpq H r tl. rewrite Hpq. apply H. Qed.

Lemma consumes_ext {E A} (p q : M TlsReader E A) R :
  (forall r, p r = q r) -> consumes q R -> consumes p R.
Proof. intros Hpq H r x r' Hr Hp. rewrite Hpq in Hp. eauto. Qed.

Lemma parses_read_u8 z : in_u8 z -> parses read_u8 (to_be_bytes 1 z) z 0.
Proof. intros Hz. by apply parses_read_uint. Qed.
Lemma parses_read_u16 z : in_u16 z -> parses read_u16 (to_be_bytes 2 z) z 0.
Proof. intros Hz. by apply parses_read_uint. Qed.
Lemma parses_read_u24 z : in_u24 z -> parses read_u24 (to_be_bytes 3 z) z 0.
Proof. intros Hz. eapply parses_ext; [apply read_u24_eq|]. by apply parses_read_uint. Qed.
Lemma parses_read_u32 z : in_u32 z -> parses read_u32 (to_be_bytes 4 z) z 0.
Proof. intros Hz. by apply parses_read_uint. Qed.

Lemma consumes_read_u8 : consumes read_u8 (fun z bs => in_u8 z /\ bs = to_be_bytes 1 z).
Proof. by apply consumes_read_uint. Qed.
Lemma consumes_read_u16 : consumes read_u16 (fun z bs => in_u16 z /\ bs = to_be_bytes 2 z).
Proof. by apply consumes_read_uint. Qed.
Lemma consumes_read_u24 : consumes read_u24 (fun z bs => in_u24 z /\ bs = to_be_bytes 3 z).
Proof. eapply consumes_ext; [apply read_u24_eq|]. by apply consumes_read_uint. Qed.
Lemma consumes_read_u32 : consumes read_u32 (fun z bs => in_u32 z /\ bs = to_be_bytes 4 z).
Proof. by apply consumes_read_uint. Qed.

Lemma take_body_ok r bs tl :
  reader_ok r -> rest r = bs ++ tl -> take_body (len bs) r = (Ok bs, advance r (len bs)).
Proof.
  intros Hr Hrest. pose proof (rest_length r Hr) as Hl. rewrite Hrest, len_app in Hl.
  pose proof (len_nonneg tl). unfold take_body.
  rewrite (proj2 (Z.ltb_ge _ _)) by lia. by eapply read_bytes_ok.
Qed.

Lemma parses_take_body bs : parses (take_body (len bs)) bs bs 0.
Proof. intros r tl Hr Hrest _. by eapply take_body_ok. Qed.

Lemma consumes_take_body n :
  0 <= n -> consumes (take_body n) (fun x bs => x = bs /\ len bs = n).
Proof.
  intros Hn r x r' Hr H. unfold take_body in H.
  destruct (remaining r <? n); [done|]. by eapply consumes_read_bytes.
Qed.

(** ** Opaque strings *)

Lemma parses_read_opaque_u8 bs :
  in_u8 (len bs) -> parses read_opaque_u8 (to_be_bytes 1 (len bs) ++ bs) bs 0.
Proof. intros H. eapply parses_bind; [by apply parses_read_u8|apply parses_take_body]. Qed.

Lemma parses_read_opaque_u16 bs :
  in_u16 (len bs) -> parses read_opaque_u16 (to_be_bytes 2 (len bs) ++ bs) bs 0.
Proof. intros H. eapply parses_bind; [by apply parses_read_u16|apply parses_take_body]. Qed.

Lemma try_from_u64_u24 n : in_u24 n -> default usize_max (try_from_uint 64 n) = n.
Proof.
  intros [H1 H2]. unfold try_from_uint.
  rewrite (proj2 (Z.leb_le _ _)), (proj2 (Z.ltb_lt _ _)) by lia. done.
Qed.

Lemma parses_read_opaque_u24 bs :
  in_u24 (len bs) -> parses read_opaque_u24 (to_be_bytes 3 (len bs) ++ bs) bs 0.
Proof.
  intros H. eapply parses_bind; [by apply parses_read_u24|].
  rewrite try_from_u64_u24 by done. apply parses_take_body.
Qed.

Lemma consumes_read_opaque_u8 :
  consumes read_opaque_u8
    (fun body bs => in_u8 (len body) /\ bs = to_be_bytes 1 (len body) ++ body).
Proof.
  eapply consumes_bind; [apply consumes_read_u8|]. intros n bs [Hn ->].
  eapply consumes_weaken; [apply consumes_take_body, Hn|]. by intros body ? [-> <-].
Qed.

Lemma consumes_read_opaque_u16 :
  consumes read_opaque_u16
    (fun body bs => in_u16 (len body) /\ bs = to_be_bytes 2 (len body) ++ body).
Proof.
  eapply consumes_bind; [apply consumes_read_u16|]. intros n bs [Hn ->].
  eapply consumes_weaken; [apply consumes_take_body, Hn|]. by intros body ? [-> <-].
Qed.

Lemma consumes_read_opaque_u24 :
  consumes read_opaque_u24
    (fun body bs => in_u24 (len body) /\ bs = to_be_bytes 3 (len body) ++ body).
Proof.
  eapply consumes_bind; [apply consumes_read_u24|]. intros n bs [Hn ->].
  rewrite try_from_u64_u24 by done.
  eapply consumes_weaken; [apply consumes_take_body, Hn|]. by intros body ? [-> <-].
Qed.

(** ** Writers *)

Lemma appends_ret : appends (ret tt).
Proof. intros s. unfold ret. by rewrite app_nil_r. Qed.

Lemma appends_throw e : appends (throw e).
Proof. intros s. unfold throw. by rewrite app_nil_r. Qed.

Lemma appends_write_all bs : appends (write_all bs).
Proof. intros s. done. Qed.

Lemma appends_bind (w : Writer) (k : unit -> Writer) :
  appends w -> appends (k tt) -> appends (bind w k).
Proof.
  intros Hw Hk s. unfold bind. rewrite Hw. destruct (w []) as [[[]|e] bs]; simpl; [|done].
  rewrite Hk, (Hk bs). simpl. by rewrite app_assoc.
Qed.

Lemma appends_lift_bind {A} (r : result A io_error) (k : A -> Writer) :
  (forall a, appends (k a)) -> appends (bind (lift r) k).
Proof.
  intros H s. unfold bind, lift. destruct r; [apply H|]. simpl. by rewrite app_nil_r.
Qed.

Lemma writes_append w bs s : appends w -> writes w bs -> w s = (Ok tt, s ++ bs).
Proof. intros Hw H. rewrite Hw. by rewrite H. Qed.

Lemma writes_ret : writes (ret tt) [].
Proof. done. Qed.

Lemma writes_write_all bs : writes (write_all bs) bs.
Proof. done. Qed.

Lemma writes_bind (w : Writer) (k : unit -> Writer) bs1 bs2 :
  appends (k tt) -> writes w bs1 -> writes (k tt) bs2 -> writes (bind w k) (bs1 ++ bs2).
Proof. intros Hk H1 H2. unfold writes, bind. rewrite H1. by apply writes_append. Qed.

Lemma writes_bind_inv (w : Writer) (k : unit -> Writer) bs :
  appends (k tt) -> writes (bind w k) bs ->
  exists bs1 bs2, writes w bs1 /\ writes (k tt) bs2 /\ bs = bs1 ++ bs2.
Proof.
  intros Hk H. apply bind_Ok_inv in H as ([] & bs1 & H1 & H2). rewrite Hk in H2.
  exists bs1, (snd (k tt [])). split; [done|]. unfold writes.
  destruct (k tt []) as [? bs2]. simpl in *. by simplify_eq.
Qed.

Lemma writes_inj w bs bs' : writes w bs -> writes w bs' -> bs = bs'.
Proof. unfold writes. congruence. Qed.

Lemma to_vec_writes w bs : to_vec w = Ok bs <-> writes w bs.
Proof. unfold to_vec, writes. destruct (w []) as [[[]|] ?]; naive_solver. Qed.

Lemma length_succ_cons {A} (l : list A) n : length l = S n -> exists x l', l = x :: l' /\ length l' = n.
Proof. destruct l; naive_solver. Qed.

Lemma write_u24_eq z : in_u24 z -> write_u24 z = write_all (to_be_bytes 3 z).
Proof.
  intros Hz. unfold write_u24.
  replace (to_be_bytes 4 z) with (x00 :: to_be_bytes 3 z).
  - pose proof (length_to_be_bytes 3 z) as Hl.
    destruct (to_be_bytes 3 z) as [|b1 [|b2 [|b3 [|]]]]; done.
  - unfold in_uint in Hz. cbn [to_be_bytes app].
    assert (byte_of_Z (z / 256 / 256 / 256) = x00) as ->; [|done].
    apply byte_val_inj. rewrite byte_val_of_Z, !Z.div_div, Z.div_small by lia. done.
Qed.

Lemma try_from_uint_Some w z n : try_from_uint w z = Some n -> n = z /\ in_uint w z.
Proof.
  unfold try_from_uint, in_uint. destruct (Z.leb_spec 0 z), (Z.ltb_spec z (2 ^ w)); naive_solver.
Qed.

Lemma try_from_uint_in w z : in_uint w z -> try_from_uint w z = Some z.
Proof.
  intros [H1 H2]. unfold try_from_uint.
  by rewrite (proj2 (Z.leb_le _ _)), (proj2 (Z.ltb_lt _ _)).
Qed.

Lemma U24_try_from_usize_in z : in_u24 z -> U24_try_from_usize z = Some z.
Proof.
  intros [H1 H2]. unfold U24_try_from_usize. rewrite try_from_uint_in by (split; lia).
  unfold U24_new, U24_MAX. by rewrite (proj2 (Z.leb_le _ _)) by lia.
Qed.

Lemma U24_try_from_usize_Some z n : 0 <= z -> U24_try_from_usize z = Some n -> n = z /\ in_u24 z.
Proof.
  unfold U24_try_from_usize, U24_new, U24_MAX. intros H0 H.
  destruct (try_from_uint 32 z) as [v|] eqn:E; [|done].
  apply try_from_uint_Some in E as [-> ?]. destruct (Z.leb_spec z 16777215); [|done].
  simplify_eq. split; [done|]. unfold in_uint. lia.
Qed.

Lemma appends_write_opaque_u8 bs : appends (write_opaque_u8 bs).
Proof.
  unfold write_opaque_u8. destruct (try_from_uint _ _); [|apply appends_throw].
  apply appends_bind; apply appends_write_all.
Qed.
Lemma appends_write_opaque_u16 bs : appends (write_opaque_u16 bs).
Proof.
  unfold write_opaque_u16. destruct (try_from_uint _ _); [|apply appends_throw].
  apply appends_bind; apply appends_write_all.
Qed.
Lemma appends_write_u24 z : appends (write_u24 z).
Proof.
  unfold write_u24. destruct (to_be_bytes 4 z) as [|? [|? [|? [|? [|]]]]];
    first [apply appends_write_all | apply appends_ret].
Qed.
Lemma appends_write_opaque_u24 bs : appends (write_opaque_u24 bs).
Proof.
  unfold write_opaque_u24. destruct (U24_try_from_usize _); [|apply appends_throw].
  apply appends_bind; [apply appends_write_u24|apply appends_write_all].
Qed.

(** What an opaque writer accepts, and the bytes it emits. *)
Lemma writes_opaque_u8 body bs :
  writes (write_opaque_u8 body) bs <-> in_u8 (len body) /\ bs = to_be_bytes 1 (len body) ++ body.
Proof.
  unfold write_opaque_u8. destruct (try_from_uint 8 (len body)) as [n|] eqn:E.
  - apply try_from_uint_Some in E as [-> Hn]. split.
    + intros H. split; [done|]. by injection H.
    + by intros [_ ->].
  - split; [done|]. intros [Hn _]. by rewrite try_from_uint_in in E.
Qed.

Lemma writes_opaque_u16 body bs :
  writes (write_opaque_u16 body) bs <-> in_u16 (len body) /\ bs = to_be_bytes 2 (len body) ++ body.
Proof.
  unfold write_opaque_u16. destruct (try_from_uint 16 (len body)) as [n|] eqn:E.
  - apply try_from_uint_Some in E as [-> Hn]. split.
    + intros H. split; [done|]. by injection H.
    + by intros [_ ->].
  - split; [done|]. intros [Hn _]. by rewrite try_from_uint_in in E.
Qed.

Lemma writes_opaque_u24 body bs :
  writes (write_opaque_u24 body) bs <-> in_u24 (len body) /\ bs = to_be_bytes 3 (len body) ++ body.
Proof.
  unfold write_opaque_u24. destruct (U24_try_from_usize (len body)) as [n|] eqn:E.
  - apply U24_try_from_usize_Some in E as [-> Hn]; [|apply len_nonneg].
    rewrite write_u24_eq by done. split.
    + intros H. split; [done|]. by injection H.
    + by intros [_ ->].
  - split; [done|]. intros [Hn _]. by rewrite U24_try_from_usize_in in E.
Qed.

(** ** Length-prefixed vectors *)

Lemma is_empty_rest r : reader_ok r -> is_empty r = true <-> rest r = [].
Proof.
  intros Hr. unfold is_empty. rewrite Z.eqb_eq, <- rest_length by done.
  unfold len. destruct (rest r); simpl; [done|]. split; [lia|done].
Qed.

Lemma read_scoped_ok {T} r bs tl (p : Reader T) x sub' :
  reader_ok r -> rest r = bs ++ tl -> depth r < max_depth r ->
  p {| buf := bs; pos := 0; base_offset := offset r; depth := depth r + 1;
       max_depth := max_depth r |} = (Ok x, sub') ->
  is_empty sub' = true ->
  read_scoped (len bs) p r = (Ok x, advance r (len bs)).
Proof.
  intros Hr Hrest Hd Hp He. unfold read_scoped.
  rewrite (proj2 (Z.leb_gt _ _)) by lia. erewrite take_body_ok by done. simpl.
  by rewrite Hp, He.
Qed.

Lemma read_scoped_inv {T} r n (p : Reader T) x r' :
  reader_ok r -> 0 <= n -> read_scoped n p r = (Ok x, r') ->
  exists bs tl sub', rest r = bs ++ tl /\ len bs = n /\ r' = advance r n /\
    p {| buf := bs; pos := 0; base_offset := offset r; depth := depth r + 1;
         max_depth := max_depth r |} = (Ok x, sub') /\ is_empty sub' = true.
Proof.
  intros Hr Hn. unfold read_scoped. destruct (max_depth r <=? depth r); [done|].
  destruct (take_body n r) as [[bs|e] r1] eqn:E; [|done].
  destruct (consumes_take_body n Hn _ _ _ Hr E) as (? & [-> <-] & Hrest & ->). simpl.
  destruct (p _) as [[y|e] sub'] eqn:Ep; [|done].
  destruct (is_empty sub') eqn:He; [|done]. simpl. intros H. simplify_eq.
  eexists _, _, _. eauto 8.
Qed.

Section Vectors.
Context {T : Type} `{TlsLaws T} `{!TlsNonEmpty T}.

Lemma appends_write_each (items : list T) : appends (write_each items).
Proof.
  induction items as [|x items IH]; simpl; [apply appends_ret|].
  apply appends_bind; [apply tls_append|done].
Qed.

Lemma items_loop_ok (items : list T) : forall body fuel acc sub,
  Forall tls_valid items -> writes (write_each items) body ->
  reader_ok sub -> rest sub = body -> depth sub + tls_depth <= max_depth sub ->
  (length body <= fuel)%nat ->
  items_loop fuel acc sub = (Ok (acc ++ items), advance sub (len body)).
Proof.
  induction items as [|x items IH]; intros body fuel acc sub Hv Hw Hr Hrest Hd Hf.
  - assert (body = []) as -> by (by eapply writes_inj).
    change (len []) with 0. rewrite app_nil_r, advance_0.
    destruct fuel; simpl; rewrite (proj2 (is_empty_rest sub Hr)); done.
  - simpl in Hw. apply writes_bind_inv in Hw as (b1 & b2 & H1 & H2 & ->);
      [|apply appends_write_each].
    assert (b1 <> []) as Hne by (intros ->; by eapply tls_non_empty).
    inversion Hv as [|? ? Hx Hxs]; subst. rewrite length_app in Hf.
    assert (0 < length b1)%nat by (destruct b1; [done|simpl; lia]).
    destruct fuel as [|fuel]; [lia|]. simpl.
    destruct (is_empty sub) eqn:E.
    { apply is_empty_rest in E; [|done]. rewrite E in Hrest. by destruct b1. }
    erewrite (tls_roundtrip x b1) by done.
    unfold position at 1. unfold advance at 1, set_pos at 1. cbn [pos].
    rewrite (proj2 (Z.eqb_neq _ _)) by (unfold position, len; lia).
    erewrite IH with (body := b2);
      [|done|done|by eapply reader_ok_advance|by eapply rest_advance|done|lia].
    by rewrite <- app_assoc, advance_advance, len_app.
Qed.

Lemma items_loop_inv fuel : forall acc sub items sub',
  reader_ok sub -> items_loop fuel acc sub = (Ok items, sub') ->
  exists xs body, items = acc ++ xs /\ Forall tls_valid xs /\
    writes (write_each xs) body /\ rest sub = body ++ rest sub' /\ sub' = advance sub (len body).
Proof.
  assert (Hstop : forall (acc : list T) sub items sub',
    (Ok acc, sub) = (Ok items : result _ WireError, sub') ->
    exists xs body, items = acc ++ xs /\ Forall tls_valid xs /\
      writes (write_each xs) body /\ rest sub = body ++ rest sub' /\ sub' = advance sub (len body)).
  { intros acc sub items sub' Hs. simplify_eq. exists [], [].
    rewrite app_nil_r. change (len []) with 0. rewrite advance_0. done. }
  induction fuel as [|fuel IH]; intros acc sub items sub' Hr Hl; simpl in Hl.
  - destruct (is_empty sub); eauto.
  - destruct (is_empty sub); [by eauto|].
    destruct (tls_parse sub) as [[x|e] sub1] eqn:Ep; [|done].
    destruct (position sub1 =? position sub); [done|].
    destruct (tls_canonical _ _ _ Hr Ep) as (b1 & [Hv Hw] & Hrest & ->).
    apply IH in Hl as (xs & b2 & -> & Hvs & Hws & Hrest2 & ->);
      [|by eapply reader_ok_advance].
    exists (x :: xs), (b1 ++ b2). rewrite <- app_assoc. split_and!; [done|by constructor| | |].
    + simpl. apply writes_bind; [apply appends_write_each|done|done].
    + by rewrite <- app_assoc, Hrest, Hrest2 at 1.
    + by rewrite advance_advance, len_app.
Qed.

Lemma parses_read_items (items : list T) body :
  Forall tls_valid items -> writes (write_each items) body ->
  forall r tl, reader_ok r -> rest r = body ++ tl -> depth r + (tls_depth + 1) <= max_depth r ->
  read_items (len body) r = (Ok items, advance r (len body)).
Proof.
  intros Hv Hw r tl Hr Hrest Hd. pose proof tls_depth_nonneg.
  unfold read_items. eapply read_scoped_ok; [done|done|lia| |].
  - change items with ([] ++ items). eapply items_loop_ok; [done|done| |done|simpl; lia|simpl; lia].
    split; simpl; [pose proof (len_nonneg body); lia|].
    pose proof (rest_length r Hr) as Hl. rewrite Hrest, len_app in Hl. destruct Hr as [? Hr].
    unfold remaining in Hl. pose proof (len_nonneg tl). lia.
  - unfold is_empty, remaining, advance, set_pos. simpl. apply Z.eqb_eq. lia.
Qed.

Lemma consumes_read_items n :
  0 <= n -> consumes (read_items n) (fun items body =>
    len body = n /\ Forall tls_valid items /\ writes (write_each items) body).
Proof.
  intros Hn r items r' Hr Hi. unfold read_items in Hi.
  apply read_scoped_inv in Hi as (bs & tl & sub' & Hrest & <- & -> & Hl & He); [|done|done].
  assert (reader_ok {| buf := bs; pos := 0; base_offset := offset r; depth := depth r + 1;
                       max_depth := max_depth r |}) as Hsub.
  { split; simpl; [lia|]. pose proof (rest_length r Hr) as Hl'.
    rewrite Hrest, len_app in Hl'. destruct Hr as [? Hr].
    unfold remaining in Hl'. pose proof (len_nonneg tl). lia. }
  simpl in Hl.
  apply items_loop_inv in Hl as (xs & body & -> & Hv & Hw & Hrest' & ->); [|done].
  apply is_empty_rest in He; [|by eapply reader_ok_advance].
  rewrite He, app_nil_r in Hrest'. change (bs = body) in Hrest'. subst bs.
  exists body. split_and!; [done..| |done].
  by rewrite Hrest, (rest_advance r body tl).
Qed.

Lemma writes_serialize_items (items : list T) body :
  serialize_items items = Ok body <-> writes (write_each items) body.
Proof. apply to_vec_writes. Qed.

Lemma appends_write_vector_u8 (items : list T) : appends (write_vector_u8 items).
Proof. apply appends_lift_bind, appends_write_opaque_u8. Qed.
Lemma appends_write_vector_u16 (items : list T) : appends (write_vector_u16 items).
Proof. apply appends_lift_bind, appends_write_opaque_u16. Qed.

Lemma writes_vector_u16 (items : list T) bs :
  writes (write_vector_u16 items) bs <->
  exists body, writes (write_each items) body /\ in_u16 (len body) /\
               bs = to_be_bytes 2 (len body) ++ body.
Proof.
  unfold write_vector_u16, writes at 1, bind, lift.
  destruct (serialize_items items) as [body|e] eqn:E.
  - apply writes_serialize_items in E. split.
    + intros Hw. apply writes_opaque_u16 in Hw. eauto.
    + intros (body' & Hw & ?). assert (body' = body) as -> by (by eapply writes_inj).
      by apply writes_opaque_u16.
  - split; [done|]. intros (body & Hw & _). apply writes_serialize_items in Hw. congruence.
Qed.

Lemma parses_read_vector_u16 (items : list T) bs :
  Forall tls_valid items -> writes (write_vector_u16 items) bs ->
  parses read_vector_u16 bs items (tls_depth + 1).
Proof.
  intros Hv Hw. apply writes_vector_u16 in Hw as (body & Hw & Hb & ->).
  eapply parses_bind.
  - eapply parses_weaken; [by apply parses_read_u16|pose proof tls_depth_nonneg; lia].
  - intros r tl. by apply parses_read_items.
Qed.

Lemma consumes_read_vector_u16 :
  consumes read_vector_u16 (fun (items : list T) bs =>
    Forall tls_valid items /\ writes (write_vector_u16 items) bs).
Proof.
  eapply consumes_bind; [apply consumes_read_u16|]. intros n bs [Hn ->].
  eapply consumes_weaken; [apply consumes_read_items, Hn|].
  intros items body (<- & Hv & Hw). split; [done|]. apply writes_vector_u16. eauto.
Qed.

(** ** Top-level parsing *)

Lemma parse_exact_parses {A} (p : Reader A) bs x d :
  parses p bs x d -> d <= DEFAULT_MAX_DEPTH -> len bs <= isize_max -> parse_exact p bs = Ok x.
Proof.
  intros Hp Hd Hl. unfold parse_exact.
  rewrite (Hp _ []); [|by apply reader_ok_new|by rewrite app_nil_r|simpl; lia].
  unfold finish, is_empty, remaining, advance, set_pos. simpl.
  by rewrite (proj2 (Z.eqb_eq _ _)) by lia.
Qed.

Lemma parse_exact_consumes {A} (p : Reader A) R bs x :
  consumes p R -> len bs <= isize_max -> parse_exact p bs = Ok x -> R x bs.
Proof.
  intros Hp Hl. unfold parse_exact. destruct (p (TlsReader_new bs)) as [[y|e] r'] eqn:E; [|done].
  destruct (Hp _ _ _ (reader_ok_new _ Hl) E) as (b & HR & Hrest & ->).
  unfold finish. destruct (is_empty _) eqn:He; [|done]. intros Hx. simplify_eq.
  apply is_empty_rest in He; [|by eapply reader_ok_advance; [by apply reader_ok_new|]].
  rewrite He, app_nil_r, rest_new in Hrest. by rewrite Hrest.
Qed.
End Vectors.

(** ** Instances for the primitive types *)

#[export] Instance array_laws n : TlsLaws (array n).
Proof.
  refine {| tls_valid := fun _ => True; tls_depth := 0 |}.
  - done.
  - intros x. apply appends_write_all.
  - intros x bs _ H. apply (writes_inj _ _ (arr_list x)) in H as ->; [|done].
    apply parses_read_array.
  - eapply consumes_weaken; [apply consumes_read_array|]. by intros x ? <-.
Defined.

#[export] Instance array_non_empty n : TlsNonEmpty (array (S n)).
Proof.
  intros a H. pose proof (array_length a) as Hl.
  assert (arr_list a = []) as E by (by injection H). by rewrite E in Hl.
Qed.

(** A [u8], [u16] or [u32] field. *)
Definition uint_laws (n : nat) (ser : TlsSerialize Z) (par : TlsParse Z)
    (Hser : forall z, ser z = write_all (to_be_bytes n z))
    (Hpar : forall z, 0 <= z < 256 ^ Z.of_nat n -> parses par (to_be_bytes n z) z 0)
    (Hcan : consumes par (fun z bs => 0 <= z < 256 ^ Z.of_nat n /\ bs = to_be_bytes n z)) :
  TlsLaws Z.
Proof.
  refine {| tls_valid := fun z => 0 <= z < 256 ^ Z.of_nat n; tls_depth := 0 |}.
  - done.
  - intros z. unfold tls_serialize. rewrite Hser. apply appends_write_all.
  - intros z bs Hz Hw. unfold tls_serialize in Hw. rewrite Hser in Hw.
    apply (writes_inj _ _ (to_be_bytes n z)) in Hw as ->; [|done]. by apply Hpar.
  - eapply consumes_weaken; [apply Hcan|]. intros z bs [Hz ->]. split; [done|].
    unfold tls_serialize. by rewrite Hser.
Defined.

Create HintDb wire discriminated.
#[export] Hint Resolve appends_ret appends_throw appends_write_all appends_bind
  appends_lift_bind appends_write_opaque_u8 appends_write_opaque_u16 appends_write_opaque_u24
  appends_write_vector_u8 appends_write_vector_u16 tls_append : wire.

(** ** Integers read through [read_array] *)

Lemma parses_be n z : parses (read_array n) (to_be_bytes n z) (be_array n z) 0.
Proof. apply (parses_read_array (be_array n z)). Qed.

Lemma consumes_be n :
  consumes (read_array n) (fun a bs => exists z,
    0 <= z < 256 ^ Z.of_nat n /\ a = be_array n z /\ bs = to_be_bytes n z).
Proof.
  eapply consumes_weaken; [apply consumes_read_array|]. intros a bs <-.
  exists (from_be_bytes (arr_list a)).
  split_and!; [apply from_be_array_range..|apply be_array_from|].
  by rewrite (be_array_from a) at 1.
Qed.

(** ** What a codec promises at the top level *)

Section TopLevel.
Context `{TlsLaws T}.

(** Parsing is the inverse of serializing, and nothing else parses. *)
Lemma tls_exact_iff bs x :
  tls_depth <= DEFAULT_MAX_DEPTH -> len bs <= isize_max ->
  tls_parse_exact bs = Ok x <-> tls_valid x /\ tls_serialize_to_vec x = Ok bs.
Proof.
  intros Hd Hl. unfold tls_serialize_to_vec. rewrite to_vec_writes. split.
  - intros Hp. exact (parse_exact_consumes _ _ _ _ tls_canonical Hl Hp).
  - intros [Hv Hw]. eapply parse_exact_parses; [by apply tls_roundtrip|done|done].
Qed.

(** Well-formed values with one encoding are one value. *)
Lemma tls_serialize_inj bs x y :
  tls_depth <= DEFAULT_MAX_DEPTH -> len bs <= isize_max -> tls_valid x -> tls_valid y ->
  tls_serialize_to_vec x = Ok bs -> tls_serialize_to_vec y = Ok bs -> x = y.
Proof.
  intros Hd Hl Hx Hy Ex Ey.
  assert (tls_parse_exact bs = Ok x) as Px by (by apply tls_exact_iff).
  assert (tls_parse_exact bs = Ok y) as Py by (by apply tls_exact_iff). congruence.
Qed.
End TopLevel.

(** One more field of a writer. *)
Ltac writes_step := eapply writes_bind; [auto with wire| |].

(** ** The properties *)

(** Vectors of any lawful element type: bytes parse to [items] through a 16-bit length
    prefix, nothing left over, exactly if every item is well-formed and the vector writer
    produces these bytes; the element's codec enters only through the interface [TlsLaws]. *)
Theorem vector_u16_wire `{TlsLaws T} `{!TlsNonEmpty T} (bs : list byte) (items : list T) :
  tls_depth + 1 <= DEFAULT_MAX_DEPTH -> len bs <= isize_max ->
  parse_exact read_vector_u16 bs = Ok items <->
  Forall tls_valid items /\ to_vec (write_vector_u16 items) = Ok bs.
Proof.
  intros Hd Hl. rewrite to_vec_writes. split.
  - intros Hp. exact (parse_exact_consumes _ _ _ _ consumes_read_vector_u16 Hl Hp).
  - intros [Hv Hw]. eapply parse_exact_parses; [by apply parses_read_vector_u16|done|done].
Qed.

Lemma vector_u16_wire_witness :
  let bs := to_be_bytes 2 4 ++ [x01; x02; x03; x04] in
  let items := [be_array 2 258; be_array 2 772] in
  parse_exact read_vector_u16 bs = Ok items <->
  Forall tls_valid items /\ to_vec (write_vector_u16 items) = Ok bs.
Proof. apply (vector_u16_wire (T := array 2)); by vm_compute. Defined.

(** C30. Reading past the end is impossible: [read_bytes] returns the next [n] bytes and advances
    by [n] exactly when that many remain, and otherwise, an offset that would overflow
    included, reports where and how much was missing and leaves the cursor where it was. *)
Theorem read_bytes_bounds (r : TlsReader) (n : Z) :
  reader_ok r -> in_u64 n ->
  read_bytes n r =
    if n <=? remaining r then (Ok (take (Z.to_nat n) (rest r)), advance r n)
    else (Err (UnexpectedEof (offset r) n (remaining r)), r).
Proof.
  intros Hr [Hn _]. destruct (Z.leb_spec n (remaining r)) as [Hle|Hgt].
  - destruct (rest_split r n Hr) as (bs & tl & Hrest & Hb); [lia|].
    rewrite Hrest, <- Hb. replace (Z.to_nat (len bs)) with (length bs) by (unfold len; lia).
    rewrite take_app_length. by apply read_bytes_ok with tl.
  - by apply read_bytes_eof.
Qed.

Lemma read_bytes_bounds_witness :
  read_bytes (2 ^ 64 - 1) (TlsReader_new [x00; x01])
  = (Err (UnexpectedEof 0 (2 ^ 64 - 1) 2), TlsReader_new [x00; x01]).
Proof.
  rewrite read_bytes_bounds; [by vm_compute| |]; by vm_compute.
Defined.

(** A parser that does not go back: what it leaves is the same buffer, read as far or further. No
    [TlsParse] can do otherwise, since the reader offers no way back. *)
Definition parses_forward {T} (p : Reader T) : Prop :=
  forall sub x sub', reader_ok sub -> p sub = (Ok x, sub') ->
    reader_ok sub' /\ buf sub' = buf sub /\ pos sub <= pos sub'.

Lemma laws_parse_forward `{TlsLaws T} : parses_forward (T := T) tls_parse.
Proof.
  intros sub x sub' Hr Hp. destruct (tls_canonical _ _ _ Hr Hp) as (b & _ & Hrest & ->).
  split; [by eapply reader_ok_advance|]. split; [done|]. unfold advance, set_pos. simpl. pose proof (len_nonneg b). lia.
Qed.

Section ItemsLoop.
Context {T : Type} `{!TlsParse T} (Hforward : parses_forward (T := T) tls_parse).

(** One turn of the loop: an element that reads nothing is an error, any other leaves fewer bytes. *)
Lemma items_loop_turn fuel acc sub :
  reader_ok sub -> is_empty sub = false ->
  match tls_parse (T := T) sub with
  | (Err e, sub') => items_loop (S fuel) acc sub = (Err e, sub')
  | (Ok item, sub') =>
      (position sub' = position sub /\ items_loop (S fuel) acc sub = (Err (ZeroWidthElement (offset sub')), sub')) \/
      (reader_ok sub' /\ remaining sub' < remaining sub /\ items_loop (S fuel) acc sub = items_loop fuel (acc ++ [item]) sub')
  end.
Proof.
  intros Hr He. cbn [items_loop]. rewrite He. destruct (tls_parse sub) as [[x|e] sub1] eqn:Ep; [|done].
  destruct (Hforward _ _ _ Hr Ep) as (Hr1 & Hb & Hle).
  destruct (Z.eqb_spec (position sub1) (position sub)) as [|Hne]; [by left|right].
  split; [done|]. split; [|done]. unfold remaining, position in *. rewrite Hb. lia.
Qed.

Lemma is_empty_remaining sub : reader_ok sub -> remaining sub <= 0 -> is_empty sub = true.
Proof. intros [? _] Hl. unfold is_empty, remaining in *. apply Z.eqb_eq. lia. Qed.

(** The loop's result does not depend on its fuel once that covers the bytes left. *)
Lemma items_loop_fuel f1 : forall f2 acc sub,
  reader_ok sub -> remaining sub <= Z.of_nat f1 -> remaining sub <= Z.of_nat f2 ->
  items_loop (T := T) f1 acc sub = items_loop f2 acc sub.
Proof.
  induction f1 as [|f1 IH]; intros f2 acc sub Hr H1 H2; (destruct (is_empty sub) eqn:He;
    [destruct f2; simpl; by rewrite He|]).
  - by rewrite is_empty_remaining in He.
  - destruct f2 as [|f2]; [by rewrite is_empty_remaining in He|].
    pose proof (items_loop_turn f1 acc sub Hr He) as T1. pose proof (items_loop_turn f2 acc sub Hr He) as T2.
    destruct (tls_parse sub) as [[x|e] sub1] eqn:Ep; [|congruence].
    destruct (Hforward _ _ _ Hr Ep) as (_ & Hb & _). unfold position, remaining in *. rewrite Hb in *.
    destruct T1 as [[Hp ->]|(Hr1 & Hl & ->)], T2 as [[Hp' ->]|(_ & Hl' & ->)]; [done|lia|lia|].
    apply IH; [done|unfold remaining; rewrite Hb; lia..].
Qed.

Lemma items_loop_Ok_empty f : forall acc sub (items : list T) sub',
  reader_ok sub -> remaining sub <= Z.of_nat f ->
  items_loop f acc sub = (Ok items, sub') -> is_empty sub' = true.
Proof.
  induction f as [|f IH]; intros acc sub items sub' Hr Hf; (destruct (is_empty sub) eqn:He;
    [simpl; rewrite He; by intros [= _ <-]|]).
  - by rewrite is_empty_remaining in He.
  - pose proof (items_loop_turn f acc sub Hr He) as Ht. destruct (tls_parse sub) as [[x|e] sub1]; [|by rewrite Ht].
    destruct Ht as [[_ ->]|(Hr1 & Hl & ->)]; [done|]. apply IH; [done|lia].
Qed.
End ItemsLoop.

(** C31. The element loop of a vector ends, whatever the element's parser as long as it does not go
    back, elements that read nothing included: with the bytes of the body as fuel it computes what any
    larger number of iterations would; it succeeds only with the whole body read; and an element that
    reads nothing is reported where it stands, and ends the loop. *)
Theorem items_loop_terminates `{TlsParse T} (fuel : nat) (acc : list T) (sub : TlsReader) :
  parses_forward (T := T) tls_parse -> reader_ok sub -> remaining sub <= Z.of_nat fuel ->
  items_loop fuel acc sub = items_loop (length (buf sub)) acc sub /\
  (forall items sub', items_loop fuel acc sub = (Ok items, sub') -> is_empty sub' = true) /\
  (forall item sub', is_empty sub = false -> tls_parse (T := T) sub = (Ok item, sub') -> position sub' = position sub ->
     items_loop fuel acc sub = (Err (ZeroWidthElement (offset sub')), sub')).
Proof.
  intros Hp Hr Hf. split; [|split].
  - apply items_loop_fuel; [done..|]. destruct Hr as [? _]. unfold remaining, len. lia.
  - intros items sub'. by apply items_loop_Ok_empty.
  - intros item sub' He Hi Hz. destruct fuel as [|fuel]; [by rewrite is_empty_remaining in He|].
    pose proof (items_loop_turn Hp fuel acc sub Hr He) as Ht. rewrite Hi in Ht.
    destruct Ht as [[_ E]|(_ & Hl & _)]; [done|]. destruct (Hp _ _ _ Hr Hi) as (_ & Hb & _).
    unfold remaining, position in *. rewrite Hb in Hl. lia.
Qed.

(** An element of no bytes in a body of two: one turn, whatever the fuel. *)
Definition empty_element : Reader unit := ret tt.
Lemma items_loop_terminates_witness :
  let sub := TlsReader_new [x01; x02] in
  items_loop (H := empty_element) 9 [] sub = items_loop (H := empty_element) 2 [] sub /\
  items_loop (H := empty_element) 9 [] sub = (Err (ZeroWidthElement 0), sub).
Proof.
  assert (parses_forward empty_element) as Hp by (intros sub x sub' Hr [= _ <-]; split; [exact Hr|by split]).
  destruct (items_loop_terminates (H := empty_element) 9 [] (TlsReader_new [x01; x02]) Hp) as (E & _ & Hz);
    [by vm_compute..|]. split; [exact E|]. exact (Hz tt (TlsReader_new [x01; x02]) eq_refl eq_refl eq_refl).
Defined.
