(* ===== verification/Types.v ===== *)
(** * Domain types: [crates/mtc/src/types.rs] and [error.rs]

    The integer newtypes [Index], [TreeSize] and [Epoch] wrap a [u64] and are modelled by [Z]
    (their range is [in_u64]); the hash newtype is a 32-byte array; the phantom-typed
    identifiers own a non-empty UTF-8 string. UTF-8 validity, which [core::str::from_utf8]
    decides for the parsers, is written out here. *)

From S2P Require Import Prelude Format.

Local Open Scope Z_scope.

Abbreviation Index := Z (only parsing).
Abbreviation TreeSize := Z (only parsing).
Abbreviation Epoch := Z (only parsing).

(** ** [HashOutput] *)

Definition HashOutput_LEN : nat := 32.
Definition HashOutput : Type := array HashOutput_LEN.

Definition as_bytes (h : HashOutput) : list byte := arr_list h.
(** [to_bytes], and [From<[u8; 32]>]. *)
Definition to_bytes (h : HashOutput) : array HashOutput_LEN := h.
Definition HashOutput_from (bytes : array HashOutput_LEN) : HashOutput := bytes.
(** [Debug]. *)
Definition HashOutput_debug (h : HashOutput) : string :=
  foldl (fun out b => out +:+ hex_bytes [b])%string "HashOutput("%string (as_bytes h) +:+ ")".

Inductive HashOutputError : Type :=
| InvalidLength (expected actual : Z).
Definition HashOutputError_display (e : HashOutputError) : string :=
  match e with
  | InvalidLength expected actual =>
      "hash output must be exactly " +:+ decimal expected +:+ " bytes, got " +:+ decimal actual
  end.

Definition HashOutput_try_from (bytes : list byte) : result HashOutput HashOutputError :=
  ok_or (array_of HashOutput_LEN bytes) (InvalidLength (Z.of_nat HashOutput_LEN) (len bytes)).

#[export] Instance HashOutput_eq_dec : EqDecision HashOutput := array_eq_dec HashOutput_LEN.

(** ** Identifiers *)

Inductive IdError : Type := IdEmpty.
Definition IdError_display (e : IdError) : string :=
  match e with IdEmpty => "domain identifier must not be empty" end.

(** [Id<T>]: the bytes of its [String]. *)
Record Id (Tag : Type) : Type := MkId { as_str : list byte }.
Arguments MkId {Tag} as_str.
Arguments as_str {Tag} i.

Definition Id_new {Tag} (value : list byte) : result (Id Tag) IdError :=
  match value with
  | [] => Err IdEmpty
  | _ => Ok (MkId value)
  end.

(** [into_string], [Display], [FromStr] and [TryFrom<String>]. *)
Definition into_string {Tag} (i : Id Tag) : list byte := as_str i.
Definition Id_display {Tag} (i : Id Tag) : list byte := as_str i.
Definition Id_from_str {Tag} (s : list byte) : result (Id Tag) IdError := Id_new s.
Definition Id_try_from {Tag} (value : list byte) : result (Id Tag) IdError := Id_new value.

Inductive LogTag : Type := .
Inductive BatchTag : Type := .
Definition LogId : Type := Id LogTag.
Definition BatchId : Type := Id BatchTag.

#[export] Instance Id_eq_dec Tag : EqDecision (Id Tag).
Proof.
  intros [a] [b]. destruct (decide (a = b)) as [->|Hne]; [by left|]. right. congruence.
Defined.

(** ** UTF-8 ([core::str::from_utf8])

    Well-formed UTF-8: no overlong form, no surrogate, nothing above U+10FFFF. *)

Definition in_range (lo hi : Z) (b : byte) : bool :=
  ((lo <=? byte_val b) && (byte_val b <=? hi))%bool.
Definition continuation (b : byte) : bool := in_range 128 191 b.

(** The admissible second bytes after a three-byte and a four-byte lead. *)
Definition second3 (b0 b1 : byte) : bool :=
  if byte_val b0 =? 224 then in_range 160 191 b1
  else if byte_val b0 =? 237 then in_range 128 159 b1
  else continuation b1.
Definition second4 (b0 b1 : byte) : bool :=
  if byte_val b0 =? 240 then in_range 144 191 b1
  else if byte_val b0 =? 244 then in_range 128 143 b1
  else continuation b1.

Fixpoint utf8_valid (bs : list byte) : bool :=
  match bs with
  | [] => true
  | b0 :: r0 =>
      if in_range 0 127 b0 then utf8_valid r0
      else match r0 with
      | [] => false
      | b1 :: r1 =>
          if in_range 194 223 b0 then (continuation b1 && utf8_valid r1)%bool
          else match r1 with
          | [] => false
          | b2 :: r2 =>
              if in_range 224 239 b0
              then (second3 b0 b1 && continuation b2 && utf8_valid r2)%bool
              else match r2 with
              | [] => false
              | b3 :: r3 =>
                  (in_range 240 244 b0 && second4 b0 b1 && continuation b2
                   && continuation b3 && utf8_valid r3)%bool
              end
          end
      end
  end.

Definition from_utf8 (bs : list byte) : option (list byte) :=
  if utf8_valid bs then Some bs else None.

(** What [Id::new] establishes of a Rust [String]. *)
Definition id_ok {Tag} (i : Id Tag) : Prop := as_str i <> [] /\ utf8_valid (as_str i) = true.

(** ** Lemmas *)

Lemma Id_eq {Tag} (i j : Id Tag) : as_str i = as_str j -> i = j.
Proof. destruct i, j. simpl. by intros ->. Qed.

Lemma Id_new_Ok {Tag} value (i : Id Tag) :
  Id_new value = Ok i <-> value <> [] /\ as_str i = value.
Proof.
  destruct i as [v]. destruct value as [|b bs]; simpl.
  - split; [done|]. by intros [? _].
  - split; [by intros [= <-]|]. by intros [_ ->].
Qed.

Lemma as_bytes_inj h h' : as_bytes h = as_bytes h' -> h = h'.
Proof. apply array_eq. Qed.

Lemma as_bytes_length h : length (as_bytes h) = 32%nat.
Proof. apply array_length. Qed.

(** Every hash is told from every other by what it prints, and every identifier is read back. *)
Lemma HashOutput_debug_inj h h' : HashOutput_debug h = HashOutput_debug h' -> h = h'.
Proof.
  unfold HashOutput_debug. intros E. apply as_bytes_inj, hex_bytes_inj.
  rewrite !fold_hex_bytes_from, !str_app_assoc in E. apply app_inv_head_str in E. apply app_inj_str in E as [E _]; [done|].
  by rewrite !length_hex_bytes, !as_bytes_length.
Qed.

Lemma Id_roundtrip {Tag} (i : Id Tag) : as_str i <> [] -> Id_from_str (Id_display i) = Ok i.
Proof. intros H. by apply Id_new_Ok. Qed.
