(* ===== verification/Tree.v ===== *)
(** * The issuance-log Merkle tree: [crates/mtc/src/tree/] and [leaf.rs]

    The hash-function trait and the domain-separated constructions ([digest.rs]), the in-memory
    append-only tree and its Merkle Tree Hash ([builder.rs]), and the decomposition of a range
    into aligned power-of-two subtrees ([decomposition.rs]). *)

From S2P Require Import Prelude Types.

Local Open Scope Z_scope.

(** ** The [Hasher] trait ([digest.rs])

    [digest] hashes the in-order concatenation of its parts; an implementation supplies nothing
    else. *)

Class Hasher : Type := {
  digest : list (list byte) -> HashOutput;
  digest_concat : forall parts, digest parts = digest [List.concat parts]
}.

(** The [sha2] crate, which is not part of the repository: a streaming state. Its documented
    behaviour is that updates only depend on the concatenation of the data fed so far. *)
Record Sha2 : Type := MkSha2 {
  sha_state : Type;
  sha_new : sha_state;
  sha_update : sha_state -> list byte -> sha_state;
  sha_finalize : sha_state -> HashOutput;
  sha_update_nil : forall s, sha_finalize (sha_update s []) = sha_finalize s;
  sha_update_app : forall s a b,
    sha_update (sha_update s a) b = sha_update s (a ++ b)
}.

(** [Sha256Hasher::digest]. *)
Definition Sha256_digest (sha : Sha2) (parts : list (list byte)) : HashOutput :=
  sha_finalize sha (fold_left (sha_update sha) parts (sha_new sha)).

Definition LEAF_PREFIX : byte := x00.
Definition NODE_PREFIX : byte := x01.

Section Digest.
Context {H : Hasher}.

Definition empty_root : HashOutput := digest [].
Definition hash_leaf (entry : list byte) : HashOutput := digest [[LEAF_PREFIX]; entry].
Definition hash_node (left right : HashOutput) : HashOutput :=
  digest [[NODE_PREFIX]; as_bytes left; as_bytes right].

(** What [hash_leaf] and [hash_node] feed to the hash function. *)
Definition leaf_input (entry : list byte) : list byte := LEAF_PREFIX :: entry.
Definition node_input (left right : HashOutput) : list byte :=
  NODE_PREFIX :: as_bytes left ++ as_bytes right.

(** Two different inputs among [inputs] with the same digest. Security statements exhibit
    a collision among the inputs actually hashed, since for a function to 32 bytes the
    existence of some collision is a triviality. *)
Definition collision_in (inputs : list (list byte)) : Prop :=
  exists x y, x ∈ inputs /\ y ∈ inputs /\ x <> y /\ digest [x] = digest [y].
End Digest.

(** ** [LeafBytes] ([leaf.rs]) *)

Record LeafBytes : Type := from_framed { leaf_as_bytes : list byte }.

(** ** [MerkleTree] ([builder.rs]) *)

(** The largest power of two strictly less than [n], for [n >= 2]. *)
Definition split_point (n : Z) : Z := Z.shiftl 1 (ilog2 (n - 1)).

(** [&leaves[a..b]], for bounds inside the slice. *)
Definition slice {A} (l : list A) (a b : Z) : list A :=
  take (Z.to_nat (b - a)) (drop (Z.to_nat a) l).

Record MerkleTree : Type := MkMerkleTree { leaves : list HashOutput }.

Section Builder.
Context {H : Hasher}.

(** [mth]: one unit of fuel per leaf is enough ([mth_unfold]). *)
Fixpoint mth_fuel (fuel : nat) (ls : list HashOutput) : HashOutput :=
  match ls with
  | [] => empty_root
  | [leaf] => leaf
  | _ =>
      match fuel with
      | O => empty_root
      | S fuel' =>
          let k := split_point (len ls) in
          let left := mth_fuel fuel' (take (Z.to_nat k) ls) in
          let right := mth_fuel fuel' (drop (Z.to_nat k) ls) in
          hash_node left right
      end
  end.
Definition mth (ls : list HashOutput) : HashOutput := mth_fuel (length ls) ls.

Definition MerkleTree_new : MerkleTree := {| leaves := [] |}.

Definition append (tree : MerkleTree) (leaf : LeafBytes) : Index * MerkleTree :=
  let index := len (leaves tree) in
  (index, {| leaves := leaves tree ++ [hash_leaf (leaf_as_bytes leaf)] |}).

Definition tree_len (tree : MerkleTree) : TreeSize := len (leaves tree).
Definition tree_is_empty (tree : MerkleTree) : bool := len (leaves tree) =? 0.

Definition leaf_hash (tree : MerkleTree) (index : Index) : option HashOutput :=
  match try_from_uint 64 index with
  | Some i => leaves tree !! Z.to_nat i
  | None => None
  end.

Definition root (tree : MerkleTree) : HashOutput := mth (leaves tree).

Definition subtree_hash (tree : MerkleTree) (start end_ : Index) : option HashOutput :=
  match try_from_uint 64 start, try_from_uint 64 end_ with
  | Some start, Some end_ =>
      if ((end_ <=? start) || (len (leaves tree) <? end_))%bool then None
      else Some (mth (slice (leaves tree) start end_))
  | _, _ => None
  end.

(** Appending a sequence of leaves, first to last. *)
Fixpoint append_all (tree : MerkleTree) (ls : list LeafBytes) : MerkleTree :=
  match ls with
  | [] => tree
  | l :: ls' => append_all (snd (append tree l)) ls'
  end.
End Builder.

(** ** Subtrees ([decomposition.rs]) *)

Inductive SubtreeError : Type :=
| Inverted (start end_ : Z)
| Misaligned (start end_ : Z).

Record Subtree : Type := Subtree_new { st_start : Index; st_end : Index }.

(** [u64::is_power_of_two] and [u64::is_multiple_of]. *)
Definition is_power_of_two (x : Z) : bool := ((0 <? x) && (x =? Z.shiftl 1 (Z.log2 x)))%bool.
Definition is_multiple_of (x n : Z) : bool := if n =? 0 then x =? 0 else x mod n =? 0.

Definition try_new (start end_ : Index) : result Subtree SubtreeError :=
  if end_ <? start then Err (Inverted start end_) else Ok (Subtree_new start end_).

Definition try_aligned (start end_ : Index) : result Subtree SubtreeError :=
  if end_ <? start then Err (Inverted start end_)
  else
    let n := end_ - start in
    if ((n =? 0) || negb (is_power_of_two n) || negb (is_multiple_of start n))%bool
    then Err (Misaligned start end_)
    else Ok (Subtree_new start end_).

Definition st_len (s : Subtree) : Z := saturating_sub (st_end s) (st_start s).
Definition st_is_empty (s : Subtree) : bool := st_start s =? st_end s.

Definition largest_pow2_le (x : Z) : Z := Z.shiftl 1 (ilog2 x).

(** The loop of [decompose_range]: at most two iterations per bit of a [u64]
    ([decompose_range_ok], [decompose_range_count]). *)
Fixpoint decompose_loop (fuel : nat) (i end_ : Z) (blocks : list Subtree) : list Subtree :=
  if negb (i <? end_) then blocks else
  match fuel with
  | O => blocks
  | S fuel' =>
      let by_alignment := if i =? 0 then u64_max else Z.shiftl 1 (trailing_zeros i) in
      let by_span := largest_pow2_le (end_ - i) in
      let step := Z.min by_alignment by_span in
      decompose_loop fuel' (i + step) end_ (blocks ++ [Subtree_new i (i + step)])
  end.

Definition decompose_range (start end_ : Index) : list Subtree :=
  decompose_loop 128 start end_ [].
