(* ===== verification/TreeFacts.v ===== *)
(** * Facts about the Merkle tree

    Powers of two and the split point, slices, the fuel-free equations of the Merkle Tree Hash,
    what a hash collision is extracted from, and the contract of the range decomposition. *)

From S2P Require Import Prelude Types WireLaws Tree.

Local Open Scope Z_scope.

(** ** Powers of two *)

Lemma pow2_pos h : 0 <= h -> 0 < 2 ^ h.
Proof. intros. by apply Z.pow_pos_nonneg. Qed.

Lemma pow2_succ h : 0 <= h -> 2 ^ (h + 1) = 2 * 2 ^ h.
Proof. intros. rewrite Z.add_1_r. by apply Z.pow_succ_r. Qed.

Lemma pow2_le a b : a <= b -> 2 ^ a <= 2 ^ b.
Proof. intros. apply Z.pow_le_mono_r; lia. Qed.

Lemma pow2_lt a b : 0 <= b -> a < b -> 2 ^ a < 2 ^ b.
Proof. intros. apply Z.pow_lt_mono_r; lia. Qed.

(** A higher power of two is an even multiple of a lower one. *)
Lemma pow2_double a b : 0 <= a < b -> 2 ^ b = 2 ^ a * (2 * 2 ^ (b - a - 1)).
Proof.
  intros. replace (2 * 2 ^ (b - a - 1)) with (2 ^ (b - a)).
  - rewrite <- Z.pow_add_r by lia. f_equal. lia.
  - replace (b - a) with (b - a - 1 + 1) at 1 by lia. apply pow2_succ. lia.
Qed.

Lemma pow2_le_inv a b : 0 <= b -> 2 ^ a <= 2 ^ b -> a <= b.
Proof. intros Hb H. apply Z.pow_le_mono_r_iff in H; lia. Qed.

Lemma pow2_lt_le a b : 0 <= a -> 0 <= b -> 2 ^ a < 2 ^ b -> 2 * 2 ^ a <= 2 ^ b.
Proof.
  intros Ha Hb H. apply Z.pow_lt_mono_r_iff in H; [|lia..].
  rewrite <- pow2_succ by done. apply Z.pow_le_mono_r; lia.
Qed.

Lemma split_point_unique n h : 0 <= h -> 2 ^ h < n <= 2 * 2 ^ h -> split_point n = 2 ^ h.
Proof.
  intros Hh Hn. unfold split_point, ilog2. rewrite (Z.log2_unique (n - 1) h); [|lia|].
  - by rewrite Z.shiftl_1_l.
  - rewrite Z.pow_succ_r by done. lia.
Qed.

Lemma split_point_spec n :
  2 <= n -> exists h, 0 <= h /\ split_point n = 2 ^ h /\ 2 ^ h < n <= 2 * 2 ^ h.
Proof.
  intros Hn. exists (Z.log2 (n - 1)).
  pose proof (Z.log2_spec (n - 1) ltac:(lia)) as Hs. pose proof (Z.log2_nonneg (n - 1)).
  rewrite Z.pow_succ_r in Hs by done. unfold split_point, ilog2. rewrite Z.shiftl_1_l.
  split_and!; [done|done|lia..].
Qed.

(** The split of a range no longer than [2 ^ (h + 1)] leaves parts no longer than [2 ^ h]. *)
Lemma split_point_height n h :
  0 <= h -> 2 <= n <= 2 * 2 ^ h ->
  1 <= split_point n <= 2 ^ h /\ 1 <= n - split_point n <= 2 ^ h /\ n - split_point n <= split_point n.
Proof.
  intros Hh Hn. destruct (split_point_spec n ltac:(lia)) as (g & Hg & -> & H1 & H2).
  pose proof (pow2_pos g Hg).
  assert (2 ^ g <= 2 ^ h); [|lia].
  destruct (Z.le_gt_cases (2 ^ g) (2 ^ h)) as [|Hgt]; [done|].
  apply pow2_lt_le in Hgt; [|done..]. lia.
Qed.

Lemma largest_pow2_le_spec x :
  1 <= x -> exists h, 0 <= h /\ h = Z.log2 x /\ largest_pow2_le x = 2 ^ h /\ 2 ^ h <= x < 2 * 2 ^ h.
Proof.
  intros Hx. exists (Z.log2 x). pose proof (Z.log2_spec x ltac:(lia)) as Hs.
  pose proof (Z.log2_nonneg x). rewrite Z.pow_succ_r in Hs by done.
  unfold largest_pow2_le, ilog2. rewrite Z.shiftl_1_l. done.
Qed.

(** A positive number is an odd multiple of [2 ^ trailing_zeros]. *)
Lemma trailing_zeros_spec x :
  0 < x -> 0 <= trailing_zeros x /\ exists q, 0 <= q /\ x = 2 ^ trailing_zeros x * (2 * q + 1).
Proof.
  destruct x as [|p|]; [done| |done]. intros _. cbn [trailing_zeros].
  induction p as [p IH|p IH|]; cbn [pos_trailing_zeros].
  - split; [done|]. exists (Z.pos p). rewrite Z.pow_0_r. lia.
  - destruct IH as (H1 & q & Hq & IH). split; [lia|]. exists q. split; [done|].
    rewrite Z.pow_succ_r by done. lia.
  - split; [done|]. by exists 0.
Qed.

Lemma trailing_zeros_unique x t q : 0 <= t -> 0 <= q -> x = 2 ^ t * (2 * q + 1) -> trailing_zeros x = t.
Proof.
  intros Ht Hq Hx. pose proof (pow2_pos t Ht).
  destruct (trailing_zeros_spec x ltac:(nia)) as (Hu & q' & Hq' & Hx').
  set (u := trailing_zeros x) in *. clearbody u.
  destruct (Z.lt_trichotomy t u) as [Hlt|[->|Hlt]]; [exfalso|done|exfalso].
  - rewrite (pow2_double t u), Hx, <- !Z.mul_assoc in Hx' by lia.
    apply Z.mul_reg_l in Hx'; lia.
  - pose proof (pow2_pos u Hu). rewrite (pow2_double u t), Hx', <- !Z.mul_assoc in Hx by lia.
    apply Z.mul_reg_l in Hx; lia.
Qed.

Lemma trailing_zeros_pow2 h : 0 <= h -> trailing_zeros (2 ^ h) = h.
Proof. intros Hh. apply (trailing_zeros_unique _ _ 0); lia. Qed.

Lemma is_power_of_two_pow2 h : 0 <= h -> is_power_of_two (2 ^ h) = true.
Proof.
  intros Hh. unfold is_power_of_two. rewrite Z.log2_pow2, Z.shiftl_1_l by done.
  rewrite Z.eqb_refl, (proj2 (Z.ltb_lt _ _)); [done|by apply pow2_pos].
Qed.

(** ** Slices *)

Lemma len_slice {A} (l : list A) a b : 0 <= a <= b -> b <= len l -> len (slice l a b) = b - a.
Proof. intros. unfold slice, len in *. rewrite length_take, length_drop. lia. Qed.

Lemma slice_all {A} (l : list A) : slice l 0 (len l) = l.
Proof. unfold slice, len. rewrite Z.sub_0_r, Nat2Z.id. simpl. by rewrite firstn_all. Qed.

Lemma slice_slice {A} (l : list A) a b c d :
  0 <= a -> 0 <= c <= d -> a + d <= b -> slice (slice l a b) c d = slice l (a + c) (a + d).
Proof.
  intros. unfold slice. rewrite skipn_firstn_comm, take_take, drop_drop.
  f_equal; [lia|]. f_equal. lia.
Qed.

Lemma slice_split {A} (l : list A) a m b :
  0 <= a <= m -> m <= b -> slice l a b = slice l a m ++ slice l m b.
Proof.
  intros. replace (slice l m b) with (drop (Z.to_nat (m - a)) (slice l a b)).
  - replace (slice l a m) with (take (Z.to_nat (m - a)) (slice l a b)); [by rewrite take_drop|].
    unfold slice. rewrite take_take. f_equal. lia.
  - unfold slice. rewrite skipn_firstn_comm, drop_drop. f_equal; [lia|]. f_equal. lia.
Qed.

Lemma slice_app_l {A} (l l' : list A) a b : 0 <= a <= b -> b <= len l -> slice (l ++ l') a b = slice l a b.
Proof.
  intros. unfold slice, len in *. rewrite drop_app_le by lia.
  rewrite take_app_le by (rewrite length_drop; lia). done.
Qed.

Lemma slice_singleton {A} (l : list A) i x : 0 <= i -> l !! Z.to_nat i = Some x -> slice l i (i + 1) = [x].
Proof.
  intros Hi Hx. unfold slice. replace (i + 1 - i) with 1 by lia. change (Z.to_nat 1) with 1%nat.
  by rewrite (drop_S _ _ _ Hx).
Qed.

(** ** The Merkle Tree Hash *)

Section Mth.
Context {H : Hasher}.

Lemma mth_fuel_S f ls :
  2 <= len ls ->
  mth_fuel (S f) ls = hash_node (mth_fuel f (take (Z.to_nat (split_point (len ls))) ls))
                                (mth_fuel f (drop (Z.to_nat (split_point (len ls))) ls)).
Proof. destruct ls as [|a [|b ls]]; [done..|reflexivity]. Qed.

Lemma mth_fuel_short f ls : len ls < 2 -> mth_fuel f ls = default empty_root (head ls).
Proof. destruct ls as [|a [|b ls]], f; try done; unfold len; simpl; lia. Qed.

Lemma mth_fuel_enough f1 : forall f2 ls,
  (length ls <= f1)%nat -> (length ls <= f2)%nat -> mth_fuel f1 ls = mth_fuel f2 ls.
Proof.
  induction f1 as [|f1 IH]; intros f2 ls H1 H2;
    (destruct (Z.lt_ge_cases (len ls) 2) as [Hs|Hl]; [by rewrite !mth_fuel_short|]).
  - unfold len in Hl. lia.
  - destruct f2 as [|f2]; [unfold len in Hl; lia|]. rewrite !mth_fuel_S by done.
    destruct (split_point_spec (len ls) Hl) as (h & Hh & -> & Hlt).
    pose proof (pow2_pos h Hh). unfold len in Hlt.
    f_equal; apply IH; rewrite ?length_take, ?length_drop; lia.
Qed.

Lemma mth_nil : mth [] = empty_root.
Proof. done. Qed.

Lemma mth_single x : mth [x] = x.
Proof. done. Qed.

(** The recurrence of RFC 9162, free of fuel. *)
Lemma mth_unfold ls :
  2 <= len ls ->
  mth ls = hash_node (mth (take (Z.to_nat (split_point (len ls))) ls))
                     (mth (drop (Z.to_nat (split_point (len ls))) ls)).
Proof.
  intros Hl. unfold mth. destruct (length ls) as [|n] eqn:Hn; [unfold len in Hl; lia|].
  rewrite mth_fuel_S by done.
  destruct (split_point_spec (len ls) Hl) as (h & Hh & -> & Hlt).
  pose proof (pow2_pos h Hh). unfold len in Hlt.
  f_equal; apply mth_fuel_enough; rewrite ?length_take, ?length_drop; lia.
Qed.

Lemma mth_app l1 l2 h :
  0 <= h -> len l1 = 2 ^ h -> 1 <= len l2 <= 2 ^ h ->
  mth (l1 ++ l2) = hash_node (mth l1) (mth l2).
Proof.
  intros Hh H1 H2. pose proof (pow2_pos h Hh).
  rewrite mth_unfold by (rewrite len_app; lia).
  rewrite len_app, (split_point_unique _ h) by lia.
  replace (Z.to_nat (2 ^ h)) with (length l1) by (unfold len in H1; lia).
  by rewrite take_app_length, drop_app_length.
Qed.

Lemma mth_slice_split l a b :
  0 <= a -> 2 <= b - a -> b <= len l ->
  mth (slice l a b) = hash_node (mth (slice l a (a + split_point (b - a))))
                                (mth (slice l (a + split_point (b - a)) b)).
Proof.
  intros Ha Hb Hl. destruct (split_point_spec (b - a) Hb) as (h & Hh & Hk & Hlt).
  pose proof (pow2_pos h Hh). rewrite Hk.
  rewrite (slice_split l a (a + 2 ^ h) b) by lia.
  apply (mth_app _ _ h); rewrite ?len_slice; lia.
Qed.

(** ** Collisions *)

Lemma collision_in_mono qs qs' : qs ⊆ qs' -> collision_in qs -> collision_in qs'.
Proof. intros Hs (x & y & Hx & Hy & Hd). exists x, y. auto. Qed.

Lemma collision_in_app_r qs qs' : collision_in qs' -> collision_in (qs ++ qs').
Proof. apply collision_in_mono. set_solver. Qed.

Lemma collision_in_app_l qs qs' : collision_in qs -> collision_in (qs ++ qs').
Proof. apply collision_in_mono. set_solver. Qed.

Lemma collision_pair x y : x <> y -> digest [x] = digest [y] -> collision_in [x; y].
Proof. intros. exists x, y. set_solver. Qed.

Lemma hash_node_input l r : hash_node l r = digest [node_input l r].
Proof. unfold hash_node. rewrite digest_concat. simpl. by rewrite app_nil_r. Qed.

Lemma hash_leaf_input e : hash_leaf e = digest [leaf_input e].
Proof. unfold hash_leaf. rewrite digest_concat. simpl. by rewrite app_nil_r. Qed.

Lemma empty_root_input : empty_root = digest [[]].
Proof. apply digest_concat. Qed.

Lemma node_input_inj l r l' r' : node_input l r = node_input l' r' -> l = l' /\ r = r'.
Proof.
  intros E. injection E as E. apply app_inj_1 in E as [E1 E2]; [|by rewrite !as_bytes_length].
  split; by apply as_bytes_inj.
Qed.

Lemma hash_node_inj l r l' r' :
  hash_node l r = hash_node l' r' ->
  (l = l' /\ r = r') \/ collision_in [node_input l r; node_input l' r'].
Proof.
  rewrite !hash_node_input. intros E.
  destruct (decide (node_input l r = node_input l' r')) as [Hn|Hn].
  - left. by apply node_input_inj.
  - right. by apply collision_pair.
Qed.

Lemma hash_leaf_inj e e' :
  hash_leaf e = hash_leaf e' -> e = e' \/ collision_in [leaf_input e; leaf_input e'].
Proof.
  rewrite !hash_leaf_input. intros E. destruct (decide (e = e')) as [|Hn]; [by left|right].
  apply collision_pair; [|done]. by intros [=].
Qed.

(** Leaf and interior inputs differ in their first byte. *)
Lemma hash_leaf_node e l r :
  hash_leaf e = hash_node l r -> collision_in [leaf_input e; node_input l r].
Proof. rewrite hash_leaf_input, hash_node_input. by apply collision_pair. Qed.

Lemma hash_leaf_empty e : hash_leaf e = empty_root -> collision_in [leaf_input e; []].
Proof. rewrite hash_leaf_input, empty_root_input. by apply collision_pair. Qed.

Lemma hash_node_empty l r : hash_node l r = empty_root -> collision_in [node_input l r; []].
Proof. rewrite hash_node_input, empty_root_input. by apply collision_pair. Qed.
End Mth.

(** A collision among some of the inputs is one among all of them. *)
Ltac collide :=
  match goal with
  | Hc : collision_in ?qs |- collision_in ?qs' =>
      refine (collision_in_mono qs qs' _ Hc); clear; set_solver
  end.

(** [Sha256Hasher] implements [Hasher]. *)
Lemma sha_fold (sha : Sha2) parts : forall s,
  sha_finalize sha (fold_left (sha_update sha) parts s)
  = sha_finalize sha (sha_update sha s (List.concat parts)).
Proof.
  induction parts as [|p parts IH]; intros s; simpl.
  - by rewrite sha_update_nil.
  - by rewrite IH, sha_update_app.
Qed.

Lemma Sha256_digest_concat (sha : Sha2) parts :
  Sha256_digest sha parts = Sha256_digest sha [List.concat parts].
Proof. unfold Sha256_digest. rewrite !sha_fold. simpl. by rewrite app_nil_r. Qed.

Definition Sha256Hasher (sha : Sha2) : Hasher :=
  {| digest := Sha256_digest sha; digest_concat := Sha256_digest_concat sha |}.

(** A concrete hash function, to evaluate the definitions on examples: a polynomial of the
    concatenated bytes modulo [2 ^ 32]. *)
Definition toy_hash (data : list byte) : Z :=
  fold_left (fun acc b => (acc * 16777619 + byte_val b + 40503) mod 2 ^ 32) data 2166136261.

Lemma toy_length data : Nat.eqb (length (to_be_bytes 32 (toy_hash data))) 32 = true.
Proof. by rewrite length_to_be_bytes. Qed.

Definition toy_digest (parts : list (list byte)) : HashOutput :=
  Array (to_be_bytes 32 (toy_hash (List.concat parts))) (toy_length (List.concat parts)).

Lemma toy_digest_concat parts : toy_digest parts = toy_digest [List.concat parts].
Proof. apply array_eq. simpl. by rewrite app_nil_r. Qed.

Definition ToyHasher : Hasher :=
  {| digest := toy_digest; digest_concat := toy_digest_concat |}.

(** A tree of [n] one-byte leaves. *)
Definition toy_leaf (i : nat) : LeafBytes := from_framed [byte_of_Z (Z.of_nat i)].
Definition toy_tree (n : nat) : MerkleTree :=
  append_all (H := ToyHasher) MerkleTree_new (map toy_leaf (seq 0 n)).

(** ** The specification of the tree *)

(** The Merkle Tree Hash of RFC 9162, over leaf data. *)
Inductive MTH {H : Hasher} : list (list byte) -> HashOutput -> Prop :=
| MTH_empty : MTH [] (digest [])
| MTH_leaf d : MTH [d] (digest [[LEAF_PREFIX]; d])
| MTH_node h left right l r :
    0 <= h -> len left = 2 ^ h -> 1 <= len right <= 2 ^ h ->
    MTH left l -> MTH right r ->
    MTH (left ++ right) (digest [[NODE_PREFIX]; as_bytes l; as_bytes r]).

Section Spec.
Context {H : Hasher}.

Lemma append_all_leaves ls : forall tree,
  leaves (append_all tree ls) = leaves tree ++ map (fun l => hash_leaf (leaf_as_bytes l)) ls.
Proof.
  induction ls as [|l ls IH]; intros tree; simpl; [by rewrite app_nil_r|].
  rewrite IH. simpl. by rewrite <- app_assoc.
Qed.

Lemma MTH_mth n : forall ds, (length ds <= n)%nat -> MTH ds (mth (map hash_leaf ds)).
Proof.
  induction n as [|n IH]; intros ds Hn.
  { destruct ds; [apply MTH_empty|simpl in Hn; lia]. }
  destruct (Z.lt_ge_cases (len ds) 2) as [Hs|Hs].
  { destruct ds as [|d [|]]; [apply MTH_empty|apply MTH_leaf|unfold len in Hs; simpl in Hs; lia]. }
  assert (len (map hash_leaf ds) = len ds) as Hlen by (unfold len; by rewrite length_map).
  rewrite mth_unfold, Hlen by lia.
  destruct (split_point_spec (len ds) Hs) as (h & Hh & -> & Hlt).
  pose proof (pow2_pos h Hh). unfold len in Hlt.
  rewrite <- (take_drop (Z.to_nat (2 ^ h)) ds) at 1.
  rewrite firstn_map, skipn_map. apply (MTH_node h); [done| | |apply IH|apply IH];
    rewrite ?length_take, ?length_drop; unfold len; rewrite ?length_take, ?length_drop; lia.
Qed.
End Spec.

(** ** The properties *)

(** C6. The tree computes the Merkle Tree Hash of RFC 9162: appending a sequence of leaves to the
    empty tree gives the root the RFC's recursive definition gives their framed bytes. *)
Theorem root_rfc9162 {H : Hasher} (ls : list LeafBytes) :
  MTH (map leaf_as_bytes ls) (root (append_all MerkleTree_new ls)).
Proof.
  unfold root. rewrite append_all_leaves. simpl. rewrite <- (map_map leaf_as_bytes hash_leaf).
  by apply (MTH_mth (length ls)); rewrite length_map.
Qed.

(** Appending is index-stable and never changes what was hashed before: the new leaf gets the
    old length as its index, every old leaf keeps its index, and every subtree hash over old
    leaves stays what it was. *)
Theorem append_frozen {H : Hasher} (tree : MerkleTree) (leaf : LeafBytes) :
  let '(index, tree') := append tree leaf in
  tree_len tree' < 2 ^ 64 ->
  tree_len tree' = tree_len tree + 1 /\ index = tree_len tree /\
  leaf_hash tree' index = Some (hash_leaf (leaf_as_bytes leaf)) /\
  (forall i h, leaf_hash tree i = Some h -> leaf_hash tree' i = Some h) /\
  (forall a b h, subtree_hash tree a b = Some h -> subtree_hash tree' a b = Some h).
Proof.
  simpl. unfold tree_len. simpl. rewrite len_app. change (len [_]) with 1. intros Hl.
  pose proof (len_nonneg (leaves tree)). split_and!; [done|done| | |].
  - unfold leaf_hash. rewrite try_from_uint_in by (split; lia). simpl.
    unfold len. rewrite Nat2Z.id. by rewrite list_lookup_middle.
  - intros i h. unfold leaf_hash. destruct (try_from_uint 64 i); [|done]. simpl.
    apply lookup_app_l_Some.
  - intros a b h. unfold subtree_hash.
    destruct (try_from_uint 64 a) as [a'|] eqn:Ea; [|done].
    destruct (try_from_uint 64 b) as [b'|] eqn:Eb; [|done].
    apply try_from_uint_Some in Ea as [-> [Ha _]]. apply try_from_uint_Some in Eb as [-> _].
    cbn [leaves]. rewrite len_app. change (len [_]) with 1.
    destruct (Z.leb_spec b a); [done|]. destruct (Z.ltb_spec (len (leaves tree)) b); [done|].
    cbn [orb]. rewrite (proj2 (Z.ltb_ge _ _)) by lia.
    by rewrite slice_app_l by lia.
Qed.

Lemma append_frozen_witness :
  subtree_hash (H := ToyHasher) (snd (append (H := ToyHasher) (toy_tree 5) (toy_leaf 9))) 1 4
  = subtree_hash (H := ToyHasher) (toy_tree 5) 1 4.
Proof.
  destruct (append_frozen (H := ToyHasher) (toy_tree 5) (toy_leaf 9)) as (_ & _ & _ & _ & Hs);
    [by vm_compute|].
  apply Hs. by vm_compute.
Defined.
