(* ===== verification/Decomposition.v ===== *)
(** * The contract of [decompose_range]

    The blocks form a chain from [start] to [end], each is an aligned power-of-two block, and
    there are at most two per bit of the span. The greedy step equations proved here are also
    what the tile planner's correctness rests on. *)

From S2P Require Import Prelude Types WireLaws Tree TreeFacts.

Local Open Scope Z_scope.

(** ** Specification *)

(** The blocks are contiguous, from [a] to [b]. *)
Fixpoint covers (a b : Z) (blocks : list Subtree) : Prop :=
  match blocks with
  | [] => a = b
  | s :: blocks' => st_start s = a /\ covers (st_end s) b blocks'
  end.

(** An aligned block of [2 ^ h] leaves. *)
Definition aligned_block (s : Subtree) : Prop :=
  exists h, 0 <= h /\ 0 <= st_start s /\ st_end s = st_start s + 2 ^ h /\ (2 ^ h | st_start s).

(** The number of significant bits. *)
Definition bit_length (n : Z) : Z := if n =? 0 then 0 else Z.log2 n + 1.

Definition good_cover (count a b : Z) (blocks : list Subtree) : Prop :=
  covers a b blocks /\ Forall aligned_block blocks /\ len blocks <= count.

Abbreviation dec fuel i e := (decompose_loop fuel i e []).

(** ** The greedy step *)

Lemma pow2_divide a b : 0 <= a <= b -> (2 ^ a | 2 ^ b).
Proof. intros. exists (2 ^ (b - a)). rewrite <- Z.pow_add_r by lia. f_equal. lia. Qed.

Lemma divide_pow2_le x a b : 0 <= a <= b -> (2 ^ b | x) -> (2 ^ a | x).
Proof. intros. etrans; [by apply pow2_divide|done]. Qed.

#[export] Instance Z_divide_dec a b : Decision (a | b).
Proof.
  destruct (decide (a = 0)) as [->|Ha].
  - destruct (decide (b = 0)) as [->|Hb].
    + left. apply Z.divide_refl.
    + right. by intros ?%Z.divide_0_l.
  - destruct (decide (b mod a = 0)) as [Hm|Hm]; rewrite Z.mod_divide in Hm by done; [by left|by right].
Defined.

Lemma divide_trailing_zeros x h : 0 < x -> 0 <= h -> (2 ^ h | x) <-> h <= trailing_zeros x.
Proof.
  intros Hx Hh. destruct (trailing_zeros_spec x Hx) as (Hu & q & Hq & Hxq).
  set (u := trailing_zeros x) in *. split.
  - intros [c Hc]. destruct (Z.le_gt_cases h u) as [|Hgt]; [done|]. exfalso.
    rewrite (pow2_double u h) in Hc by lia. rewrite Hxq in Hc.
    replace (c * (2 ^ u * (2 * 2 ^ (h - u - 1)))) with (2 ^ u * (2 * (c * 2 ^ (h - u - 1)))) in Hc by ring.
    pose proof (pow2_pos u Hu). apply Z.mul_reg_l in Hc; lia.
  - intros Hle. rewrite Hxq. apply Z.divide_mul_l. by apply pow2_divide.
Qed.

Definition dec_step (i e : Z) : Z :=
  Z.min (if i =? 0 then u64_max else Z.shiftl 1 (trailing_zeros i)) (largest_pow2_le (e - i)).

Lemma dec_step_aligned i e h :
  0 <= i < e -> e < 2 ^ 64 -> h = Z.log2 (e - i) -> (2 ^ h | i) -> dec_step i e = 2 ^ h.
Proof.
  intros Hi He Heq Hd. unfold dec_step.
  destruct (largest_pow2_le_spec (e - i) ltac:(lia)) as (h' & Hh & Hlog & -> & Hb).
  replace h' with h in * by congruence.
  destruct (Z.eqb_spec i 0) as [->|Hne].
  - unfold u64_max. lia.
  - apply divide_trailing_zeros in Hd; [|lia..]. rewrite Z.shiftl_1_l.
    pose proof (pow2_le _ _ Hd). lia.
Qed.

Lemma dec_step_unaligned i e h :
  0 <= i < e -> h = Z.log2 (e - i) -> ~ (2 ^ h | i) ->
  0 < i /\ trailing_zeros i < h /\ dec_step i e = 2 ^ trailing_zeros i.
Proof.
  intros Hi Heq Hd. unfold dec_step.
  destruct (largest_pow2_le_spec (e - i) ltac:(lia)) as (h' & Hh & Hlog & -> & Hb).
  replace h' with h in * by congruence.
  destruct (Z.eqb_spec i 0) as [->|Hne]; [destruct Hd; apply Z.divide_0_r|].
  rewrite divide_trailing_zeros in Hd by lia. rewrite Z.shiftl_1_l.
  destruct (trailing_zeros_spec i ltac:(lia)) as [Hu _].
  pose proof (pow2_le (trailing_zeros i) h ltac:(lia)). lia.
Qed.

(** ** The loop *)

Lemma dec_acc fuel : forall i e acc, decompose_loop fuel i e acc = acc ++ dec fuel i e.
Proof.
  induction fuel as [|fuel IH]; intros i e acc; simpl; destruct (i <? e); simpl;
    rewrite ?app_nil_r; try done.
  rewrite IH, (IH _ _ [_]). by rewrite <- app_assoc.
Qed.

Lemma dec_stop fuel i e : e <= i -> dec fuel i e = [].
Proof. intros Hi. destruct fuel; simpl; by rewrite (proj2 (Z.ltb_ge _ _)). Qed.

Lemma dec_S fuel i e :
  i < e -> dec (S fuel) i e = Subtree_new i (i + dec_step i e) :: dec fuel (i + dec_step i e) e.
Proof.
  intros Hi. cbn [decompose_loop]. rewrite (proj2 (Z.ltb_lt _ _)) by done. cbn [negb].
  rewrite dec_acc. reflexivity.
Qed.

Lemma dec_O i e : dec 0 i e = [].
Proof. simpl. by destruct (negb _). Qed.

Lemma good_cover_nil c a : 0 <= c -> good_cover c a a [].
Proof. intros. split_and!; [done|constructor|done]. Qed.

Lemma good_cover_cons c a b h blocks :
  0 <= h -> 0 <= a -> (2 ^ h | a) -> good_cover c (a + 2 ^ h) b blocks ->
  good_cover (c + 1) a b (Subtree_new a (a + 2 ^ h) :: blocks).
Proof.
  intros Hh Ha Hd (Hc & Hf & Hl). split_and!.
  - by split.
  - constructor; [|done]. exists h. done.
  - unfold len in *. simpl. lia.
Qed.

Lemma good_cover_le c c' a b blocks : good_cover c a b blocks -> c <= c' -> good_cover c' a b blocks.
Proof. intros (? & ? & ?) ?. split_and!; [done..|lia]. Qed.

(** Once the remaining span is shorter than the alignment, the block sizes decrease. *)
Lemma dec_descend fuel : forall h i e,
  0 <= i <= e -> e < 2 ^ 64 -> 0 <= h <= Z.of_nat fuel ->
  (2 ^ h | i) -> e - i < 2 ^ h -> good_cover h i e (dec fuel i e).
Proof.
  induction fuel as [|fuel IH]; intros h i e Hi He Hh Hd Hs.
  - assert (h = 0) as -> by lia. assert (e = i) as -> by lia. rewrite dec_O.
    by apply good_cover_nil.
  - destruct (Z.le_gt_cases e i); [rewrite dec_stop by done; replace e with i by lia;
      apply good_cover_nil; lia|].
    rewrite dec_S by done.
    destruct (largest_pow2_le_spec (e - i) ltac:(lia)) as (s & Hs0 & Hslog & _ & Hb).
    assert (s < h) by (apply (Z.pow_lt_mono_r_iff 2); lia).
    assert (2 ^ s | i) by (apply (divide_pow2_le i s h); [lia|done]).
    rewrite (dec_step_aligned i e s) by (done || lia).
    eapply good_cover_le; [apply good_cover_cons; [done|lia|done|apply (IH s)]|]; try lia.
    apply Z.divide_add_r; [done|apply Z.divide_refl].
Qed.

(** Until then the alignment increases. *)
Lemma dec_ascend fuel : forall B t i e,
  0 <= i <= e -> e < 2 ^ 64 -> 0 <= t <= B -> 2 * B - t <= Z.of_nat fuel ->
  (2 ^ t | i) -> e - i < 2 ^ B -> good_cover (2 * B - t) i e (dec fuel i e).
Proof.
  induction fuel as [|fuel IH]; intros B t i e Hi He Ht Hf Hd Hs.
  - assert (B = 0) as -> by lia. assert (e = i) as -> by lia. rewrite dec_O.
    apply good_cover_nil. lia.
  - destruct (Z.le_gt_cases e i); [rewrite dec_stop by done; replace e with i by lia;
      apply good_cover_nil; lia|].
    rewrite dec_S by done.
    destruct (largest_pow2_le_spec (e - i) ltac:(lia)) as (s & Hs0 & Hslog & _ & Hb).
    assert (s < B) by (apply (Z.pow_lt_mono_r_iff 2); lia).
    destruct (decide (2 ^ s | i)) as [Hds|Hnd].
    + rewrite (dec_step_aligned i e s) by (done || lia).
      eapply good_cover_le; [apply good_cover_cons; [done|lia|done|apply (dec_descend _ s)]|]; try lia.
      apply Z.divide_add_r; [done|apply Z.divide_refl].
    + destruct (dec_step_unaligned i e s) as (Hi0 & Hlt & ->); [lia|done..|].
      destruct (trailing_zeros_spec i Hi0) as (Hu & q & Hq & Hiq).
      pose proof Hd as Htu. apply divide_trailing_zeros in Htu; [|lia..].
      set (u := trailing_zeros i) in *.
      pose proof (pow2_lt u s ltac:(lia) ltac:(lia)).
      eapply good_cover_le; [apply good_cover_cons; [done|lia| |apply (IH B (u + 1))]|]; try lia.
      * apply divide_trailing_zeros; lia.
      * exists (q + 1). rewrite pow2_succ, Hiq at 1 by done. ring.
Qed.

Lemma bit_length_spec n : 0 <= n -> 0 <= bit_length n /\ n < 2 ^ bit_length n.
Proof.
  intros Hn. unfold bit_length. destruct (Z.eqb_spec n 0) as [->|]; [done|].
  pose proof (Z.log2_nonneg n). pose proof (Z.log2_spec n ltac:(lia)).
  rewrite Z.add_1_r. lia.
Qed.

Lemma bit_length_u64 n : 0 <= n < 2 ^ 64 -> bit_length n <= 64.
Proof.
  intros Hn. unfold bit_length. destruct (Z.eqb_spec n 0) as [->|]; [done|].
  pose proof (Z.log2_lt_pow2 n 64). lia.
Qed.

Lemma dec_good f a b :
  0 <= a <= b -> b < 2 ^ 64 -> (128 <= f)%nat -> good_cover (2 * bit_length (b - a)) a b (dec f a b).
Proof.
  intros Ha Hb Hf. pose proof (bit_length_spec (b - a) ltac:(lia)).
  pose proof (bit_length_u64 (b - a) ltac:(lia)).
  eapply good_cover_le; [apply (dec_ascend f (bit_length (b - a)) 0)|]; try lia.
  apply Z.divide_1_l.
Qed.

Lemma decompose_range_dec a b : decompose_range a b = dec 128 a b.
Proof. unfold decompose_range. reflexivity. Qed.

Lemma decompose_range_good a b :
  0 <= a <= b -> b < 2 ^ 64 -> good_cover (2 * bit_length (b - a)) a b (decompose_range a b).
Proof. intros. rewrite decompose_range_dec. by apply dec_good. Qed.

(** More fuel never changes a finished decomposition. *)
Lemma dec_fuel_mono f : forall f' i e,
  covers i e (dec f i e) -> (f <= f')%nat -> dec f' i e = dec f i e.
Proof.
  induction f as [|f IH]; intros f' i e Hc Hf.
  - rewrite dec_O in Hc |- *. simpl in Hc. apply dec_stop. lia.
  - destruct (Z.le_gt_cases e i); [by rewrite !dec_stop|].
    destruct f' as [|f']; [lia|]. rewrite !dec_S in * by done. f_equal.
    apply IH; [|lia]. by destruct Hc.
Qed.

Lemma decompose_range_stop i e : e <= i -> decompose_range i e = [].
Proof. rewrite decompose_range_dec. apply dec_stop. Qed.

Lemma dec_unfold f i e :
  covers i e (dec f i e) -> i < e ->
  dec f i e = Subtree_new i (i + dec_step i e) :: dec f (i + dec_step i e) e.
Proof.
  intros Hc Hi. rewrite <- (dec_fuel_mono f (S f)) at 1 by (done || lia).
  by rewrite dec_S.
Qed.

(** The step equation of [decompose_range], free of fuel. *)
Lemma decompose_range_unfold i e :
  0 <= i < e -> e < 2 ^ 64 ->
  decompose_range i e = Subtree_new i (i + dec_step i e) :: decompose_range (i + dec_step i e) e.
Proof.
  intros Hi He. rewrite !decompose_range_dec. apply dec_unfold; [|lia].
  destruct (dec_good 128 i e ltac:(lia) He ltac:(lia)) as [Hc _]. exact Hc.
Qed.

Lemma try_aligned_block s : aligned_block s -> try_aligned (st_start s) (st_end s) = Ok s.
Proof.
  intros (h & Hh & H0 & He & Hd). destruct s as [a e]. simpl in *. subst e.
  pose proof (pow2_pos h Hh). unfold try_aligned.
  rewrite (proj2 (Z.ltb_ge _ _)) by lia. replace (a + 2 ^ h - a) with (2 ^ h) by lia.
  rewrite is_power_of_two_pow2 by done. unfold is_multiple_of.
  rewrite (proj2 (Z.eqb_neq _ _)) by lia. simpl.
  apply Z.mod_divide in Hd; [|lia]. by rewrite Hd.
Qed.

(** ** The property *)

(** [decompose_range] covers the range: its blocks are contiguous from [start] to [end],
    each is accepted by [try_aligned] (a power-of-two size dividing its start), and there are
    at most two per significant bit of the span; the greedy loop therefore ends within the
    fuel. *)
Theorem decompose_range_contract (start end_ : Index) :
  0 <= start <= end_ -> in_u64 end_ ->
  covers start end_ (decompose_range start end_) /\
  Forall (fun s => try_aligned (st_start s) (st_end s) = Ok s) (decompose_range start end_) /\
  len (decompose_range start end_) <= 2 * bit_length (end_ - start).
Proof.
  intros Hs [_ He]. destruct (decompose_range_good start end_ Hs He) as (Hc & Ha & Hn).
  split_and!; [done| |done]. eapply Forall_impl; [exact Ha|apply try_aligned_block].
Qed.

Lemma decompose_range_contract_witness :
  covers 5 13 (decompose_range 5 13) /\
  Forall (fun s => try_aligned (st_start s) (st_end s) = Ok s) (decompose_range 5 13) /\
  len (decompose_range 5 13) <= 2 * bit_length (13 - 5).
Proof. apply decompose_range_contract; vm_compute; intuition discriminate. Defined.
