(* ===== verification/Proofs.v ===== *)
(** * What the two Merkle proofs share: [crates/mtc/src/proof.rs] *)

From S2P Require Import Prelude Types.

Local Open Scope Z_scope.

Inductive ProofError : Type :=
| IndexOutOfRange (index tree_size : Z)
| NonMonotonicSizes (old_size new_size : Z)
| TreeTooSmall (requested available : Z)
| MalformedPath (expected actual : Z)
| RootMismatch.

Definition largest_power_of_two_below (n : Z) : Z := Z.shiftl 1 (ilog2 (n - 1)).

(** [x & 1 == 1]. *)
Definition low_bit (x : Z) : bool := Z.land x 1 =? 1.
