(* ===== verification/Inclusion.v ===== *)
(** * Inclusion proofs: [crates/mtc/src/proof/inclusion.rs]

    Generation of an audit path by recursion over the tree, its verification by the iterative
    algorithm of RFC 9162 over the positions of the node and of the last node at each level,
    and the wire codec of the proof. *)

From S2P Require Import Prelude Types Wire Tree Proofs.

Local Open Scope Z_scope.
Local Open Scope mtc_scope.

Record InclusionProof : Type := from_parts {
  tree_size : TreeSize;
  leaf_index : Index;
  audit_path : list HashOutput
}.

Section Inclusion.
Context {H : Hasher}.

(** Recursion over a range of at most [2 ^ fuel] leaves: 64 for a [u64]. *)
Fixpoint collect_siblings (fuel : nat) (tree : MerkleTree) (start end_ index : Z)
    (out : list HashOutput) : result (list HashOutput) ProofError :=
  if end_ - start =? 1 then Ok out else
  match fuel with
  | O => Ok out
  | S fuel' =>
      let k := start + largest_power_of_two_below (end_ - start) in
      let? recursed :=
        (if index <? k
         then let? out' := collect_siblings fuel' tree start k index out in
              Ok (out', k, end_)
         else let? out' := collect_siblings fuel' tree k end_ index out in
              Ok (out', start, k)) in
      let '(out', sib_start, sib_end) := recursed in
      let? sibling := ok_or (subtree_hash tree sib_start sib_end)
                            (IndexOutOfRange index end_) in
      Ok (out' ++ [sibling])
  end.

Definition generate (tree : MerkleTree) (index : Index) : result InclusionProof ProofError :=
  let size := tree_len tree in
  if size <=? index then Err (IndexOutOfRange index size)
  else
    let? path := collect_siblings 64 tree 0 size index [] in
    Ok (from_parts size index path).

(** The loop of [inclusion_path_len]: one iteration per tree level. *)
Fixpoint path_len_loop (fuel : nat) (n start end_ index : Z) : Z :=
  if negb (1 <? end_ - start) then n else
  match fuel with
  | O => n
  | S fuel' =>
      let k := start + largest_power_of_two_below (end_ - start) in
      if index <? k
      then path_len_loop fuel' (n + 1) start k index
      else path_len_loop fuel' (n + 1) k end_ index
  end.
Definition inclusion_path_len (index size : Z) : Z := path_len_loop 64 0 0 size index.

(** [while fnn != 0 && fnn & 1 == 0 { fnn >>= 1; sn >>= 1; }]. *)
Fixpoint skip_levels (fuel : nat) (fnn sn : Z) : Z * Z :=
  if (negb (fnn =? 0) && negb (low_bit fnn))%bool then
    match fuel with
    | O => (fnn, sn)
    | S fuel' => skip_levels fuel' (Z.shiftr fnn 1) (Z.shiftr sn 1)
    end
  else (fnn, sn).

(** The [for] loop of [verify], over the siblings left. *)
Fixpoint verify_loop (expected actual : Z) (path : list HashOutput) (fnn sn : Z)
    (acc : HashOutput) : result (Z * Z * HashOutput) ProofError :=
  match path with
  | [] => Ok (fnn, sn, acc)
  | sibling :: path' =>
      if sn =? 0 then Err (MalformedPath expected actual)
      else
        let '(fnn', sn', acc') :=
          if (low_bit fnn || (fnn =? sn))%bool
          then let '(f, s) := skip_levels 64 fnn sn in (f, s, hash_node sibling acc)
          else (fnn, sn, hash_node acc sibling) in
        verify_loop expected actual path' (Z.shiftr fnn' 1) (Z.shiftr sn' 1) acc'
  end.

Definition verify (proof : InclusionProof) (leaf_hash expected_root : HashOutput) :
    result unit ProofError :=
  let index := leaf_index proof in
  let size := tree_size proof in
  if size <=? index then Err (IndexOutOfRange index size)
  else
    let expected := inclusion_path_len index size in
    let actual := len (audit_path proof) in
    if negb (actual =? expected) then Err (MalformedPath expected actual)
    else
      let? state := verify_loop expected actual (audit_path proof) index (size - 1) leaf_hash in
      let '(fnn, sn, acc) := state in
      if negb (sn =? 0) then Err (MalformedPath expected actual)
      else if decide (acc = expected_root) then Ok tt
      else Err RootMismatch.
End Inclusion.

(** ** The codec *)

#[export] Instance inclusion_serialize : TlsSerialize InclusionProof := fun proof =>
  do! write_bytes (to_be_bytes 8 (tree_size proof));
  do! write_bytes (to_be_bytes 8 (leaf_index proof));
  write_vector_u16 (audit_path proof).

#[export] Instance inclusion_parse : TlsParse InclusionProof :=
  let! size_bytes := read_array 8 in
  let! index_bytes := read_array 8 in
  let! path := read_vector_u16 in
  ret (from_parts (from_be_bytes (arr_list size_bytes)) (from_be_bytes (arr_list index_bytes)) path).
