(* ===== verification/Consistency.v ===== *)
(** * Consistency proofs: [crates/mtc/src/proof/consistency.rs]

    Generation of the path by the recursion of RFC 9162 (SUBPROOF), its verification by the
    iterative reconstruction of both roots, and the wire codec of the proof. *)

From S2P Require Import Prelude Types Wire Tree Proofs.

Local Open Scope Z_scope.
Local Open Scope mtc_scope.

Record ConsistencyProof : Type := from_parts {
  old_size : TreeSize;
  new_size : TreeSize;
  path : list HashOutput
}.

Section Consistency.
Context {H : Hasher}.

(** [subtree]. *)
Definition subtree (tree : MerkleTree) (start end_ : Z) : result HashOutput ProofError :=
  ok_or (subtree_hash tree start end_) (TreeTooSmall end_ (tree_len tree)).

(** Recursion over a range of at most [2 ^ fuel] leaves: 64 for a [u64]. *)
Fixpoint collect_subproof (fuel : nat) (tree : MerkleTree) (m start end_ : Z) (b : bool)
    (out : list HashOutput) : result (list HashOutput) ProofError :=
  let n := end_ - start in
  if m =? n then
    if negb b then let? h := subtree tree start end_ in Ok (out ++ [h]) else Ok out
  else
  match fuel with
  | O => Ok out
  | S fuel' =>
      let k := largest_power_of_two_below n in
      if m <=? k then
        let? out' := collect_subproof fuel' tree m start (start + k) b out in
        let? h := subtree tree (start + k) end_ in
        Ok (out' ++ [h])
      else
        let? out' := collect_subproof fuel' tree (m - k) (start + k) end_ false out in
        let? h := subtree tree start (start + k) in
        Ok (out' ++ [h])
  end.

Definition generate (tree : MerkleTree) (old new : TreeSize) : result ConsistencyProof ProofError :=
  let m := old in
  let n := new in
  if n <? m then Err (NonMonotonicSizes m n)
  else
    let available := tree_len tree in
    if available <? n then Err (TreeTooSmall n available)
    else
      let? p := (if ((m =? 0) || (m =? n))%bool then Ok []
                 else collect_subproof 64 tree m 0 n true []) in
      Ok (from_parts old new p).

Fixpoint subproof_len (fuel : nat) (m n : Z) (b : bool) : Z :=
  if m =? n then Z.b2z (negb b) else
  match fuel with
  | O => 0
  | S fuel' =>
      let k := largest_power_of_two_below n in
      if m <=? k then subproof_len fuel' m k b + 1
      else subproof_len fuel' (m - k) (n - k) false + 1
  end.
Definition consistency_path_len (m n : Z) : Z :=
  if ((m =? 0) || (m =? n))%bool then 0 else subproof_len 64 m n true.

Definition path_at (p : list HashOutput) (idx expected : Z) : result HashOutput ProofError :=
  ok_or (p !! Z.to_nat idx) (MalformedPath expected (len p)).

(** [while node & 1 == 1 { node >>= 1; last >>= 1; }]. *)
Fixpoint skip_ones (fuel : nat) (node last : Z) : Z * Z :=
  if low_bit node then
    match fuel with
    | O => (node, last)
    | S fuel' => skip_ones fuel' (Z.shiftr node 1) (Z.shiftr last 1)
    end
  else (node, last).

(** [while node > 0]: both roots under reconstruction, the path index and the last node. *)
Fixpoint node_loop (fuel : nat) (p : list HashOutput) (expected node last idx : Z)
    (first second : HashOutput) : result (HashOutput * HashOutput * Z * Z) ProofError :=
  if negb (0 <? node) then Ok (first, second, idx, last) else
  match fuel with
  | O => Ok (first, second, idx, last)
  | S fuel' =>
      if low_bit node then
        let? h := path_at p idx expected in
        node_loop fuel' p expected (Z.shiftr node 1) (Z.shiftr last 1) (idx + 1)
          (hash_node h first) (hash_node h second)
      else if node <? last then
        let? h := path_at p idx expected in
        node_loop fuel' p expected (Z.shiftr node 1) (Z.shiftr last 1) (idx + 1)
          first (hash_node second h)
      else
        node_loop fuel' p expected (Z.shiftr node 1) (Z.shiftr last 1) idx first second
  end.

(** [while last > 0]. *)
Fixpoint last_loop (fuel : nat) (p : list HashOutput) (expected last idx : Z)
    (second : HashOutput) : result (HashOutput * Z) ProofError :=
  if negb (0 <? last) then Ok (second, idx) else
  match fuel with
  | O => Ok (second, idx)
  | S fuel' =>
      let? h := path_at p idx expected in
      last_loop fuel' p expected (Z.shiftr last 1) (idx + 1) (hash_node second h)
  end.

Definition verify (proof : ConsistencyProof) (old_root new_root : HashOutput) :
    result unit ProofError :=
  let m := old_size proof in
  let n := new_size proof in
  let p := path proof in
  if n <? m then Err (NonMonotonicSizes m n)
  else
  let expected := consistency_path_len m n in
  if negb (len p =? expected) then Err (MalformedPath expected (len p))
  else if m =? 0 then
    if negb (bool_decide (old_root = empty_root)) then Err RootMismatch
    else if ((n =? 0) && negb (bool_decide (new_root = empty_root)))%bool then Err RootMismatch
    else Ok tt
  else if m =? n then
    if bool_decide (old_root = new_root) then Ok tt else Err RootMismatch
  else
    let '(node, last) := skip_ones 64 (m - 1) (n - 1) in
    let? start :=
      (if 0 <? node then let? h := path_at p 0 expected in Ok (h, 1) else Ok (old_root, 0)) in
    let '(seed, idx) := start in
    let? mid := node_loop 64 p expected node last idx seed seed in
    let '(first, second, idx, last) := mid in
    let? fin := last_loop 64 p expected last idx second in
    let '(second, idx) := fin in
    if negb (idx =? len p) then Err (MalformedPath idx (len p))
    else if (bool_decide (first = old_root) && bool_decide (second = new_root))%bool
    then Ok tt else Err RootMismatch.
End Consistency.

(** ** The codec *)

#[export] Instance consistency_serialize : TlsSerialize ConsistencyProof := fun proof =>
  do! write_bytes (to_be_bytes 8 (old_size proof));
  do! write_bytes (to_be_bytes 8 (new_size proof));
  write_vector_u16 (path proof).

#[export] Instance consistency_parse : TlsParse ConsistencyProof :=
  let! old_bytes := read_array 8 in
  let! new_bytes := read_array 8 in
  let! p := read_vector_u16 in
  ret (from_parts (from_be_bytes (arr_list old_bytes)) (from_be_bytes (arr_list new_bytes)) p).
