(* ===== verification/InclusionFacts.v ===== *)
(** * Correctness of inclusion proofs

    The specification is the route from a leaf to the root: at each level, whether the sibling
    is on the left. [generate] collects the sibling hashes of that route by recursion from the
    root; [verify_loop] follows it by arithmetic on two positions, from the leaf. Both are
    proved equal to [climb]ing the route, which gives completeness and, with the injectivity of
    [climb] up to hash collisions, soundness. *)

From S2P Require Import Prelude Types WireLaws Tree TreeFacts Proofs Inclusion.

Local Open Scope Z_scope.
Local Open Scope mtc_scope.

(** ** Specification *)

(** The route of leaf [i] in a tree of [n <= 2 ^ h] leaves, leaf to root; [true] is a sibling
    on the left. *)
Fixpoint route (h : nat) (i n : Z) : list bool :=
  match h with
  | O => []
  | S h' =>
      if n <=? 1 then [] else
      let k := split_point n in
      if i <? k then route h' i k ++ [false] else route h' (i - k) (n - k) ++ [true]
  end.

(** The low [g] bits of [i]: the route in a complete tree of [2 ^ g] leaves. *)
Definition bits (g : nat) (i : Z) : list bool := map (fun j => Z.testbit i (Z.of_nat j)) (seq 0 g).

Section Climb.
Context {H : Hasher}.

(** Hashing up a route. *)
Fixpoint climb (dirs : list bool) (path : list HashOutput) (acc : HashOutput) : HashOutput :=
  match dirs, path with
  | d :: dirs', s :: path' => climb dirs' path' (if d then hash_node s acc else hash_node acc s)
  | _, _ => acc
  end.

Lemma climb_app d1 d2 p1 p2 acc :
  length d1 = length p1 -> climb (d1 ++ d2) (p1 ++ p2) acc = climb d2 p2 (climb d1 p1 acc).
Proof.
  revert p1 acc. induction d1 as [|d d1 IH]; intros [|s p1] acc Hl; try done. simpl.
  apply IH. simpl in Hl. lia.
Qed.

(** The inputs hashed on the way up. *)
Fixpoint climb_inputs (dirs : list bool) (path : list HashOutput) (acc : HashOutput) :
    list (list byte) :=
  match dirs, path with
  | d :: dirs', s :: path' =>
      (if d then node_input s acc else node_input acc s)
      :: climb_inputs dirs' path' (if d then hash_node s acc else hash_node acc s)
  | _, _ => []
  end.

(** Equal results come from equal paths and leaves, or exhibit a collision. *)
Lemma climb_inj dirs : forall p p' a a',
  length p = length dirs -> length p' = length dirs ->
  climb dirs p a = climb dirs p' a' ->
  (p = p' /\ a = a') \/ collision_in (climb_inputs dirs p a ++ climb_inputs dirs p' a').
Proof.
  induction dirs as [|d dirs IH]; intros [|s p] [|s' p'] a a' Hl Hl' E; try done.
  - by left.
  - simpl in *.
    apply IH in E as [[-> E]|]; [|right; collide|lia|lia].
    destruct d; apply hash_node_inj in E as [[-> ->]|]; try (by left);
      right; collide.
Qed.
End Climb.

(** ** Routes *)

Lemma bits_S_low g i : bits (S g) i = Z.odd i :: bits g (Z.shiftr i 1).
Proof.
  unfold bits. cbn [seq map]. rewrite Z.bit0_odd. f_equal.
  rewrite <- seq_shift, map_map. apply map_ext. intros j.
  rewrite Z.shiftr_spec by lia. f_equal. lia.
Qed.

Lemma bits_S_high g i : bits (S g) i = bits g i ++ [Z.testbit i (Z.of_nat g)].
Proof. unfold bits. by rewrite seq_S, map_app. Qed.

Lemma bits_ext g i j :
  (forall b, 0 <= b < Z.of_nat g -> Z.testbit i b = Z.testbit j b) -> bits g i = bits g j.
Proof.
  intros E. unfold bits. apply map_ext_in. intros b Hb. apply in_seq in Hb. apply E. lia.
Qed.

Lemma length_bits g i : length (bits g i) = g.
Proof. unfold bits. by rewrite length_map, length_seq. Qed.

Lemma split_point_pow2 g : split_point (2 ^ Z.of_nat (S g)) = 2 ^ Z.of_nat g.
Proof.
  apply split_point_unique; [lia|]. rewrite Nat2Z.inj_succ, Z.pow_succ_r by lia.
  pose proof (pow2_pos (Z.of_nat g) ltac:(lia)). lia.
Qed.

Lemma testbit_small i g : 0 <= i < 2 ^ g -> forall b, g <= b -> Z.testbit i b = false.
Proof.
  intros Hi b Hb. destruct (Z.eq_dec i 0) as [->|]; [apply Z.bits_0|].
  apply Z.bits_above_log2; [lia|]. pose proof (Z.log2_lt_pow2 i g). lia.
Qed.

(** Adding a higher power of two changes no lower bit. *)
Lemma testbit_add_pow2 i g b :
  0 <= i < 2 ^ g -> 0 <= b -> Z.testbit (i + 2 ^ g) b = (Z.testbit i b || (b =? g))%bool.
Proof.
  intros Hi Hb. destruct (Z.lt_ge_cases g 0); [rewrite Z.pow_neg_r in Hi by done; lia|].
  rewrite Z.add_nocarry_lxor.
  - rewrite Z.lxor_spec, Z.pow2_bits_eqb by done. rewrite (Z.eqb_sym g b).
    destruct (Z.eqb_spec b g) as [->|]; [|by rewrite xorb_false_r, orb_false_r].
    by rewrite (testbit_small i g).
  - rewrite <- Z.shiftl_1_l. rewrite Z.land_comm. by apply land_shiftl_small.
Qed.

Lemma route_complete h : forall g i,
  (g <= h)%nat -> 0 <= i < 2 ^ Z.of_nat g -> route h i (2 ^ Z.of_nat g) = bits g i.
Proof.
  induction h as [|h IH]; intros g i Hg Hi; [by assert (g = 0%nat) as -> by lia|].
  destruct g as [|g]; [done|]. cbn [route]. rewrite split_point_pow2.
  pose proof (pow2_pos (Z.of_nat g) ltac:(lia)) as Hp.
  assert (2 ^ Z.of_nat (S g) = 2 * 2 ^ Z.of_nat g) as Hs
    by (rewrite Nat2Z.inj_succ; apply Z.pow_succ_r; lia).
  rewrite (proj2 (Z.leb_gt _ _)) by lia. rewrite bits_S_high.
  destruct (Z.ltb_spec i (2 ^ Z.of_nat g)) as [Hlt|Hge].
  - rewrite IH by lia. by rewrite (testbit_small i (Z.of_nat g)) by lia.
  - replace (2 ^ Z.of_nat (S g) - 2 ^ Z.of_nat g) with (2 ^ Z.of_nat g) by lia.
    rewrite IH by lia. assert (exists j, i = j + 2 ^ Z.of_nat g) as [j ->]
      by (exists (i - 2 ^ Z.of_nat g); lia).
    rewrite Z.add_simpl_r. f_equal.
    + apply bits_ext. intros b Hb. rewrite testbit_add_pow2 by lia.
      by rewrite (proj2 (Z.eqb_neq _ _)), orb_false_r by lia.
    + rewrite testbit_add_pow2 by lia. by rewrite Z.eqb_refl, orb_true_r.
Qed.

(** The route's recursion, at a tree of more than one leaf. *)
Lemma route_S h i n :
  2 <= n -> route (S h) i n =
    if i <? split_point n then route h i (split_point n) ++ [false]
    else route h (i - split_point n) (n - split_point n) ++ [true].
Proof. intros Hn. cbn [route]. by rewrite (proj2 (Z.leb_gt _ _)) by lia. Qed.

Lemma route_1 h i : route h i 1 = [].
Proof. by destruct h. Qed.

Lemma pow2_S h : 2 ^ Z.of_nat (S h) = 2 * 2 ^ Z.of_nat h.
Proof. rewrite Nat2Z.inj_succ. apply Z.pow_succ_r. lia. Qed.

(** [inclusion_path_len] counts the levels of the route. *)
Lemma path_len_loop_route h : forall c s e i,
  s <= i < e -> e - s <= 2 ^ Z.of_nat h ->
  path_len_loop h c s e i = c + len (route h (i - s) (e - s)).
Proof.
  induction h as [|h IH]; intros c s e i Hi He.
  - change (2 ^ Z.of_nat 0) with 1 in He. simpl. rewrite (proj2 (Z.ltb_ge _ _)) by lia.
    unfold len. simpl. lia.
  - cbn [path_len_loop]. destruct (Z.ltb_spec 1 (e - s)) as [H1|H1]; cbn [negb].
    + rewrite route_S by lia. rewrite pow2_S in He.
      change (largest_power_of_two_below (e - s)) with (split_point (e - s)).
      destruct (split_point_height (e - s) (Z.of_nat h)) as (Hk1 & Hk2 & _); [lia..|].
      replace (i - s <? split_point (e - s)) with (i <? s + split_point (e - s)) by lia.
      destruct (Z.ltb_spec i (s + split_point (e - s))); rewrite IH, len_app by lia;
        change (len [_]) with 1.
      * replace (s + split_point (e - s) - s) with (split_point (e - s)) by lia. lia.
      * replace (i - (s + split_point (e - s))) with (i - s - split_point (e - s)) by lia.
        replace (e - (s + split_point (e - s))) with (e - s - split_point (e - s)) by lia. lia.
    + assert (e - s = 1) as -> by lia. rewrite route_1. unfold len. simpl. lia.
Qed.

Lemma inclusion_path_len_route i n :
  0 <= i < n -> n <= 2 ^ 64 -> inclusion_path_len i n = len (route 64 i n).
Proof.
  intros Hi Hn. unfold inclusion_path_len. rewrite path_len_loop_route by (simpl; lia).
  by rewrite !Z.sub_0_r.
Qed.

(** ** Generation *)

Lemma subtree_hash_ok {H : Hasher} tree a b :
  0 <= a < b -> b <= len (leaves tree) -> len (leaves tree) < 2 ^ 64 ->
  subtree_hash tree a b = Some (mth (slice (leaves tree) a b)).
Proof.
  intros Ha Hb Hl. unfold subtree_hash. rewrite !try_from_uint_in by (split; lia).
  by rewrite (proj2 (Z.leb_gt _ _)), (proj2 (Z.ltb_ge _ _)) by lia.
Qed.

Section Generate.
Context {H : Hasher} (tree : MerkleTree).
Hypothesis Hlen : len (leaves tree) < 2 ^ 64.

Lemma collect_siblings_ok h : forall s e i x out,
  0 <= s <= i -> i < e -> e <= len (leaves tree) -> e - s <= 2 ^ Z.of_nat h ->
  leaves tree !! Z.to_nat i = Some x ->
  exists path, collect_siblings h tree s e i out = Ok (out ++ path) /\
    length path = length (route h (i - s) (e - s)) /\
    climb (route h (i - s) (e - s)) path x = mth (slice (leaves tree) s e).
Proof.
  assert (Hone : forall h s e i x out, 0 <= s <= i -> i < e -> e - s = 1 ->
    leaves tree !! Z.to_nat i = Some x ->
    exists path, collect_siblings h tree s e i out = Ok (out ++ path) /\
      length path = length (route h (i - s) (e - s)) /\
      climb (route h (i - s) (e - s)) path x = mth (slice (leaves tree) s e)).
  { intros h0 s e i x out Hs Hi He Hx. exists []. rewrite He, route_1, app_nil_r.
    destruct h0; cbn [collect_siblings]; rewrite He; split_and!; try done;
      (replace e with (s + 1) by lia; replace s with i by lia;
       by rewrite (slice_singleton _ i x) by (done || lia)). }
  induction h as [|h IH]; intros s e i x out Hs Hi He Hh Hx.
  { apply Hone; try done. change (2 ^ Z.of_nat 0) with 1 in Hh. lia. }
  destruct (Z.eq_dec (e - s) 1) as [|Hne]; [by apply Hone|].
  rewrite pow2_S in Hh.
  destruct (split_point_height (e - s) (Z.of_nat h)) as (Hk1 & Hk2 & _); [lia..|].
  cbn [collect_siblings]. rewrite (proj2 (Z.eqb_neq _ _)), route_S by lia.
  change (largest_power_of_two_below (e - s)) with (split_point (e - s)).
  rewrite mth_slice_split by lia. set (k := split_point (e - s)) in *. clearbody k.
  replace (i - s <? k) with (i <? s + k) by lia.
  destruct (Z.ltb_spec i (s + k)) as [Hlt|Hge].
  - destruct (IH s (s + k) i x out) as (path & -> & Hpl & Hcl); [lia..|done|].
    rewrite subtree_hash_ok by lia. cbn [ok_or].
    replace (s + k - s) with k in * by lia.
    exists (path ++ [mth (slice (leaves tree) (s + k) e)]). rewrite app_assoc, !length_app, Hpl.
    split_and!; [done|done|]. rewrite climb_app by done. simpl. by rewrite Hcl.
  - destruct (IH (s + k) e i x out) as (path & -> & Hpl & Hcl); [lia..|done|].
    rewrite subtree_hash_ok by lia. cbn [ok_or].
    replace (i - (s + k)) with (i - s - k) in * by lia.
    replace (e - (s + k)) with (e - s - k) in * by lia.
    exists (path ++ [mth (slice (leaves tree) s (s + k))]). rewrite app_assoc, !length_app, Hpl.
    split_and!; [done|done|]. rewrite climb_app by done. simpl. by rewrite Hcl.
Qed.

Lemma generate_ok i :
  0 <= i < tree_len tree ->
  exists path x, leaf_hash tree i = Some x /\
    generate tree i = Ok (from_parts (tree_len tree) i path) /\
    length path = length (route 64 i (tree_len tree)) /\
    climb (route 64 i (tree_len tree)) path x = root tree.
Proof.
  intros Hi. unfold tree_len in *.
  destruct (lookup_lt_is_Some_2 (leaves tree) (Z.to_nat i)) as [x Hx];
    [unfold len in Hi; lia|].
  destruct (collect_siblings_ok 64 0 (len (leaves tree)) i x []) as (path & Hc & Hl & Hcl);
    [lia|lia|lia|change (2 ^ Z.of_nat 64) with (2 ^ 64); lia|done|].
  rewrite !Z.sub_0_r in *. rewrite slice_all in Hcl. exists path, x. split_and!; try done.
  - unfold leaf_hash. by rewrite try_from_uint_in by (split; lia).
  - unfold generate, tree_len. rewrite (proj2 (Z.leb_gt _ _)) by lia. by rewrite Hc.
Qed.
End Generate.

(** ** Verification *)

Lemma low_bit_odd x : low_bit x = Z.odd x.
Proof.
  unfold low_bit. change 1 with (Z.ones 1) at 1. rewrite Z.land_ones by lia.
  change (2 ^ 1) with 2. rewrite Zmod_odd. by destruct (Z.odd x).
Qed.

Lemma shiftr_1 x : Z.shiftr x 1 = x / 2.
Proof. by rewrite Z.shiftr_div_pow2 by lia. Qed.

Lemma shiftr_shiftr_1 x t : 0 <= t -> Z.shiftr (Z.shiftr x t) 1 = Z.shiftr x (t + 1).
Proof. intros. by rewrite Z.shiftr_shiftr by lia. Qed.

Lemma shiftr_add_pow2 x g t : 0 <= t <= g -> Z.shiftr (x + 2 ^ g) t = Z.shiftr x t + 2 ^ (g - t).
Proof.
  intros. rewrite !Z.shiftr_div_pow2 by lia.
  replace (2 ^ g) with (2 ^ (g - t) * 2 ^ t) by (rewrite <- Z.pow_add_r by lia; f_equal; lia).
  apply Z.div_add. pose proof (pow2_pos t). lia.
Qed.

(** [skip_levels] shifts a non-zero position down to its lowest set bit. *)
Lemma skip_levels_spec fuel : forall x t q s,
  0 <= t <= Z.of_nat fuel -> 0 <= q -> x = 2 ^ t * (2 * q + 1) ->
  skip_levels fuel x s = (Z.shiftr x t, Z.shiftr s t).
Proof.
  assert (Hodd : forall f q s, 0 <= q -> skip_levels f (2 * q + 1) s = (2 * q + 1, s)).
  { intros f q s Hq. destruct f; cbn [skip_levels];
      by rewrite low_bit_odd, Z.odd_odd, andb_false_r. }
  induction fuel as [|fuel IH]; intros x t q s Ht Hq ->.
  - assert (t = 0) as -> by lia. rewrite Z.pow_0_r, Z.mul_1_l, !Z.shiftr_0_r. by apply Hodd.
  - destruct (Z.eq_dec t 0) as [->|Hne].
    + rewrite Z.pow_0_r, Z.mul_1_l, !Z.shiftr_0_r. by apply Hodd.
    + pose proof (pow2_pos (t - 1) ltac:(lia)).
      assert (2 ^ t = 2 * 2 ^ (t - 1)) as Hp
        by (rewrite <- pow2_succ by lia; f_equal; lia).
      cbn [skip_levels]. rewrite low_bit_odd, (proj2 (Z.eqb_neq _ _)) by nia.
      replace (2 ^ t * (2 * q + 1)) with (2 * (2 ^ (t - 1) * (2 * q + 1))) by nia.
      rewrite Z.odd_even. cbn [negb andb].
      rewrite (IH _ (t - 1) q); [|lia|done|rewrite shiftr_1, Z.mul_comm, Z.div_mul; lia].
      f_equal; rewrite Z.shiftr_shiftr by lia; f_equal; lia.
Qed.

#[local] Arguments skip_levels : simpl never.

Section Verify.
Context {H : Hasher} (ex ac : Z).
Abbreviation loop := (verify_loop ex ac).

Lemma loop_app p1 p2 : forall f s acc f' s' acc',
  loop p1 f s acc = Ok (f', s', acc') -> loop (p1 ++ p2) f s acc = loop p2 f' s' acc'.
Proof.
  induction p1 as [|x p1 IH]; intros f s acc f' s' acc' E; simpl in *; [by simplify_eq|].
  destruct (s =? 0); [done|].
  destruct (low_bit f || (f =? s))%bool; [|by apply IH].
  destruct (skip_levels 64 f s). by apply IH.
Qed.

(** In a complete left subtree the position's bits alone decide the direction. *)
Lemma loop_complete g : forall i s p acc,
  0 <= i < 2 ^ Z.of_nat g -> 2 ^ Z.of_nat g <= s -> length p = g ->
  loop p i s acc = Ok (0, Z.shiftr s (Z.of_nat g), climb (bits g i) p acc).
Proof.
  induction g as [|g IH]; intros i s p acc Hi Hs Hp.
  - destruct p; [|done]. simpl. change (2 ^ Z.of_nat 0) with 1 in Hi.
    assert (i = 0) as -> by lia. by rewrite Z.shiftr_0_r.
  - destruct p as [|x p]; [done|]. simpl in Hp. rewrite pow2_S in Hi, Hs.
    rewrite bits_S_low. cbn [verify_loop climb].
    pose proof (pow2_pos (Z.of_nat g) ltac:(lia)).
    rewrite (proj2 (Z.eqb_neq s 0)), (proj2 (Z.eqb_neq i s)), orb_false_r, low_bit_odd by lia.
    assert (loop p (Z.shiftr i 1) (Z.shiftr s 1)
              (if Z.odd i then hash_node x acc else hash_node acc x)
            = Ok (0, Z.shiftr s (Z.of_nat (S g)),
                  climb (bits g (Z.shiftr i 1)) p
                    (if Z.odd i then hash_node x acc else hash_node acc x))) as Hrest.
    { rewrite IH; [|rewrite shiftr_1; split; [apply Z.div_pos; lia|
          apply Z.div_lt_upper_bound; lia]|rewrite shiftr_1; apply Z.div_le_lower_bound; lia|lia].
      rewrite Z.shiftr_shiftr by lia.
      by replace (1 + Z.of_nat g) with (Z.of_nat (S g)) by lia. }
    destruct (Z.odd i) eqn:Ho; [|exact Hrest].
    apply Z.odd_spec in Ho as [q ->].
    rewrite (skip_levels_spec 64 (2 * q + 1) 0 q) by (rewrite ?Z.pow_0_r; lia). by rewrite !Z.shiftr_0_r.
Qed.

(** In a right subtree both positions carry one more, higher bit. *)
Lemma loop_right p : forall i m acc g acc',
  0 <= i <= m -> m < 2 ^ g -> 0 <= g < 64 ->
  loop p i m acc = Ok (0, 0, acc') ->
  exists t, 0 <= t <= g /\ loop p (i + 2 ^ g) (m + 2 ^ g) acc = Ok (2 ^ t, 2 ^ t, acc').
Proof.
  induction p as [|x p IH]; intros i m acc g acc' Hi Hm Hg E; simpl in E.
  { simplify_eq. exists g. split; [lia|done]. }
  destruct (Z.eqb_spec m 0) as [|Hm0]; [done|].
  destruct (Z.eq_dec g 0) as [->|]; [change (2 ^ 0) with 1 in Hm; lia|].
  pose proof (pow2_pos g ltac:(lia)).
  assert (Hshift : forall t a, 0 <= t < g ->
    loop p (Z.shiftr i (t + 1)) (Z.shiftr m (t + 1)) a = Ok (0, 0, acc') ->
    exists t', 0 <= t' <= g /\
      loop p (Z.shiftr (i + 2 ^ g) (t + 1)) (Z.shiftr (m + 2 ^ g) (t + 1)) a
      = Ok (2 ^ t', 2 ^ t', acc')).
  { intros t a Ht El. rewrite !shiftr_add_pow2 by lia.
    assert (2 ^ g = 2 ^ (g - (t + 1)) * 2 ^ (t + 1)) as Hpg
      by (rewrite <- Z.pow_add_r by lia; f_equal; lia).
    rewrite !Z.shiftr_div_pow2 in * by lia. pose proof (pow2_pos (t + 1) ltac:(lia)).
    destruct (IH (i / 2 ^ (t + 1)) (m / 2 ^ (t + 1)) a (g - (t + 1)) acc')
      as (t' & Ht' & Hl'); [|apply Z.div_lt_upper_bound; lia|lia|done|].
    - split; [apply Z.div_pos; lia|apply Z.div_le_mono; lia].
    - exists t'. split; [lia|done]. }
  cbn [verify_loop]. rewrite (proj2 (Z.eqb_neq (m + 2 ^ g) 0)) by lia.
  replace (low_bit (i + 2 ^ g)) with (low_bit i).
  2:{ rewrite !low_bit_odd, Z.odd_add. replace (Z.odd (2 ^ g)) with false; [by destruct (Z.odd i)|].
      by rewrite Z.odd_pow by lia. }
  replace (i + 2 ^ g =? m + 2 ^ g) with (i =? m) by lia.
  destruct (low_bit i || (i =? m))%bool eqn:Ed.
  - assert (0 < i) as Hi0.
    { destruct (Z.eq_dec i 0) as [->|]; [|lia]. apply orb_true_iff in Ed as [Ed|Ed]; [done|lia]. }
    destruct (trailing_zeros_spec i Hi0) as (Hu & q & Hq & Hiq).
    set (u := trailing_zeros i) in *. clearbody u.
    assert (u < g) as Hug.
    { apply (Z.pow_lt_mono_r_iff 2); [lia..|]. pose proof (pow2_pos u Hu). nia. }
    rewrite (skip_levels_spec 64 _ u q) in E by (done || lia).
    rewrite (skip_levels_spec 64 _ u (q + 2 ^ (g - u - 1))); [|lia| |].
    + rewrite !shiftr_shiftr_1 in * by lia. by apply Hshift.
    + pose proof (pow2_pos (g - u - 1)). lia.
    + rewrite (pow2_double u g) by lia. lia.
  - replace 1 with (0 + 1) in E |- * by lia. apply Hshift; [lia|done].
Qed.

Lemma loop_route h : forall i n p acc,
  0 <= i < n -> n <= 2 ^ Z.of_nat h -> (h <= 64)%nat -> length p = length (route h i n) ->
  loop p i (n - 1) acc = Ok (0, 0, climb (route h i n) p acc).
Proof.
  assert (Hone : forall h i n p acc, 0 <= i < n -> n = 1 -> length p = length (route h i n) ->
    loop p i (n - 1) acc = Ok (0, 0, climb (route h i n) p acc)).
  { intros h0 i n p acc Hi -> Hp. rewrite route_1 in *. destruct p; [|done].
    by assert (i = 0) as -> by lia. }
  induction h as [|h IH]; intros i n p acc Hi Hn Hh Hp.
  { apply Hone; [lia| |done]. change (2 ^ Z.of_nat 0) with 1 in Hn. lia. }
  destruct (Z.eq_dec n 1) as [|Hne]; [by apply Hone|].
  rewrite pow2_S in Hn.
  destruct (split_point_height n (Z.of_nat h)) as (Hk1 & Hk2 & Hk3); [lia..|].
  destruct (split_point_spec n) as (g & Hg & Hk & Hkn); [lia|].
  assert (g <= Z.of_nat h) by (apply pow2_le_inv; lia).
  rewrite route_S in * by lia. rewrite Hk in *.
  destruct (Z.ltb_spec i (2 ^ g)) as [Hlt|Hge]; rewrite length_app in Hp; simpl in Hp;
    (destruct (exists_last (l := p)) as (p' & s & ->); [by intros ->; simpl in Hp; lia|]);
    rewrite length_app in Hp; simpl in Hp.
  - assert (exists g', g = Z.of_nat g') as [g' ->] by (exists (Z.to_nat g); lia).
    rewrite route_complete in * by lia. rewrite length_bits in Hp.
    rewrite climb_app by (rewrite length_bits; lia).
    erewrite loop_app by (apply (loop_complete g'); lia).
    replace (Z.shiftr (n - 1) (Z.of_nat g')) with 1; [done|].
    rewrite Z.shiftr_div_pow2 by lia. apply Z.div_unique with (n - 1 - 2 ^ Z.of_nat g'); lia.
  - rewrite climb_app by lia.
    destruct (loop_right p' (i - 2 ^ g) (n - 2 ^ g - 1) acc g
                (climb (route h (i - 2 ^ g) (n - 2 ^ g)) p' acc)) as (t & Ht & Hl); [lia..| |].
    { apply IH; lia. }
    rewrite Z.sub_add in Hl. replace (n - 2 ^ g - 1 + 2 ^ g) with (n - 1) in Hl by lia.
    erewrite loop_app by done. cbn [verify_loop climb].
    pose proof (pow2_pos t ltac:(lia)).
    rewrite (proj2 (Z.eqb_neq _ _)), Z.eqb_refl, orb_true_r by lia.
    rewrite (skip_levels_spec 64 _ t 0) by lia.
    rewrite (Z.shiftr_div_pow2 (2 ^ t) t), Z.div_same by lia. done.
Qed.
End Verify.

Lemma verify_along {H : Hasher} (proof : InclusionProof) lh r rt :
  inclusion_path_len (leaf_index proof) (tree_size proof) = len rt ->
  (forall ex ac, length (audit_path proof) = length rt ->
   verify_loop ex ac (audit_path proof) (leaf_index proof) (tree_size proof - 1) lh
   = Ok (0, 0, climb rt (audit_path proof) lh)) ->
  verify proof lh r =
    if tree_size proof <=? leaf_index proof
    then Err (IndexOutOfRange (leaf_index proof) (tree_size proof))
    else if negb (len (audit_path proof) =? len rt)
    then Err (MalformedPath (len rt) (len (audit_path proof)))
    else if decide (climb rt (audit_path proof) lh = r) then Ok tt else Err RootMismatch.
Proof.
  intros Hlen Hloop. unfold verify. rewrite Hlen.
  destruct (_ <=? _); [done|]. destruct (Z.eqb_spec (len (audit_path proof)) (len rt)); [|done].
  cbn [negb]. rewrite Hloop by (unfold len in *; lia). done.
Qed.

(** What [verify] decides, on every branch. *)
Lemma verify_spec {H : Hasher} (proof : InclusionProof) lh r :
  0 <= leaf_index proof -> tree_size proof <= 2 ^ 64 ->
  verify proof lh r =
    if tree_size proof <=? leaf_index proof
    then Err (IndexOutOfRange (leaf_index proof) (tree_size proof))
    else
      let rt := route 64 (leaf_index proof) (tree_size proof) in
      if negb (len (audit_path proof) =? len rt)
      then Err (MalformedPath (len rt) (len (audit_path proof)))
      else if decide (climb rt (audit_path proof) lh = r) then Ok tt else Err RootMismatch.
Proof.
  intros Hi Hs. cbv zeta. destruct (Z.leb_spec (tree_size proof) (leaf_index proof)) as [Hle|Hlt].
  { unfold verify. by rewrite (proj2 (Z.leb_le _ _)). }
  rewrite (verify_along _ _ _ (route 64 (leaf_index proof) (tree_size proof))).
  - by rewrite (proj2 (Z.leb_gt _ _)).
  - apply inclusion_path_len_route; lia.
  - intros ex ac Hl. apply loop_route; [lia|exact Hs|apply le_n|exact Hl].
Qed.

Lemma verify_ok {H : Hasher} (proof : InclusionProof) lh r :
  0 <= leaf_index proof -> tree_size proof <= 2 ^ 64 ->
  verify proof lh r = Ok tt <->
  leaf_index proof < tree_size proof /\
  length (audit_path proof) = length (route 64 (leaf_index proof) (tree_size proof)) /\
  climb (route 64 (leaf_index proof) (tree_size proof)) (audit_path proof) lh = r.
Proof.
  intros Hi Hs. rewrite verify_spec by done.
  generalize (route 64 (leaf_index proof) (tree_size proof)). intros rt. cbv zeta.
  destruct (Z.leb_spec (tree_size proof) (leaf_index proof)); [split; [done|lia]|].
  unfold len. destruct (Z.eqb_spec (Z.of_nat (length (audit_path proof))) (Z.of_nat (length rt)));
    cbn [negb]; [|split; [done|lia]].
  destruct (decide _); split; try done; [|by intros (_ & _ & ?)].
  intros _. split_and!; [done|lia|done].
Qed.

Lemma generate_errors {H : Hasher} tree i :
  0 <= i -> tree_len tree <= i -> generate tree i = Err (IndexOutOfRange i (tree_len tree)).
Proof. intros Hi Hle. unfold generate. by rewrite (proj2 (Z.leb_le _ _)). Qed.

(** The inputs hashed while verifying a proof from a leaf hash. *)
Definition verify_inputs {H : Hasher} (proof : InclusionProof) (lh : HashOutput) :
    list (list byte) :=
  climb_inputs (route 64 (leaf_index proof) (tree_size proof)) (audit_path proof) lh.

(** Two accepted proofs of one position under one root are equal, or collide. *)
Lemma verify_unique {H : Hasher} p p' lh lh' r :
  0 <= leaf_index p -> tree_size p <= 2 ^ 64 ->
  leaf_index p = leaf_index p' -> tree_size p = tree_size p' ->
  verify p lh r = Ok tt -> verify p' lh' r = Ok tt ->
  (p = p' /\ lh = lh') \/ collision_in (verify_inputs p lh ++ verify_inputs p' lh').
Proof.
  intros Hi Hs Ei Es Hv Hv'. unfold verify_inputs.
  apply verify_ok in Hv as (_ & Hl & Hc); [|done|done].
  apply verify_ok in Hv' as (_ & Hl' & Hc'); [|lia|lia].
  rewrite <- Ei, <- Es in *.
  revert Hl Hl' Hc Hc'. generalize (route 64 (leaf_index p) (tree_size p)). intros rt Hl Hl' Hc Hc'.
  subst r. destruct (climb_inj _ _ _ _ _ Hl Hl' (eq_sym Hc')) as [[Hp ->]|]; [left|by right].
  split; [|done]. destruct p as [n i l], p' as [n' i' l']; cbn [leaf_index tree_size audit_path] in *. by subst.
Qed.

Lemma generate_verifies {H : Hasher} tree i :
  0 <= i < tree_len tree -> tree_len tree < 2 ^ 64 ->
  exists proof lh,
    leaf_hash tree i = Some lh /\ generate tree i = Ok proof /\
    tree_size proof = tree_len tree /\ leaf_index proof = i /\
    verify proof lh (root tree) = Ok tt.
Proof.
  intros Hi Ht. destruct (generate_ok tree Ht i Hi) as (path & x & Hx & Hg & Hl & Hc).
  eexists _, x. split_and!; [done|done|done|done|].
  apply verify_ok; cbn [leaf_index tree_size audit_path]; [lia|lia|]. split_and!; [lia|done|done].
Qed.

(** ** The properties *)

(** Completeness of inclusion proofs: for every leaf of a tree that fits in a [u64],
    [generate] succeeds and [verify] accepts its proof against the leaf's hash and the tree's
    root. *)
Theorem inclusion_complete {H : Hasher} (tree : MerkleTree) (i : Index) :
  0 <= i < tree_len tree -> tree_len tree < 2 ^ 64 ->
  exists proof lh,
    leaf_hash tree i = Some lh /\ generate tree i = Ok proof /\
    tree_size proof = tree_len tree /\ leaf_index proof = i /\
    verify proof lh (root tree) = Ok tt.
Proof. apply generate_verifies. Qed.

Lemma inclusion_complete_witness :
  exists proof lh,
    leaf_hash (toy_tree 5) 3 = Some lh /\ generate (H := ToyHasher) (toy_tree 5) 3 = Ok proof /\
    tree_size proof = tree_len (toy_tree 5) /\ leaf_index proof = 3 /\
    verify (H := ToyHasher) proof lh (root (H := ToyHasher) (toy_tree 5)) = Ok tt.
Proof.
  apply (inclusion_complete (H := ToyHasher) (toy_tree 5) 3); vm_compute; intuition discriminate.
Defined.

(** C3. Soundness of inclusion proofs: a proof [verify] accepts against a tree's root and size is
    exactly the proof [generate] makes and its leaf hash the tree's leaf, unless the inputs
    hashed while verifying the two proofs contain a hash collision. *)
Theorem inclusion_sound {H : Hasher} (tree : MerkleTree) (proof : InclusionProof)
    (lh : HashOutput) :
  tree_len tree < 2 ^ 64 -> 0 <= leaf_index proof < tree_len tree ->
  tree_size proof = tree_len tree -> verify proof lh (root tree) = Ok tt ->
  exists honest x, generate tree (leaf_index proof) = Ok honest /\
    leaf_hash tree (leaf_index proof) = Some x /\
    ((proof = honest /\ lh = x) \/
     collision_in (verify_inputs proof lh ++ verify_inputs honest x)).
Proof.
  intros Ht Hi Hs Hv. destruct (generate_verifies tree (leaf_index proof)) as
    (honest & x & Hx & Hg & Hsz & Hix & Hok); [done..|].
  exists honest, x. split_and!; [done|done|].
  apply (verify_unique _ _ _ _ (root tree)); by rewrite ?Hs, ?Hix, ?Hsz; try lia.
Qed.

(** The proof for leaf 3 of a tree of 5 leaves. *)
Definition toy_inclusion : InclusionProof :=
  unwrap_or (from_parts 0 0 []) (generate (H := ToyHasher) (toy_tree 5) 3).

Lemma inclusion_sound_witness :
  let proof := toy_inclusion in
  let lh := hash_leaf (H := ToyHasher) (leaf_as_bytes (toy_leaf 3)) in
  exists honest x, generate (H := ToyHasher) (toy_tree 5) (leaf_index proof) = Ok honest /\
    leaf_hash (toy_tree 5) (leaf_index proof) = Some x /\
    ((proof = honest /\ lh = x) \/
     collision_in (H := ToyHasher)
       (verify_inputs (H := ToyHasher) proof lh ++ verify_inputs (H := ToyHasher) honest x)).
Proof.
  apply (inclusion_sound (H := ToyHasher)); vm_compute; intuition discriminate.
Defined.

(** The audit path pins the leaf even without the tree: two proofs for the same index and
    size that verify against one root are the same proof of the same leaf hash, unless the
    inputs hashed while verifying them contain a collision. *)
Theorem inclusion_binding {H : Hasher} (p p' : InclusionProof) (lh lh' r : HashOutput) :
  in_u64 (leaf_index p) -> in_u64 (tree_size p) ->
  leaf_index p = leaf_index p' -> tree_size p = tree_size p' ->
  verify p lh r = Ok tt -> verify p' lh' r = Ok tt ->
  (p = p' /\ lh = lh') \/ collision_in (verify_inputs p lh ++ verify_inputs p' lh').
Proof. intros [Hi _] [_ Hs]. apply verify_unique; [done|lia]. Qed.

Lemma inclusion_binding_witness :
  let lh := hash_leaf (H := ToyHasher) (leaf_as_bytes (toy_leaf 3)) in
  (toy_inclusion = toy_inclusion /\ lh = lh) \/
  collision_in (H := ToyHasher) (verify_inputs (H := ToyHasher) toy_inclusion lh ++
                                 verify_inputs (H := ToyHasher) toy_inclusion lh).
Proof.
  apply (inclusion_binding (H := ToyHasher) toy_inclusion toy_inclusion _ _
           (root (H := ToyHasher) (toy_tree 5)));
    vm_compute; intuition discriminate.
Defined.

(** The iterative verifier decides what the recursive definition of an audit path says, on
    every branch: an index outside the tree, a path of the wrong length for the position, a
    path that hashes up the leaf's route to another root, or acceptance. *)
Theorem inclusion_verify_reference {H : Hasher} (proof : InclusionProof) (lh r : HashOutput) :
  in_u64 (leaf_index proof) -> in_u64 (tree_size proof) ->
  verify proof lh r =
    if tree_size proof <=? leaf_index proof
    then Err (IndexOutOfRange (leaf_index proof) (tree_size proof))
    else
      let rt := route 64 (leaf_index proof) (tree_size proof) in
      if negb (len (audit_path proof) =? len rt)
      then Err (MalformedPath (len rt) (len (audit_path proof)))
      else if decide (climb rt (audit_path proof) lh = r) then Ok tt else Err RootMismatch.
Proof. intros [Hi _] [_ Hs]. apply verify_spec; [done|lia]. Qed.

Lemma inclusion_verify_reference_witness :
  verify (H := ToyHasher) toy_inclusion (zero_array 32) (zero_array 32) = Err RootMismatch.
Proof.
  rewrite (inclusion_verify_reference (H := ToyHasher) toy_inclusion (zero_array 32) (zero_array 32));
    vm_compute; intuition discriminate.
Defined.
