(* ===== verification/ConsistencyFacts.v ===== *)
(** * Correctness of consistency proofs

    The specification is the route from the old tree's last complete subtree to the new tree's
    root: at each level, whether the sibling is on the left (then it is in both trees) or on the
    right (then only in the new one). [generate] collects the siblings by recursion from the
    root; [verify] follows the route by arithmetic on two positions. Both are proved equal to
    climbing the route with one accumulator per root. *)

From S2P Require Import Prelude Types WireLaws Tree TreeFacts Proofs InclusionFacts Consistency.

Local Open Scope Z_scope.
Local Open Scope mtc_scope.

(** ** Specification *)

(** The route from the subtree where the recursion stops to the root of a tree of
    [n <= 2 ^ h] leaves, for an old tree of [m]. *)
Fixpoint croute (h : nat) (m n : Z) : list bool :=
  match h with
  | O => []
  | S h' =>
      if m =? n then [] else
      let k := split_point n in
      if m <=? k then croute h' m k ++ [false] else croute h' (m - k) (n - k) ++ [true]
  end.

(** The same route read off the two positions of [verify], from the bottom. *)
Fixpoint cdirs (fuel : nat) (node last : Z) : list bool :=
  match fuel with
  | O => []
  | S fuel' =>
      if last =? 0 then [] else
      let up := cdirs fuel' (Z.shiftr node 1) (Z.shiftr last 1) in
      if Z.odd node then true :: up else if node <? last then false :: up else up
  end.

(** Does the recursion of the prover send the subtree it stops at? *)
Definition seeded (dirs : list bool) : bool := existsb id dirs.

Section Climb.
Context {H : Hasher}.

(** The old root along a route: only the siblings on the left count. *)
Fixpoint climb_left (dirs : list bool) (path : list HashOutput) (acc : HashOutput) : HashOutput :=
  match dirs, path with
  | d :: dirs', s :: path' => climb_left dirs' path' (if d then hash_node s acc else acc)
  | _, _ => acc
  end.

Lemma climb_left_app d1 d2 p1 p2 acc :
  length d1 = length p1 ->
  climb_left (d1 ++ d2) (p1 ++ p2) acc = climb_left d2 p2 (climb_left d1 p1 acc).
Proof.
  revert p1 acc. induction d1 as [|d d1 IH]; intros [|s p1] acc Hl; try done. simpl.
  apply IH. simpl in Hl. lia.
Qed.

Lemma climb_left_unseeded dirs : forall p acc, seeded dirs = false -> climb_left dirs p acc = acc.
Proof.
  induction dirs as [|[] dirs IH]; intros [|s p] acc Hs; try done. simpl in *. by apply IH.
Qed.
End Climb.

Lemma seeded_app d1 d2 : seeded (d1 ++ d2) = (seeded d1 || seeded d2)%bool.
Proof. apply existsb_app. Qed.

(** ** The two descriptions of the route agree *)

Lemma shiftr_lt_pow2 x f : 0 <= x < 2 ^ Z.of_nat (S f) -> 0 <= Z.shiftr x 1 < 2 ^ Z.of_nat f.
Proof.
  rewrite pow2_S, shiftr_1. intros Hx.
  split; [apply Z.div_pos; lia|apply Z.div_lt_upper_bound; lia].
Qed.

Lemma shiftr_le x y : x <= y -> Z.shiftr x 1 <= Z.shiftr y 1.
Proof. rewrite !shiftr_1. intros. apply Z.div_le_mono; lia. Qed.

Lemma cdirs_zero f x : cdirs f x 0 = [].
Proof. by destruct f. Qed.

Lemma pow2_neq_0 f : 0 <= f -> 2 ^ f <> 0.
Proof. intros Hf. pose proof (pow2_pos f Hf). lia. Qed.

Lemma low_bits_ones a : Z.shiftr (2 ^ Z.of_nat (S a) - 1) 1 = 2 ^ Z.of_nat a - 1.
Proof. rewrite pow2_S, shiftr_1. symmetry. apply Z.div_unique with 1; lia. Qed.

(** In the left subtree of [2 ^ a] nodes, the last level goes right. *)
Lemma cdirs_left a : forall f node last,
  0 <= node < 2 ^ Z.of_nat a -> Z.shiftr last (Z.of_nat a) = 1 -> (a < f)%nat ->
  cdirs f node last = cdirs f node (2 ^ Z.of_nat a - 1) ++ [false].
Proof.
  induction a as [|a IH]; intros [|f] node last Hn Hl Hf; try lia.
  - change (Z.of_nat 0) with 0 in *. rewrite Z.shiftr_0_r in Hl. subst last.
    change (2 ^ 0) with 1 in Hn. assert (node = 0) as -> by lia.
    cbn [cdirs]. simpl. by rewrite cdirs_zero.
  - assert (2 ^ Z.of_nat (S a) <= last) as Hlast.
    { rewrite Z.shiftr_div_pow2 in Hl by lia. pose proof (pow2_pos (Z.of_nat (S a)) ltac:(lia)).
      pose proof (Z.mul_div_le last (2 ^ Z.of_nat (S a))). lia. }
    pose proof (pow2_pos (Z.of_nat a) ltac:(lia)) as Hp.
    assert (Z.shiftr (Z.shiftr last 1) (Z.of_nat a) = 1) as Hl'.
    { rewrite Z.shiftr_shiftr by lia. by replace (1 + Z.of_nat a) with (Z.of_nat (S a)) by lia. }
    cbn [cdirs]. rewrite pow2_S in Hlast. rewrite low_bits_ones.
    rewrite (IH f (Z.shiftr node 1) (Z.shiftr last 1)); [|by apply shiftr_lt_pow2|done|lia].
    rewrite pow2_S in *. rewrite !(proj2 (Z.eqb_neq _ _)) by lia.
    rewrite (proj2 (Z.ltb_lt node last)) by lia.
    destruct (Z.odd node) eqn:Ho; [done|]. rewrite (proj2 (Z.ltb_lt node _)); [done|].
    destruct (Z.eq_dec node (2 * 2 ^ Z.of_nat a - 1)) as [->|]; [|lia].
    by rewrite Z.odd_sub, Z.odd_mul in Ho.
Qed.

(** In the right subtree, both positions carry one more bit. *)
Lemma cdirs_right c : forall f a b,
  0 <= a <= b -> b < 2 ^ Z.of_nat c -> (c < f)%nat ->
  cdirs f (a + 2 ^ Z.of_nat c) (b + 2 ^ Z.of_nat c) = cdirs f a b ++ [true].
Proof.
  induction c as [|c IH]; intros [|f] a b Ha Hb Hf; try lia.
  - change (2 ^ Z.of_nat 0) with 1 in *. assert (a = 0) as -> by lia. assert (b = 0) as -> by lia.
    cbn [cdirs]. simpl. by rewrite cdirs_zero.
  - cbn [cdirs]. pose proof (pow2_pos (Z.of_nat c) ltac:(lia)) as Hp.
    assert (forall x, 0 <= x -> Z.shiftr (x + 2 ^ Z.of_nat (S c)) 1 = Z.shiftr x 1 + 2 ^ Z.of_nat c)
      as Hs. { intros x Hx. rewrite shiftr_add_pow2 by lia. do 2 f_equal. lia. }
    rewrite !Hs, IH; [|by split; [apply Z.shiftr_nonneg; lia|apply shiftr_le; lia]
      |apply (shiftr_lt_pow2 b c); lia|lia|lia..].
    rewrite pow2_S in *. rewrite Z.odd_add, Z.odd_mul, andb_false_l, xorb_false_r.
    rewrite (proj2 (Z.eqb_neq (b + _) _)) by lia.
    replace (a + 2 * 2 ^ Z.of_nat c <? b + 2 * 2 ^ Z.of_nat c) with (a <? b) by lia.
    destruct (Z.eqb_spec b 0) as [->|].
    + assert (a = 0) as -> by lia. simpl. by rewrite cdirs_zero.
    + by destruct (Z.odd a), (a <? b).
Qed.

(** A left sibling occurs exactly when the old tree's position is not 0. *)
Lemma seeded_cdirs f : forall node last,
  0 <= node <= last -> last < 2 ^ Z.of_nat f -> seeded (cdirs f node last) = (0 <? node).
Proof.
  induction f as [|f IH]; intros node last Hn Hl.
  - change (2 ^ Z.of_nat 0) with 1 in Hl. simpl. lia.
  - cbn [cdirs]. destruct (Z.eqb_spec last 0); [simpl; lia|].
    pose proof (shiftr_lt_pow2 last f ltac:(lia)). pose proof (shiftr_le node last ltac:(lia)).
    assert (0 <= Z.shiftr node 1) by (apply Z.shiftr_nonneg; lia).
    specialize (IH (Z.shiftr node 1) (Z.shiftr last 1)).
    destruct (Z.odd node) eqn:Ho; [simpl; destruct (Z.ltb_spec 0 node); [done|]|].
    { assert (node = 0) as -> by lia. done. }
    assert (seeded (cdirs f (Z.shiftr node 1) (Z.shiftr last 1)) = (0 <? node)) as E.
    { rewrite IH by lia. rewrite shiftr_1. rewrite <- Z.negb_even in Ho. apply negb_false_iff in Ho.
      apply Z.even_spec in Ho as [q ->]. rewrite (Z.mul_comm 2), Z.div_mul by lia. lia. }
    destruct (node <? last); exact E.
Qed.

(** The recursion on the two sizes is the walk on the two positions, shifted past the low bits
    that the old tree's last subtree covers. *)
Lemma croute_cdirs h : forall f m n,
  0 < m < n -> n <= 2 ^ Z.of_nat h -> (h < f)%nat ->
  croute h m n = cdirs f (Z.shiftr (m - 1) (trailing_zeros m)) (Z.shiftr (n - 1) (trailing_zeros m)).
Proof.
  induction h as [|h IH]; intros f m n Hm Hn Hf; [change (2 ^ Z.of_nat 0) with 1 in Hn; lia|].
  cbn [croute]. rewrite (proj2 (Z.eqb_neq _ _)) by lia. rewrite pow2_S in Hn.
  destruct (split_point_spec n) as (g & Hg & -> & Hkn); [lia|].
  assert (2 ^ g <= 2 ^ Z.of_nat h) as Hgh.
  { pose proof (split_point_height n (Z.of_nat h)) as Hs. rewrite (split_point_unique n g) in Hs; lia. }
  assert (g <= Z.of_nat h) by (apply pow2_le_inv; lia).
  destruct (trailing_zeros_spec m) as (Ht & q & Hq & Hmq); [lia|].
  set (t := trailing_zeros m) in *. pose proof (pow2_pos t Ht) as Htp.
  assert (Z.shiftr (n - 1) g = 1) as Hn1.
  { rewrite Z.shiftr_div_pow2 by lia. symmetry. apply Z.div_unique with (n - 1 - 2 ^ g); lia. }
  destruct (Z.leb_spec m (2 ^ g)) as [Hle|Hgt].
  - assert (t <= g) as Htg by (apply pow2_le_inv; [lia|]; nia).
    assert (exists a, g - t = Z.of_nat a) as [a Ha] by (exists (Z.to_nat (g - t)); lia).
    rewrite (cdirs_left a); [| |rewrite Z.shiftr_shiftr by lia; by replace (t + Z.of_nat a) with g by lia|lia].
    2:{ rewrite Z.shiftr_div_pow2 by lia. split; [apply Z.div_pos; lia|].
        apply Z.div_lt_upper_bound; [lia|]. rewrite <- Z.pow_add_r by lia.
        replace (t + Z.of_nat a) with g by lia. lia. }
    f_equal. destruct (Z.eq_dec m (2 ^ g)) as [Heq|].
    + destruct h; cbn [croute]; rewrite ?(proj2 (Z.eqb_eq m (2 ^ g)) Heq).
      all: assert (t = g) by (unfold t; rewrite Heq; by apply trailing_zeros_pow2).
      all: assert (a = 0%nat) as -> by lia; by destruct f.
    + rewrite (IH f) by lia. fold t. f_equal. rewrite Z.shiftr_div_pow2 by lia.
      assert (2 ^ g = 2 ^ Z.of_nat a * 2 ^ t) as -> by (rewrite <- Z.pow_add_r by lia; f_equal; lia).
      symmetry. apply Z.div_unique with (2 ^ t - 1); lia.
  - assert (t < g) as Htg.
    { apply (Z.pow_lt_mono_r_iff 2); [lia..|]. destruct (Z.lt_ge_cases (2 ^ t) (2 ^ g)); [done|].
      destruct (Z.eq_dec q 0) as [->|]; [|nia].
      assert (2 ^ g < 2 ^ t) as Hlt by nia. apply pow2_lt_le in Hlt; lia. }
    assert (trailing_zeros (m - 2 ^ g) = t) as Htm.
    { apply (trailing_zeros_unique _ _ (q - 2 ^ (g - t - 1))); [done| |].
      - rewrite (pow2_double t g) in Hgt by lia. pose proof (pow2_pos (g - t - 1)). nia.
      - rewrite (pow2_double t g), Hmq by lia. ring. }
    assert (exists a, g - t = Z.of_nat a) as [a Ha] by (exists (Z.to_nat (g - t)); lia).
    rewrite (IH f) by lia. rewrite Htm.
    replace (m - 1) with (m - 2 ^ g - 1 + 2 ^ g) by lia.
    replace (n - 1) with (n - 2 ^ g - 1 + 2 ^ g) by lia.
    rewrite !(shiftr_add_pow2 _ g t), Ha by lia. rewrite cdirs_right; [done| | |lia].
    + rewrite !Z.shiftr_div_pow2 by lia. split; [apply Z.div_pos; lia|apply Z.div_le_mono; lia].
    + rewrite !Z.shiftr_div_pow2 by lia. apply Z.div_lt_upper_bound; [lia|].
      rewrite <- Z.pow_add_r by lia. replace (t + Z.of_nat a) with g by lia. lia.
Qed.

(** ** Path length *)

Lemma croute_same h n : croute h n n = [].
Proof. destruct h; [done|]. cbn [croute]. by rewrite Z.eqb_refl. Qed.

Lemma croute_S h m n :
  m <> n -> croute (S h) m n =
    if m <=? split_point n then croute h m (split_point n) ++ [false]
    else croute h (m - split_point n) (n - split_point n) ++ [true].
Proof. intros Hm. cbn [croute]. by rewrite (proj2 (Z.eqb_neq _ _)) by lia. Qed.

Lemma subproof_len_same f n b : subproof_len f n n b = Z.b2z (negb b).
Proof. destruct f; cbn [subproof_len]; by rewrite Z.eqb_refl. Qed.

(** The facts about one step of either recursion. *)
Lemma split_bounds h m n :
  0 < m <= n -> n <= 2 ^ Z.of_nat (S h) -> m <> n ->
  1 <= split_point n <= 2 ^ Z.of_nat h /\ 1 <= n - split_point n <= 2 ^ Z.of_nat h.
Proof.
  intros Hm Hn Hne. rewrite pow2_S in Hn.
  destruct (split_point_height n (Z.of_nat h)) as (H1 & H2 & _); lia.
Qed.

Lemma croute_base m n : 0 < m <= n -> n <= 2 ^ Z.of_nat 0 -> m = n.
Proof. change (2 ^ Z.of_nat 0) with 1. lia. Qed.

Lemma subproof_len_croute h : forall m n b,
  0 < m <= n -> n <= 2 ^ Z.of_nat h ->
  subproof_len h m n b = len (croute h m n) + Z.b2z (negb b || seeded (croute h m n)).
Proof.
  induction h as [|h IH]; intros m n b Hm Hn; (destruct (Z.eq_dec m n) as [->|Hne];
    [by rewrite croute_same, subproof_len_same, orb_false_r|]).
  - destruct Hne. by apply croute_base.
  - cbn [subproof_len]. rewrite croute_S, (proj2 (Z.eqb_neq _ _)) by lia.
    change (largest_power_of_two_below n) with (split_point n).
    destruct (split_bounds h m n) as [Hk1 Hk2]; [done..|].
    destruct (Z.leb_spec m (split_point n)); rewrite IH, len_app, seeded_app by lia;
      change (len [_]) with 1; simpl; rewrite ?orb_false_r, ?orb_true_r; simpl; lia.
Qed.

(** ** Generation *)

Section Generate.
Context {H : Hasher} (tree : MerkleTree).
Hypothesis Hlen : len (leaves tree) < 2 ^ 64.

Lemma subtree_ok a b :
  0 <= a < b -> b <= len (leaves tree) -> subtree tree a b = Ok (mth (slice (leaves tree) a b)).
Proof. intros. unfold subtree. by rewrite subtree_hash_ok by lia. Qed.

Lemma collect_subproof_ok h : forall m s e b out,
  0 <= s -> 0 < m <= e - s -> e <= len (leaves tree) -> e - s <= 2 ^ Z.of_nat h ->
  exists seed path,
    collect_subproof h tree m s e b out =
      Ok (out ++ (if (negb b || seeded (croute h m (e - s)))%bool then [seed] else []) ++ path) /\
    length path = length (croute h m (e - s)) /\
    climb_left (croute h m (e - s)) path seed = mth (slice (leaves tree) s (s + m)) /\
    climb (croute h m (e - s)) path seed = mth (slice (leaves tree) s e).
Proof.
  assert (Hsame : forall h s e b out,
    0 <= s -> 0 < e - s -> e <= len (leaves tree) ->
    exists seed path,
      collect_subproof h tree (e - s) s e b out =
        Ok (out ++ (if (negb b || seeded (croute h (e - s) (e - s)))%bool then [seed] else []) ++ path) /\
      length path = length (croute h (e - s) (e - s)) /\
      climb_left (croute h (e - s) (e - s)) path seed = mth (slice (leaves tree) s (s + (e - s))) /\
      climb (croute h (e - s) (e - s)) path seed = mth (slice (leaves tree) s e)).
  { intros h0 s e b out Hs He Hl. exists (mth (slice (leaves tree) s e)), [].
    rewrite croute_same. replace (s + (e - s)) with e by lia.
    destruct h0; cbn [collect_subproof]; rewrite Z.eqb_refl, ?subtree_ok by lia;
      by destruct b; simpl; rewrite ?app_nil_r. }
  induction h as [|h IH]; intros m s e b out Hs Hm He Hh;
    (destruct (Z.eq_dec m (e - s)) as [->|Hne]; [apply Hsame; lia|]).
  { destruct Hne. by apply croute_base. }
  cbn [collect_subproof]. rewrite (proj2 (Z.eqb_neq _ _)), croute_S by lia.
  change (largest_power_of_two_below (e - s)) with (split_point (e - s)).
  destruct (split_bounds h m (e - s)) as [Hk1 Hk2]; [done..|].
  rewrite (mth_slice_split _ s e) by lia.
  destruct (split_point_spec (e - s)) as (g & Hg & Hk & Hkn); [lia|].
  set (k := split_point (e - s)) in *.
  destruct (Z.leb_spec m k) as [Hle|Hgt].
  - destruct (IH m s (s + k) b out) as (seed & p & -> & Hp & Hl & Hc); [lia..|].
    replace (s + k - s) with k in * by lia. rewrite subtree_ok by lia.
    exists seed, (p ++ [mth (slice (leaves tree) (s + k) e)]).
    rewrite seeded_app, orb_false_r, <- !app_assoc, !length_app, Hp.
    rewrite climb_left_app, climb_app, Hl, Hc by done. by split_and!.
  - destruct (IH (m - k) (s + k) e false out) as (seed & p & -> & Hp & Hl & Hc); [lia..|].
    replace (e - (s + k)) with (e - s - k) in * by lia.
    replace (s + k + (m - k)) with (s + m) in * by lia. rewrite subtree_ok by lia.
    exists seed, (p ++ [mth (slice (leaves tree) s (s + k))]).
    rewrite seeded_app, !orb_true_r, <- !app_assoc, !length_app, Hp.
    rewrite climb_left_app, climb_app, Hl, Hc by done. split_and!; [done|done| |done].
    rewrite (mth_slice_split _ s (s + m)) by lia.
    replace (s + m - s) with m by lia.
    rewrite (split_point_unique m g) by lia. rewrite <- Hk. done.
Qed.
End Generate.

(** ** Verification *)

Section Verify.
Context {H : Hasher} (p : list HashOutput) (expected : Z).

(** Both loops of [verify], along a route. *)
Fixpoint follow (dirs : list bool) (idx : Z) (first second : HashOutput) :
    result (HashOutput * HashOutput * Z) ProofError :=
  match dirs with
  | [] => Ok (first, second, idx)
  | d :: dirs' =>
      let? h := path_at p idx expected in
      follow dirs' (idx + 1) (if d then hash_node h first else first)
                             (if d then hash_node h second else hash_node second h)
  end.

Lemma follow_ok dirs : forall idx first second,
  0 <= idx -> idx + len dirs <= len p ->
  follow dirs idx first second =
    Ok (climb_left dirs (drop (Z.to_nat idx) p) first,
        climb dirs (drop (Z.to_nat idx) p) second, idx + len dirs).
Proof.
  induction dirs as [|d dirs IH]; intros idx first second Hi Hl.
  - simpl. do 2 f_equal. unfold len; simpl; lia.
  - cbn [follow]. rewrite len_cons in Hl.
    destruct (lookup_lt_is_Some_2 p (Z.to_nat idx)) as [h Hh]; [unfold len in Hl; lia|].
    unfold path_at. rewrite Hh, (drop_S _ _ _ Hh). cbn [ok_or].
    rewrite IH by lia. replace (Z.to_nat (idx + 1)) with (S (Z.to_nat idx)) by lia.
    rewrite len_cons. cbn [climb climb_left]. do 2 f_equal. lia.
Qed.

Definition both_loops (f1 f2 : nat) (node last idx : Z) (first second : HashOutput) :
    result (HashOutput * HashOutput * Z) ProofError :=
  let? mid := node_loop f1 p expected node last idx first second in
  let '(first, second, idx, last) := mid in
  let? fin := last_loop f2 p expected last idx second in
  let '(second, idx) := fin in
  Ok (first, second, idx).

Lemma last_loop_follow f : forall f1 f2 last idx first second,
  0 <= last < 2 ^ Z.of_nat f -> last < 2 ^ Z.of_nat f2 ->
  both_loops f1 f2 0 last idx first second = follow (cdirs f 0 last) idx first second.
Proof.
  assert (Hone : forall f1 f2 last idx first second,
    both_loops f1 f2 0 last idx first second =
      let? fin := last_loop f2 p expected last idx second in
      let '(second, idx) := fin in Ok (first, second, idx)) by (by intros []).
  induction f as [|f IH]; intros f1 f2 last idx first second Hl Hl2; rewrite Hone.
  - change (2 ^ Z.of_nat 0) with 1 in Hl. assert (last = 0) as -> by lia. by destruct f2.
  - cbn [cdirs]. destruct (Z.eqb_spec last 0) as [->|]; [by destruct f2|].
    destruct f2 as [|f2]; [change (2 ^ Z.of_nat 0) with 1 in Hl2; lia|].
    cbn [last_loop]. rewrite (proj2 (Z.ltb_lt 0 last)) by lia. cbn [negb Z.odd follow].
    destruct (path_at p idx expected); [|done].
    rewrite <- (Hone f1), IH; [done|apply shiftr_lt_pow2; lia|apply (shiftr_lt_pow2 last f2); lia].
Qed.

Lemma both_loops_follow f : forall f1 f2 node last idx first second,
  0 <= node <= last -> last < 2 ^ Z.of_nat f ->
  node < 2 ^ Z.of_nat f1 -> last < 2 ^ Z.of_nat f2 ->
  both_loops f1 f2 node last idx first second = follow (cdirs f node last) idx first second.
Proof.
  induction f as [|f IH]; intros f1 f2 node last idx first second Hn H0 H1 H2;
    (destruct (Z.eq_dec node 0) as [->|Hne]; [apply last_loop_follow; lia|]).
  { change (2 ^ Z.of_nat 0) with 1 in H0. lia. }
  destruct f1 as [|f1]; [change (2 ^ Z.of_nat 0) with 1 in H1; lia|].
  assert (Hrest : forall idx first second,
    both_loops f1 f2 (Z.shiftr node 1) (Z.shiftr last 1) idx first second
    = follow (cdirs f (Z.shiftr node 1) (Z.shiftr last 1)) idx first second).
  { intros. pose proof (shiftr_lt_pow2 node f1). pose proof (shiftr_lt_pow2 last f).
    pose proof (shiftr_le node last). pose proof (shiftr_le last last).
    apply IH; [lia..|]. apply Z.le_lt_trans with last; [|done]. rewrite shiftr_1.
    apply Z.div_le_upper_bound; lia. }
  cbn [cdirs]. rewrite (proj2 (Z.eqb_neq last 0)) by lia.
  unfold both_loops in *. cbn [node_loop]. rewrite (proj2 (Z.ltb_lt 0 node)), low_bit_odd by lia.
  cbn [negb]. destruct (Z.odd node); [|destruct (node <? last)]; cbn [follow];
    try (destruct (path_at p idx expected); [|done]); apply Hrest.
Qed.
End Verify.

Lemma skip_ones_spec f : forall x t q s,
  0 <= t <= Z.of_nat f -> 0 <= q -> x + 1 = 2 ^ t * (2 * q + 1) ->
  skip_ones f x s = (Z.shiftr x t, Z.shiftr s t).
Proof.
  assert (Hev : forall f q s, skip_ones f (2 * q) s = (2 * q, s)).
  { intros f0 q s. destruct f0; cbn [skip_ones]; by rewrite low_bit_odd, Z.odd_even. }
  induction f as [|f IH]; intros x t q s Ht Hq Hx;
    (destruct (Z.eq_dec t 0) as [->|Hne];
     [rewrite Z.pow_0_r in Hx; replace x with (2 * q) by lia; rewrite !Z.shiftr_0_r; apply Hev|]);
    [lia|].
  assert (2 ^ t = 2 * 2 ^ (t - 1)) as Hp by (rewrite <- pow2_succ by lia; f_equal; lia).
  pose proof (pow2_pos (t - 1)).
  set (y := 2 ^ (t - 1) * (2 * q + 1) - 1). assert (x = 2 * y + 1) as -> by (unfold y; nia).
  cbn [skip_ones]. rewrite low_bit_odd, Z.odd_odd.
  rewrite (IH _ (t - 1) q).
  - f_equal; rewrite Z.shiftr_shiftr by lia; f_equal; lia.
  - lia.
  - done.
  - rewrite shiftr_1. replace ((2 * y + 1) / 2) with y by (apply Z.div_unique with 1; lia).
    unfold y. lia.
Qed.

(** The seed of the reconstruction and the rest of the path. *)
Definition split_seed (dirs : list bool) (old_root : HashOutput) (p : list HashOutput) :
    HashOutput * list HashOutput :=
  if seeded dirs then (hd old_root p, tl p) else (old_root, p).

(** [verify] between two non-empty sizes, along the route of the prover. *)
Definition verify_between {H : Hasher} (dirs : list bool) (p : list HashOutput)
    (old_root new_root : HashOutput) : result unit ProofError :=
  let '(seed, rest) := split_seed dirs old_root p in
  if (bool_decide (climb_left dirs rest seed = old_root) &&
      bool_decide (climb dirs rest seed = new_root))%bool
  then Ok tt else Err RootMismatch.

Lemma consistency_path_len_croute m n :
  0 < m < n -> n <= 2 ^ 64 ->
  consistency_path_len m n = len (croute 64 m n) + Z.b2z (seeded (croute 64 m n)).
Proof.
  intros Hm Hn. unfold consistency_path_len. rewrite !(proj2 (Z.eqb_neq _ _)) by lia.
  cbn [orb]. rewrite subproof_len_croute; [by cbn [negb orb]|lia|exact Hn].
Qed.

(** The part of [verify] after the shared low bits are skipped, with the fuel of its loops. *)
Definition verify_mid {H : Hasher} (f1 f2 : nat) (p : list HashOutput) (expected : Z)
    (old_root new_root : HashOutput) (node last : Z) : result unit ProofError :=
  let? start :=
    (if 0 <? node then let? h := path_at p 0 expected in Ok (h, 1) else Ok (old_root, 0)) in
  let '(seed, idx) := start in
  let? fin := both_loops p expected f1 f2 node last idx seed seed in
  let '(first, second, idx) := fin in
  if negb (idx =? len p) then Err (MalformedPath idx (len p))
  else if (bool_decide (first = old_root) && bool_decide (second = new_root))%bool
  then Ok tt else Err RootMismatch.

Lemma verify_mid_eq {H : Hasher} (proof : ConsistencyProof) ro rn :
  let m := old_size proof in
  let n := new_size proof in
  0 < m < n -> len (path proof) = consistency_path_len m n ->
  verify proof ro rn =
    let '(node, last) := skip_ones 64 (m - 1) (n - 1) in
    verify_mid 64 64 (path proof) (consistency_path_len m n) ro rn node last.
Proof.
  intros m n Hm Hl. unfold verify, verify_mid, both_loops. fold m n.
  rewrite (proj2 (Z.ltb_ge n m)), (proj2 (Z.eqb_neq m 0)), (proj2 (Z.eqb_neq m n)) by lia.
  rewrite (proj2 (Z.eqb_eq _ _) Hl). cbv beta iota delta [negb].
  destruct (skip_ones 64 (m - 1) (n - 1)) as [node last].
  destruct (if 0 <? node then _ else _) as [[seed idx]|]; [|reflexivity].
  destruct (node_loop 64 _ _ _ _ _ _ _) as [[[[a b] i] l]|]; [|reflexivity].
  destruct (last_loop 64 _ _ _ _ _) as [[b' i']|]; reflexivity.
Qed.

Lemma verify_mid_between {H : Hasher} f f1 f2 p ex ro rn node last dirs :
  0 <= node <= last -> last < 2 ^ Z.of_nat f ->
  node < 2 ^ Z.of_nat f1 -> last < 2 ^ Z.of_nat f2 ->
  dirs = cdirs f node last -> len p = len dirs + Z.b2z (seeded dirs) ->
  verify_mid f1 f2 p ex ro rn node last = verify_between dirs p ro rn.
Proof.
  intros Hn H0 H1 H2 Hd Hl. pose proof (seeded_cdirs f node last Hn H0) as Hs.
  rewrite <- Hd in Hs. unfold verify_mid, verify_between, split_seed. rewrite Hs in *.
  destruct (0 <? node).
  - destruct p as [|h p];
      [pose proof (len_nonneg dirs); change (@len HashOutput []) with 0 in Hl; simpl in Hl; lia|].
    change (path_at (h :: p) 0 ex) with (@Ok HashOutput ProofError h). cbv beta iota.
    rewrite (both_loops_follow _ _ f), <- Hd, follow_ok by (done || (simpl in Hl; lia)).
    replace (1 + len dirs) with (len (h :: p)) by (simpl in Hl; lia). by rewrite Z.eqb_refl.
  - rewrite (both_loops_follow _ _ f), <- Hd, follow_ok by (done || (simpl in Hl; lia)).
    replace (0 + len dirs) with (len p) by (simpl in Hl; lia). by rewrite Z.eqb_refl.
Qed.

(** The positions after the shared low bits. *)
Lemma shifted_positions m n t q :
  0 < m < n -> n <= 2 ^ 64 -> 0 <= t -> 0 <= q -> m = 2 ^ t * (2 * q + 1) ->
  t <= 64 /\ 0 <= Z.shiftr (m - 1) t <= Z.shiftr (n - 1) t /\ Z.shiftr (n - 1) t < 2 ^ 64.
Proof.
  intros Hm Hn Ht Hq Hmq. pose proof (pow2_pos t Ht). split.
  - apply pow2_le_inv; [lia|]. nia.
  - rewrite !Z.shiftr_div_pow2 by lia. split.
    + split; [apply Z.div_pos; lia|apply Z.div_le_mono; lia].
    + apply Z.le_lt_trans with (n - 1); [apply Z.div_le_upper_bound; nia|lia].
Qed.

(** What [verify] decides between two non-empty sizes. *)
Lemma verify_between_ok {H : Hasher} (proof : ConsistencyProof) ro rn :
  let m := old_size proof in
  let n := new_size proof in
  let dirs := croute 64 m n in
  0 < m < n -> n <= 2 ^ 64 ->
  verify proof ro rn =
    if negb (len (path proof) =? len dirs + Z.b2z (seeded dirs))
    then Err (MalformedPath (len dirs + Z.b2z (seeded dirs)) (len (path proof)))
    else verify_between dirs (path proof) ro rn.
Proof.
  intros m n dirs Hm Hn.
  pose proof (consistency_path_len_croute m n Hm Hn) as Hlen. fold dirs in Hlen.
  destruct (Z.eqb_spec (len (path proof)) (len dirs + Z.b2z (seeded dirs))) as [Hl|Hl]; cbn [negb].
  - rewrite verify_mid_eq by (fold m n; lia). fold m n.
    destruct (trailing_zeros_spec m) as (Ht & q & Hq & Hmq); [lia|].
    destruct (shifted_positions m n _ q Hm Hn Ht Hq Hmq) as (Ht64 & Hnl & Hll).
    rewrite (skip_ones_spec 64 (m - 1) (trailing_zeros m) q) by (rewrite ?Z.sub_add; done || lia).
    apply (verify_mid_between 65); [done| | | | |done].
    + change (Z.shiftr (n - 1) (trailing_zeros m) < 2 ^ 65). lia.
    + change (Z.shiftr (m - 1) (trailing_zeros m) < 2 ^ 64). lia.
    + exact Hll.
    + apply croute_cdirs; [done|exact Hn|lia].
  - unfold verify. fold m n.
    rewrite (proj2 (Z.ltb_ge n m)), Hlen, (proj2 (Z.eqb_neq (len _) _)) by (done || lia). done.
Qed.

(** ** Both sides together *)

(** The tree of the first [n] leaves. *)
Definition tree_at (tree : MerkleTree) (n : Z) : MerkleTree :=
  {| leaves := take (Z.to_nat n) (leaves tree) |}.

Lemma root_tree_at {H : Hasher} tree n : root (tree_at tree n) = mth (slice (leaves tree) 0 n).
Proof. unfold root, tree_at, slice. simpl. by rewrite Z.sub_0_r. Qed.

(** The inputs hashed while reconstructing the new root. *)
Definition verify_inputs {H : Hasher} (proof : ConsistencyProof) (old_root : HashOutput) :
    list (list byte) :=
  let dirs := if ((old_size proof =? 0) || (old_size proof =? new_size proof))%bool then []
              else croute 64 (old_size proof) (new_size proof) in
  let '(seed, rest) := split_seed dirs old_root (path proof) in
  climb_inputs dirs rest seed.

Section Between.
Context {H : Hasher}.

Lemma verify_between_Ok dirs p ro rn :
  verify_between dirs p ro rn = Ok tt <->
  climb_left dirs (snd (split_seed dirs ro p)) (fst (split_seed dirs ro p)) = ro /\
  climb dirs (snd (split_seed dirs ro p)) (fst (split_seed dirs ro p)) = rn.
Proof.
  unfold verify_between. destruct (split_seed dirs ro p) as [seed rest]. simpl.
  destruct (bool_decide_reflect (climb_left dirs rest seed = ro)),
    (bool_decide_reflect (climb dirs rest seed = rn)); simpl; intuition congruence.
Qed.

Lemma length_split_seed dirs ro p :
  len p = len dirs + Z.b2z (seeded dirs) -> length (snd (split_seed dirs ro p)) = length dirs.
Proof.
  unfold split_seed, len. destruct (seeded dirs); [destruct p|]; simpl; lia.
Qed.

Lemma split_seed_inj dirs ro ro' p p' :
  len p = len p' -> len p = len dirs + Z.b2z (seeded dirs) ->
  split_seed dirs ro p = split_seed dirs ro' p' -> p = p'.
Proof.
  unfold split_seed, len. destruct (seeded dirs); [|by intros _ _ [=]].
  destruct p, p'; simpl; try (intros; lia). by intros _ _ [= -> ->].
Qed.

Lemma verify_between_inj dirs p p' ro ro' rn :
  len p = len dirs + Z.b2z (seeded dirs) -> len p' = len dirs + Z.b2z (seeded dirs) ->
  verify_between dirs p ro rn = Ok tt -> verify_between dirs p' ro' rn = Ok tt ->
  (p = p' /\ ro = ro') \/
  collision_in ((let '(seed, rest) := split_seed dirs ro p in climb_inputs dirs rest seed) ++
                (let '(seed, rest) := split_seed dirs ro' p' in climb_inputs dirs rest seed)).
Proof.
  intros Hl Hl'. rewrite !verify_between_Ok. intros [Hf Hs] [Hf' Hs'].
  pose proof (length_split_seed dirs ro p Hl) as Hr.
  pose proof (length_split_seed dirs ro' p' Hl') as Hr'.
  pose proof (split_seed_inj dirs ro ro' p p' ltac:(lia) Hl) as Hinj.
  destruct (split_seed dirs ro p) as [seed rest], (split_seed dirs ro' p') as [seed' rest'].
  simpl in *. rewrite <- Hs' in Hs.
  apply climb_inj in Hs as [[-> ->]|]; [left|by right|done|done].
  split; [by apply Hinj|by rewrite <- Hf, <- Hf'].
Qed.

(** The prover's path passes. *)
Lemma generate_between tree m n :
  0 < m < n -> n <= tree_len tree -> tree_len tree < 2 ^ 64 ->
  let dirs := croute 64 m n in
  exists p, generate tree m n = Ok (from_parts m n p) /\
    len p = len dirs + Z.b2z (seeded dirs) /\
    verify_between dirs p (root (tree_at tree m)) (root (tree_at tree n)) = Ok tt.
Proof.
  intros Hm Hn Hl. unfold tree_len in *.
  assert (n - 0 <= 2 ^ Z.of_nat 64) as Hn64 by (change (2 ^ Z.of_nat 64) with (2 ^ 64); lia).
  destruct (collect_subproof_ok tree Hl 64 m 0 n true [] ltac:(lia) ltac:(lia) Hn Hn64)
    as (seed & p & Hc & Hp & Hf & Hs).
  rewrite Z.sub_0_r, Z.add_0_l in *. revert Hc Hp Hf Hs. cbv zeta.
  generalize (croute 64 m n). intros dirs Hc Hp Hf Hs. cbn [negb orb] in Hc.
  exists ((if seeded dirs then [seed] else []) ++ p). split_and!.
  - unfold generate, tree_len.
    rewrite !(proj2 (Z.ltb_ge _ _)), (proj2 (Z.eqb_neq m 0)), (proj2 (Z.eqb_neq m n)) by lia.
    cbn [orb]. by rewrite Hc.
  - rewrite len_app. unfold len at 2. rewrite Hp. unfold len. destruct (seeded dirs); simpl; lia.
  - rewrite verify_between_Ok, !root_tree_at. unfold split_seed.
    destruct (seeded dirs) eqn:Hsd; simpl; [done|].
    rewrite climb_left_unseeded in * by done. by rewrite <- Hf, <- Hs.
Qed.
End Between.

(** ** Appending never rewrites *)

Section Injective.
Context {H : Hasher}.

(** The inputs hashed by [mth]. *)
Fixpoint mth_inputs_fuel (fuel : nat) (ls : list HashOutput) : list (list byte) :=
  match fuel with
  | O => []
  | S fuel' =>
      if len ls <? 2 then [] else
      let k := Z.to_nat (split_point (len ls)) in
      node_input (mth (take k ls)) (mth (drop k ls))
      :: mth_inputs_fuel fuel' (take k ls) ++ mth_inputs_fuel fuel' (drop k ls)
  end.
Definition mth_inputs (ls : list HashOutput) : list (list byte) := mth_inputs_fuel (length ls) ls.

Lemma mth_inj_fuel f : forall ls ls',
  (length ls <= f)%nat -> length ls = length ls' -> mth ls = mth ls' ->
  ls = ls' \/ collision_in (mth_inputs_fuel f ls ++ mth_inputs_fuel f ls').
Proof.
  induction f as [|f IH]; intros ls ls' Hf Hl E; [destruct ls, ls'; simpl in *; (by left) || lia|].
  destruct (Z.lt_ge_cases (len ls) 2) as [Hs|Hs].
  { unfold len in Hs. destruct ls as [|x [|]], ls' as [|y [|]]; simpl in *; try lia; [by left|].
    rewrite !mth_single in E. left. by subst. }
  assert (len ls' = len ls) as Hl' by (unfold len; lia).
  cbn [mth_inputs_fuel]. rewrite Hl', (proj2 (Z.ltb_ge (len ls) 2)) by done.
  rewrite (mth_unfold ls), (mth_unfold ls'), Hl' in E by lia.
  destruct (split_point_spec (len ls) Hs) as (h & Hh & Hk & Hlt). rewrite Hk in *. clear Hk.
  pose proof (pow2_pos h Hh). unfold len in Hlt. set (k := Z.to_nat (2 ^ h)) in *.
  apply hash_node_inj in E as [[E1 E2]|]; [|right; collide].
  apply IH in E1 as [E1|]; [|right; collide
    |rewrite length_take; lia|rewrite !length_take; lia].
  apply IH in E2 as [E2|]; [|right; collide
    |rewrite length_drop; lia|rewrite !length_drop; lia].
  left. by rewrite <- (take_drop k ls), E1, E2, take_drop.
Qed.

Lemma mth_inj ls ls' :
  length ls = length ls' -> mth ls = mth ls' ->
  ls = ls' \/ collision_in (mth_inputs ls ++ mth_inputs ls').
Proof. intros Hl E. unfold mth_inputs. rewrite <- Hl. by apply mth_inj_fuel. Qed.
End Injective.

(** ** [generate] then [verify], and [verify] against honest roots *)

Lemma tree_at_0 {H : Hasher} tree : root (tree_at tree 0) = empty_root.
Proof. done. Qed.

Lemma generate_trivial {H : Hasher} tree m n :
  0 <= m <= n -> n <= tree_len tree -> m = 0 \/ m = n -> generate tree m n = Ok (from_parts m n []).
Proof.
  intros Hm Hn Hb. unfold generate. rewrite !(proj2 (Z.ltb_ge _ _)) by lia.
  replace ((m =? 0) || (m =? n))%bool with true; [done|]. by destruct Hb as [->| ->]; lia.
Qed.

Lemma consistency_path_len_trivial m n : m = 0 \/ m = n -> consistency_path_len m n = 0.
Proof.
  intros Hb. unfold consistency_path_len.
  replace ((m =? 0) || (m =? n))%bool with true; [done|]. by destruct Hb as [->| ->]; lia.
Qed.

(** The boundary branches of [verify]. *)
Lemma verify_zero {H : Hasher} n p ro rn :
  0 <= n -> verify (from_parts 0 n p) ro rn =
    if negb (len p =? 0) then Err (MalformedPath 0 (len p))
    else if (bool_decide (ro = empty_root) && ((0 <? n) || bool_decide (rn = empty_root)))%bool
    then Ok tt else Err RootMismatch.
Proof.
  intros Hn. unfold verify. cbn [old_size new_size path].
  rewrite (proj2 (Z.ltb_ge n 0)), consistency_path_len_trivial by auto.
  destruct (len p =? 0); [|done]. cbn [negb]. change (0 =? 0) with true. cbv iota.
  destruct (bool_decide (ro = empty_root)); [|done]. cbn [negb andb].
  replace (n =? 0) with (negb (0 <? n)) by lia.
  by destruct (0 <? n), (bool_decide (rn = empty_root)).
Qed.

Lemma verify_same {H : Hasher} m p ro rn :
  0 < m -> verify (from_parts m m p) ro rn =
    if negb (len p =? 0) then Err (MalformedPath 0 (len p))
    else if bool_decide (ro = rn) then Ok tt else Err RootMismatch.
Proof.
  intros Hm. unfold verify. cbn [old_size new_size path].
  rewrite (proj2 (Z.ltb_ge m m)), consistency_path_len_trivial, (proj2 (Z.eqb_neq m 0)), Z.eqb_refl
    by auto with lia. by destruct (len p =? 0).
Qed.

Lemma consistency_generate_verifies {H : Hasher} tree m n :
  0 <= m <= n -> n <= tree_len tree -> tree_len tree < 2 ^ 64 ->
  exists proof, generate tree m n = Ok proof /\ old_size proof = m /\ new_size proof = n /\
    verify proof (root (tree_at tree m)) (root (tree_at tree n)) = Ok tt.
Proof.
  intros Hm Hn Hl. destruct (decide (m = 0 \/ m = n)) as [Hb|Hb].
  - exists (from_parts m n []). rewrite generate_trivial by done. split_and!; [done..|].
    destruct (Z.eq_dec m 0) as [->|].
    + rewrite verify_zero by lia. rewrite tree_at_0, bool_decide_true by done. simpl.
      destruct (Z.ltb_spec 0 n); [done|]. simpl. assert (n = 0) as -> by lia.
      by rewrite bool_decide_true.
    + assert (m = n) as -> by tauto. rewrite verify_same, bool_decide_true by (done || lia). done.
  - destruct (generate_between tree m n) as (p & Hg & Hp & Hv); [lia..|].
    exists (from_parts m n p). split_and!; [done..|].
    rewrite verify_between_ok by (cbn [old_size new_size]; lia). cbn [old_size new_size path].
    rewrite (proj2 (Z.eqb_eq _ _) Hp). exact Hv.
Qed.

(** Accepted proofs of one pair of sizes for one new root agree, old root included. *)
Lemma consistency_verify_unique {H : Hasher} p p' ro ro' rn :
  0 <= old_size p <= new_size p -> new_size p <= 2 ^ 64 ->
  old_size p = old_size p' -> new_size p = new_size p' ->
  verify p ro rn = Ok tt -> verify p' ro' rn = Ok tt ->
  (p = p' /\ ro = ro') \/ collision_in (verify_inputs p ro ++ verify_inputs p' ro').
Proof.
  destruct p as [m n p], p' as [m' n' p']. cbn [old_size new_size].
  intros Hm Hn <- <- Hv Hv'. destruct (decide (m = 0 \/ m = n)) as [Hb|Hb].
  - left. assert (Hnil : forall q : list HashOutput, len q = 0 -> q = [])
      by (intros [|? ?]; [done|unfold len; simpl; lia]).
    destruct (Z.eq_dec m 0) as [->|].
    + rewrite !verify_zero in * by lia.
      destruct (Z.eqb_spec (len p) 0) as [Hp|]; [|done].
      destruct (Z.eqb_spec (len p') 0) as [Hp'|]; [|done].
      apply Hnil in Hp as ->. apply Hnil in Hp' as ->. cbn [negb] in *.
      destruct (bool_decide_reflect (ro = empty_root)) as [->|]; [|done].
      by destruct (bool_decide_reflect (ro' = empty_root)) as [->|].
    + assert (m = n) as -> by tauto. rewrite !verify_same in * by lia.
      destruct (Z.eqb_spec (len p) 0) as [Hp|]; [|done].
      destruct (Z.eqb_spec (len p') 0) as [Hp'|]; [|done].
      apply Hnil in Hp as ->. apply Hnil in Hp' as ->. cbn [negb] in *.
      case_bool_decide; [|done]. case_bool_decide; [|done]. by subst.
  - rewrite !verify_between_ok in * by (cbn [old_size new_size]; lia).
    unfold verify_inputs. cbn [old_size new_size path] in *.
    rewrite (proj2 (Z.eqb_neq m 0)), (proj2 (Z.eqb_neq m n)) by tauto. cbn [orb].
    revert Hv Hv'. generalize (croute 64 m n). intros dirs Hv Hv'.
    destruct (Z.eqb_spec (len p) (len dirs + Z.b2z (seeded dirs))) as [Hp|]; [|done].
    destruct (Z.eqb_spec (len p') (len dirs + Z.b2z (seeded dirs))) as [Hp'|]; [|done].
    destruct (verify_between_inj _ _ _ _ _ _ Hp Hp' Hv Hv') as [[-> ->]|]; [by left|by right].
Qed.

Lemma verify_monotonic {H : Hasher} proof ro rn :
  verify proof ro rn = Ok tt -> old_size proof <= new_size proof.
Proof. unfold verify. by destruct (Z.ltb_spec (new_size proof) (old_size proof)). Qed.

(** An accepted proof against a tree's root is the prover's, and the old root the tree's. *)
Lemma verify_tree_sound {H : Hasher} tree proof ro :
  0 <= old_size proof -> new_size proof <= tree_len tree -> tree_len tree < 2 ^ 64 ->
  verify proof ro (root (tree_at tree (new_size proof))) = Ok tt ->
  exists honest, generate tree (old_size proof) (new_size proof) = Ok honest /\
    ((proof = honest /\ ro = root (tree_at tree (old_size proof))) \/
     collision_in (verify_inputs proof ro ++
                   verify_inputs honest (root (tree_at tree (old_size proof))))).
Proof.
  intros Hm Hn Ht Hv. pose proof (verify_monotonic _ _ _ Hv).
  destruct (consistency_generate_verifies tree (old_size proof) (new_size proof)) as
    (honest & Hg & Ho & Hnw & Hok); [lia..|].
  exists honest. split; [done|]. eapply consistency_verify_unique; [lia|lia|done|done|exact Hv|exact Hok].
Qed.

(** ** The properties *)

(** C5. Completeness of consistency proofs: between any two sizes of a tree, zero and equal
    sizes included, [generate] succeeds and [verify] accepts its proof against the two roots. *)
Theorem consistency_complete {H : Hasher} (tree : MerkleTree) (old new : TreeSize) :
  0 <= old <= new -> new <= tree_len tree -> tree_len tree < 2 ^ 64 ->
  exists proof, generate tree old new = Ok proof /\
    old_size proof = old /\ new_size proof = new /\
    verify proof (root (tree_at tree old)) (root (tree_at tree new)) = Ok tt.
Proof. apply consistency_generate_verifies. Qed.

Lemma consistency_complete_witness :
  exists proof, generate (H := ToyHasher) (toy_tree 7) 3 6 = Ok proof /\
    old_size proof = 3 /\ new_size proof = 6 /\
    verify (H := ToyHasher) proof (root (H := ToyHasher) (tree_at (toy_tree 7) 3))
      (root (H := ToyHasher) (tree_at (toy_tree 7) 6)) = Ok tt.
Proof.
  apply (consistency_complete (H := ToyHasher) (toy_tree 7) 3 6);
    vm_compute; intuition discriminate.
Defined.

(** Soundness of consistency proofs: a proof accepted against the root of a tree's first
    [new_size] leaves is the prover's proof and its old root is the root of the first
    [old_size] leaves, unless the inputs hashed in the two verifications collide. *)
Theorem consistency_sound {H : Hasher} (tree : MerkleTree) (proof : ConsistencyProof)
    (old_root : HashOutput) :
  0 <= old_size proof -> new_size proof <= tree_len tree -> tree_len tree < 2 ^ 64 ->
  verify proof old_root (root (tree_at tree (new_size proof))) = Ok tt ->
  exists honest, generate tree (old_size proof) (new_size proof) = Ok honest /\
    ((proof = honest /\ old_root = root (tree_at tree (old_size proof))) \/
     collision_in (verify_inputs proof old_root ++
                   verify_inputs honest (root (tree_at tree (old_size proof))))).
Proof. apply verify_tree_sound. Qed.

(** The proof from 3 to 7 leaves. *)
Definition toy_consistency : ConsistencyProof :=
  unwrap_or (from_parts 0 0 []) (generate (H := ToyHasher) (toy_tree 7) 3 7).

Lemma consistency_sound_witness :
  let proof := toy_consistency in
  let ro := root (H := ToyHasher) (toy_tree 3) in
  exists honest,
    generate (H := ToyHasher) (toy_tree 7) (old_size proof) (new_size proof) = Ok honest /\
    ((proof = honest /\ ro = root (H := ToyHasher) (tree_at (toy_tree 7) (old_size proof))) \/
     collision_in (H := ToyHasher)
       (verify_inputs (H := ToyHasher) proof ro ++
        verify_inputs (H := ToyHasher) honest
          (root (H := ToyHasher) (tree_at (toy_tree 7) (old_size proof))))).
Proof.
  apply (consistency_sound (H := ToyHasher)); vm_compute; intuition discriminate.
Defined.

(** C4. Append-only: if a proof between the sizes of two trees verifies against their two roots,
    the leaves of the old tree are the first leaves of the new one, unless the inputs hashed
    by the verifications or by the old roots contain a collision. *)
Theorem consistency_append_only {H : Hasher} (old new : MerkleTree) (proof : ConsistencyProof) :
  old_size proof = tree_len old -> new_size proof = tree_len new -> tree_len new < 2 ^ 64 ->
  verify proof (root old) (root new) = Ok tt ->
  exists honest, generate new (old_size proof) (new_size proof) = Ok honest /\
    (leaves old `prefix_of` leaves new \/
     collision_in (verify_inputs proof (root old) ++
                   verify_inputs honest (root (tree_at new (old_size proof))) ++
                   mth_inputs (leaves old) ++ mth_inputs (leaves (tree_at new (old_size proof))))).
Proof.
  intros Ho Hn Ht Hv. pose proof (verify_monotonic _ _ _ Hv) as Hm. unfold tree_len in *.
  assert (tree_at new (new_size proof) = new) as Hnew.
  { unfold tree_at. rewrite Hn. unfold len. rewrite Nat2Z.id, firstn_all. by destruct new. }
  rewrite <- Hnew in Hv. pose proof (len_nonneg (leaves old)).
  destruct (verify_tree_sound new proof (root old)) as (honest & Hg & Hs);
    [lia|unfold tree_len; lia|done|done|].
  exists honest. split; [done|]. destruct Hs as [[_ Hr]|Hc]; [|right; collide].
  unfold root in Hr. apply mth_inj in Hr as [Hr|Hc]; [left|right; collide|].
  - rewrite Hr. apply prefix_take.
  - rewrite Ho. simpl. rewrite length_take. unfold len in *. lia.
Qed.

Lemma consistency_append_only_witness :
  exists honest, generate (H := ToyHasher) (toy_tree 7) 3 7 = Ok honest /\
    (leaves (toy_tree 3) `prefix_of` leaves (toy_tree 7) \/
     collision_in (H := ToyHasher)
       (verify_inputs (H := ToyHasher) toy_consistency (root (H := ToyHasher) (toy_tree 3)) ++
        verify_inputs (H := ToyHasher) honest (root (H := ToyHasher) (tree_at (toy_tree 7) 3)) ++
        mth_inputs (H := ToyHasher) (leaves (toy_tree 3)) ++
        mth_inputs (H := ToyHasher) (leaves (tree_at (toy_tree 7) 3)))).
Proof.
  apply (consistency_append_only (H := ToyHasher) (toy_tree 3) (toy_tree 7) toy_consistency);
    vm_compute; intuition discriminate.
Defined.

(** C29. The verifier's two position walks decide what the prover's recursion says: between
    non-empty sizes, a path of another length than the route's is malformed, and otherwise
    both roots are reconstructed along the route from the old root or the path's first hash. *)
Theorem consistency_verify_reference {H : Hasher} (proof : ConsistencyProof)
    (old_root new_root : HashOutput) :
  let dirs := croute 64 (old_size proof) (new_size proof) in
  let expected := len dirs + Z.b2z (seeded dirs) in
  0 < old_size proof < new_size proof -> in_u64 (new_size proof) ->
  verify proof old_root new_root =
    if negb (len (path proof) =? expected) then Err (MalformedPath expected (len (path proof)))
    else verify_between dirs (path proof) old_root new_root.
Proof.
  cbv zeta. intros Hm [_ Hn]. apply verify_between_ok; [exact Hm|by apply Z.lt_le_incl].
Qed.

Lemma consistency_verify_reference_witness :
  verify (H := ToyHasher) toy_consistency (zero_array 32) (zero_array 32) = Err RootMismatch.
Proof.
  rewrite (consistency_verify_reference (H := ToyHasher) toy_consistency);
    vm_compute; intuition discriminate.
Defined.
