(* ===== verification/ProofCodecs.v ===== *)
(** * The wire codecs of the two Merkle proofs

    Both are two [uint64]s and a length-prefixed vector of 32-byte hashes. The codecs obey the
    laws of [TlsLaws]; a path is written when its hashes fit the 16-bit length prefix. *)

From S2P Require Import Prelude Types Wire WireLaws Tree TreeFacts Proofs Inclusion Consistency InclusionFacts ConsistencyFacts.

Local Open Scope Z_scope.
Local Open Scope mtc_scope.

(** The bytes both proofs share the shape of. *)
Definition sizes_and_path (a b : Z) (p : list HashOutput) : Writer :=
  do! write_bytes (to_be_bytes 8 a); do! write_bytes (to_be_bytes 8 b); write_vector_u16 p.

Definition parse_sizes_and_path {T} (f : Z -> Z -> list HashOutput -> T) : Reader T :=
  let! a := read_array 8 in
  let! b := read_array 8 in
  let! p := read_vector_u16 in
  ret (f (from_be_bytes (arr_list a)) (from_be_bytes (arr_list b)) p).

Lemma appends_sizes_and_path a b p : appends (sizes_and_path a b p).
Proof. unfold sizes_and_path. auto with wire. Qed.

Lemma from_be_array n z : 0 <= z < 256 ^ Z.of_nat n -> from_be_bytes (arr_list (be_array n z)) = z.
Proof. apply from_to_be_bytes. Qed.

Lemma Forall_valid_hashes (p : list HashOutput) : Forall tls_valid p.
Proof. by induction p; constructor. Qed.

Lemma parses_sizes_and_path {T} (f : Z -> Z -> list HashOutput -> T) a b p bs :
  in_u64 a -> in_u64 b -> writes (sizes_and_path a b p) bs ->
  parses (parse_sizes_and_path f) bs (f a b p) 1.
Proof.
  intros Ha Hb Hw.
  apply writes_bind_inv in Hw as (b1 & b2 & H1 & Hw & ->); [|auto with wire].
  apply writes_bind_inv in Hw as (b3 & b4 & H3 & Hw & ->); [|auto with wire].
  apply (writes_inj _ _ (to_be_bytes 8 a)) in H1 as ->; [|done].
  apply (writes_inj _ _ (to_be_bytes 8 b)) in H3 as ->; [|done].
  eapply parses_bind; [eapply parses_weaken; [apply parses_be|lia]|].
  eapply parses_bind; [eapply parses_weaken; [apply parses_be|lia]|].
  eapply parses_map; [done| |by rewrite !from_be_array].
  eapply parses_weaken; [apply parses_read_vector_u16; [apply Forall_valid_hashes|done]|done].
Qed.

Lemma consumes_sizes_and_path {T} (f : Z -> Z -> list HashOutput -> T) :
  consumes (parse_sizes_and_path f) (fun x bs => exists a b p,
    x = f a b p /\ in_u64 a /\ in_u64 b /\ writes (sizes_and_path a b p) bs).
Proof.
  eapply consumes_bind; [apply consumes_be|]. intros ? ? (a & Ha & -> & ->).
  eapply consumes_bind; [apply consumes_be|]. intros ? ? (b & Hb & -> & ->).
  eapply consumes_map; [apply consumes_read_vector_u16|]. intros p bs [_ Hw].
  exists a, b, p. rewrite !from_be_array by done. refine (conj eq_refl (conj Ha (conj Hb _))).
  unfold sizes_and_path. writes_step; [done|]. writes_step; done.
Qed.

#[export] Instance inclusion_laws : TlsLaws InclusionProof.
Proof.
  refine {| tls_valid := fun p => in_u64 (tree_size p) /\ in_u64 (leaf_index p); tls_depth := 1 |}.
  - done.
  - intros [n i p]. exact (appends_sizes_and_path n i p).
  - intros [n i p] bs [Hn Hi] Hw. exact (parses_sizes_and_path Inclusion.from_parts n i p bs Hn Hi Hw).
  - eapply consumes_weaken; [apply (consumes_sizes_and_path Inclusion.from_parts)|].
    by intros x bs (n & i & p & -> & ? & ? & ?).
Defined.

#[export] Instance consistency_laws : TlsLaws ConsistencyProof.
Proof.
  refine {| tls_valid := fun p => in_u64 (old_size p) /\ in_u64 (new_size p); tls_depth := 1 |}.
  - done.
  - intros [m n p]. exact (appends_sizes_and_path m n p).
  - intros [m n p] bs [Hm Hn] Hw. exact (parses_sizes_and_path Consistency.from_parts m n p bs Hm Hn Hw).
  - eapply consumes_weaken; [apply (consumes_sizes_and_path Consistency.from_parts)|].
    by intros x bs (m & n & p & -> & ? & ? & ?).
Defined.

(** ** The properties *)

(** Inclusion proofs on the wire: bytes parse to a proof, nothing left over, exactly if the
    proof's numbers are [u64]s and it serializes to these bytes; so every proof round-trips,
    no two proofs share an encoding and no proof has two. *)
Theorem inclusion_wire (bs : list byte) (proof : InclusionProof) :
  len bs <= isize_max ->
  tls_parse_exact bs = Ok proof <->
  (in_u64 (tree_size proof) /\ in_u64 (leaf_index proof)) /\
  tls_serialize_to_vec proof = Ok bs.
Proof. intros Hl. by apply (tls_exact_iff (H := inclusion_laws)). Qed.

Lemma inclusion_wire_witness :
  let bs := to_be_bytes 8 5 ++ to_be_bytes 8 3 ++ to_be_bytes 2 32 ++ repeat x00 32 in
  let proof := Inclusion.from_parts 5 3 [zero_array 32] in
  tls_parse_exact bs = Ok proof <->
  (in_u64 (tree_size proof) /\ in_u64 (leaf_index proof)) /\ tls_serialize_to_vec proof = Ok bs.
Proof. apply inclusion_wire. by vm_compute. Defined.

(** Consistency proofs on the wire: bytes parse to a proof, nothing left over, exactly if
    its sizes are [u64]s and it serializes to these bytes. *)
Theorem consistency_wire (bs : list byte) (proof : ConsistencyProof) :
  len bs <= isize_max ->
  tls_parse_exact bs = Ok proof <->
  (in_u64 (old_size proof) /\ in_u64 (new_size proof)) /\
  tls_serialize_to_vec proof = Ok bs.
Proof. intros Hl. by apply (tls_exact_iff (H := consistency_laws)). Qed.

Lemma consistency_wire_witness :
  let bs := to_be_bytes 8 0 ++ to_be_bytes 8 3 ++ to_be_bytes 2 0 in
  let proof := Consistency.from_parts 0 3 [] in
  tls_parse_exact bs = Ok proof <->
  (in_u64 (old_size proof) /\ in_u64 (new_size proof)) /\ tls_serialize_to_vec proof = Ok bs.
Proof. apply consistency_wire. by vm_compute. Defined.
