(* ===== verification/Tile.v ===== *)
(** * Tiles: [crates/mtc/src/tile/]

    The tree is published as tiles of 256 hashes: level [l] stores the hashes of the complete
    subtrees of [256 ^ l] leaves. Here: the coordinates of a tile and the arithmetic on them
    ([coord.rs]), the tiles an inclusion proof reads ([tiles_for_inclusion]), the tile files
    ([Tile], [to_bytes], [from_bytes]), and the writer and reader of a whole tree's tiles
    ([build_tiles], [reconstruct_root]). *)

From stdpp Require Import sorting.
From S2P Require Import Prelude Format Types Wire Tree.

Local Open Scope Z_scope.
Local Open Scope mtc_scope.

(** ** Geometry ([coord.rs]) *)

Definition TILE_HEIGHT : Z := 8.
Definition FULL_TILE_HASHES : Z := Z.shiftl 1 TILE_HEIGHT.

(** The [u128] shift: [level <= MAX_LEVEL] keeps it below 72 bits. *)
Definition leaf_span (level : Z) : Z := Z.shiftl 1 (TILE_HEIGHT * level).
Definition MAX_LEVEL : Z := 8.

(** [u64::try_from(..).unwrap_or(0)]. *)
Definition hashes_at_level (tree_size : TreeSize) (level : Z) : Z :=
  if MAX_LEVEL <? level then 0
  else default 0 (try_from_uint 64 (tree_size / leaf_span level)).

Definition TileWidth_FULL : Z := FULL_TILE_HASHES.

(** [TileWidth::new]. *)
Definition TileWidth_new (width : Z) : option Z :=
  if ((1 <=? width) && (width <=? FULL_TILE_HASHES))%bool then Some width else None.

Definition TileWidth_is_full (width : Z) : bool := width =? FULL_TILE_HASHES.
Definition TileWidth_is_partial (width : Z) : bool := negb (TileWidth_is_full width).

Definition tile_width (level index : Z) (tree_size : TreeSize) : option Z :=
  let count := hashes_at_level tree_size level in
  match checked_mul 64 index FULL_TILE_HASHES with
  | None => None
  | Some base =>
      if count <=? base then None
      else
        let available := count - base in
        match try_from_uint 16 (Z.min available FULL_TILE_HASHES) with
        | None => None
        | Some width => TileWidth_new width
        end
  end.

(** [TileCoord]; the newtypes [TileLevel] (a [u8]), [TileIndex] (a [u64]) and [TileWidth] are
    their numbers. *)
Record TileCoord : Type := TileCoord_new {
  tc_level : Z;
  tc_index : Z;
  tc_width : Z
}.

#[export] Instance TileCoord_eq_dec : EqDecision TileCoord.
Proof. solve_decision. Defined.

(** The derived lexicographic order. *)
Definition tile_le (c d : TileCoord) : Prop :=
  tc_level c < tc_level d \/ tc_level c = tc_level d /\
  (tc_index c < tc_index d \/ tc_index c = tc_index d /\ tc_width c <= tc_width d).

#[export] Instance tile_le_dec : RelDecision tile_le.
Proof. intros c d. unfold tile_le. apply _. Defined.

(** [?] on options. *)
Notation "'let?o' x ':=' e 'in' k" := (match e with Some x => k | None => None end)
  (at level 10, x name, e at level 100, k at level 200) : mtc_scope.

Definition leaf_range (c : TileCoord) : option (Z * Z) :=
  if MAX_LEVEL <? tc_level c then None
  else
    let span_below := leaf_span (tc_level c) in
    let?o tile_span := checked_mul 128 span_below FULL_TILE_HASHES in
    let?o start_u128 := checked_mul 128 (tc_index c) tile_span in
    let?o start := try_from_uint 64 start_u128 in
    let?o width_leaves := checked_mul 128 (tc_width c) span_below in
    let?o end_u128 := checked_add 128 start_u128 width_leaves in
    let?o end_ := try_from_uint 64 end_u128 in
    Some (start, end_).

(** *** URL paths *)

(** The base-1000 groups, most significant first; seven groups hold any [u64]. *)
Fixpoint groups_loop (fuel : nat) (n : Z) (groups : list Z) : list Z :=
  let groups := n mod 1000 :: groups in
  match fuel with
  | O => groups
  | S fuel' => let n := n / 1000 in if n =? 0 then groups else groups_loop fuel' n groups
  end.

(** Every group but the last is prefixed with [x]; joined by [/]. *)
Fixpoint join_groups (groups : list Z) : string :=
  match groups with
  | [] => ""
  | [g] => zero_pad 3 (decimal g)
  | g :: gs => ("x" +:+ zero_pad 3 (decimal g) +:+ "/" +:+ join_groups gs)%string
  end.

Definition encode_index (n : Z) : string := join_groups (groups_loop 6 n []).

Definition tile_path (c : TileCoord) : string :=
  let index := encode_index (tc_index c) in
  if TileWidth_is_partial (tc_width c)
  then ("tile/" +:+ decimal (tc_level c) +:+ "/" +:+ index +:+ ".p/" +:+ decimal (tc_width c))%string
  else ("tile/" +:+ decimal (tc_level c) +:+ "/" +:+ index)%string.

(** ** Planning ([coord.rs]) *)

Inductive TileError : Type :=
| HashCountMismatch (expected actual : Z)
| LeafOutOfRange (leaf tree_size : Z)
| WidthOutOfRange (width : Z).

(** [level] and the level number: [k / 8] fits a [u8]. *)
Definition tile_for_subtree (block : Subtree) (tree_size : TreeSize) : result TileCoord TileError :=
  let a := st_start block in
  let k := trailing_zeros (st_len block) in
  let level := default MAX_LEVEL (try_from_uint 8 (k / TILE_HEIGHT)) in
  let shift := TILE_HEIGHT * (level + 1) in
  let tile_index := if 64 <=? shift then 0 else Z.shiftr a shift in
  let? width := ok_or (tile_width level tile_index tree_size) (WidthOutOfRange 0) in
  Ok (TileCoord_new level tile_index width).

(** [for block in ranges { coords.push(tile_for_subtree(block, tree_size)?) }]. *)
Fixpoint push_tiles (ranges : list Subtree) (tree_size : TreeSize) (coords : list TileCoord) :
    result (list TileCoord) TileError :=
  match ranges with
  | [] => Ok coords
  | block :: ranges' =>
      let? c := tile_for_subtree block tree_size in
      push_tiles ranges' tree_size (coords ++ [c])
  end.

(** [Vec::dedup]: drops an element equal to its predecessor. *)
Fixpoint dedup {A} `{EqDecision A} (l : list A) : list A :=
  match l with
  | [] => []
  | x :: l' =>
      match l' with
      | [] => [x]
      | y :: _ => if decide (x = y) then dedup l' else x :: dedup l'
      end
  end.

Definition inclusion_ranges (i n : Z) : list Subtree :=
  Subtree_new i (i + 1) :: decompose_range 0 i ++ decompose_range (i + 1) n.

(** [sort_unstable] on a total order determines the result. *)
Definition tiles_for_inclusion (leaf : Index) (tree_size : TreeSize) :
    result (list TileCoord) TileError :=
  let i := leaf in
  let n := tree_size in
  if n <=? i then Err (LeafOutOfRange i n)
  else
    let? coords := push_tiles (inclusion_ranges i n) tree_size [] in
    Ok (dedup (merge_sort tile_le coords)).

(** ** Tiles ([mod.rs]) *)

Record Tile : Type := MkTile { coord : TileCoord; hashes : list HashOutput }.

Definition Tile_new (c : TileCoord) (hs : list HashOutput) : result Tile TileError :=
  let expected := tc_width c in
  if negb (len hs =? expected) then Err (HashCountMismatch expected (len hs))
  else Ok (MkTile c hs).

Definition tile_hash (t : Tile) (slot : Z) : option HashOutput := hashes t !! Z.to_nat slot.
Definition tile_is_partial (t : Tile) : bool := TileWidth_is_partial (tc_width (coord t)).

Definition tile_to_bytes (t : Tile) : list byte :=
  fold_left (fun buf hash => buf ++ as_bytes hash) (hashes t) [].

(** [for _ in 0..width { hashes.push(reader.read_array()?) }]. *)
Fixpoint read_hashes (width : nat) (hs : list HashOutput) : Reader (list HashOutput) :=
  match width with
  | O => ret hs
  | S width' => let! h := read_array HashOutput_LEN in read_hashes width' (hs ++ [h])
  end.

Definition tile_from_bytes (c : TileCoord) (bytes : list byte) : result Tile WireError :=
  let width := tc_width c in
  let? hs := parse_exact (read_hashes (Z.to_nat width) []) bytes in
  Ok (MkTile c hs).

(** [for hash in &self.hashes { write_bytes(writer, hash.as_bytes())?; }]. *)
Fixpoint write_hashes (hs : list HashOutput) : Writer :=
  match hs with
  | [] => ret tt
  | h :: hs' => do! write_bytes (as_bytes h); write_hashes hs'
  end.

#[export] Instance tile_serialize : TlsSerialize Tile := fun t => write_hashes (hashes t).

Section Build.
Context {H : Hasher}.

(** [tile::split_point], the same function as the tree's. *)
Definition tile_split_point (n : Z) : Z := Z.shiftl 1 (ilog2 (n - 1)).

(** One unit of fuel per hash is enough. *)
Fixpoint combine_fuel (fuel : nat) (hs : list HashOutput) : HashOutput :=
  match hs with
  | [] => empty_root
  | [single] => single
  | _ =>
      match fuel with
      | O => empty_root
      | S fuel' =>
          let k := tile_split_point (len hs) in
          hash_node (combine_fuel fuel' (take (Z.to_nat k) hs))
                    (combine_fuel fuel' (drop (Z.to_nat k) hs))
      end
  end.
Definition combine_subtree_roots (hs : list HashOutput) : HashOutput :=
  combine_fuel (length hs) hs.

Definition subtree_root (ls : list HashOutput) (level hash_index : Z) : HashOutput :=
  let span := Z.shiftl 1 (TILE_HEIGHT * level) in
  let start := default usize_max (try_from_uint 64 (hash_index * span)) in
  let end_ := default usize_max (try_from_uint 64 ((hash_index + 1) * span)) in
  combine_subtree_roots (default [] (slice_get ls start end_)).

(** The body of [for tile_n in 0..num_tiles]. *)
Definition build_tile (ls : list HashOutput) (level count tile_n : Z) : list Tile :=
  let base := tile_n * FULL_TILE_HASHES in
  let width := default FULL_TILE_HASHES
                 (try_from_uint 16 (Z.min (count - base) FULL_TILE_HASHES)) in
  let hs := map (fun slot => subtree_root ls level (base + Z.of_nat slot))
                (seq 0 (Z.to_nat width)) in
  match TileWidth_new width with
  | Some w => [MkTile (TileCoord_new level tile_n w) hs]
  | None => []
  end.

(** [u64::div_ceil]. *)
Definition div_ceil (a b : Z) : Z := (a + b - 1) / b.

(** The loop over levels: level 9 stores no hash, so ten iterations are enough. *)
Fixpoint build_loop (fuel : nat) (ls : list HashOutput) (level : Z) (tiles : list Tile) :
    list Tile :=
  let count := hashes_at_level (len ls) level in
  if count =? 0 then tiles else
  match fuel with
  | O => tiles
  | S fuel' =>
      let num_tiles := div_ceil count FULL_TILE_HASHES in
      let tiles := tiles ++ flat_map (fun tile_n => build_tile ls level count (Z.of_nat tile_n))
                                     (seq 0 (Z.to_nat num_tiles)) in
      if count =? 1 then tiles else build_loop fuel' ls (level + 1) tiles
  end.

Definition build_tiles (ls : list HashOutput) : list Tile := build_loop 10 ls 0 [].

(** [sort_unstable_by_key(|t| t.coord.index())]. Tiles with equal keys may come out in any
    order; [reconstruct_root] rejects them whichever it is. *)
Definition index_le (t u : Tile) : Prop := tc_index (coord t) <= tc_index (coord u).

#[export] Instance index_le_dec : RelDecision index_le.
Proof. intros t u. unfold index_le. apply _. Defined.

(** The loop over the sorted level-0 tiles. *)
Fixpoint collect_leaves (expected : Z) (level0 : list Tile) (ls : list HashOutput) :
    option (list HashOutput) :=
  match level0 with
  | [] => Some ls
  | t :: level0' =>
      if negb (tc_index (coord t) =? expected) then None
      else collect_leaves (expected + 1) level0' (ls ++ hashes t)
  end.

Definition reconstruct_root (tiles : list Tile) : option HashOutput :=
  let level0 := List.filter (fun t => tc_level (coord t) =? 0) tiles in
  let level0 := merge_sort index_le level0 in
  match level0 with
  | [] => None
  | _ =>
      let?o ls := collect_leaves 0 level0 [] in
      Some (combine_subtree_roots ls)
  end.
End Build.
