(* ===== verification/TileFacts.v ===== *)
(** * Correctness of tiles

    The geometry as exact arithmetic, the contents of every tile [build_tiles] writes as Merkle
    Tree Hashes of slices of the leaves, the round trip of a tree through its tiles and of a
    tile through its file, and the coverage of [tiles_for_inclusion]. *)

From stdpp Require Import sorting.
From S2P Require Import Prelude Types Wire WireLaws Tree TreeFacts Decomposition Tile.

Local Open Scope Z_scope.
Local Open Scope mtc_scope.

(** ** Geometry *)

Lemma leaf_span_pow l : 0 <= l -> leaf_span l = 256 ^ l.
Proof.
  intros Hl. unfold leaf_span, TILE_HEIGHT. rewrite Z.shiftl_1_l.
  change 256 with (2 ^ 8). by rewrite <- Z.pow_mul_r by lia.
Qed.

Lemma pow256_pos l : 0 <= l -> 0 < 256 ^ l.
Proof. intros. by apply Z.pow_pos_nonneg. Qed.

Lemma pow256_succ l : 0 <= l -> 256 ^ (l + 1) = 256 * 256 ^ l.
Proof. intros. rewrite Z.pow_add_r, Z.pow_1_r by lia. lia. Qed.

Lemma pow256_le l : 0 <= l <= 8 -> 256 ^ l <= 2 ^ 64.
Proof. intros. change (2 ^ 64) with (256 ^ 8). apply Z.pow_le_mono_r; lia. Qed.

Lemma hashes_at_level_spec n l :
  in_u64 n -> 0 <= l -> hashes_at_level n l = n / 256 ^ l.
Proof.
  intros Hn Hl. unfold hashes_at_level, MAX_LEVEL. destruct (Z.ltb_spec 8 l).
  - symmetry. apply Z.div_small. destruct Hn as [? Hn]. split; [done|].
    apply Z.lt_le_trans with (2 ^ 64); [done|].
    change (2 ^ 64) with (256 ^ 8). apply Z.pow_le_mono_r; lia.
  - rewrite leaf_span_pow by done. pose proof (pow256_pos l Hl) as Hp.
    rewrite try_from_uint_in; [done|]. destruct Hn as [? Hn].
    split; [apply Z.div_pos; lia|]. apply Z.le_lt_trans with n; [|done].
    apply Z.div_le_upper_bound; nia.
Qed.

Lemma tile_width_spec l t n :
  in_u64 n -> 0 <= l -> 0 <= t ->
  tile_width l t n =
    if n / 256 ^ l <=? t * 256 then None else Some (Z.min (n / 256 ^ l - t * 256) 256).
Proof.
  intros Hn Hl Ht. unfold tile_width. rewrite hashes_at_level_spec by done.
  assert (0 <= n / 256 ^ l <= n) as Hc.
  { destruct Hn. pose proof (pow256_pos l Hl). split; [apply Z.div_pos; lia|].
    apply Z.div_le_upper_bound; nia. }
  unfold checked_mul. change FULL_TILE_HASHES with 256. destruct Hn as [Hn0 Hn].
  destruct (Z.ltb_spec (t * 256) (2 ^ 64)).
  - destruct (Z.leb_spec (n / 256 ^ l) (t * 256)); [done|].
    rewrite try_from_uint_in by (split; lia). unfold TileWidth_new.
    change FULL_TILE_HASHES with 256.
    by rewrite (proj2 (Z.leb_le 1 _)), (proj2 (Z.leb_le _ 256)) by lia.
  - by rewrite (proj2 (Z.leb_le _ _)) by lia.
Qed.

Lemma leaf_range_spec l t w :
  0 <= l -> 0 <= t -> 1 <= w <= 256 ->
  leaf_range (TileCoord_new l t w) =
    if ((8 <? l) || (2 ^ 64 <=? (t * 256 + w) * 256 ^ l))%bool then None
    else Some (t * 256 * 256 ^ l, (t * 256 + w) * 256 ^ l).
Proof.
  intros Hl Ht Hw. unfold leaf_range. cbn [tc_level tc_index tc_width]. change MAX_LEVEL with 8.
  destruct (Z.ltb_spec 8 l) as [|Hl8]; [done|]. cbn [orb].
  rewrite leaf_span_pow by done. pose proof (pow256_pos l Hl) as Hp.
  pose proof (pow256_le l ltac:(lia)) as Hle. set (s := 256 ^ l) in *. clearbody s.
  change FULL_TILE_HASHES with 256. unfold checked_mul, checked_add, try_from_uint.
  rewrite (proj2 (Z.ltb_lt (s * 256) _)) by (change (2 ^ 128) with (2 ^ 64 * 2 ^ 64); lia).
  assert (t * (s * 256) = t * 256 * s) as -> by lia.
  rewrite (proj2 (Z.ltb_lt (w * s) _)) by (change (2 ^ 128) with (2 ^ 64 * 2 ^ 64); nia).
  replace ((t * 256 + w) * s) with (t * 256 * s + w * s) by lia.
  assert (0 <= t * 256 * s /\ 0 < w * s) as [H0 H1] by nia.
  set (x := t * 256 * s) in *. set (d := w * s) in *. clearbody x d.
  change (2 ^ 128) with (2 ^ 64 * 2 ^ 64).
  destruct (Z.leb_spec (2 ^ 64) (x + d)).
  - destruct (x <? 2 ^ 64 * 2 ^ 64); [|done].
    destruct ((0 <=? x) && (x <? 2 ^ 64))%bool; [|done].
    destruct (x + d <? 2 ^ 64 * 2 ^ 64); [|done].
    by rewrite (proj2 (Z.ltb_ge (x + d) (2 ^ 64))), andb_false_r by done.
  - rewrite !(proj2 (Z.ltb_lt x _)) by lia. rewrite (proj2 (Z.leb_le 0 x)) by lia. cbn [andb].
    rewrite !(proj2 (Z.ltb_lt (x + d) _)) by lia.
    by rewrite (proj2 (Z.leb_le 0 (x + d))) by lia.
Qed.

(** ** The files of [build_tiles] *)

Section Build.
Context {H : Hasher}.

Lemma combine_mth hs : combine_subtree_roots hs = mth hs.
Proof. reflexivity. Qed.

(** The hash at position [k] of level [l]. *)
Definition level_hash (ls : list HashOutput) (l k : Z) : HashOutput :=
  mth (slice ls (k * 256 ^ l) ((k + 1) * 256 ^ l)).

Lemma subtree_root_spec ls l k :
  len ls < 2 ^ 64 -> 0 <= l -> 0 <= k < len ls / 256 ^ l ->
  subtree_root ls l k = level_hash ls l k.
Proof.
  intros Hn Hl Hk. unfold subtree_root, level_hash. fold (leaf_span l). rewrite leaf_span_pow by done.
  pose proof (pow256_pos l Hl) as Hp. pose proof (Z.mul_div_le (len ls) (256 ^ l) Hp).
  assert ((k + 1) * 256 ^ l <= len ls) by nia.
  rewrite !try_from_uint_in by (split; nia). simpl. unfold slice_get.
  rewrite (proj2 (Z.leb_le _ _)), (proj2 (Z.leb_le _ _)) by nia. apply combine_mth.
Qed.

(** The tile at level [l], index [t] of a tree. *)
Definition tile_at (ls : list HashOutput) (l t : Z) : Tile :=
  let w := Z.min (len ls / 256 ^ l - t * 256) 256 in
  MkTile (TileCoord_new l t w)
         (map (fun slot => level_hash ls l (t * 256 + Z.of_nat slot)) (seq 0 (Z.to_nat w))).

Lemma build_tile_spec ls l t :
  len ls < 2 ^ 64 -> 0 <= l -> 0 <= t -> t * 256 < len ls / 256 ^ l ->
  build_tile ls l (len ls / 256 ^ l) t = [tile_at ls l t].
Proof.
  intros Hn Hl Ht Hc. unfold build_tile, tile_at. change FULL_TILE_HASHES with 256.
  remember (len ls / 256 ^ l) as c eqn:Ec. rewrite try_from_uint_in by (split; lia). cbn [default from_option id].
  unfold TileWidth_new. change FULL_TILE_HASHES with 256.
  rewrite (proj2 (Z.leb_le 1 _)), (proj2 (Z.leb_le _ 256)) by lia. cbn [andb]. do 2 f_equal.
  apply map_ext_in. intros s Hs. apply in_seq in Hs. apply subtree_root_spec; [done|done|].
  rewrite <- Ec. lia.
Qed.

(** The tiles of one level. *)
Definition level_tiles (ls : list HashOutput) (l : Z) : list Tile :=
  map (fun t => tile_at ls l (Z.of_nat t)) (seq 0 (Z.to_nat (div_ceil (len ls / 256 ^ l) 256))).

Lemma div_ceil_bounds c t : 0 <= t -> t < div_ceil c 256 <-> t * 256 < c.
Proof.
  intros Ht. unfold div_ceil. split; intros Hlt.
  - pose proof (Z.mul_div_le (c + 256 - 1) 256). nia.
  - apply Z.lt_le_trans with (t + 1); [lia|]. apply Z.div_le_lower_bound; lia.
Qed.

Lemma build_level_spec ls l :
  len ls < 2 ^ 64 -> 0 <= l ->
  flat_map (fun t => build_tile ls l (len ls / 256 ^ l) (Z.of_nat t))
    (seq 0 (Z.to_nat (div_ceil (len ls / 256 ^ l) 256))) = level_tiles ls l.
Proof.
  intros Hn Hl. unfold level_tiles.
  assert (forall l', Forall (fun t => Z.of_nat t * 256 < len ls / 256 ^ l) l' ->
    flat_map (fun t => build_tile ls l (len ls / 256 ^ l) (Z.of_nat t)) l'
    = map (fun t => tile_at ls l (Z.of_nat t)) l') as Hg.
  { induction 1 as [|t l' Ht _ IH]; [done|]. simpl. by rewrite build_tile_spec, IH by (done || lia). }
  apply Hg, Forall_forall. intros t Ht. apply elem_of_seq in Ht.
  apply div_ceil_bounds; lia.
Qed.

(** Every level from [l] on, until one stores nothing. *)
Lemma build_loop_spec f : forall l ls tiles,
  len ls < 2 ^ 64 -> 0 <= l -> 9 <= l + Z.of_nat f ->
  build_loop f ls l tiles =
  tiles ++ flat_map (fun d => level_tiles ls (l + Z.of_nat d)) (seq 0 f).
Proof.
  assert (Hnone : forall ls l k, 0 <= l -> len ls / 256 ^ l = 0 -> 0 <= k -> level_tiles ls (l + k) = []).
  { intros ls l k Hl H0 Hk. unfold level_tiles.
    replace (len ls / 256 ^ (l + k)) with 0; [done|].
    rewrite Z.pow_add_r by lia. rewrite <- Z.div_div; [|pose proof (pow256_pos l); lia|by apply pow256_pos].
    by rewrite H0, Z.div_0_l by (pose proof (pow256_pos k); lia). }
  assert (Hnil : forall f l ls, 0 <= l -> len ls / 256 ^ l = 0 ->
    forall d, flat_map (fun d => level_tiles ls (l + Z.of_nat d)) (seq d f) = []).
  { intros f0 l ls Hl H0. induction f0 as [|f0 IH]; intros d; [done|]. simpl.
    by rewrite Hnone, IH by lia. }
  induction f as [|f IH]; intros l ls tiles Hn Hl Hf; cbn [build_loop];
    (rewrite hashes_at_level_spec; [|split; [apply len_nonneg|done]|done]);
    destruct (Z.eqb_spec (len ls / 256 ^ l) 0) as [Hz|Hz].
  - simpl. by rewrite app_nil_r.
  - simpl. by rewrite app_nil_r.
  - rewrite Hnil by done. by rewrite app_nil_r.
  - change FULL_TILE_HASHES with 256. rewrite build_level_spec by done.
    cbn [seq flat_map]. change (Z.of_nat 0) with 0. rewrite Z.add_0_r.
    assert (flat_map (fun d => level_tiles ls (l + Z.of_nat d)) (seq 1 f)
            = flat_map (fun d => level_tiles ls (l + 1 + Z.of_nat d)) (seq 0 f)) as ->.
    { rewrite <- seq_shift, !flat_map_concat_map, map_map. f_equal. apply map_ext. intros d.
      f_equal. lia. }
    destruct (Z.eqb_spec (len ls / 256 ^ l) 1) as [H1|H1].
    + rewrite Hnil; [by rewrite app_nil_r|lia|].
      rewrite pow256_succ, Z.mul_comm, <- Z.div_div, H1; [done|pose proof (pow256_pos l Hl); lia..].
    + rewrite IH by lia. by rewrite app_assoc.
Qed.

Lemma build_tiles_levels ls :
  len ls < 2 ^ 64 -> build_tiles ls = flat_map (fun d => level_tiles ls (Z.of_nat d)) (seq 0 10).
Proof. intros Hn. unfold build_tiles. by rewrite (build_loop_spec 10 0) by lia. Qed.

Lemma elem_of_level_tiles ls l t :
  0 <= l -> t ∈ level_tiles ls l <->
  exists i, 0 <= i /\ i * 256 < len ls / 256 ^ l /\ t = tile_at ls l i.
Proof.
  intros Hl. unfold level_tiles. rewrite list_elem_of_In, in_map_iff. split.
  - intros (x & <- & Hx). apply in_seq in Hx. exists (Z.of_nat x).
    split_and!; [lia| |done]. apply div_ceil_bounds; lia.
  - intros (i & Hi & Hlt & ->). exists (Z.to_nat i). rewrite Z2Nat.id by done.
    split; [done|]. apply in_seq. apply div_ceil_bounds in Hlt; lia.
Qed.

(** A tile is written exactly if the geometry has it, with the hashes its slots stand for. *)
Lemma elem_of_build_tiles ls t :
  len ls < 2 ^ 64 -> t ∈ build_tiles ls <->
  exists l i w, 0 <= l /\ 0 <= i /\ tile_width l i (len ls) = Some w /\
    t = MkTile (TileCoord_new l i w)
          (map (fun slot => level_hash ls l (i * 256 + Z.of_nat slot)) (seq 0 (Z.to_nat w))).
Proof.
  intros Hn. assert (in_u64 (len ls)) as Hu by (split; [apply len_nonneg|done]).
  rewrite build_tiles_levels by done. rewrite list_elem_of_In, in_flat_map. split.
  - intros (d & _ & Ht). apply list_elem_of_In, elem_of_level_tiles in Ht as (i & Hi & Hlt & ->); [|lia].
    eexists (Z.of_nat d), i, _. split_and!; [lia|done| |reflexivity].
    rewrite tile_width_spec by (done || lia). by rewrite (proj2 (Z.leb_gt _ _)).
  - intros (l & i & w & Hl & Hi & Hw & ->). rewrite tile_width_spec in Hw by done.
    destruct (Z.leb_spec (len ls / 256 ^ l) (i * 256)) as [|Hlt]; [done|]. simplify_eq.
    exists (Z.to_nat l). split.
    + apply in_seq. destruct (Z.le_gt_cases l 9); [lia|].
      rewrite Z.div_small in Hlt; [lia|]. split; [apply len_nonneg|].
      apply Z.lt_le_trans with (2 ^ 64); [done|]. change (2 ^ 64) with (256 ^ 8).
      apply Z.pow_le_mono_r; lia.
    + rewrite Z2Nat.id by done. apply list_elem_of_In, elem_of_level_tiles; [done|].
      exists i. done.
Qed.

(** ** Reading the leaves back *)

Lemma level_hash_0 ls k x :
  0 <= k -> ls !! Z.to_nat k = Some x -> level_hash ls 0 k = x.
Proof.
  intros Hk Hx. unfold level_hash. change (256 ^ 0) with 1. rewrite !Z.mul_1_r.
  by rewrite (slice_singleton _ _ x).
Qed.

Lemma level0_slice ls a w :
  0 <= a -> a + Z.of_nat w <= len ls ->
  map (fun slot => level_hash ls 0 (a + Z.of_nat slot)) (seq 0 w) = slice ls a (a + Z.of_nat w).
Proof.
  intros Ha. induction w as [|w IH]; intros Hw.
  - unfold slice. replace (a + Z.of_nat 0 - a) with 0 by lia. done.
  - rewrite seq_S, map_app, IH by lia. cbn [map Nat.add].
    destruct (lookup_lt_is_Some_2 ls (Z.to_nat (a + Z.of_nat w))) as [x Hx]; [unfold len in Hw; lia|].
    rewrite (level_hash_0 _ _ x) by (done || lia).
    rewrite (slice_split ls a (a + Z.of_nat w) (a + Z.of_nat (S w))) by lia. f_equal.
    replace (a + Z.of_nat (S w)) with (a + Z.of_nat w + 1) by lia.
    by rewrite (slice_singleton _ _ x) by (done || lia).
Qed.

Lemma level0_leaves ls m :
  Z.of_nat m <= div_ceil (len ls) 256 ->
  flat_map (fun t => hashes (tile_at ls 0 (Z.of_nat t))) (seq 0 m)
  = slice ls 0 (Z.min (Z.of_nat m * 256) (len ls)).
Proof.
  induction m as [|m IH]; intros Hm; [by rewrite Z.min_l by apply len_nonneg|].
  assert (Z.of_nat m * 256 < len ls) as Hlt by (apply div_ceil_bounds; lia).
  rewrite seq_S, flat_map_app, IH by lia. cbn [flat_map Nat.add]. rewrite app_nil_r.
  unfold tile_at. cbn [hashes]. change (256 ^ 0) with 1. rewrite Z.div_1_r.
  rewrite level0_slice by lia. rewrite Z.min_l by lia.
  rewrite (slice_split ls 0 (Z.of_nat m * 256) (Z.min (Z.of_nat (S m) * 256) (len ls))) by lia.
  f_equal. f_equal. lia.
Qed.

Lemma filter_level0 ls :
  len ls < 2 ^ 64 ->
  List.filter (fun t => tc_level (coord t) =? 0) (build_tiles ls) = level_tiles ls 0.
Proof.
  intros Hn. rewrite build_tiles_levels by done. cbn [seq flat_map].
  assert (forall l, List.filter (fun t => tc_level (coord t) =? 0) (level_tiles ls l)
                    = if l =? 0 then level_tiles ls l else []) as Hf.
  { intros l. unfold level_tiles. induction (seq 0 _) as [|t ts IH]; simpl; [by destruct (l =? 0)|].
    rewrite IH. by destruct (l =? 0). }
  rewrite !List.filter_app, !Hf. simpl. by rewrite !app_nil_r.
Qed.

Lemma Sorted_index l : Sorted index_le l -> Sorted Z.le (map (fun t => tc_index (coord t)) l).
Proof. induction 1 as [|t l _ IH Hd]; simpl; constructor; [done|]. by destruct Hd; constructor. Qed.

(** Whatever order the level-0 tiles come in, sorting restores it. *)
Lemma sort_level0 ls tiles :
  tiles ≡ₚ level_tiles ls 0 -> merge_sort index_le tiles = level_tiles ls 0.
Proof.
  intros Hp. set (idx := fun t => tc_index (coord t)).
  assert (Htot : Total index_le) by (intros t u; unfold index_le; lia).
  assert (merge_sort index_le tiles ≡ₚ level_tiles ls 0) as Hs by (by rewrite merge_sort_Permutation).
  assert (Sorted Z.le (map idx (merge_sort index_le tiles))) as H1
    by (apply Sorted_index, Sorted_merge_sort; done).
  assert (Sorted Z.le (map idx (level_tiles ls 0))) as H2.
  { unfold level_tiles. rewrite map_map.
    assert (forall m d, Sorted Z.le (map (fun x => idx (tile_at ls 0 (Z.of_nat x))) (seq d m)))
      as Hs0; [|apply Hs0].
    induction m as [|m IH]; intros d; simpl; constructor; [apply IH|].
    destruct m; constructor. unfold idx, tile_at. cbn [coord tc_index]. lia. }
  assert (map idx (merge_sort index_le tiles) = map idx (level_tiles ls 0)) as Hi.
  { apply (Sorted_unique Z.le); [done..|]. by rewrite Hs. }
  assert (forall l, (forall t, t ∈ l -> t ∈ level_tiles ls 0) -> l = map (tile_at ls 0) (map idx l)) as Hat.
  { induction l as [|t l IH]; intros Hl; [done|]. simpl. f_equal.
    - destruct (proj1 (elem_of_level_tiles ls 0 t ltac:(done)) (Hl t (list_elem_of_here t l))) as (i & _ & _ & ->). done.
    - apply IH. intros u Hu. apply Hl. by right. }
  rewrite (Hat (merge_sort index_le tiles)), Hi.
  - symmetry. by apply Hat.
  - intros t. by rewrite Hs.
Qed.

Lemma collect_leaves_seq ls m : forall d acc,
  collect_leaves (Z.of_nat d) (map (fun t => tile_at ls 0 (Z.of_nat t)) (seq d m)) acc
  = Some (acc ++ flat_map (fun t => hashes (tile_at ls 0 (Z.of_nat t))) (seq d m)).
Proof.
  induction m as [|m IH]; intros d acc; [by rewrite app_nil_r|].
  cbn [seq map collect_leaves flat_map]. rewrite Z.eqb_refl. cbn [negb].
  replace (Z.of_nat d + 1) with (Z.of_nat (S d)) by lia. by rewrite IH, <- app_assoc.
Qed.

Lemma filter_permutation (f : Tile -> bool) l l' :
  l ≡ₚ l' -> List.filter f l ≡ₚ List.filter f l'.
Proof.
  induction 1 as [|x l l' _ IH|x y l|l l' l'' _ IH1 _ IH2]; simpl; [done| | |by etrans].
  - by destruct (f x); rewrite IH.
  - destruct (f x), (f y); try done. apply perm_swap.
Qed.

Lemma reconstruct_build ls tiles :
  len ls < 2 ^ 64 -> tiles ≡ₚ build_tiles ls ->
  reconstruct_root tiles = match ls with [] => None | _ => Some (mth ls) end.
Proof.
  intros Hn Hp. unfold reconstruct_root.
  rewrite (sort_level0 ls); [|rewrite <- filter_level0 by done; by apply filter_permutation].
  unfold level_tiles. change (256 ^ 0) with 1. rewrite Z.div_1_r.
  pose proof (collect_leaves_seq ls (Z.to_nat (div_ceil (len ls) 256)) 0 []) as Hc.
  change (Z.of_nat 0) with 0 in Hc. rewrite Hc. clear Hc.
  destruct ls as [|x ls']; [done|]. set (ls := x :: ls') in *.
  assert (0 < len ls) as Hpos by (unfold len, ls; simpl; lia).
  assert (0 < div_ceil (len ls) 256) as Hd by (apply div_ceil_bounds; lia).
  rewrite level0_leaves by lia.
  rewrite Z.min_r, slice_all.
  - destruct (Z.to_nat _) as [|m] eqn:E; [lia|]. cbn [seq map app]. by rewrite combine_mth.
  - pose proof (div_ceil_bounds (len ls) (div_ceil (len ls) 256)). lia.
Qed.
End Build.

(** ** Tile files *)

Lemma tile_to_bytes_concat t : tile_to_bytes t = List.concat (map as_bytes (hashes t)).
Proof.
  unfold tile_to_bytes. assert (forall hs buf, fold_left (fun buf hash => buf ++ as_bytes hash) hs buf
    = buf ++ List.concat (map as_bytes hs)) as Hf.
  { induction hs as [|h hs IH]; intros buf; simpl; [by rewrite app_nil_r|]. by rewrite IH, app_assoc. }
  apply Hf.
Qed.

Lemma parses_read_hashes hs : forall acc,
  parses (read_hashes (length hs) acc) (List.concat (map as_bytes hs)) (acc ++ hs) 0.
Proof.
  induction hs as [|h hs IH]; intros acc; simpl; [rewrite app_nil_r; apply parses_ret|].
  eapply parses_bind; [apply parses_read_array|].
  replace (acc ++ h :: hs) with ((acc ++ [h]) ++ hs) by (by rewrite <- app_assoc). apply IH.
Qed.

Lemma consumes_read_hashes n : forall acc,
  consumes (read_hashes n acc) (fun x bs => exists hs,
    x = acc ++ hs /\ length hs = n /\ bs = List.concat (map as_bytes hs)).
Proof.
  induction n as [|n IH]; intros acc; simpl.
  - eapply consumes_weaken; [apply consumes_ret|]. intros x bs [-> ->]. exists [].
    by rewrite app_nil_r.
  - eapply consumes_bind; [apply consumes_read_array|]. intros h b1 <-.
    eapply consumes_weaken; [apply IH|]. intros x bs (hs & -> & <- & ->).
    exists (h :: hs). by rewrite <- app_assoc.
Qed.

(** ** The tiles of an inclusion proof *)

(** The hashes of [c] are enough to compute the root of [block]: its leaves are under [c], on
    boundaries of [c]'s level. *)
Definition tile_covers (c : TileCoord) (block : Subtree) : Prop :=
  exists a b, leaf_range c = Some (a, b) /\ a <= st_start block /\ st_end block <= b /\
    (leaf_span (tc_level c) | st_start block) /\ (leaf_span (tc_level c) | st_end block).

(** The coordinate is one of the tree's tiles. *)
Definition in_tree (n : Z) (c : TileCoord) : Prop :=
  0 <= tc_level c /\ 0 <= tc_index c /\ tile_width (tc_level c) (tc_index c) n = Some (tc_width c).

Lemma pow256_pow2 l : 0 <= l -> 256 ^ l = 2 ^ (8 * l).
Proof. intros. change 256 with (2 ^ 8). by rewrite <- Z.pow_mul_r by lia. Qed.

(** Where an aligned block of [2 ^ h] leaves from leaf [a] sits: at level [l] it is made of [q]
    hashes, from hash [k], all in tile [i]. *)
Record block_at (a h n l k q i : Z) : Prop := {
  at_level : 0 <= l /\ l = h / 8 /\ 8 * l <= h;
  at_start : 0 <= k /\ a = k * 256 ^ l;
  at_count : 0 < q /\ q = 2 ^ (h - 8 * l) /\ 2 ^ h = q * 256 ^ l;
  at_tile : 0 <= i /\ i = k / 256 /\ i * 256 <= k /\ k + q <= i * 256 + 256;
  at_bound : k + q <= n / 256 ^ l
}.

Lemma block_geometry a h n :
  0 <= h -> 0 <= a -> (2 ^ h | a) -> a + 2 ^ h <= n ->
  exists l k q i, block_at a h n l k q i.
Proof.
  intros Hh Ha Hd Hn. set (l := h / 8).
  assert (0 <= l /\ 8 * l <= h < 8 * l + 8) as (Hl & Hlh).
  { unfold l. pose proof (Z.mul_div_le h 8). pose proof (Z.mul_succ_div_gt h 8).
    split; [apply Z.div_pos; lia|lia]. }
  set (s := 256 ^ l). assert (0 < s) as Hs by (by apply pow256_pos).
  assert (s = 2 ^ (8 * l)) as Hs2 by (by apply pow256_pow2).
  destruct (divide_pow2_le a (8 * l) h ltac:(lia) Hd) as [k Hk]. rewrite <- Hs2 in Hk.
  assert (2 ^ h = 2 ^ (h - 8 * l) * s) as Hq by (rewrite Hs2, <- Z.pow_add_r by lia; f_equal; lia).
  set (q := 2 ^ (h - 8 * l)) in *. assert (0 < q) as Hq0 by (apply pow2_pos; lia).
  (* aligned blocks do not straddle a tile *)
  assert (k + q <= k / 256 * 256 + 256) as Hfit.
  { assert ((q | k)) as [j Hj].
    { destruct Hd as [j Hj]. exists j. rewrite Hk, Hq in Hj. nia. }
    assert ((q | 256)) as [m Hm]. { change 256 with (2 ^ 8). apply pow2_divide. lia. }
    pose proof (Z.mul_succ_div_gt k 256). assert (0 < (k / 256 + 1) * m - j) by nia. nia. }
  assert (0 <= k) as Hk0 by nia. pose proof (Z.mul_div_le k 256).
  exists l, k, q, (k / 256). split; try split_and!; try done; try lia.
  fold s. apply Z.div_le_lower_bound; nia.
Qed.

(** The shifts of the source find the tile. *)
Lemma block_tile_index a h n l k q i :
  block_at a h n l k q i -> a < 2 ^ 64 ->
  (if 64 <=? 8 * (l + 1) then 0 else Z.shiftr a (8 * (l + 1))) = i.
Proof.
  intros [(Hl & _) (Hk & Ha) _ (_ & -> & _) _] Hb. pose proof (pow256_pos l Hl).
  assert (a / (256 * 256 ^ l) = k / 256) as <-.
  { rewrite Ha, (Z.mul_comm 256), (Z.mul_comm k), Z.div_mul_cancel_l; lia. }
  rewrite <- pow256_succ, pow256_pow2 by lia.
  destruct (Z.leb_spec 64 (8 * (l + 1))); [|by rewrite Z.shiftr_div_pow2 by lia].
  symmetry. apply Z.div_small. pose proof (pow2_le 64 (8 * (l + 1))). nia.
Qed.

Lemma block_tile_width a h n l k q i :
  block_at a h n l k q i -> in_u64 n ->
  tile_width l i n = Some (Z.min (n / 256 ^ l - i * 256) 256).
Proof.
  intros [(Hl & _) _ (Hq & _) (Hi & _ & Hik & _) Hb] Hu. rewrite tile_width_spec by done.
  by rewrite (proj2 (Z.leb_gt _ _)) by lia.
Qed.

Lemma block_tile_covers a h n l k q i :
  block_at a h n l k q i -> in_u64 n ->
  tile_covers (TileCoord_new l i (Z.min (n / 256 ^ l - i * 256) 256)) (Subtree_new a (a + 2 ^ h)).
Proof.
  intros [(Hl & Hlh & Hl8) (Hk & Ha) (Hq & _ & Hh) (Hi & _ & Hik & Hfit) Hb] Hu.
  pose proof (pow256_pos l Hl) as Hs. set (s := 256 ^ l) in *.
  pose proof (Z.mul_div_le n s Hs).
  assert (l <= 8) as Hl9.
  { destruct (Z.le_gt_cases l 8); [done|]. assert (n / s = 0); [|lia].
    apply Z.div_small. unfold s. rewrite pow256_pow2 by done. pose proof (pow2_le 64 (8 * l)).
    destruct Hu. lia. }
  assert ((i * 256 + Z.min (n / s - i * 256) 256) * s < 2 ^ 64) as Hfits by (destruct Hu; nia).
  eexists _, _. rewrite leaf_range_spec by lia. fold s.
  rewrite (proj2 (Z.ltb_ge 8 l)), (proj2 (Z.leb_gt _ _)) by lia. split; [done|].
  cbn [tc_level st_start st_end]. rewrite leaf_span_pow by done. fold s.
  split_and!; [nia|nia|by exists k|exists (k + q); lia].
Qed.

Lemma tile_for_subtree_ok block n :
  aligned_block block -> st_end block <= n -> in_u64 n ->
  exists c, tile_for_subtree block n = Ok c /\ in_tree n c /\ tile_covers c block.
Proof.
  intros (h & Hh & Ha & He & Hd) Hn Hu. destruct block as [a e]. cbn [st_start st_end] in *. subst e.
  pose proof (pow2_pos h Hh) as Hp.
  assert (h < 64) as Hh64. { apply (Z.pow_lt_mono_r_iff 2); [lia..|]. destruct Hu. lia. }
  destruct (block_geometry a h n Hh Ha Hd Hn) as (l & k & q & i & Hat).
  pose proof (block_tile_width _ _ _ _ _ _ _ Hat Hu) as Hw.
  assert (a < 2 ^ 64) as Ha64 by (destruct Hu; lia).
  pose proof (block_tile_index _ _ _ _ _ _ _ Hat Ha64) as Hidx.
  exists (TileCoord_new l i (Z.min (n / 256 ^ l - i * 256) 256)).
  split_and!; [|by destruct Hat as [(? & _) _ _ (? & _) _]; split_and!|by apply (block_tile_covers _ _ _ _ k q)].
  destruct Hat as [(Hl & Hlh & Hl8) _ _ _ _].
  unfold tile_for_subtree, st_len, saturating_sub. cbn [st_start st_end].
  replace (Z.max (a + 2 ^ h - a) 0) with (2 ^ h) by lia.
  rewrite trailing_zeros_pow2 by done. unfold TILE_HEIGHT. rewrite <- Hlh.
  rewrite try_from_uint_in by (split; [done|lia]). cbn [default from_option id].
  by rewrite Hidx, Hw.
Qed.

(** ** Sorting and removing duplicates *)

Definition tile_lt (c d : TileCoord) : Prop := tile_le c d /\ c <> d.

#[export] Instance tile_le_total : Total tile_le.
Proof. intros c d. unfold tile_le. lia. Qed.

Lemma elem_of_dedup {A} `{EqDecision A} (x : A) l : x ∈ dedup l <-> x ∈ l.
Proof.
  induction l as [|y l IH]; [done|]. destruct l as [|z l]; [done|].
  change (dedup (y :: z :: l)) with (if decide (y = z) then dedup (z :: l) else y :: dedup (z :: l)).
  destruct (decide (y = z)) as [->|]; rewrite ?IH; [set_solver|].
  rewrite !elem_of_cons. rewrite elem_of_cons in IH. tauto.
Qed.

Lemma dedup_head {A} `{EqDecision A} (x : A) l : exists l', dedup (x :: l) = x :: l'.
Proof.
  revert x. induction l as [|y l IH]; intros x; [by exists []|].
  change (dedup (x :: y :: l)) with (if decide (x = y) then dedup (y :: l) else x :: dedup (y :: l)).
  destruct (decide (x = y)) as [->|]; [apply IH|by eexists].
Qed.

Lemma Sorted_dedup l : Sorted tile_le l -> Sorted tile_lt (dedup l).
Proof.
  induction l as [|x l IH]; intros Hs; [constructor|]. destruct l as [|y l]; [by repeat constructor|].
  change (dedup (x :: y :: l)) with (if decide (x = y) then dedup (y :: l) else x :: dedup (y :: l)).
  inversion Hs as [|? ? Hs' Hd]; subst. inversion Hd; subst.
  destruct (decide (x = y)) as [->|Hne]; [by apply IH|]. constructor; [by apply IH|].
  destruct (dedup_head y l) as [l' ->]. by constructor.
Qed.

Lemma push_tiles_ok n ranges : forall acc,
  Forall aligned_block ranges -> Forall (fun s => st_end s <= n) ranges -> in_u64 n ->
  exists coords, push_tiles ranges n acc = Ok (acc ++ coords) /\
    Forall2 (fun s c => in_tree n c /\ tile_covers c s) ranges coords.
Proof.
  induction ranges as [|s ranges IH]; intros acc Ha Hn Hu.
  - exists []. by rewrite app_nil_r.
  - inversion Ha; subst. inversion Hn; subst.
    destruct (tile_for_subtree_ok s n) as (c & Hc & Ht & Hcov); [done..|].
    destruct (IH (acc ++ [c])) as (coords & Hp & Hf); [done..|].
    exists (c :: coords). cbn [push_tiles]. rewrite Hc, Hp, <- app_assoc. split; [done|]. by constructor.
Qed.

Lemma covers_bound a b blocks :
  Forall aligned_block blocks -> covers a b blocks -> a <= b /\ Forall (fun s => st_end s <= b) blocks.
Proof.
  revert a. induction blocks as [|s blocks IH]; intros a Ha Hc; simpl in Hc; [subst; split; [lia|done]|].
  destruct Hc as [<- Hc]. inversion Ha as [|? ? (h & Hh & _ & He & _) Ha']; subst.
  destruct (IH _ Ha' Hc) as [Hle Hf]. pose proof (pow2_pos h Hh).
  split; [lia|by constructor].
Qed.

Lemma inclusion_ranges_good i n :
  0 <= i < n -> n < 2 ^ 64 ->
  Forall aligned_block (inclusion_ranges i n) /\ Forall (fun s => st_end s <= n) (inclusion_ranges i n).
Proof.
  intros Hi Hn. destruct (decompose_range_good 0 i) as (Hc1 & Ha1 & _); [lia..|].
  destruct (decompose_range_good (i + 1) n) as (Hc2 & Ha2 & _); [lia..|].
  destruct (covers_bound _ _ _ Ha1 Hc1) as [_ Hb1]. destruct (covers_bound _ _ _ Ha2 Hc2) as [_ Hb2].
  assert (aligned_block (Subtree_new i (i + 1))) as H1.
  { exists 0. change (2 ^ 0) with 1. simpl. split_and!; [done|lia|done|apply Z.divide_1_l]. }
  unfold inclusion_ranges. split; constructor; [done| |simpl; lia|]; apply Forall_app; split; try done.
  eapply Forall_impl; [exact Hb1|]. simpl. lia.
Qed.

Lemma tiles_for_inclusion_ok i n :
  0 <= i < n -> n < 2 ^ 64 ->
  exists coords, tiles_for_inclusion i n = Ok coords /\ Sorted tile_lt coords /\
    Forall (in_tree n) coords /\
    Forall (fun s => Exists (fun c => tile_covers c s) coords) (inclusion_ranges i n) /\
    Forall (fun c => Exists (fun s => tile_covers c s) (inclusion_ranges i n)) coords.
Proof.
  intros Hi Hn. destruct (inclusion_ranges_good i n Hi Hn) as [Ha Hb].
  destruct (push_tiles_ok n _ [] Ha Hb) as (coords & Hp & Hf); [split; lia|].
  unfold tiles_for_inclusion. rewrite (proj2 (Z.leb_gt _ _)), Hp by lia. cbn [app].
  exists (dedup (merge_sort tile_le coords)).
  assert (forall c, c ∈ dedup (merge_sort tile_le coords) <-> c ∈ coords) as Hel
    by (intros c; by rewrite elem_of_dedup, merge_sort_Permutation).
  split_and!; [done|apply Sorted_dedup, Sorted_merge_sort, _| | |].
  - apply Forall_forall. intros c Hc%Hel. apply list_elem_of_lookup in Hc as [j Hj].
    destruct (Forall2_lookup_r _ _ _ _ _ Hf Hj) as (s & _ & Hs & _). done.
  - apply Forall_forall. intros s Hs. apply list_elem_of_lookup in Hs as [j Hj].
    destruct (Forall2_lookup_l _ _ _ _ _ Hf Hj) as (c & Hc & _ & Hcov).
    apply Exists_exists. exists c. rewrite Hel. split; [by eapply list_elem_of_lookup_2|done].
  - apply Forall_forall. intros c Hc%Hel. apply list_elem_of_lookup in Hc as [j Hj].
    destruct (Forall2_lookup_r _ _ _ _ _ Hf Hj) as (s & Hs & _ & Hcov).
    apply Exists_exists. exists s. split; [by eapply list_elem_of_lookup_2|done].
Qed.

(** ** The properties *)

(** C28. A tree survives publication as tiles: from the tiles of a non-empty leaf list, in whatever
    order they are listed, [reconstruct_root] computes the Merkle Tree Hash of the leaves. *)
Theorem reconstruct_build_tiles {H : Hasher} (ls : list HashOutput) (tiles : list Tile) :
  len ls < 2 ^ 64 -> tiles ≡ₚ build_tiles ls ->
  reconstruct_root tiles = match ls with [] => None | _ => Some (mth ls) end.
Proof. apply reconstruct_build. Qed.

Lemma reconstruct_build_tiles_witness :
  reconstruct_root (H := ToyHasher) (rev (build_tiles (H := ToyHasher) (leaves (toy_tree 259))))
  = Some (mth (H := ToyHasher) (leaves (toy_tree 259))).
Proof.
  apply (reconstruct_build_tiles (H := ToyHasher) (leaves (toy_tree 259)));
    [by vm_compute|symmetry; apply Permutation_rev].
Defined.

(** [build_tiles] writes exactly the tiles the geometry defines, each with the right hashes:
    a tile is in the result if and only if [tile_width] has its level and index at its width,
    and slot [s] of level [l], index [t] is the Merkle Tree Hash of the complete subtree of
    [256 ^ l] leaves number [256 t + s]. *)
Theorem build_tiles_contents {H : Hasher} (ls : list HashOutput) (t : Tile) :
  len ls < 2 ^ 64 -> t ∈ build_tiles ls <->
  exists l i w, 0 <= l /\ 0 <= i /\ tile_width l i (len ls) = Some w /\
    t = MkTile (TileCoord_new l i w)
          (map (fun slot => level_hash ls l (i * 256 + Z.of_nat slot)) (seq 0 (Z.to_nat w))).
Proof. apply elem_of_build_tiles. Qed.

Lemma build_tiles_contents_witness :
  let ls := leaves (toy_tree 3) in
  let t := MkTile (TileCoord_new 0 0 3) ls in
  t ∈ build_tiles (H := ToyHasher) ls.
Proof.
  apply (build_tiles_contents (H := ToyHasher) (leaves (toy_tree 3))); [by vm_compute|].
  exists 0, 0, 3. by split_and!; vm_compute.
Defined.

(** The tile planner is complete and minimal: for a leaf of the tree, [tiles_for_inclusion]
    returns a strictly sorted list of coordinates of tiles the tree has, among which every
    block the inclusion proof needs (the leaf and the aligned blocks on both sides of it) is
    covered on level boundaries, and none of which is needless. *)
Theorem tiles_for_inclusion_covers (leaf : Index) (tree_size : TreeSize) :
  0 <= leaf < tree_size -> in_u64 tree_size ->
  exists coords, tiles_for_inclusion leaf tree_size = Ok coords /\ Sorted tile_lt coords /\
    Forall (in_tree tree_size) coords /\
    Forall (fun s => Exists (fun c => tile_covers c s) coords) (inclusion_ranges leaf tree_size) /\
    Forall (fun c => Exists (fun s => tile_covers c s) (inclusion_ranges leaf tree_size)) coords.
Proof. intros Hi [_ Hn]. by apply tiles_for_inclusion_ok. Qed.

Lemma tiles_for_inclusion_covers_witness :
  exists coords, tiles_for_inclusion 300 70000 = Ok coords /\ Sorted tile_lt coords /\
    Forall (in_tree 70000) coords /\
    Forall (fun s => Exists (fun c => tile_covers c s) coords) (inclusion_ranges 300 70000) /\
    Forall (fun c => Exists (fun s => tile_covers c s) (inclusion_ranges 300 70000)) coords.
Proof. apply tiles_for_inclusion_covers; vm_compute; intuition discriminate. Defined.

(** [leaf_range] never wraps: for a coordinate of any [u8] level and [u64] index its leaf
    range is the exact product, and it is refused precisely when the level is beyond a [u64]
    tree's tiling or the range would leave the [u64]s. *)
Theorem leaf_range_exact (level index width : Z) :
  in_u8 level -> in_u64 index -> 1 <= width <= 256 ->
  leaf_range (TileCoord_new level index width) =
    if ((8 <? level) || (2 ^ 64 <=? (index * 256 + width) * 256 ^ level))%bool then None
    else Some (index * 256 * 256 ^ level, (index * 256 + width) * 256 ^ level).
Proof. intros [Hl _] [Hi _] Hw. by apply leaf_range_spec. Qed.

Lemma leaf_range_exact_witness :
  leaf_range (TileCoord_new 7 (2 ^ 64 - 1) 256) = None /\
  leaf_range (TileCoord_new 1 2 3) = Some (131072, 131840).
Proof. rewrite !leaf_range_exact; [by vm_compute|..]; vm_compute; intuition discriminate. Defined.

(** Tile files: [from_bytes] accepts exactly the bytes [to_bytes] produces for a tile of the
    coordinate's width, so a partial or oversized file is refused and every tile round-trips. *)
Theorem tile_bytes_roundtrip (c : TileCoord) (bytes : list byte) (t : Tile) :
  0 <= tc_width c -> len bytes <= isize_max ->
  tile_from_bytes c bytes = Ok t <->
  coord t = c /\ len (hashes t) = tc_width c /\ tile_to_bytes t = bytes.
Proof.
  intros Hw Hl. unfold tile_from_bytes. rewrite tile_to_bytes_concat. split.
  - destruct (parse_exact _ bytes) as [hs|] eqn:E; [|done]. intros [= <-].
    apply (parse_exact_consumes _ _ _ _ (consumes_read_hashes _ [])) in E; [|done].
    destruct E as (hs' & -> & Hlen & ->). simpl. unfold len. split_and!; [done|lia|done].
  - intros (<- & Hlen & <-). rewrite <- Hlen. unfold len. rewrite Nat2Z.id.
    rewrite (parse_exact_parses _ _ _ 0 (parses_read_hashes (hashes t) [])) by (done || lia).
    by destruct t.
Qed.

Lemma tile_bytes_roundtrip_witness :
  tile_from_bytes (TileCoord_new 0 0 1) (repeat x00 32)
  = Ok (MkTile (TileCoord_new 0 0 1) [zero_array 32]).
Proof.
  apply tile_bytes_roundtrip; [by vm_compute|by vm_compute|]. split_and!; reflexivity.
Defined.
