(* ===== verification/PathFacts.v ===== *)
(** * Tile paths are distinct

    The URL path of a tile determines its coordinate: the base-1000 groups of the index, the level
    and the width of a partial tile can be read back. *)

From Stdlib Require Import Ascii.
From S2P Require Import Prelude Format Types Tree Tile.

Local Open Scope Z_scope.

(** ** The groups of an index *)

(** The number of a list of groups, most significant first. *)
Definition groups_value (gs : list Z) : Z := fold_left (fun acc g => acc * 1000 + g) gs 0.

Lemma groups_value_app acc gs hs :
  fold_left (fun acc g => acc * 1000 + g) (gs ++ hs) acc =
  fold_left (fun acc g => acc * 1000 + g) hs (fold_left (fun acc g => acc * 1000 + g) gs acc).
Proof. apply fold_left_app. Qed.

(** [groups_loop] prepends the digits of [n], each below 1000. *)
Lemma groups_loop_spec fuel : forall n gs,
  0 <= n < 1000 ^ (Z.of_nat fuel + 1) ->
  exists ds, groups_loop fuel n gs = ds ++ gs /\ ds <> [] /\ Forall (fun g => 0 <= g < 1000) ds /\
    groups_value ds = n.
Proof.
  induction fuel as [|fuel IH]; intros n gs Hn; cbn [groups_loop];
    pose proof (Z.mod_pos_bound n 1000 ltac:(lia)) as Hm; pose proof (Z.div_mod n 1000 ltac:(lia)) as Hdm.
  - change (1000 ^ (Z.of_nat 0 + 1)) with 1000 in Hn. exists [n mod 1000].
    rewrite Z.mod_small by lia. split_and!; [done|done|by repeat constructor; lia|].
    unfold groups_value. cbn. lia.
  - destruct (Z.eqb_spec (n / 1000) 0) as [H0|H0].
    + exists [n mod 1000]. split_and!; [done|done|by repeat constructor; lia|].
      unfold groups_value. cbn. lia.
    + destruct (IH (n / 1000) (n mod 1000 :: gs)) as (ds & -> & Hne & Hf & Hv).
      { split; [apply Z.div_pos; lia|]. apply Z.div_lt_upper_bound; [lia|].
        rewrite <- Z.pow_succ_r by lia. replace (Z.succ (Z.of_nat fuel + 1)) with (Z.of_nat (S fuel) + 1) by lia.
        lia. }
      exists (ds ++ [n mod 1000]). rewrite <- app_assoc. split_and!; [done|by destruct ds| |].
      * apply Forall_app. by repeat constructor; (done || lia).
      * unfold groups_value in *. rewrite groups_value_app, Hv. cbn. lia.
Qed.

Lemma index_groups n :
  in_u64 n -> exists gs, encode_index n = join_groups gs /\ gs <> [] /\
    Forall (fun g => 0 <= g < 1000) gs /\ groups_value gs = n.
Proof.
  intros [Hn0 Hn]. destruct (groups_loop_spec 6 n []) as (gs & Hg & Hne & Hf & Hv).
  { change (1000 ^ (Z.of_nat 6 + 1)) with (10 ^ 21). split; [done|]. eapply Z.lt_trans; [exact Hn|]. lia. }
  exists gs. rewrite app_nil_r in Hg. unfold encode_index. by rewrite Hg.
Qed.

(** ** Joined groups *)

Lemma length_group g : 0 <= g < 1000 -> String.length (zero_pad 3 (decimal g)) = 3%nat.
Proof. intros Hg. apply length_zero_pad, length_decimal; [lia|done]. Qed.

(** A group ends where a separator follows, and none starts with an [x]. *)
Lemma group_not_x g r s : 0 <= g < 1000 ->
  (zero_pad 3 (decimal g) +:+ r)%string <> ("x" +:+ s)%string.
Proof.
  intros Hg E. pose proof (length_group g Hg) as Hl. pose proof (all_digits_pad 3 g) as Hd.
  destruct (zero_pad 3 (decimal g)) as [|c t]; [done|]. injection E as -> _. by destruct Hd.
Qed.

Lemma join_groups_inj gs : forall hs,
  gs <> [] -> hs <> [] -> Forall (fun g => 0 <= g < 1000) gs -> Forall (fun g => 0 <= g < 1000) hs ->
  join_groups gs = join_groups hs -> gs = hs.
Proof.
  assert (Hmix : forall g h h' hs, 0 <= g < 1000 ->
    join_groups [g] <> join_groups (h :: h' :: hs)).
  { intros g h h' hs Hg E. eapply (group_not_x g "" _ Hg). rewrite str_app_nil. exact E. }
  induction gs as [|g gs IH]; [done|]. intros [|h hs] _ Hne; [done|].
  intros [Hg Hgs]%Forall_cons [Hh Hhs]%Forall_cons E.
  destruct gs as [|g' gs], hs as [|h' hs].
  - f_equal. cbn [join_groups] in E. apply (zero_pad_inj 3); lia || done.
  - by apply Hmix in E.
  - symmetry in E. by apply Hmix in E.
  - cbn [join_groups] in E. apply app_inv_head_str in E.
    apply app_inj_str in E as [E1 E2]; [|by rewrite !length_group].
    apply app_inv_head_str in E2. apply zero_pad_inj in E1 as ->; [|lia..].
    f_equal. by apply IH.
Qed.

Lemma encode_index_inj n m : in_u64 n -> in_u64 m -> encode_index n = encode_index m -> n = m.
Proof.
  intros Hn Hm E. destruct (index_groups n Hn) as (gs & Hgs & Hne & Hf & <-).
  destruct (index_groups m Hm) as (hs & Hhs & Hne' & Hf' & <-).
  f_equal. apply join_groups_inj; try done. congruence.
Qed.

(** ** Paths *)

Lemma join_groups_no_dot gs : avoids "." (join_groups gs).
Proof.
  assert (Hp : forall g, avoids "." (zero_pad 3 (decimal g))).
  { intros g. apply all_digits_avoid; [done|apply all_digits_pad]. }
  induction gs as [|g gs IH]; [done|]. destruct gs as [|g' gs]; [apply Hp|].
  change (join_groups (g :: g' :: gs)) with
    ("x" +:+ zero_pad 3 (decimal g) +:+ "/" +:+ join_groups (g' :: gs))%string.
  rewrite !avoids_app. split_and!; [done|apply Hp|done|apply IH].
Qed.

(** A coordinate whose fields fit their types. *)
Definition coord_ok (c : TileCoord) : Prop :=
  in_u8 (tc_level c) /\ in_u64 (tc_index c) /\ 1 <= tc_width c <= 256.

(** The URL path of a tile determines the tile: two coordinates with one path have the same
    level, index and width, so a reader that fetches a path gets the tile it planned and a partial
    tile never shadows a full one. *)
Theorem tile_path_inj (c d : TileCoord) :
  coord_ok c -> coord_ok d -> tile_path c = tile_path d -> c = d.
Proof.
  intros (Hl & Hi & Hw) (Hl' & Hi' & Hw') E. unfold tile_path in E.
  assert (Hslash : forall n, avoids "/" (decimal n)).
  { intros n. apply all_digits_avoid; [done|apply all_digits_decimal]. }
  pose proof (join_groups_no_dot (groups_loop 6 (tc_index c) [])) as Hd.
  pose proof (join_groups_no_dot (groups_loop 6 (tc_index d) [])) as Hd'.
  change (join_groups (groups_loop 6 (tc_index c) [])) with (encode_index (tc_index c)) in Hd.
  change (join_groups (groups_loop 6 (tc_index d) [])) with (encode_index (tc_index d)) in Hd'.
  unfold TileWidth_is_partial, TileWidth_is_full in E. change FULL_TILE_HASHES with 256 in E.
  destruct c as [l i w], d as [l' i' w']. cbn [tc_level tc_index tc_width] in *.
  destruct (Z.eqb_spec w 256), (Z.eqb_spec w' 256); cbn [negb] in E;
    apply app_inv_head_str in E; apply split_at_str in E as [E1 E2]; try apply Hslash;
    apply decimal_inj in E1 as ->; try (unfold in_uint in *; lia).
  - apply encode_index_inj in E2 as ->; try done. by subst.
  - exfalso. rewrite E2 in Hd. apply avoids_app in Hd as [_ Hd]. by destruct Hd.
  - exfalso. rewrite <- E2 in Hd'. apply avoids_app in Hd' as [_ Hd']. by destruct Hd'.
  - apply split_at_str in E2 as [E2 E3]; [|done..].
    apply encode_index_inj in E2 as ->; [|done..].
    apply (app_inv_head_str "p/") in E3. apply decimal_inj in E3 as ->; (done || lia).
Qed.

Lemma tile_path_inj_witness :
  tile_path (TileCoord_new 1 1234067 7) = "tile/1/x001/x234/067.p/7"%string /\
  TileCoord_new 1 1234067 7 = TileCoord_new 1 1234067 7.
Proof.
  split; [vm_compute; reflexivity|].
  apply tile_path_inj; [..|reflexivity]; vm_compute; intuition discriminate.
Defined.
