(* ===== verification/LogEntry.v ===== *)
(** * Log entries: [crates/mtc/src/log_entry/]

    The claims an entry asserts ([claim.rs]), its subject ([subject.rs]), the certificate entry
    and its type-state builder ([entry.rs]), and the entry union whose framed bytes are what the
    issuance log hashes ([mod.rs]). *)

From S2P Require Import Prelude Types Wire Tree.

Local Open Scope Z_scope.
Local Open Scope mtc_scope.

(** ** [EntryError] ([error.rs]) *)

Inductive EntryError : Type :=
| EmptyDnsName
| DnsNameTooLong (actual : Z)
| EmptyClaimList
| EmptyPublicKey.

(** ** [DnsName] ([claim.rs]) *)

Record DnsName : Type := MkDnsName { dns_bytes : list byte }.

Definition DnsName_MAX_LEN : Z := 255.

Definition DnsName_new (bytes : list byte) : result DnsName EntryError :=
  let n := len bytes in
  if n =? 0 then Err EmptyDnsName
  else if DnsName_MAX_LEN <? n then Err (DnsNameTooLong n)
  else Ok (MkDnsName bytes).

#[export] Instance dns_serialize : TlsSerialize DnsName := fun name =>
  write_opaque_u8 (dns_bytes name).

#[export] Instance dns_parse : TlsParse DnsName :=
  let! bytes := read_opaque_u8 in
  let! p := get_position in
  lift (map_err (fun _ => InvalidValue p "DNSName must be 1..=255 bytes") (DnsName_new bytes)).

(** ** [Claim] ([claim.rs]) *)

Inductive ClaimType : Type := CtDns | CtDnsWildcard | CtIpv4 | CtIpv6.

Definition ClaimType_code (t : ClaimType) : Z :=
  match t with CtDns => 0 | CtDnsWildcard => 1 | CtIpv4 => 2 | CtIpv6 => 3 end.

Definition ClaimType_from_code (code : Z) : option ClaimType :=
  match code with
  | 0 => Some CtDns
  | 1 => Some CtDnsWildcard
  | 2 => Some CtIpv4
  | 3 => Some CtIpv6
  | _ => None
  end.

(** [std::net]'s addresses are their octets. *)
Definition Ipv4Addr : Type := array 4.
Definition Ipv6Addr : Type := array 16.

Inductive Claim : Type :=
| Dns (names : list DnsName)
| DnsWildcard (names : list DnsName)
| Ipv4 (addresses : list Ipv4Addr)
| Ipv6 (addresses : list Ipv6Addr).

(** [non_empty] (construction) and [non_empty_wire] (parsing). *)
Definition non_empty {T} (items : list T) : result (list T) EntryError :=
  match items with [] => Err EmptyClaimList | _ => Ok items end.

Definition non_empty_wire {T} (items : list T) : Reader (list T) :=
  let! p := get_position in
  match items with
  | [] => throw (InvalidValue p "claim value list must contain at least one entry")
  | _ => ret items
  end.

Definition Claim_dns (names : list DnsName) : result Claim EntryError :=
  let? names := non_empty names in Ok (Dns names).
Definition Claim_dns_wildcard (names : list DnsName) : result Claim EntryError :=
  let? names := non_empty names in Ok (DnsWildcard names).
Definition Claim_ipv4 (addresses : list Ipv4Addr) : result Claim EntryError :=
  let? addresses := non_empty addresses in Ok (Ipv4 addresses).
Definition Claim_ipv6 (addresses : list Ipv6Addr) : result Claim EntryError :=
  let? addresses := non_empty addresses in Ok (Ipv6 addresses).

Definition claim_type (c : Claim) : ClaimType :=
  match c with
  | Dns _ => CtDns
  | DnsWildcard _ => CtDnsWildcard
  | Ipv4 _ => CtIpv4
  | Ipv6 _ => CtIpv6
  end.

(** The body, into a fresh [Vec]. *)
Definition claim_info_writer (c : Claim) : Writer :=
  match c with
  | Dns names | DnsWildcard names => write_vector_u16 names
  | Ipv4 addresses => write_vector_u16 (T := array 4) addresses
  | Ipv6 addresses => write_vector_u16 (T := array 16) addresses
  end.
Definition serialize_claim_info (c : Claim) : result (list byte) io_error :=
  to_vec (claim_info_writer c).

#[export] Instance claim_serialize : TlsSerialize Claim := fun c =>
  do! write_u16 (ClaimType_code (claim_type c));
  let! body := lift (serialize_claim_info c) in
  write_opaque_u16 body.

Definition parse_name_list : Reader (list DnsName) :=
  let! names := read_vector_u16 in non_empty_wire names.

(** What the claim parser runs on the fresh sub-reader. *)
Definition parse_claim_info (t : ClaimType) : Reader Claim :=
  match t with
  | CtDns => let! names := parse_name_list in ret (Dns names)
  | CtDnsWildcard => let! names := parse_name_list in ret (DnsWildcard names)
  | CtIpv4 =>
      let! raw := (let! raw := read_vector_u16 (T := array 4) in non_empty_wire raw) in
      ret (Ipv4 raw)
  | CtIpv6 =>
      let! raw := (let! raw := read_vector_u16 (T := array 16) in non_empty_wire raw) in
      ret (Ipv6 raw)
  end.

(** The body is parsed from a fresh [TlsReader::new], which must be left empty: its offsets and
    its depth budget start over. *)
#[export] Instance claim_parse : TlsParse Claim :=
  let! code := read_u16 in
  let! p := get_position in
  let! t := lift (ok_or (ClaimType_from_code code) (InvalidValue p "unknown ClaimType codepoint")) in
  let! body := read_opaque_u16 in
  lift (parse_exact (parse_claim_info t) body).

(** ** Subjects ([subject.rs]) *)

Inductive SubjectType : Type := Tls.

Definition SubjectType_code (t : SubjectType) : Z := match t with Tls => 0 end.
Definition SubjectType_from_code (code : Z) : option SubjectType :=
  match code with 0 => Some Tls | _ => None end.

#[export] Instance subject_type_serialize : TlsSerialize SubjectType := fun t =>
  write_u16 (SubjectType_code t).

#[export] Instance subject_type_parse : TlsParse SubjectType :=
  let! code := read_u16 in
  let! p := get_position in
  lift (ok_or (SubjectType_from_code code) (InvalidValue p "unknown SubjectType codepoint")).

Record SubjectInfoHash : Type := from_hash { as_hash : HashOutput }.

Definition of_subject_info {H : Hasher} (subject_info : list byte) : SubjectInfoHash :=
  from_hash (digest [subject_info]).

#[export] Instance subject_hash_serialize : TlsSerialize SubjectInfoHash := fun h =>
  tls_serialize (T := array 32) (as_hash h).

#[export] Instance subject_hash_parse : TlsParse SubjectInfoHash :=
  let! bytes := read_array HashOutput_LEN in ret (from_hash bytes).

Record TlsSubjectInfo : Type := MkTlsSubjectInfo {
  signature_scheme : Z;
  public_key : list byte
}.

Definition TlsSubjectInfo_new (scheme : Z) (key : list byte) : result TlsSubjectInfo EntryError :=
  match key with
  | [] => Err EmptyPublicKey
  | _ => Ok (MkTlsSubjectInfo scheme key)
  end.

#[export] Instance subject_info_serialize : TlsSerialize TlsSubjectInfo := fun s =>
  do! write_u16 (signature_scheme s);
  write_opaque_u16 (public_key s).

#[export] Instance subject_info_parse : TlsParse TlsSubjectInfo :=
  let! scheme := read_u16 in
  let! key := read_opaque_u16 in
  let! p := get_position in
  match key with
  | [] => throw (InvalidValue p "TLS subject public_key must be at least one byte")
  | _ => ret (MkTlsSubjectInfo scheme key)
  end.

Definition subject_info_hash_of {H : Hasher} (s : TlsSubjectInfo) : result SubjectInfoHash io_error :=
  let? bytes := tls_serialize_to_vec s in Ok (of_subject_info bytes).

(** ** The certificate entry ([entry.rs]) *)

Record TbsCertificateLogEntry : Type := MkTbs {
  subject_type : SubjectType;
  subject_info_hash : SubjectInfoHash;
  claims : list Claim
}.

#[export] Instance tbs_serialize : TlsSerialize TbsCertificateLogEntry := fun e =>
  do! tls_serialize (subject_type e);
  do! tls_serialize (subject_info_hash e);
  write_vector_u16 (claims e).

#[export] Instance tbs_parse : TlsParse TbsCertificateLogEntry :=
  let! t := tls_parse (T := SubjectType) in
  let! h := tls_parse (T := SubjectInfoHash) in
  let! cs := read_vector_u16 in
  ret (MkTbs t h cs).

(** The builder: the type parameters record which required fields are set. *)
Inductive NoSubjectType : Type := MkNoSubjectType.
Inductive NoSubjectInfoHash : Type := MkNoSubjectInfoHash.

Record EntryBuilder (St Sh : Type) : Type := MkEntryBuilder {
  eb_subject_type : St;
  eb_subject_info_hash : Sh;
  eb_claims : list Claim
}.
Arguments MkEntryBuilder {St Sh}.
Arguments eb_subject_type {St Sh}.
Arguments eb_subject_info_hash {St Sh}.
Arguments eb_claims {St Sh}.

Definition entry_builder_new : EntryBuilder NoSubjectType NoSubjectInfoHash :=
  MkEntryBuilder MkNoSubjectType MkNoSubjectInfoHash [].
Definition with_claim {St Sh} (b : EntryBuilder St Sh) (c : Claim) : EntryBuilder St Sh :=
  MkEntryBuilder (eb_subject_type b) (eb_subject_info_hash b) (eb_claims b ++ [c]).
Definition with_claims {St Sh} (b : EntryBuilder St Sh) (cs : list Claim) : EntryBuilder St Sh :=
  MkEntryBuilder (eb_subject_type b) (eb_subject_info_hash b) (eb_claims b ++ cs).
Definition with_subject_type {Sh} (b : EntryBuilder NoSubjectType Sh) (t : SubjectType) :
    EntryBuilder SubjectType Sh := MkEntryBuilder t (eb_subject_info_hash b) (eb_claims b).
Definition with_subject_info_hash {St} (b : EntryBuilder St NoSubjectInfoHash)
    (h : SubjectInfoHash) : EntryBuilder St SubjectInfoHash :=
  MkEntryBuilder (eb_subject_type b) h (eb_claims b).
Definition build_entry (b : EntryBuilder SubjectType SubjectInfoHash) : TbsCertificateLogEntry :=
  MkTbs (eb_subject_type b) (eb_subject_info_hash b) (eb_claims b).

(** ** The entry union ([mod.rs]) *)

Definition NULL_ENTRY_TYPE : Z := 0.
Definition TBS_CERT_ENTRY_TYPE : Z := 1.

Inductive LogEntry : Type :=
| Null
| Certificate (entry : TbsCertificateLogEntry).

Definition is_null (e : LogEntry) : bool := match e with Null => true | _ => false end.

#[export] Instance log_entry_serialize : TlsSerialize LogEntry := fun e =>
  match e with
  | Null => write_u16 NULL_ENTRY_TYPE
  | Certificate entry => do! write_u16 TBS_CERT_ENTRY_TYPE; tls_serialize entry
  end.

#[export] Instance log_entry_parse : TlsParse LogEntry :=
  let! entry_type := read_u16 in
  if entry_type =? NULL_ENTRY_TYPE then ret Null
  else if entry_type =? TBS_CERT_ENTRY_TYPE
  then let! entry := tls_parse (T := TbsCertificateLogEntry) in ret (Certificate entry)
  else
    let! p := get_position in
    throw (InvalidValue p "unknown MerkleTreeCertEntry type").

Definition leaf_bytes (e : LogEntry) : result LeafBytes io_error :=
  let? framed := tls_serialize_to_vec e in Ok (from_framed framed).

Definition entry_leaf_hash {H : Hasher} (e : LogEntry) : result HashOutput io_error :=
  let? leaf := leaf_bytes e in Ok (hash_leaf (leaf_as_bytes leaf)).
