(* ===== verification/LogEntryFacts.v ===== *)
(** * Correctness of the log-entry codecs

    Each type obeys the codec laws of [TlsLaws], with the floors its constructors enforce as
    its validity: names of 1 to 255 bytes, non-empty claim lists, a non-empty public key. From
    the laws: parsing and serializing are inverse, and the leaf hash binds the entry. *)

From S2P Require Import Prelude Types Wire WireLaws Tree TreeFacts LogEntry.

Local Open Scope Z_scope.
Local Open Scope mtc_scope.

(** ** 16-bit fields *)

Lemma parses_u16 z d : 0 <= d -> in_u16 z -> parses read_u16 (to_be_bytes 2 z) z d.
Proof. intros Hd Hz. eapply parses_weaken; [by apply parses_read_u16|done]. Qed.

Lemma writes_u16_inv z bs : writes (write_u16 z) bs -> bs = to_be_bytes 2 z.
Proof. intros Hw. by injection Hw. Qed.

Lemma appends_u16 z : appends (write_u16 z).
Proof. apply appends_write_all. Qed.
#[export] Hint Resolve appends_u16 : wire.

(** ** [DnsName] *)

Definition dns_ok (n : DnsName) : Prop := 1 <= len (dns_bytes n) <= DnsName_MAX_LEN.

Lemma DnsName_new_Ok bytes n : DnsName_new bytes = Ok n <-> n = MkDnsName bytes /\ dns_ok n.
Proof.
  unfold DnsName_new, dns_ok. pose proof (len_nonneg bytes).
  destruct (Z.eqb_spec (len bytes) 0); [|destruct (Z.ltb_spec DnsName_MAX_LEN (len bytes))].
  - split; [done|]. intros [-> ?]. simpl in *. lia.
  - split; [done|]. intros [-> ?]. simpl in *. lia.
  - split; [intros [= <-]; simpl; split; [done|lia]|]. by intros [-> _].
Qed.

#[export] Instance dns_laws : TlsLaws DnsName.
Proof.
  refine {| tls_valid := dns_ok; tls_depth := 0 |}.
  - done.
  - intros x. apply appends_write_opaque_u8.
  - intros [b] bs Hv Hw. apply writes_opaque_u8 in Hw as [Hb ->].
    rewrite <- (app_nil_r (_ ++ b)). eapply parses_bind; [by apply parses_read_opaque_u8|].
    apply parses_position. intros p. rewrite (proj2 (DnsName_new_Ok b (MkDnsName b))) by done.
    apply parses_lift.
  - eapply consumes_bind; [apply consumes_read_opaque_u8|]. intros b bs1 [Hb ->].
    apply consumes_position. intros p. eapply consumes_weaken; [apply consumes_lift|].
    intros n bs [Hn ->]. unfold map_err in Hn.
    destruct (DnsName_new b) as [n'|] eqn:E; simplify_eq.
    apply DnsName_new_Ok in E as [-> Hok]. split; [done|]. rewrite app_nil_r.
    by apply writes_opaque_u8.
Defined.

#[export] Instance dns_non_empty : TlsNonEmpty DnsName.
Proof. intros [b] Hw. apply writes_opaque_u8 in Hw as [_ Hw]. simpl in Hw. by destruct b. Qed.

(** ** [Claim] *)

Definition claim_ok (c : Claim) : Prop :=
  match c with
  | Dns names | DnsWildcard names => names <> [] /\ Forall dns_ok names
  | Ipv4 addresses => addresses <> []
  | Ipv6 addresses => addresses <> []
  end.

Lemma ClaimType_from_to t : ClaimType_from_code (ClaimType_code t) = Some t.
Proof. by destruct t. Qed.

Lemma ClaimType_to_from code t : ClaimType_from_code code = Some t -> code = ClaimType_code t.
Proof.
  unfold ClaimType_from_code. intros E.
  repeat match type of E with context [match ?x with _ => _ end] => destruct x; simplify_eq; try done end.
Qed.

Lemma ClaimType_code_u16 t : in_u16 (ClaimType_code t).
Proof. by destruct t; split. Qed.

Section NonEmptyVectors.
Context `{TlsLaws T} `{!TlsNonEmpty T}.

Lemma parses_non_empty_vector (items : list T) bs :
  items <> [] -> Forall tls_valid items -> writes (write_vector_u16 items) bs ->
  parses (let! raw := read_vector_u16 in non_empty_wire raw) bs items (tls_depth + 1).
Proof.
  intros Hne Hv Hw. rewrite <- (app_nil_r bs).
  eapply parses_bind; [by apply parses_read_vector_u16|].
  apply parses_position. intros p. destruct items; [done|].
  eapply parses_weaken; [apply parses_ret|]. pose proof (tls_depth_nonneg (T := T)). lia.
Qed.

Lemma consumes_non_empty_vector :
  consumes (let! raw := read_vector_u16 in non_empty_wire raw) (fun (items : list T) bs =>
    items <> [] /\ Forall tls_valid items /\ writes (write_vector_u16 items) bs).
Proof.
  eapply consumes_bind; [apply consumes_read_vector_u16|]. intros items bs [Hv Hw].
  apply consumes_position. intros p. destruct items as [|x items]; [apply consumes_throw|].
  eapply consumes_weaken; [apply consumes_ret|]. intros y ? [-> ->].
  rewrite app_nil_r. done.
Qed.
End NonEmptyVectors.

Lemma Forall_valid_array n (l : list (array n)) : Forall tls_valid l.
Proof. by induction l; constructor. Qed.

Lemma parses_claim_info c bs :
  claim_ok c -> writes (claim_info_writer c) bs -> parses (parse_claim_info (claim_type c)) bs c 1.
Proof.
  intros Hc Hw. destruct c as [ns|ns|l|l]; cbn [claim_type parse_claim_info];
    (eapply parses_map; [done| |reflexivity]).
  - destruct Hc as [Hne Hok]. exact (parses_non_empty_vector (T := DnsName) ns bs Hne Hok Hw).
  - destruct Hc as [Hne Hok]. exact (parses_non_empty_vector (T := DnsName) ns bs Hne Hok Hw).
  - exact (parses_non_empty_vector (T := array 4) l bs Hc (Forall_valid_array 4 l) Hw).
  - exact (parses_non_empty_vector (T := array 16) l bs Hc (Forall_valid_array 16 l) Hw).
Qed.

Lemma consumes_claim_info t :
  consumes (parse_claim_info t) (fun c bs =>
    claim_type c = t /\ claim_ok c /\ writes (claim_info_writer c) bs).
Proof.
  destruct t; cbn [parse_claim_info].
  - eapply consumes_map; [apply (consumes_non_empty_vector (T := DnsName))|].
    by intros x bs (? & ? & ?).
  - eapply consumes_map; [apply (consumes_non_empty_vector (T := DnsName))|].
    by intros x bs (? & ? & ?).
  - eapply consumes_map; [apply (consumes_non_empty_vector (T := array 4))|].
    by intros x bs (? & ? & ?).
  - eapply consumes_map; [apply (consumes_non_empty_vector (T := array 16))|].
    by intros x bs (? & ? & ?).
Qed.

Lemma u16_isize (bs : list byte) : in_u16 (len bs) -> len bs <= isize_max.
Proof. intros [_ Hl]. apply Z.le_trans with (2 ^ 16); [lia|done]. Qed.

(** A writer followed by an opaque string of a serialized body. *)
Lemma writes_lift_opaque_u16 (w : Writer) bs :
  writes (let! body := lift (to_vec w) in write_opaque_u16 body) bs <->
  exists body, writes w body /\ writes (write_opaque_u16 body) bs.
Proof.
  unfold writes at 1, bind, lift. destruct (to_vec w) as [body|e] eqn:E.
  - apply to_vec_writes in E. split; [by eauto|]. intros (b & Hb & Hw).
    by rewrite (writes_inj _ _ _ E Hb).
  - split; [done|]. intros (b & Hb & _). apply to_vec_writes in Hb. congruence.
Qed.

#[export] Instance claim_laws : TlsLaws Claim.
Proof.
  refine {| tls_valid := claim_ok; tls_depth := 0 |}.
  - done.
  - intros c. apply appends_bind; [apply appends_u16|apply appends_lift_bind; auto with wire].
  - intros c bs Hv Hw.
    apply writes_bind_inv in Hw as (b1 & b2 & H1 & H2 & ->); [|apply appends_lift_bind; auto with wire].
    apply writes_u16_inv in H1 as ->. apply writes_lift_opaque_u16 in H2 as (body & Hb & Hw).
    apply writes_opaque_u16 in Hw as [Hl ->].
    eapply parses_bind; [apply parses_u16; [done|apply ClaimType_code_u16]|].
    apply parses_position. intros p. rewrite ClaimType_from_to. cbn [ok_or].
    rewrite <- (app_nil_l (_ ++ body)). eapply parses_bind; [apply parses_lift|].
    rewrite <- (app_nil_r (_ ++ body)). eapply parses_bind; [by apply parses_read_opaque_u16|].
    rewrite (parse_exact_parses _ _ c 1); [apply parses_lift|by apply parses_claim_info|done|].
    by apply u16_isize.
  - eapply consumes_bind; [apply consumes_read_u16|]. intros code b1 [Hc ->].
    apply consumes_position. intros p. eapply consumes_bind; [apply consumes_lift|].
    intros t b2 [Ht ->]. destruct (ClaimType_from_code code) as [t'|] eqn:Ec; [|done].
    simpl in Ht. simplify_eq. apply ClaimType_to_from in Ec as ->.
    eapply consumes_bind; [apply consumes_read_opaque_u16|]. intros body b3 [Hb ->].
    eapply consumes_weaken; [apply consumes_lift|]. intros c bs [Hp ->].
    apply (parse_exact_consumes _ _ _ _ (consumes_claim_info t)) in Hp as (<- & Hok & Hw);
      [|by apply u16_isize].
    split; [done|]. rewrite app_nil_l, app_nil_r.
    eapply writes_bind; [apply appends_lift_bind; auto with wire|done|].
    apply writes_lift_opaque_u16. exists body. split; [done|]. by apply writes_opaque_u16.
Defined.

#[export] Instance claim_non_empty : TlsNonEmpty Claim.
Proof.
  intros c Hw. apply writes_bind_inv in Hw as (b1 & b2 & H1 & _ & E);
    [|apply appends_lift_bind; auto with wire].
  apply writes_u16_inv in H1 as ->. by destruct b2.
Qed.

(** ** Subjects *)

Lemma SubjectType_to_from code t : SubjectType_from_code code = Some t -> code = SubjectType_code t.
Proof. destruct t. by destruct code. Qed.

#[export] Instance subject_type_laws : TlsLaws SubjectType.
Proof.
  refine {| tls_valid := fun _ => True; tls_depth := 0 |}.
  - done.
  - intros t. apply appends_u16.
  - intros [] bs _ Hw. apply writes_u16_inv in Hw as ->.
    rewrite <- (app_nil_r (to_be_bytes 2 _)). eapply parses_bind; [by apply parses_u16|].
    apply parses_position. intros p. apply parses_lift.
  - eapply consumes_bind; [apply consumes_read_u16|]. intros code b1 [Hc ->].
    apply consumes_position. intros p. eapply consumes_weaken; [apply consumes_lift|].
    intros t bs [Ht ->]. destruct (SubjectType_from_code code) as [t'|] eqn:E; [|done].
    simpl in Ht. simplify_eq. apply SubjectType_to_from in E as ->. by rewrite app_nil_r.
Defined.

#[export] Instance subject_hash_laws : TlsLaws SubjectInfoHash.
Proof.
  refine {| tls_valid := fun _ => True; tls_depth := 0 |}.
  - done.
  - intros h. apply appends_write_all.
  - intros [h] bs _ Hw. apply (writes_inj _ _ (arr_list h)) in Hw as ->; [|done].
    eapply parses_map; [done|apply parses_read_array|done].
  - eapply consumes_map; [apply consumes_read_array|]. by intros h bs <-.
Defined.

Definition subject_info_ok (s : TlsSubjectInfo) : Prop :=
  in_u16 (signature_scheme s) /\ public_key s <> [].

#[export] Instance subject_info_laws : TlsLaws TlsSubjectInfo.
Proof.
  refine {| tls_valid := subject_info_ok; tls_depth := 0 |}.
  - done.
  - intros s. apply appends_bind; [apply appends_u16|auto with wire].
  - intros [n k] bs [Hn Hk] Hw.
    apply writes_bind_inv in Hw as (b1 & b2 & H1 & H2 & ->); [|auto with wire].
    apply writes_u16_inv in H1 as ->. apply writes_opaque_u16 in H2 as [Hl ->].
    eapply parses_bind; [by apply parses_u16|].
    rewrite <- (app_nil_r (_ ++ public_key _)). eapply parses_bind; [by apply parses_read_opaque_u16|].
    apply parses_position. intros p. destruct k; [done|]. apply parses_ret.
  - eapply consumes_bind; [apply consumes_read_u16|]. intros n b1 [Hn ->].
    eapply consumes_bind; [apply consumes_read_opaque_u16|]. intros k b2 [Hk ->].
    apply consumes_position. intros p. destruct k as [|x k]; [apply consumes_throw|].
    eapply consumes_weaken; [apply consumes_ret|]. intros s bs [-> ->]. split; [done|].
    rewrite app_nil_r. writes_step; [done|]. by apply writes_opaque_u16.
Defined.

(** ** Entries *)

Definition tbs_ok (e : TbsCertificateLogEntry) : Prop := Forall claim_ok (claims e).

#[export] Instance tbs_laws : TlsLaws TbsCertificateLogEntry.
Proof.
  refine {| tls_valid := tbs_ok; tls_depth := 1 |}.
  - done.
  - intros e. repeat (apply appends_bind; [apply tls_append|]). auto with wire.
  - intros [t h cs] bs Hv Hw.
    apply writes_bind_inv in Hw as (b1 & b2 & H1 & Hw & ->);
      [|apply appends_bind; [apply tls_append|auto with wire]].
    apply writes_bind_inv in Hw as (b3 & b4 & H3 & H4 & ->); [|auto with wire].
    eapply parses_bind; [eapply parses_weaken; [by apply (tls_roundtrip t)|done]|].
    eapply parses_bind; [eapply parses_weaken; [by apply (tls_roundtrip h)|done]|].
    eapply parses_map; [done| |reflexivity].
    exact (parses_read_vector_u16 (T := Claim) cs b4 Hv H4).
  - eapply consumes_bind; [apply tls_canonical|]. intros t b1 [_ H1].
    eapply consumes_bind; [apply tls_canonical|]. intros h b2 [_ H2].
    eapply consumes_map; [apply (consumes_read_vector_u16 (T := Claim))|]. intros cs b3 [Hv H3].
    split; [done|].
    eapply writes_bind; [apply appends_bind; [apply tls_append|auto with wire]|done|].
    by writes_step.
Defined.

Definition entry_ok (e : LogEntry) : Prop :=
  match e with Null => True | Certificate entry => tbs_ok entry end.

#[export] Instance log_entry_laws : TlsLaws LogEntry.
Proof.
  refine {| tls_valid := entry_ok; tls_depth := 1 |}.
  - done.
  - intros [|e]; [apply appends_u16|]. apply appends_bind; [apply appends_u16|apply tls_append].
  - intros [|e] bs Hv Hw.
    + apply writes_u16_inv in Hw as ->. rewrite <- (app_nil_r (to_be_bytes 2 _)).
      eapply parses_bind; [by apply parses_u16|]. simpl.
      eapply parses_weaken; [apply parses_ret|done].
    + apply writes_bind_inv in Hw as (b1 & b2 & H1 & H2 & ->); [|apply tls_append].
      apply writes_u16_inv in H1 as ->. eapply parses_bind; [by apply parses_u16|]. simpl.
      eapply parses_map; [done|exact (tls_roundtrip e b2 Hv H2)|done].
  - eapply consumes_bind; [apply consumes_read_u16|]. intros n b1 [Hn ->].
    destruct (Z.eqb_spec n NULL_ENTRY_TYPE) as [->|].
    { eapply consumes_weaken; [apply consumes_ret|]. intros e bs [-> ->]. by rewrite app_nil_r. }
    destruct (Z.eqb_spec n TBS_CERT_ENTRY_TYPE) as [->|].
    + eapply consumes_map; [apply tls_canonical|]. intros e bs [Hv Hw]. split; [done|].
      eapply writes_bind; [apply tls_append|done|done].
    + apply consumes_position. intros p. apply consumes_throw.
Defined.

(** The leaf hash of an entry, from its encoding. *)
Lemma entry_leaf_hash_Ok {H : Hasher} e h :
  entry_leaf_hash e = Ok h <-> exists bs, tls_serialize_to_vec e = Ok bs /\ h = hash_leaf bs.
Proof.
  unfold entry_leaf_hash, leaf_bytes. destruct (tls_serialize_to_vec e) as [bs|]; simpl.
  - split; [intros [= <-]; eauto|]. by intros (? & [= <-] & ->).
  - split; [done|]. by intros (? & ? & _).
Qed.

(** ** The properties *)

(** C18. Log entries on the wire: bytes parse to an entry, nothing left over, exactly if the entry
    satisfies its constructors' floors and serializes to these bytes. Entries, their certificate
    bodies and every claim in them round-trip, and no entry has two encodings. *)
Theorem log_entry_wire (bs : list byte) (e : LogEntry) :
  len bs <= isize_max ->
  tls_parse_exact bs = Ok e <-> entry_ok e /\ tls_serialize_to_vec e = Ok bs.
Proof. intros Hl. by apply (tls_exact_iff (H := log_entry_laws)). Qed.

(** An entry for the name [a] and the address 1.2.3.4. *)
Definition sample_entry : LogEntry :=
  Certificate (MkTbs Tls (from_hash (zero_array 32))
    [Dns [MkDnsName [x61]]; Ipv4 [be_array 4 16909060]]).
Definition sample_bytes : list byte :=
  unwrap_or [] (tls_serialize_to_vec sample_entry).

Lemma log_entry_wire_witness : tls_parse_exact sample_bytes = Ok sample_entry.
Proof.
  apply log_entry_wire; [by vm_compute|]. split; [|by vm_compute].
  repeat constructor; vm_compute; intuition discriminate.
Defined.

(** The leaf hash binds the entry: two well-formed entries with one leaf hash are the same
    entry, unless the two leaf inputs hashed collide. *)
Theorem leaf_hash_binding {H : Hasher} (e e' : LogEntry) (h : HashOutput) (bs bs' : list byte) :
  entry_ok e -> entry_ok e' ->
  tls_serialize_to_vec e = Ok bs -> tls_serialize_to_vec e' = Ok bs' ->
  len bs <= isize_max -> entry_leaf_hash e = Ok h -> entry_leaf_hash e' = Ok h ->
  e = e' \/ collision_in [leaf_input bs; leaf_input bs'].
Proof.
  intros He He' Hs Hs' Hl (b & Hb & ->)%entry_leaf_hash_Ok (b' & Hb' & Heq)%entry_leaf_hash_Ok.
  assert (b = bs) as -> by congruence. assert (b' = bs') as -> by congruence.
  apply hash_leaf_inj in Heq as [->|]; [left|by right].
  by apply (tls_serialize_inj (H := log_entry_laws) bs').
Qed.

Lemma leaf_hash_binding_witness :
  sample_entry = sample_entry \/
  collision_in (H := ToyHasher) [leaf_input sample_bytes; leaf_input sample_bytes].
Proof.
  apply (leaf_hash_binding (H := ToyHasher) sample_entry sample_entry
           (hash_leaf (H := ToyHasher) sample_bytes) sample_bytes sample_bytes);
    try (by vm_compute); repeat constructor; vm_compute; intuition discriminate.
Defined.
