(* ===== verification/Signing.v ===== *)
(** * Signatures: [crates/mtc/src/signing/]

    The registry of algorithms, the opaque signature and key types and the [SignatureScheme]
    trait ([mod.rs]), and its ECDSA P-256 implementation over the [p256] crate
    ([ecdsa_p256.rs]), which is a parameter. *)

From S2P Require Import Prelude.

Local Open Scope Z_scope.
Local Open Scope mtc_scope.

(** ** Algorithms *)

Inductive SignatureAlgorithm : Type :=
| EcdsaP256Sha256
| EcdsaP384Sha384
| Ed25519
| MlDsa44
| MlDsa65
| MlDsa87.

#[export] Instance SignatureAlgorithm_eq_dec : EqDecision SignatureAlgorithm.
Proof. solve_decision. Defined.

Definition algorithm_code (a : SignatureAlgorithm) : Z :=
  match a with
  | EcdsaP256Sha256 => 1027
  | EcdsaP384Sha384 => 1283
  | Ed25519 => 2055
  | MlDsa44 => 2308
  | MlDsa65 => 2309
  | MlDsa87 => 2310
  end.

Inductive UnknownAlgorithm : Type := MkUnknownAlgorithm (code : Z).

Definition algorithm_from_code (code : Z) : result SignatureAlgorithm UnknownAlgorithm :=
  if code =? 1027 then Ok EcdsaP256Sha256
  else if code =? 1283 then Ok EcdsaP384Sha384
  else if code =? 2055 then Ok Ed25519
  else if code =? 2308 then Ok MlDsa44
  else if code =? 2309 then Ok MlDsa65
  else if code =? 2310 then Ok MlDsa87
  else Err (MkUnknownAlgorithm code).

Definition algorithm_name (a : SignatureAlgorithm) : string :=
  match a with
  | EcdsaP256Sha256 => "ecdsa_secp256r1_sha256"
  | EcdsaP384Sha384 => "ecdsa_secp384r1_sha384"
  | Ed25519 => "ed25519"
  | MlDsa44 => "mldsa44"
  | MlDsa65 => "mldsa65"
  | MlDsa87 => "mldsa87"
  end.

(** ** Signatures and keys *)

Record Signature : Type := Signature_from_bytes { sig_bytes : list byte }.

Record VerifyingKey : Type := from_spki_der {
  vk_algorithm : SignatureAlgorithm;
  spki_der : list byte
}.

Record SigningKey : Type := from_validated_secret {
  sk_algorithm : SignatureAlgorithm;
  secret_bytes : list byte
}.

Inductive KeyRejected : Type :=
| WrongLength (expected actual : Z)
| Invalid (algorithm : SignatureAlgorithm)
| KeyAlgorithmMismatch (expected actual : SignatureAlgorithm).

Inductive SignError : Type := SignKey (rejected : KeyRejected).

Inductive VerifyError : Type :=
| AlgorithmMismatch (expected actual : SignatureAlgorithm)
| MalformedKey
| MalformedSignature
| BadSignature.

(** ** The [SignatureScheme] trait *)

Class SignatureScheme : Type := {
  scheme_algorithm : SignatureAlgorithm;
  scheme_sign : SigningKey -> list byte -> result Signature SignError;
  scheme_verify : VerifyingKey -> list byte -> Signature -> result unit VerifyError
}.

(** What a scheme promises for a key pair: whatever it signs, it accepts. *)
Class KeyPair (scheme : SignatureScheme) (sk : SigningKey) (vk : VerifyingKey) : Prop :=
  sign_then_verify : forall message signature,
    scheme_sign sk message = Ok signature -> scheme_verify vk message signature = Ok tt.

(** ** ECDSA P-256 ([ecdsa_p256.rs]) *)

(** The [p256] crate: keys, signatures and their encodings. Not part of the repository. *)
Record P256 : Type := MkP256 {
  P256SigningKey : Type;
  P256VerifyingKey : Type;
  P256Signature : Type;
  sk_from_slice : list byte -> option P256SigningKey;
  sk_to_bytes : P256SigningKey -> list byte;
  verifying_key : P256SigningKey -> P256VerifyingKey;
  from_sec1_bytes : list byte -> option P256VerifyingKey;
  from_public_key_der : list byte -> option P256VerifyingKey;
  to_public_key_der : P256VerifyingKey -> option (list byte);
  try_sign : P256SigningKey -> list byte -> option P256Signature;
  sig_to_bytes : P256Signature -> list byte;
  sig_from_slice : list byte -> option P256Signature;
  p256_verify : P256VerifyingKey -> list byte -> P256Signature -> bool
}.

(** Its documented behaviour: encodings round-trip, a signature is 64 bytes, and a signature
    made with a key verifies under the key's verifying key. *)
Record P256_documented (p : P256) : Prop := {
  sk_roundtrip : forall k, sk_from_slice p (sk_to_bytes p k) = Some k;
  der_roundtrip : forall v der, to_public_key_der p v = Some der -> from_public_key_der p der = Some v;
  sig_length : forall s, len (sig_to_bytes p s) = 64;
  sig_roundtrip : forall s, sig_from_slice p (sig_to_bytes p s) = Some s;
  sign_verifies : forall k m s, try_sign p k m = Some s -> p256_verify p (verifying_key p k) m s = true
}.

Definition ALGORITHM : SignatureAlgorithm := EcdsaP256Sha256.
Definition SCALAR_LEN : Z := 32.
Definition P1363_LEN : Z := 2 * SCALAR_LEN.

Section EcdsaP256.
Context (p : P256).

Definition signing_key_from_bytes (bytes : list byte) : result SigningKey KeyRejected :=
  if negb (len bytes =? SCALAR_LEN) then Err (WrongLength SCALAR_LEN (len bytes))
  else
    let? key := ok_or (sk_from_slice p bytes) (Invalid ALGORITHM) in
    Ok (from_validated_secret ALGORITHM (sk_to_bytes p key)).

Definition to_domain_verifying_key (key : P256VerifyingKey p) : VerifyingKey :=
  match to_public_key_der p key with
  | None => from_spki_der ALGORITHM []
  | Some der => from_spki_der ALGORITHM der
  end.

Definition verifying_key_from_sec1 (sec1 : list byte) : result VerifyingKey KeyRejected :=
  let? key := ok_or (from_sec1_bytes p sec1) (Invalid ALGORITHM) in
  Ok (to_domain_verifying_key key).

(** [generate_keypair], for the key the random source yields. *)
Definition generate_keypair (signing : P256SigningKey p) : SigningKey * VerifyingKey :=
  let verifying := to_domain_verifying_key (verifying_key p signing) in
  let signing_key := from_validated_secret ALGORITHM (sk_to_bytes p signing) in
  (signing_key, verifying).

Definition parse_verifying_key (key : VerifyingKey) : result (P256VerifyingKey p) VerifyError :=
  if negb (bool_decide (vk_algorithm key = ALGORITHM))
  then Err (AlgorithmMismatch ALGORITHM (vk_algorithm key))
  else ok_or (from_public_key_der p (spki_der key)) MalformedKey.

Definition ecdsa_sign (key : SigningKey) (message : list byte) : result Signature SignError :=
  if negb (bool_decide (sk_algorithm key = ALGORITHM))
  then Err (SignKey (KeyAlgorithmMismatch ALGORITHM (sk_algorithm key)))
  else
    let? signing := ok_or (sk_from_slice p (secret_bytes key)) (SignKey (Invalid ALGORITHM)) in
    let? signature := ok_or (try_sign p signing message) (SignKey (Invalid ALGORITHM)) in
    Ok (Signature_from_bytes (sig_to_bytes p signature)).

Definition ecdsa_verify (key : VerifyingKey) (message : list byte) (signature : Signature) :
    result unit VerifyError :=
  let? verifying := parse_verifying_key key in
  if negb (len (sig_bytes signature) =? P1363_LEN) then Err MalformedSignature
  else
    let? parsed := ok_or (sig_from_slice p (sig_bytes signature)) MalformedSignature in
    if p256_verify p verifying message parsed then Ok tt else Err BadSignature.

#[export] Instance EcdsaP256 : SignatureScheme := {|
  scheme_algorithm := ALGORITHM;
  scheme_sign := ecdsa_sign;
  scheme_verify := ecdsa_verify
|}.
End EcdsaP256.

(** [scheme_for]: v1 supports one algorithm. *)
Inductive UnsupportedAlgorithm : Type := MkUnsupported (algorithm : SignatureAlgorithm).

Definition scheme_for (p : P256) (a : SignatureAlgorithm) :
    result SignatureScheme UnsupportedAlgorithm :=
  match a with
  | EcdsaP256Sha256 => Ok (EcdsaP256 p)
  | other => Err (MkUnsupported other)
  end.

(** ** A key pair of the implementation *)

Section KeyPairs.
Context (p : P256) (Hp : P256_documented p).

Lemma generated_key_pair k :
  is_Some (to_public_key_der p (verifying_key p k)) ->
  KeyPair (EcdsaP256 p) (fst (generate_keypair p k)) (snd (generate_keypair p k)).
Proof.
  intros [der Hd] message signature. simpl. unfold ecdsa_sign, ecdsa_verify, parse_verifying_key,
    to_domain_verifying_key. rewrite Hd. cbn [sk_algorithm secret_bytes vk_algorithm spki_der].
  rewrite bool_decide_true by done. cbn [negb]. rewrite (sk_roundtrip p Hp). cbn [ok_or].
  destruct (try_sign p k message) as [s|] eqn:Es; [|done]. cbn [ok_or]. intros [= <-].
  rewrite (der_roundtrip p Hp _ _ Hd). cbn [ok_or sig_bytes].
  rewrite (sig_length p Hp). change (64 =? P1363_LEN) with true. cbn [negb].
  rewrite (sig_roundtrip p Hp). cbn [ok_or]. by rewrite (sign_verifies p Hp _ _ _ Es).
Qed.
End KeyPairs.

(** ** A concrete instance

    A stand-in for the [p256] crate, to evaluate the definitions on examples: a key is a 32-byte
    string, its own public key, and a signature repeats it twice. *)
Definition toy_p256 : P256 := {|
  P256SigningKey := array 32;
  P256VerifyingKey := array 32;
  P256Signature := array 64;
  sk_from_slice := array_of 32;
  sk_to_bytes := arr_list;
  verifying_key := fun k => k;
  from_sec1_bytes := array_of 32;
  from_public_key_der := array_of 32;
  to_public_key_der := fun k => Some (arr_list k);
  try_sign := fun k _ => array_of 64 (arr_list k ++ arr_list k);
  sig_to_bytes := arr_list;
  sig_from_slice := array_of 64;
  p256_verify := fun k _ s => bool_decide (arr_list s = arr_list k ++ arr_list k)
|}.

Lemma toy_p256_documented : P256_documented toy_p256.
Proof.
  split; simpl.
  - intros k. apply array_of_list.
  - intros v der [= <-]. apply array_of_list.
  - intros s. unfold len. by rewrite array_length.
  - intros s. apply array_of_list.
  - intros k m s Hs. apply array_of_Some in Hs. by apply bool_decide_true.
Qed.

Definition toy_keys : SigningKey * VerifyingKey := generate_keypair toy_p256 (zero_array 32).

Lemma toy_key_pair : KeyPair (EcdsaP256 toy_p256) (fst toy_keys) (snd toy_keys).
Proof. apply generated_key_pair; [apply toy_p256_documented|by eexists]. Qed.

(** ** Algorithm codes *)

Lemma algorithm_code_roundtrip a : algorithm_from_code (algorithm_code a) = Ok a.
Proof. by destruct a. Qed.

Lemma algorithm_from_code_inv code a : algorithm_from_code code = Ok a -> code = algorithm_code a.
Proof.
  unfold algorithm_from_code.
  repeat match goal with
         | |- context [if ?c =? ?n then _ else _] =>
             destruct (Z.eqb_spec c n) as [->|]; [by intros [= <-]|]
         end. done.
Qed.
