(* ===== verification/Checkpoint.v ===== *)
(** * Checkpoints: [crates/mtc/src/checkpoint/]

    The signed payload [MTCSubtreeSignatureInput] ([signature_input.rs]), the two type-states of
    a checkpoint with signing and verification over a [SignatureScheme], its wire form and its
    parser ([mod.rs]), and the type-state builder ([builder.rs]). *)

From S2P Require Import Prelude Types Wire Signing.

Local Open Scope Z_scope.
Local Open Scope mtc_scope.

(** ** The signed payload ([signature_input.rs]) *)

(** [*b"mtc-subtree/v1\n\0"]. *)
Definition SUBTREE_SIGNATURE_LABEL : list byte :=
  [x6d; x74; x63; x2d; x73; x75; x62; x74; x72; x65; x65; x2f; x76; x31; x0a; x00].

Record TrustAnchorIdError : Type := MkTrustAnchorIdError { tai_actual : Z }.

Definition trust_anchor_id_len_byte (id : list byte) : result Z TrustAnchorIdError :=
  match id with
  | [] => Err (MkTrustAnchorIdError 0)
  | _ => ok_or (try_from_uint 8 (len id)) (MkTrustAnchorIdError (len id))
  end.

Definition write_trust_anchor_id (id : list byte) : Writer :=
  let! n := lift (map_err (fun e => InvalidTrustAnchorId (tai_actual e))
                          (trust_anchor_id_len_byte id)) in
  do! write_bytes (to_be_bytes 1 n);
  write_bytes id.

Definition subtree_signature_input (cosigner_id log_id : list byte) (start end_ : Z)
    (hash : HashOutput) : result (list byte) TrustAnchorIdError :=
  let? cosigner_len := trust_anchor_id_len_byte cosigner_id in
  let? log_len := trust_anchor_id_len_byte log_id in
  Ok (SUBTREE_SIGNATURE_LABEL ++
      to_be_bytes 1 cosigner_len ++ cosigner_id ++
      to_be_bytes 1 log_len ++ log_id ++
      to_be_bytes 8 start ++ to_be_bytes 8 end_ ++ as_bytes hash).

(** ** The checkpoint ([mod.rs]) *)

Inductive Unsigned : Type := MkUnsigned.
Record Signed : Type := MkSigned { state_signature : Signature }.

Record Checkpoint (State : Type) : Type := MkCheckpoint {
  log_id : LogId;
  tree_size : TreeSize;
  root_hash : HashOutput;
  signed_at : Z;
  state : State
}.
Arguments MkCheckpoint {State}.
Arguments log_id {State}.
Arguments tree_size {State}.
Arguments root_hash {State}.
Arguments signed_at {State}.
Arguments state {State}.

Definition signature (c : Checkpoint Signed) : Signature := state_signature (state c).

Definition signature_input {State} (c : Checkpoint State) : result (list byte) TrustAnchorIdError :=
  let id := as_str (log_id c) in
  subtree_signature_input id id 0 (tree_size c) (root_hash c).

Inductive CheckpointSignError : Type :=
| SignInput (e : TrustAnchorIdError)
| Sign (e : SignError).

Inductive CheckpointVerifyError : Type :=
| VerifyInput (e : TrustAnchorIdError)
| Verify (e : VerifyError).

Definition sign `{SignatureScheme} (c : Checkpoint Unsigned) (key : SigningKey) :
    result (Checkpoint Signed) CheckpointSignError :=
  let? input := map_err SignInput (signature_input c) in
  let? signature := map_err Sign (scheme_sign key input) in
  Ok (MkCheckpoint (log_id c) (tree_size c) (root_hash c) (signed_at c) (MkSigned signature)).

Definition verify `{SignatureScheme} (c : Checkpoint Signed) (key : VerifyingKey) :
    result unit CheckpointVerifyError :=
  let? input := map_err VerifyInput (signature_input c) in
  map_err Verify (scheme_verify key input (signature c)).

(** ** Wire form *)

Definition write_u64 (value : Z) : Writer := write_bytes (to_be_bytes 8 value).

Definition read_u64 : Reader Z :=
  let! a := read_array 8 in ret (from_be_bytes (arr_list a)).

#[export] Instance checkpoint_serialize : TlsSerialize (Checkpoint Signed) := fun c =>
  do! write_trust_anchor_id (as_str (log_id c));
  do! write_u64 (tree_size c);
  do! write_bytes (as_bytes (root_hash c));
  do! write_u64 (signed_at c);
  write_opaque_u16 (sig_bytes (state_signature (state c))).

Definition serialize_tls_presentation (c : Checkpoint Signed) : result (list byte) io_error :=
  tls_serialize_to_vec c.

Inductive CheckpointParseError : Type :=
| ParseWire (e : WireError)
| TrustAnchorIdEmpty (offset : Z)
| LogIdNotUtf8 (offset : Z).

(** [?] on a [WireError]. *)
Definition wire {A} (p : Reader A) : M TlsReader CheckpointParseError A := map_error ParseWire p.

Definition read_log_id : M TlsReader CheckpointParseError LogId :=
  let! offset := get_position in
  let! bytes := wire read_opaque_u8 in
  match bytes with
  | [] => throw (TrustAnchorIdEmpty offset)
  | _ =>
      let! text := lift (ok_or (from_utf8 bytes) (LogIdNotUtf8 offset)) in
      lift (map_err (fun _ => TrustAnchorIdEmpty offset) (Id_new text))
  end.

Definition parse_from : M TlsReader CheckpointParseError (Checkpoint Signed) :=
  let! id := read_log_id in
  let! size := wire read_u64 in
  let! root := wire (read_array HashOutput_LEN) in
  let! at_ := wire read_u64 in
  let! sig := wire read_opaque_u16 in
  ret (MkCheckpoint id size root at_ (MkSigned (Signature_from_bytes sig))).

Definition parse_tls_presentation (bytes : list byte) :
    result (Checkpoint Signed) CheckpointParseError :=
  let reader := TlsReader_new bytes in
  match parse_from reader with
  | (Err e, _) => Err e
  | (Ok checkpoint, reader') => let? _u := map_err ParseWire (finish reader') in Ok checkpoint
  end.

(** ** The builder ([builder.rs]) *)

Inductive NoRootHash : Type := MkNoRootHash.
Record WithRootHash : Type := MkWithRootHash { the_root_hash : HashOutput }.
Inductive NoTreeSize : Type := MkNoTreeSize.
Record WithTreeSize : Type := MkWithTreeSize { the_tree_size : TreeSize }.
Inductive NoSignedAt : Type := MkNoSignedAt.
Record WithSignedAt : Type := MkWithSignedAt { the_signed_at : Z }.

Record CheckpointBuilder (R T S : Type) : Type := MkCheckpointBuilder {
  cb_log_id : LogId;
  cb_root_hash : R;
  cb_tree_size : T;
  cb_signed_at : S
}.
Arguments MkCheckpointBuilder {R T S}.
Arguments cb_log_id {R T S}.
Arguments cb_root_hash {R T S}.
Arguments cb_tree_size {R T S}.
Arguments cb_signed_at {R T S}.

Definition builder_new (id : LogId) : CheckpointBuilder NoRootHash NoTreeSize NoSignedAt :=
  MkCheckpointBuilder id MkNoRootHash MkNoTreeSize MkNoSignedAt.
Definition builder_root_hash {T S} (b : CheckpointBuilder NoRootHash T S) (h : HashOutput) :
    CheckpointBuilder WithRootHash T S :=
  MkCheckpointBuilder (cb_log_id b) (MkWithRootHash h) (cb_tree_size b) (cb_signed_at b).
Definition builder_tree_size {R S} (b : CheckpointBuilder R NoTreeSize S) (n : TreeSize) :
    CheckpointBuilder R WithTreeSize S :=
  MkCheckpointBuilder (cb_log_id b) (cb_root_hash b) (MkWithTreeSize n) (cb_signed_at b).
Definition builder_signed_at {R T} (b : CheckpointBuilder R T NoSignedAt) (t : Z) :
    CheckpointBuilder R T WithSignedAt :=
  MkCheckpointBuilder (cb_log_id b) (cb_root_hash b) (cb_tree_size b) (MkWithSignedAt t).
Definition build (b : CheckpointBuilder WithRootHash WithTreeSize WithSignedAt) :
    Checkpoint Unsigned :=
  MkCheckpoint (cb_log_id b) (the_tree_size (cb_tree_size b)) (the_root_hash (cb_root_hash b))
    (the_signed_at (cb_signed_at b)) MkUnsigned.
