(* ===== verification/CheckpointFacts.v ===== *)
(** * Correctness of checkpoints

    The signed payload determines what is committed to, signing is accepted by verification for
    every key pair of every scheme, and the wire form is canonical. *)

From S2P Require Import Prelude Types Wire WireLaws LogEntryFacts Signing Checkpoint.

Local Open Scope Z_scope.
Local Open Scope mtc_scope.

(** ** Trust-anchor identifiers *)

Lemma trust_anchor_id_len_byte_Ok id n :
  trust_anchor_id_len_byte id = Ok n <-> n = len id /\ 1 <= len id <= 255.
Proof.
  unfold trust_anchor_id_len_byte. destruct id as [|b id].
  - split; [done|]. intros [_ H]. change (@len byte []) with 0 in H. lia.
  - assert (1 <= len (b :: id)) by (rewrite len_cons; pose proof (len_nonneg id); lia).
    unfold try_from_uint. change (2 ^ 8) with 256.
    destruct (Z.leb_spec 0 (len (b :: id))); [|lia].
    destruct (Z.ltb_spec (len (b :: id)) 256); cbn [andb ok_or].
    + split; [intros [= <-]; split; [done|lia]|]. by intros [-> _].
    + split; [done|lia].
Qed.

Lemma trust_anchor_id_len_byte_dec id :
  trust_anchor_id_len_byte id =
    if ((1 <=? len id) && (len id <=? 255))%bool then Ok (len id) else Err (MkTrustAnchorIdError (len id)).
Proof.
  destruct (Z.leb_spec 1 (len id)) as [H1|H1]; [destruct (Z.leb_spec (len id) 255) as [H2|H2]|]; cbn [andb].
  - apply trust_anchor_id_len_byte_Ok. done.
  - unfold trust_anchor_id_len_byte. destruct id as [|b id]; [done|]. unfold try_from_uint.
    rewrite (proj2 (Z.ltb_ge _ (2 ^ 8))) by (change (2 ^ 8) with 256; lia). by rewrite andb_false_r.
  - destruct id as [|b id]; [done|]. rewrite len_cons in H1. pose proof (len_nonneg id). lia.
Qed.

Lemma byte_of_small n : 0 <= n <= 255 -> to_be_bytes 1 n = [byte_of_Z n].
Proof. done. Qed.

(** Two length-prefixed strings with equal continuations are equal. *)
Lemma prefixed_inj (a b ra rb : list byte) :
  len a <= 255 -> len b <= 255 ->
  to_be_bytes 1 (len a) ++ a ++ ra = to_be_bytes 1 (len b) ++ b ++ rb -> a = b /\ ra = rb.
Proof.
  intros Ha Hb E. pose proof (len_nonneg a). pose proof (len_nonneg b).
  apply app_inj_1 in E as [El E]; [|by rewrite !length_to_be_bytes].
  apply to_be_bytes_inj in El; [|change (256 ^ Z.of_nat 1) with 256; lia..].
  apply app_inj_1 in E; [done|]. unfold len in El. lia.
Qed.

Lemma subtree_signature_input_inj c l s e h c' l' s' e' h' m :
  in_u64 s -> in_u64 e -> in_u64 s' -> in_u64 e' ->
  subtree_signature_input c l s e h = Ok m -> subtree_signature_input c' l' s' e' h' = Ok m ->
  c = c' /\ l = l' /\ s = s' /\ e = e' /\ h = h'.
Proof.
  intros Hs He Hs' He'. unfold subtree_signature_input.
  destruct (trust_anchor_id_len_byte c) as [nc|] eqn:Ec; [|done].
  destruct (trust_anchor_id_len_byte l) as [nl|] eqn:El; [|done]. intros E0.
  destruct (trust_anchor_id_len_byte c') as [nc'|] eqn:Ec'; [|done].
  destruct (trust_anchor_id_len_byte l') as [nl'|] eqn:El'; [|done]. intros E.
  apply trust_anchor_id_len_byte_Ok in Ec as [-> Hc], El as [-> Hl], Ec' as [-> Hc'], El' as [-> Hl'].
  rewrite <- E0 in E. apply Ok_inj, app_inv_head in E. clear E0. symmetry in E.
  apply prefixed_inj in E as [-> E]; [|lia..]. apply prefixed_inj in E as [-> E]; [|lia..].
  apply app_inj_1 in E as [E1 E]; [|by rewrite !length_to_be_bytes].
  apply app_inj_1 in E as [E2 E]; [|by rewrite !length_to_be_bytes].
  apply to_be_bytes_inj in E1; [|done..]. apply to_be_bytes_inj in E2; [|done..].
  apply as_bytes_inj in E. done.
Qed.

(** ** Wire form *)

Definition checkpoint_ok (c : Checkpoint Signed) : Prop :=
  id_ok (log_id c) /\ in_u64 (tree_size c) /\ in_u64 (signed_at c).

Lemma appends_trust_anchor_id id : appends (write_trust_anchor_id id).
Proof. apply appends_lift_bind. intros n. apply appends_bind; apply appends_write_all. Qed.

Lemma appends_u64 z : appends (write_u64 z).
Proof. apply appends_write_all. Qed.
#[export] Hint Resolve appends_trust_anchor_id appends_u64 : wire.

Lemma appends_checkpoint (c : Checkpoint Signed) : appends (tls_serialize c).
Proof. unfold tls_serialize, checkpoint_serialize, write_bytes. auto 10 with wire. Qed.

Lemma writes_trust_anchor_id id bs :
  writes (write_trust_anchor_id id) bs <->
  1 <= len id <= 255 /\ bs = to_be_bytes 1 (len id) ++ id.
Proof.
  unfold write_trust_anchor_id, writes, bind, lift. rewrite trust_anchor_id_len_byte_dec.
  destruct (Z.leb_spec 1 (len id)); [destruct (Z.leb_spec (len id) 255)|];
    cbn [andb map_err]; (split; [intros H1; try done|intros [H1 H2]; try lia]).
  - split; [lia|]. by injection H1.
  - by rewrite H2.
Qed.

Lemma parses_u64 z d : 0 <= d -> in_u64 z -> parses read_u64 (to_be_bytes 8 z) z d.
Proof.
  intros Hd Hz. eapply parses_weaken; [|exact Hd]. eapply parses_map; [done|apply parses_be|].
  by apply from_to_be_bytes.
Qed.

Lemma consumes_u64 : consumes read_u64 (fun z bs => in_u64 z /\ bs = to_be_bytes 8 z).
Proof.
  eapply consumes_map; [apply consumes_be|]. intros a bs (z & Hz & -> & ->).
  change (arr_list (be_array 8 z)) with (to_be_bytes 8 z). by rewrite from_to_be_bytes.
Qed.

Lemma writes_u64 z bs : writes (write_u64 z) bs -> bs = to_be_bytes 8 z.
Proof. intros Hw. by injection Hw. Qed.

Lemma from_utf8_valid bs : utf8_valid bs = true -> from_utf8 bs = Some bs.
Proof. unfold from_utf8. by intros ->. Qed.

Lemma parses_log_id (i : LogId) :
  id_ok i -> len (as_str i) <= 255 ->
  parses read_log_id (to_be_bytes 1 (len (as_str i)) ++ as_str i) i 0.
Proof.
  intros [Hne Hu] Hl. apply parses_position. intros p.
  rewrite <- (app_nil_r (_ ++ as_str i)). eapply parses_bind.
  { apply parses_map_error, parses_read_opaque_u8. split; [apply len_nonneg|]. change (2 ^ 8) with 256. lia. }
  destruct i as [[|b s]]; [done|]. simpl as_str in *. rewrite from_utf8_valid by done. cbn [ok_or].
  rewrite <- (app_nil_l []). eapply parses_bind; [apply parses_lift|]. apply (parses_lift (MkId (b :: s))).
Qed.

Lemma consumes_log_id :
  consumes read_log_id (fun i bs => id_ok i /\ writes (write_trust_anchor_id (as_str i)) bs).
Proof.
  apply consumes_position. intros p. eapply consumes_bind; [apply consumes_map_error, consumes_read_opaque_u8|].
  intros b bs1 [Hl ->]. destruct b as [|x b]; [apply consumes_throw|].
  unfold from_utf8. destruct (utf8_valid (x :: b)) eqn:Hu; cbn [ok_or].
  - eapply consumes_bind; [apply consumes_lift|]. intros t ? [[= <-] ->].
    eapply consumes_weaken; [apply consumes_lift|]. intros i ? [[= <-] ->]. split; [done|].
    rewrite app_nil_l, app_nil_r. apply writes_trust_anchor_id.
    rewrite len_cons in *. pose proof (len_nonneg b). destruct Hl as [_ Hl].
    change (2 ^ 8) with 256 in Hl. simpl as_str. rewrite len_cons. split; [lia|done].
  - eapply consumes_bind; [apply consumes_lift|]. by intros t ? [? _].
Qed.

Lemma parses_checkpoint c bs :
  checkpoint_ok c -> writes (tls_serialize c) bs -> parses parse_from bs c 0.
Proof.
  destruct c as [i n r t [[sg]]]. intros (Hi & Hn & Ht) Hw. cbn [log_id tree_size signed_at] in *.
  apply writes_bind_inv in Hw as (b1 & w1 & H1 & Hw & ->); [|unfold write_bytes; auto 10 with wire].
  apply writes_bind_inv in Hw as (b2 & w2 & H2 & Hw & ->); [|unfold write_bytes; auto 10 with wire].
  apply writes_bind_inv in Hw as (b3 & w3 & H3 & Hw & ->); [|auto 10 with wire].
  apply writes_bind_inv in Hw as (b4 & w4 & H4 & H5 & ->); [|auto 10 with wire].
  apply writes_trust_anchor_id in H1 as [Hl ->]. apply writes_u64 in H2 as ->.
  apply (writes_inj _ _ (as_bytes r)) in H3 as ->; [|done]. apply writes_u64 in H4 as ->.
  apply writes_opaque_u16 in H5 as [Hs ->]. cbn [log_id tree_size root_hash signed_at state] in *.
  eapply parses_bind; [apply parses_log_id; [done|lia]|].
  eapply parses_bind; [by apply parses_map_error, parses_u64|].
  eapply parses_bind; [apply parses_map_error, parses_read_array|].
  eapply parses_bind; [by apply parses_map_error, parses_u64|].
  eapply parses_map; [done|by apply parses_map_error, parses_read_opaque_u16|done].
Qed.

Lemma consumes_checkpoint :
  consumes parse_from (fun c bs => checkpoint_ok c /\ writes (tls_serialize c) bs).
Proof.
  eapply consumes_bind; [apply consumes_log_id|]. intros i b1 [Hi H1].
  eapply consumes_bind; [apply consumes_map_error, consumes_u64|]. intros n b2 [Hn ->].
  eapply consumes_bind; [apply consumes_map_error, consumes_read_array|]. intros r b3 <-.
  eapply consumes_bind; [apply consumes_map_error, consumes_u64|]. intros t b4 [Ht ->].
  eapply consumes_map; [apply consumes_map_error, consumes_read_opaque_u16|]. intros sg b5 [Hs ->].
  split; [done|].
  eapply writes_bind; [unfold write_bytes; auto 10 with wire|done|].
  eapply writes_bind; [unfold write_bytes; auto 10 with wire|done|].
  eapply writes_bind; [auto 10 with wire|done|].
  eapply writes_bind; [auto with wire|done|]. by apply writes_opaque_u16.
Qed.

Lemma parse_tls_presentation_iff bs c :
  len bs <= isize_max ->
  parse_tls_presentation bs = Ok c <-> checkpoint_ok c /\ serialize_tls_presentation c = Ok bs.
Proof.
  intros Hl. unfold serialize_tls_presentation, tls_serialize_to_vec, parse_tls_presentation.
  rewrite to_vec_writes. split.
  - destruct (parse_from (TlsReader_new bs)) as [[y|e] r'] eqn:E; [|done].
    destruct (consumes_checkpoint _ _ _ (reader_ok_new _ Hl) E) as (b & HR & Hrest & ->).
    unfold finish. destruct (is_empty _) eqn:He; [|done]. intros [= <-].
    apply is_empty_rest in He; [|by eapply reader_ok_advance; [by apply reader_ok_new|]].
    rewrite He, app_nil_r, rest_new in Hrest. by rewrite Hrest.
  - intros [Hok Hw]. rewrite (parses_checkpoint c bs Hok Hw _ []);
      [|by apply reader_ok_new|by rewrite app_nil_r|done].
    unfold finish, is_empty, remaining, advance, set_pos. simpl.
    by rewrite (proj2 (Z.eqb_eq _ _)) by lia.
Qed.

(** ** Signing *)

Lemma signature_input_state {S T} (c : Checkpoint S) (c' : Checkpoint T) :
  log_id c = log_id c' -> tree_size c = tree_size c' -> root_hash c = root_hash c' ->
  signature_input c = signature_input c'.
Proof. unfold signature_input. by intros -> -> ->. Qed.

Lemma sign_Ok `{SignatureScheme} c key c' :
  sign c key = Ok c' <->
  exists m s, signature_input c = Ok m /\ scheme_sign key m = Ok s /\
    c' = MkCheckpoint (log_id c) (tree_size c) (root_hash c) (signed_at c) (MkSigned s).
Proof.
  unfold sign. split.
  - destruct (signature_input c) as [m|]; [|done]. cbn [map_err].
    destruct (scheme_sign key m) as [s|] eqn:Es; [|done]. cbn [map_err]. intros [= <-]. eauto.
  - intros (m & s & Hm & Hs & ->). rewrite Hm. cbn [map_err]. by rewrite Hs.
Qed.

Lemma sign_verify (scheme : SignatureScheme) sk vk (Hk : KeyPair scheme sk vk) c c' :
  sign c sk = Ok c' -> verify c' vk = Ok tt.
Proof.
  intros (m & s & Hm & Hs & ->)%sign_Ok. unfold verify.
  rewrite (signature_input_state _ c), Hm by done. cbn [map_err signature state state_signature].
  by rewrite (sign_then_verify m s Hs).
Qed.

(** Who can verify: exactly the scheme, on the payload. *)
Lemma verify_Ok `{SignatureScheme} c key :
  verify c key = Ok tt <->
  exists m, signature_input c = Ok m /\ scheme_verify key m (signature c) = Ok tt.
Proof.
  unfold verify. split.
  - destruct (signature_input c) as [m|]; [|done]. cbn [map_err].
    destruct (scheme_verify key m (signature c)) as [[]|] eqn:Ev; [|done]. eauto.
  - intros (m & Hm & Hv). rewrite Hm. cbn [map_err]. by rewrite Hv.
Qed.

(** ** The properties *)

(** C27. Checkpoints on the wire: [parse_tls_presentation] accepts bytes as a checkpoint exactly if
    the checkpoint is well-formed (a non-empty UTF-8 log id, [u64] numbers) and
    [serialize_tls_presentation] produces these bytes from it; an empty, oversized or
    non-UTF-8 log id, a truncation and trailing bytes are all refused. *)
Theorem checkpoint_wire (bs : list byte) (c : Checkpoint Signed) :
  len bs <= isize_max ->
  parse_tls_presentation bs = Ok c <-> checkpoint_ok c /\ serialize_tls_presentation c = Ok bs.
Proof. apply parse_tls_presentation_iff. Qed.

(** A checkpoint of the log [a] signed with the example keys. *)
Definition sample_unsigned : Checkpoint Unsigned :=
  build (builder_signed_at (builder_tree_size (builder_root_hash
    (builder_new (MkId [x61])) (zero_array 32)) 5) 1000).
Definition sample_checkpoint : Checkpoint Signed :=
  unwrap_or (MkCheckpoint (MkId []) 0 (zero_array 32) 0 (MkSigned (Signature_from_bytes [])))
    (sign (H := EcdsaP256 toy_p256) sample_unsigned (fst toy_keys)).
Definition sample_checkpoint_bytes : list byte :=
  unwrap_or [] (serialize_tls_presentation sample_checkpoint).

Lemma checkpoint_wire_witness : parse_tls_presentation sample_checkpoint_bytes = Ok sample_checkpoint.
Proof.
  apply checkpoint_wire; [by vm_compute|]. split; [|by vm_compute].
  repeat split; vm_compute; intuition discriminate.
Defined.

(** The signed payload binds the commitment: two subtree payloads with the same bytes have the
    same cosigner, log, range and hash, so one signature cannot serve two commitments and the
    length-prefixed identifiers leave no room to shift bytes between fields. *)
Theorem signature_input_binding (c l c' l' : list byte) (s e s' e' : Z) (h h' : HashOutput)
    (m : list byte) :
  in_u64 s -> in_u64 e -> in_u64 s' -> in_u64 e' ->
  subtree_signature_input c l s e h = Ok m -> subtree_signature_input c' l' s' e' h' = Ok m ->
  c = c' /\ l = l' /\ s = s' /\ e = e' /\ h = h'.
Proof. apply subtree_signature_input_inj. Qed.

Lemma signature_input_binding_witness :
  [x61] = [x61] /\ [x61] = [x61] /\ 0 = 0 /\ 5 = 5 /\ zero_array 32 = zero_array 32.
Proof.
  apply (signature_input_binding [x61] [x61] [x61] [x61] 0 5 0 5 (zero_array 32) (zero_array 32)
           (unwrap_or [] (signature_input sample_unsigned)));
    vm_compute; intuition discriminate.
Defined.

(** Signing and verification agree for every scheme and key pair: a checkpoint [sign] returns
    keeps the committed fields and verifies under the pair's verifying key, and it still does
    with any other [signed_at], which the signature does not cover. *)
Theorem checkpoint_sign_verify (scheme : SignatureScheme) (sk : SigningKey) (vk : VerifyingKey)
    (pair : KeyPair scheme sk vk) (c : Checkpoint Unsigned) (c' : Checkpoint Signed) (time : Z) :
  sign c sk = Ok c' ->
  log_id c' = log_id c /\ tree_size c' = tree_size c /\ root_hash c' = root_hash c /\
  signed_at c' = signed_at c /\ verify c' vk = Ok tt /\
  verify (MkCheckpoint (log_id c') (tree_size c') (root_hash c') time (state c')) vk = Ok tt.
Proof.
  intros Hs. pose proof (sign_verify scheme sk vk pair c c' Hs) as Hv.
  apply sign_Ok in Hs as (m & s & Hm & Hs & ->). cbn [log_id tree_size root_hash signed_at state] in *.
  split_and!; [done..|]. apply verify_Ok in Hv as (m' & Hm' & Hv). apply verify_Ok. by exists m'.
Qed.

Lemma checkpoint_sign_verify_witness :
  verify (H := EcdsaP256 toy_p256) sample_checkpoint (snd toy_keys) = Ok tt.
Proof.
  apply (checkpoint_sign_verify (EcdsaP256 toy_p256) (fst toy_keys) (snd toy_keys) toy_key_pair
           sample_unsigned sample_checkpoint 0).
  by vm_compute.
Defined.
