(* ===== verification/PruningCheckpoint.v ===== *)
(** * Pruning checkpoints: [crates/mtc/src/pruning_checkpoint.rs]

    The record that a range of the log was pruned, its validated constructor and its wire form,
    with the proof that the invariant of the constructor is exactly what the parser enforces. *)

From S2P Require Import Prelude Types Wire WireLaws Checkpoint CheckpointFacts.

Local Open Scope Z_scope.
Local Open Scope mtc_scope.

Inductive SigningKeyTag : Type := .
Definition SigningKeyId : Type := Id SigningKeyTag.

Inductive PruningCheckpointError : Type :=
| InvertedRange (start end_ : Z)
| RangeExceedsTreeSize (end_ tree_size : Z).

Definition validate_range (pruned_start pruned_end : Index) (size : TreeSize) :
    result unit PruningCheckpointError :=
  if pruned_end <? pruned_start then Err (InvertedRange pruned_start pruned_end)
  else if size <? pruned_end then Err (RangeExceedsTreeSize pruned_end size)
  else Ok tt.

Record PruningCheckpoint : Type := MkPruningCheckpoint {
  pruned_start : Index;
  pruned_end : Index;
  pc_tree_size : TreeSize;
  pruned_at : Z;
  signing_key_id : SigningKeyId
}.

Definition pruning_try_new (start end_ : Index) (size : TreeSize) (at_ : Z) (key : SigningKeyId) :
    result PruningCheckpoint PruningCheckpointError :=
  let? _u := validate_range start end_ size in
  Ok (MkPruningCheckpoint start end_ size at_ key).

(** The [u64] subtraction cannot underflow on a validated value ([pruned_len_ok]). *)
Definition pruned_len (p : PruningCheckpoint) : Z := pruned_end p - pruned_start p.

#[export] Instance pruning_serialize : TlsSerialize PruningCheckpoint := fun p =>
  do! write_u64 (pruned_start p);
  do! write_u64 (pruned_end p);
  do! write_u64 (pc_tree_size p);
  do! write_u64 (pruned_at p);
  write_opaque_u16 (as_str (signing_key_id p)).

Definition range_reason (e : PruningCheckpointError) : string :=
  match e with
  | InvertedRange _ _ => "pruned range is inverted: start > end"
  | RangeExceedsTreeSize _ _ => "pruned range end exceeds tree_size"
  end.

Definition read_signing_key_id : Reader SigningKeyId :=
  let! offset := get_position in
  let! bytes := read_opaque_u16 in
  match bytes with
  | [] => throw (InvalidValue offset "signing_key_id must be 1..=65535 bytes")
  | _ =>
      let! text := lift (ok_or (from_utf8 bytes)
                          (InvalidValue offset "signing_key_id is not valid UTF-8")) in
      lift (map_err (fun _ => InvalidValue offset "signing_key_id is not valid UTF-8")
                    (Id_new text))
  end.

#[export] Instance pruning_parse : TlsParse PruningCheckpoint :=
  let! start := read_u64 in
  let! end_ := read_u64 in
  let! size := read_u64 in
  let! range_offset := get_position in
  let! _u := lift (map_err (fun err => InvalidValue range_offset (range_reason err))
                           (validate_range start end_ size)) in
  let! at_ := read_u64 in
  let! key := read_signing_key_id in
  ret (MkPruningCheckpoint start end_ size at_ key).

(** ** The invariant *)

Definition range_ok (start end_ size : Z) : Prop := start <= end_ /\ end_ <= size.

Definition pruning_ok (p : PruningCheckpoint) : Prop :=
  in_u64 (pruned_start p) /\ in_u64 (pruned_end p) /\ in_u64 (pc_tree_size p) /\
  in_u64 (pruned_at p) /\ id_ok (signing_key_id p) /\
  range_ok (pruned_start p) (pruned_end p) (pc_tree_size p).

Lemma validate_range_Ok start end_ size :
  validate_range start end_ size = Ok tt <-> range_ok start end_ size.
Proof.
  unfold validate_range, range_ok. destruct (Z.ltb_spec end_ start); [split; [done|lia]|].
  destruct (Z.ltb_spec size end_); split; try done; lia.
Qed.

Lemma pruning_try_new_Ok start end_ size at_ key p :
  pruning_try_new start end_ size at_ key = Ok p <->
  range_ok start end_ size /\ p = MkPruningCheckpoint start end_ size at_ key.
Proof.
  unfold pruning_try_new. rewrite <- validate_range_Ok.
  destruct (validate_range start end_ size) as [[]|]; naive_solver.
Qed.

Lemma pruned_len_ok p : pruning_ok p -> in_u64 (pruned_len p).
Proof.
  intros ([Hs _] & [_ He] & _ & _ & _ & Hr & _). unfold pruned_len.
  split; [lia|]. apply Z.le_lt_trans with (pruned_end p); [lia|done].
Qed.

(** ** The codec *)

Lemma parses_key_id (i : SigningKeyId) :
  id_ok i -> in_u16 (len (as_str i)) ->
  parses read_signing_key_id (to_be_bytes 2 (len (as_str i)) ++ as_str i) i 0.
Proof.
  intros [Hne Hu] Hl. apply parses_position. intros p.
  rewrite <- (app_nil_r (_ ++ as_str i)). eapply parses_bind; [by apply parses_read_opaque_u16|].
  destruct i as [[|b s]]; [done|]. simpl as_str in *. rewrite from_utf8_valid by done. cbn [ok_or].
  rewrite <- (app_nil_l []). eapply parses_bind; [apply parses_lift|]. apply (parses_lift (MkId (b :: s))).
Qed.

Lemma consumes_key_id :
  consumes read_signing_key_id (fun i bs => id_ok i /\ writes (write_opaque_u16 (as_str i)) bs).
Proof.
  apply consumes_position. intros p. eapply consumes_bind; [apply consumes_read_opaque_u16|].
  intros b bs1 [Hl ->]. destruct b as [|x b]; [apply consumes_throw|].
  unfold from_utf8. destruct (utf8_valid (x :: b)) eqn:Hu; cbn [ok_or].
  - eapply consumes_bind; [apply consumes_lift|]. intros t ? [[= <-] ->].
    eapply consumes_weaken; [apply consumes_lift|]. intros i ? [[= <-] ->]. split; [done|].
    rewrite app_nil_l, app_nil_r. by apply writes_opaque_u16.
  - eapply consumes_bind; [apply consumes_lift|]. by intros t ? [? _].
Qed.

#[export] Instance pruning_laws : TlsLaws PruningCheckpoint.
Proof.
  refine {| tls_valid := pruning_ok; tls_depth := 0 |}.
  - done.
  - intros p. unfold tls_serialize, pruning_serialize. auto 10 with wire.
  - intros [s e n t i] bs (Hs & He & Hn & Ht & Hi & Hr) Hw. simpl in Hs, He, Hn, Ht, Hi, Hr.
    apply writes_bind_inv in Hw as (b1 & w1 & H1 & Hw & ->); [|auto 10 with wire].
    apply writes_bind_inv in Hw as (b2 & w2 & H2 & Hw & ->); [|auto 10 with wire].
    apply writes_bind_inv in Hw as (b3 & w3 & H3 & Hw & ->); [|auto 10 with wire].
    apply writes_bind_inv in Hw as (b4 & w4 & H4 & H5 & ->); [|auto 10 with wire].
    apply writes_u64 in H1 as ->. apply writes_u64 in H2 as ->. apply writes_u64 in H3 as ->.
    apply writes_u64 in H4 as ->. apply writes_opaque_u16 in H5 as [Hl ->].
    eapply parses_bind; [by apply parses_u64|]. eapply parses_bind; [by apply parses_u64|].
    eapply parses_bind; [by apply parses_u64|]. apply parses_position. intros p.
    cbn [pruned_start pruned_end pc_tree_size].
    rewrite (proj2 (validate_range_Ok s e n) Hr). cbn [map_err].
    rewrite <- (app_nil_l (to_be_bytes 8 _ ++ _)). eapply parses_bind; [apply parses_lift|].
    eapply parses_bind; [by apply parses_u64|].
    eapply parses_map; [done|by apply parses_key_id|done].
  - eapply consumes_bind; [apply consumes_u64|]. intros s b1 [Hs ->].
    eapply consumes_bind; [apply consumes_u64|]. intros e b2 [He ->].
    eapply consumes_bind; [apply consumes_u64|]. intros n b3 [Hn ->].
    apply consumes_position. intros p. eapply consumes_bind; [apply consumes_lift|].
    intros [] b4 [Hr ->]. destruct (validate_range s e n) as [[]|] eqn:Er; [|done].
    apply validate_range_Ok in Er.
    eapply consumes_bind; [apply consumes_u64|]. intros t b5 [Ht ->].
    eapply consumes_map; [apply consumes_key_id|]. intros i b6 [Hi Hw]. split; [done|].
    rewrite app_nil_l.
    eapply writes_bind; [auto 10 with wire|done|]. eapply writes_bind; [auto 10 with wire|done|].
    eapply writes_bind; [auto 10 with wire|done|]. by eapply writes_bind; [auto 10 with wire|done|].
Defined.

(** ** The property *)

(** Pruning checkpoints on the wire: bytes parse to one exactly if it satisfies the
    constructor's invariant, a pruned range inside the tree, and serializes to these bytes;
    the range can be neither inverted nor beyond the tree on either path, so its length never
    underflows. *)
Theorem pruning_wire (bs : list byte) (p : PruningCheckpoint) :
  len bs <= isize_max ->
  (tls_parse_exact bs = Ok p <-> pruning_ok p /\ tls_serialize_to_vec p = Ok bs) /\
  (tls_parse_exact bs = Ok p ->
   pruning_try_new (pruned_start p) (pruned_end p) (pc_tree_size p) (pruned_at p) (signing_key_id p)
   = Ok p /\ in_u64 (pruned_len p)).
Proof.
  intros Hl. assert (tls_parse_exact bs = Ok p <-> pruning_ok p /\ tls_serialize_to_vec p = Ok bs) as Hi
    by (by apply (tls_exact_iff (H := pruning_laws))).
  split; [done|]. intros [Hok _]%Hi. split; [|by apply pruned_len_ok].
  apply pruning_try_new_Ok. destruct p. split; [apply Hok|done].
Qed.

Definition sample_pruning : PruningCheckpoint := MkPruningCheckpoint 2 7 9 1000 (MkId [x6b]).

Lemma pruning_wire_witness :
  tls_parse_exact (unwrap_or [] (tls_serialize_to_vec sample_pruning)) = Ok sample_pruning.
Proof.
  apply (pruning_wire (unwrap_or [] (tls_serialize_to_vec sample_pruning)) sample_pruning);
    [by vm_compute|].
  split; [|by vm_compute]. repeat split; vm_compute; intuition discriminate.
Defined.
