(* ===== verification/Verify.v ===== *)
(** * End-to-end verification: [crates/mtc-verify/src/lib.rs]

    What a relying party runs: reconstruct the leaf hash of an entry, bind the inclusion proof
    to a signed checkpoint, and check the checkpoint's signature, with SHA-256 and ECDSA P-256.
    The theorems put the library's parts together. *)

From S2P Require Import Prelude Types Wire WireLaws Tree TreeFacts Proofs Inclusion InclusionFacts LogEntry LogEntryFacts Signing Checkpoint CheckpointFacts.

Local Open Scope Z_scope.
Local Open Scope mtc_scope.

Record Verified : Type := MkVerified {
  v_log_id : LogId;
  v_tree_size : TreeSize;
  v_leaf_index : Index;
  v_root_hash : HashOutput
}.

Inductive VerifyError : Type :=
| MalformedEntry
| SizeMismatch (proof_tree_size checkpoint_tree_size : Z)
| IndexOutOfRange (index tree_size : Z)
| MalformedProof (expected actual : Z)
| WrongRoot
| BadSignature.

Definition reason (e : VerifyError) : string :=
  match e with
  | MalformedEntry => "malformed_entry"
  | SizeMismatch _ _ => "size_mismatch"
  | IndexOutOfRange _ _ => "index_out_of_range"
  | MalformedProof _ _ => "malformed_proof"
  | WrongRoot => "wrong_root"
  | BadSignature => "bad_signature"
  end.

Definition map_proof_error (e : ProofError) : VerifyError :=
  match e with
  | Proofs.IndexOutOfRange index size => IndexOutOfRange index size
  | Proofs.MalformedPath expected actual => MalformedProof expected actual
  | Proofs.RootMismatch => WrongRoot
  | Proofs.NonMonotonicSizes _ _ | Proofs.TreeTooSmall _ _ => MalformedProof 0 0
  end.

Section Verify.
Context (sha : Sha2) (p256 : P256).
#[local] Instance sha256 : Hasher := Sha256Hasher sha.

Definition verify_inclusion (entry : LogEntry) (proof : InclusionProof)
    (checkpoint : Checkpoint Signed) (ca_pubkey : VerifyingKey) : result Verified VerifyError :=
  let? lh := map_err (fun _ => MalformedEntry) (entry_leaf_hash entry) in
  let proof_size := Inclusion.tree_size proof in
  let checkpoint_size := Checkpoint.tree_size checkpoint in
  if negb (proof_size =? checkpoint_size) then Err (SizeMismatch proof_size checkpoint_size)
  else
    let? _u := map_err map_proof_error (Inclusion.verify proof lh (root_hash checkpoint)) in
    let? _u := map_err (fun _ => BadSignature)
                 (Checkpoint.verify (H := EcdsaP256 p256) checkpoint ca_pubkey) in
    Ok (MkVerified (log_id checkpoint) checkpoint_size (leaf_index proof) (root_hash checkpoint)).

(** ** Correctness *)

(** The tree of a log of entries. *)
Definition log_tree (entries : list LogEntry) (tree : MerkleTree) : Prop :=
  Forall2 (fun e h => entry_leaf_hash e = Ok h) entries (leaves tree).

Lemma log_tree_leaf entries tree i x :
  log_tree entries tree -> 0 <= i -> leaf_hash tree i = Some x ->
  exists e, entries !! Z.to_nat i = Some e /\ entry_leaf_hash e = Ok x.
Proof.
  intros Hl Hi Hx. unfold leaf_hash in Hx. destruct (try_from_uint 64 i) as [j|] eqn:Ej; [|done].
  apply try_from_uint_Some in Ej as [-> _].
  destruct (Forall2_lookup_r _ _ _ _ _ Hl Hx) as (e & He & Hh). by exists e.
Qed.

Lemma verify_inclusion_Ok entry proof checkpoint key v :
  verify_inclusion entry proof checkpoint key = Ok v <->
  exists lh, entry_leaf_hash entry = Ok lh /\
    Inclusion.tree_size proof = Checkpoint.tree_size checkpoint /\
    Inclusion.verify proof lh (root_hash checkpoint) = Ok tt /\
    Checkpoint.verify (H := EcdsaP256 p256) checkpoint key = Ok tt /\
    v = MkVerified (log_id checkpoint) (Checkpoint.tree_size checkpoint) (leaf_index proof)
          (root_hash checkpoint).
Proof.
  unfold verify_inclusion. split.
  - destruct (entry_leaf_hash entry) as [lh|]; [|done]. cbn [map_err].
    destruct (Z.eqb_spec (Inclusion.tree_size proof) (Checkpoint.tree_size checkpoint)); [|done].
    cbn [negb]. destruct (Inclusion.verify proof lh (root_hash checkpoint)) as [[]|] eqn:Ep; [|done].
    cbn [map_err]. destruct (Checkpoint.verify checkpoint key) as [[]|] eqn:Ev; [|done].
    cbn [map_err]. intros [= <-]. by exists lh.
  - intros (lh & Hl & Hs & Hi & Hc & ->). rewrite Hl. cbn [map_err].
    rewrite Hs, Z.eqb_refl. cbn [negb]. rewrite Hi. cbn [map_err]. by rewrite Hc.
Qed.
End Verify.

(** A stand-in for the [sha2] crate: the state is the data fed so far. *)
Definition toy_sha2 : Sha2.
Proof.
  refine {| sha_state := list byte; sha_new := []; sha_update := app;
            sha_finalize := fun s => toy_digest [s] |}.
  - intros s. by rewrite app_nil_r.
  - intros s a b. by rewrite app_assoc.
Defined.

(** ** The properties *)

(** C1. End-to-end soundness: if a relying party accepts an entry with a proof against a checkpoint
    whose root and size are those of a log's tree, then the CA key verified the checkpoint's
    payload, the witness repeats the checkpoint and the proof, and the entry is the log's entry
    at the proof's index, unless the inputs hashed (both verification paths and the two leaf
    encodings) contain a collision. *)
Theorem verify_inclusion_sound (sha : Sha2) (p256 : P256) (entries : list LogEntry)
    (tree : MerkleTree) (entry : LogEntry) (proof : InclusionProof) (checkpoint : Checkpoint Signed)
    (key : VerifyingKey) (v : Verified) :
  let H := Sha256Hasher sha in
  log_tree sha entries tree -> Forall entry_ok entries -> entry_ok entry ->
  root_hash checkpoint = root tree -> Checkpoint.tree_size checkpoint = tree_len tree ->
  tree_len tree < 2 ^ 64 -> 0 <= leaf_index proof ->
  verify_inclusion sha p256 entry proof checkpoint key = Ok v ->
  (exists m, signature_input checkpoint = Ok m /\
             ecdsa_verify p256 key m (signature checkpoint) = Ok tt) /\
  v = MkVerified (log_id checkpoint) (tree_len tree) (leaf_index proof) (root tree) /\
  exists honest logged bs bs',
    generate tree (leaf_index proof) = Ok honest /\
    entries !! Z.to_nat (leaf_index proof) = Some logged /\
    tls_serialize_to_vec entry = Ok bs /\ tls_serialize_to_vec logged = Ok bs' /\
    (len bs <= isize_max -> logged = entry \/
       collision_in (verify_inputs proof (hash_leaf bs) ++ verify_inputs honest (hash_leaf bs') ++
                     [leaf_input bs; leaf_input bs'])).
Proof.
  intros H Hlog Hall Hentry Hroot Hsize Hlen Hidx Hv.
  apply verify_inclusion_Ok in Hv as (lh & Hlh & Hps & Hpv & Hcv & ->).
  apply verify_Ok in Hcv as (m & Hm & Hcv). rewrite Hroot, Hsize in *.
  split; [by exists m|]. split; [done|].
  assert (leaf_index proof < tree_len tree) as Hlt.
  { apply verify_ok in Hpv as (Hlt & _); lia. }
  destruct (generate_verifies tree (leaf_index proof)) as (honest & x & Hx & Hg & Hgs & Hgi & Hgv);
    [lia|done|].
  destruct (log_tree_leaf sha entries tree _ x Hlog Hidx Hx) as (logged & Hel & Hlx).
  apply entry_leaf_hash_Ok in Hlh as (bs & Hbs & ->). apply entry_leaf_hash_Ok in Hlx as (bs' & Hbs' & ->).
  exists honest, logged, bs, bs'. split_and!; [done..|]. intros Hbl.
  destruct (verify_unique proof honest (hash_leaf bs) (hash_leaf bs') (root tree)) as [[_ Hl]|Hc];
    [lia|lia|by rewrite Hgi|by rewrite Hgs|done|done| |right; collide].
  apply hash_leaf_inj in Hl as [->|Hc]; [left|right; collide].
  apply (tls_serialize_inj (H := log_entry_laws) bs'); try done.
  by eapply Forall_lookup_1 in Hel.
Qed.

(** C2. End-to-end completeness: the proof the CA generates for any entry of its log, with a
    checkpoint of the log's tree signed by its key, is accepted, and the witness says which
    entry of which tree it is. *)
Theorem verify_inclusion_complete (sha : Sha2) (p256 : P256) (entries : list LogEntry)
    (tree : MerkleTree) (i : Index) (entry : LogEntry) (c : Checkpoint Unsigned)
    (checkpoint : Checkpoint Signed) (sk : SigningKey) (vk : VerifyingKey) :
  let H := Sha256Hasher sha in
  log_tree sha entries tree -> 0 <= i -> entries !! Z.to_nat i = Some entry ->
  tree_len tree < 2 ^ 64 -> KeyPair (EcdsaP256 p256) sk vk ->
  root_hash c = root tree -> Checkpoint.tree_size c = tree_len tree ->
  sign (H := EcdsaP256 p256) c sk = Ok checkpoint ->
  exists proof, generate tree i = Ok proof /\
    verify_inclusion sha p256 entry proof checkpoint vk
    = Ok (MkVerified (log_id c) (tree_len tree) i (root tree)).
Proof.
  intros H Hlog Hi He Hlen Hk Hroot Hsize Hsign.
  assert (i < tree_len tree) as Hlt.
  { apply lookup_lt_Some in He. apply Forall2_length in Hlog. unfold tree_len, len. lia. }
  destruct (generate_verifies tree i) as (proof & x & Hx & Hg & Hgs & Hgi & Hgv); [lia|done|].
  exists proof. split; [done|].
  destruct (log_tree_leaf sha entries tree i x Hlog Hi Hx) as (e & Hel & Hlx).
  assert (e = entry) as -> by congruence.
  pose proof (sign_verify _ _ _ Hk _ _ Hsign) as Hcv.
  apply sign_Ok in Hsign as (m & s & _ & _ & ->). cbn [log_id Checkpoint.tree_size root_hash] in *.
  apply verify_inclusion_Ok. exists x.
  cbn [log_id Checkpoint.tree_size root_hash]. rewrite Hroot, Hsize, Hgi, Hgs.
  rewrite Hroot, Hsize in Hcv. done.
Qed.

(** *** An example log of three entries *)

Definition sample_entries : list LogEntry := [Null; sample_entry; Null].
Definition sample_tree : MerkleTree :=
  append_all (H := Sha256Hasher toy_sha2) MerkleTree_new
    (map (fun e => unwrap_or (from_framed []) (leaf_bytes e)) sample_entries).
Definition sample_unsigned_log : Checkpoint Unsigned :=
  MkCheckpoint (MkId [x61]) 3 (root (H := Sha256Hasher toy_sha2) sample_tree) 1000 MkUnsigned.
Definition sample_signed_log : Checkpoint Signed :=
  unwrap_or sample_checkpoint
    (sign (H := EcdsaP256 toy_p256) sample_unsigned_log (fst toy_keys)).
Definition sample_proof : InclusionProof :=
  unwrap_or (from_parts 0 0 []) (generate (H := Sha256Hasher toy_sha2) sample_tree 1).

Lemma verify_inclusion_sound_witness :
  exists honest logged bs bs',
    generate (H := Sha256Hasher toy_sha2) sample_tree 1 = Ok honest /\
    sample_entries !! 1%nat = Some logged /\
    tls_serialize_to_vec sample_entry = Ok bs /\ tls_serialize_to_vec logged = Ok bs' /\
    (len bs <= isize_max -> logged = sample_entry \/
       collision_in (H := Sha256Hasher toy_sha2)
         (verify_inputs (H := Sha256Hasher toy_sha2) sample_proof
            (hash_leaf (H := Sha256Hasher toy_sha2) bs) ++
          verify_inputs (H := Sha256Hasher toy_sha2) honest
            (hash_leaf (H := Sha256Hasher toy_sha2) bs') ++
          [leaf_input bs; leaf_input bs'])).
Proof.
  apply (verify_inclusion_sound toy_sha2 toy_p256 sample_entries sample_tree sample_entry
           sample_proof sample_signed_log (snd toy_keys)
           (MkVerified (MkId [x61]) 3 1 (root (H := Sha256Hasher toy_sha2) sample_tree))).
  - by repeat constructor; vm_compute.
  - repeat constructor; vm_compute; intuition discriminate.
  - repeat constructor; vm_compute; intuition discriminate.
  - by vm_compute.
  - by vm_compute.
  - by vm_compute.
  - by vm_compute.
  - by vm_compute.
Defined.

Lemma verify_inclusion_complete_witness :
  exists proof, generate (H := Sha256Hasher toy_sha2) sample_tree 1 = Ok proof /\
    verify_inclusion toy_sha2 toy_p256 sample_entry proof sample_signed_log (snd toy_keys)
    = Ok (MkVerified (MkId [x61]) 3 1 (root (H := Sha256Hasher toy_sha2) sample_tree)).
Proof.
  apply (verify_inclusion_complete toy_sha2 toy_p256 sample_entries sample_tree 1 sample_entry
           sample_unsigned_log sample_signed_log (fst toy_keys)).
  - by repeat constructor; vm_compute.
  - done.
  - done.
  - by vm_compute.
  - exact toy_key_pair.
  - done.
  - by vm_compute.
  - by vm_compute.
Defined.
