(* ===== verification/ReadPlan.v ===== *)
(** * The read-path planner: [crates/mtc-read/src/lib.rs]

    From a tree size and a leaf index, the tiles to read and the hash slots in them, one step per
    sibling of the audit path; and, as a specification, how a reader assembles the path from the
    tiles.

    The plan always exists for a leaf of the tree; the path assembled from the published tiles is
    the one the prover generates from the tree; the tiles it reads are those the library's own
    planner names. *)

From stdpp Require Import sorting.
From S2P Require Import Prelude Wire WireLaws Types Tree TreeFacts Decomposition Proofs Inclusion InclusionFacts Tile TileFacts.

Local Open Scope Z_scope.
Local Open Scope mtc_scope.

(** [TileSlotRun]. *)
Record TileSlotRun : Type := MkRun { run_coord : TileCoord; run_slot : Z; run_len : Z }.

(** [TileSlotRun::is_single]. *)
Definition is_single (r : TileSlotRun) : bool := run_len r =? 1.

(** [PathStep]. *)
Record PathStep : Type := MkStep { step_blocks : list TileSlotRun }.

(** [TilePlan]. *)
Record TilePlan : Type := MkPlan {
  plan_tree_size : TreeSize;
  plan_leaf_index : Index;
  plan_leaf : TileSlotRun;
  plan_steps : list PathStep
}.

(** [TilePlan::tiles]. *)
Definition plan_tiles (plan : TilePlan) : list TileCoord :=
  let coords := run_coord (plan_leaf plan) ::
    flat_map (fun step => map run_coord (step_blocks step)) (plan_steps plan) in
  dedup (merge_sort tile_le coords).

(** [PlanError]. *)
Inductive PlanError : Type :=
| PlanIndexOutOfRange (index tree_size : Z)
| TileGeometry (level index : Z).

(** [largest_power_of_two_below]. *)
Definition plan_largest_power_of_two_below (n : Z) : Z := Z.shiftl 1 (ilog2 (n - 1)).

(** [sibling_ranges]: recursion over a range of at most [2 ^ fuel] leaves, 64 for a [u64]. *)
Fixpoint sibling_ranges (fuel : nat) (start end_ index : Z) (out : list (Z * Z)) : list (Z * Z) :=
  if end_ - start <=? 1 then out else
  match fuel with
  | O => out
  | S fuel' =>
      let k := start + plan_largest_power_of_two_below (end_ - start) in
      if index <? k
      then sibling_ranges fuel' start k index out ++ [(k, end_)]
      else sibling_ranges fuel' k end_ index out ++ [(start, k)]
  end.

(** [block_to_slot_run]. *)
Definition block_to_slot_run (start block_len : Z) (tree_size : TreeSize) :
    result TileSlotRun PlanError :=
  let kappa := trailing_zeros block_len in
  let height := TILE_HEIGHT in
  let level_u32 := kappa / height in
  match try_from_uint 8 level_u32 with
  | None => Err (TileGeometry 255 start)
  | Some level =>
      let level_shift := height * level_u32 in
      let tile_shift := height * (level_u32 + 1) in
      let hash_index := Z.shiftr start level_shift in
      let tile_index := if 64 <=? tile_shift then 0 else Z.shiftr start tile_shift in
      let slot_u64 := Z.land hash_index (FULL_TILE_HASHES - 1) in
      match try_from_uint 16 slot_u64 with
      | None => Err (TileGeometry level tile_index)
      | Some slot =>
          let len := Z.shiftl 1 (kappa - level_shift) in
          let? width := ok_or (tile_width level tile_index tree_size)
                              (TileGeometry level tile_index) in
          Ok (MkRun (TileCoord_new level tile_index width) slot len)
      end
  end.

(** [for block in block_ranges { blocks.push(block_to_slot_run(..)?) }]. *)
Fixpoint push_blocks (block_ranges : list Subtree) (tree_size : TreeSize)
    (blocks : list TileSlotRun) : result (list TileSlotRun) PlanError :=
  match block_ranges with
  | [] => Ok blocks
  | block :: rest =>
      let? run := block_to_slot_run (st_start block) (st_len block) tree_size in
      push_blocks rest tree_size (blocks ++ [run])
  end.

(** [for (a, b) in ranges { .. steps.push(PathStep { blocks }) }]. *)
Fixpoint push_steps (ranges : list (Z * Z)) (tree_size : TreeSize) (steps : list PathStep) :
    result (list PathStep) PlanError :=
  match ranges with
  | [] => Ok steps
  | (a, b) :: rest =>
      let? blocks := push_blocks (decompose_range a b) tree_size [] in
      push_steps rest tree_size (steps ++ [MkStep blocks])
  end.

(** [plan_inclusion]. *)
Definition plan_inclusion (tree_size : TreeSize) (index : Index) : result TilePlan PlanError :=
  let i := index in
  let n := tree_size in
  if n <=? i then Err (PlanIndexOutOfRange i n)
  else
    let? leaf := block_to_slot_run i 1 tree_size in
    let ranges := sibling_ranges 64 0 n i [] in
    let? steps := push_steps ranges tree_size [] in
    Ok (MkPlan tree_size index leaf steps).

(** ** Assembling a proof from a plan

    What the crate's documentation asks of a reader: the run's hashes are combined to the root of
    its subtree, and the roots of a step's blocks are combined leaning right. *)

Section Assemble.
Context {H : Hasher}.

Definition fetch (tiles : list Tile) (c : TileCoord) : option Tile :=
  List.find (fun t => bool_decide (coord t = c)) tiles.

Definition run_root (tiles : list Tile) (r : TileSlotRun) : option HashOutput :=
  t ← fetch tiles (run_coord r);
  hs ← slice_get (hashes t) (run_slot r) (run_slot r + run_len r);
  Some (combine_subtree_roots hs).

Fixpoint lean_right (roots : list HashOutput) : option HashOutput :=
  match roots with
  | [] => None
  | [r] => Some r
  | r :: rest => hash_node r <$> lean_right rest
  end.

Definition sibling_hash (tiles : list Tile) (step : PathStep) : option HashOutput :=
  roots ← mapM (run_root tiles) (step_blocks step); lean_right roots.

Definition assemble (tiles : list Tile) (plan : TilePlan) : option (list HashOutput) :=
  mapM (sibling_hash tiles) (plan_steps plan).
End Assemble.

#[local] Opaque decompose_range.

(** ** Siblings *)

Lemma plan_largest_split n : plan_largest_power_of_two_below n = split_point n.
Proof. done. Qed.

Lemma sibling_ranges_acc fuel : forall s e i out,
  sibling_ranges fuel s e i out = out ++ sibling_ranges fuel s e i [].
Proof.
  induction fuel as [|fuel IH]; intros s e i out; cbn [sibling_ranges];
    destruct (e - s <=? 1); rewrite ?app_nil_r; try done.
  cbv zeta. destruct (i <? _); rewrite IH; by rewrite <- app_assoc.
Qed.

Abbreviation sibs fuel s e i := (sibling_ranges fuel s e i []).

Lemma sibs_S fuel s e i :
  2 <= e - s ->
  sibs (S fuel) s e i =
    let k := s + split_point (e - s) in
    if i <? k then sibs fuel s k i ++ [(k, e)] else sibs fuel k e i ++ [(s, k)].
Proof.
  intros He. cbn [sibling_ranges]. rewrite (proj2 (Z.leb_gt _ _)) by lia. cbv zeta.
  by rewrite plan_largest_split.
Qed.

Lemma sibs_single fuel s i : sibs fuel s (s + 1) i = [].
Proof. destruct fuel; cbn [sibling_ranges]; by rewrite (proj2 (Z.leb_le _ _)) by lia. Qed.

(** The split of an aligned range. *)
Lemma aligned_split s e w :
  2 <= e - s <= 2 ^ Z.of_nat w -> (2 ^ Z.of_nat w | s) ->
  exists g, (g < w)%nat /\ split_point (e - s) = 2 ^ Z.of_nat g /\
    2 ^ Z.of_nat g < e - s <= 2 * 2 ^ Z.of_nat g /\ (2 ^ (Z.of_nat g + 1) | s).
Proof.
  intros He Hd. destruct (split_point_spec (e - s)) as (g & Hg & -> & Hb); [lia|].
  assert (g < Z.of_nat w) as Hgw.
  { apply (Z.pow_lt_mono_r_iff 2); lia. }
  exists (Z.to_nat g). rewrite Z2Nat.id by done. split_and!; [lia|done|lia|lia|].
  eapply divide_pow2_le; [|exact Hd]. lia.
Qed.

(** Induction over the recursion of the prover and the planner: [P s e] for an aligned range
    follows from the half that holds the leaf. *)
Lemma leaf_ind (P : nat -> Z -> Z -> Prop) i :
  (forall f, P f i (i + 1)) ->
  (forall f s e g, 0 <= s -> s <= i < e -> 0 <= g -> let k := s + 2 ^ g in
     s < k < e -> e - k <= 2 ^ g -> (2 ^ (g + 1) | s) -> split_point (e - s) = 2 ^ g ->
     (i < k -> P f s k) -> (k <= i -> P f k e) -> P (S f) s e) ->
  forall f w s e, (w <= f)%nat -> 0 <= s -> s <= i < e -> e - s <= 2 ^ Z.of_nat w ->
    (2 ^ Z.of_nat w | s) -> P f s e.
Proof.
  intros H1 HS. induction f as [|f IH]; intros w s e Hw Hs Hi He Hd.
  { assert (w = 0%nat) as -> by lia. change (2 ^ Z.of_nat 0) with 1 in He.
    replace s with i by lia. replace e with (i + 1) by lia. apply H1. }
  destruct (Z.le_gt_cases (e - s) 1).
  { replace s with i by lia. replace e with (i + 1) by lia. apply H1. }
  destruct (aligned_split s e w) as (g & Hg & Hsp & Hb & Hsd); [lia|done|].
  pose proof (pow2_pos (Z.of_nat g) ltac:(lia)) as Hp.
  assert ((2 ^ Z.of_nat g | s)) as Hsg by (eapply divide_pow2_le; [|exact Hsd]; lia).
  apply (HS f s e (Z.of_nat g)); try done; try lia.
  - intros Hlt. apply (IH g); try done; lia.
  - intros Hge. apply (IH g); try lia. by apply Z.divide_add_r; [|exists 1; lia].
Qed.

(** From the whole tree. *)
Lemma leaf_ind_tree (P : nat -> Z -> Z -> Prop) i n :
  0 <= i < n -> n <= 2 ^ 64 ->
  (forall f, P f i (i + 1)) ->
  (forall f s e g, 0 <= s -> s <= i < e -> 0 <= g -> let k := s + 2 ^ g in
     s < k < e -> e - k <= 2 ^ g -> (2 ^ (g + 1) | s) -> split_point (e - s) = 2 ^ g ->
     (i < k -> P f s k) -> (k <= i -> P f k e) -> P (S f) s e) ->
  P 64%nat 0 n.
Proof.
  intros Hi Hn H1 HS. apply (leaf_ind P i H1 HS 64 64); try done; try lia. apply Z.divide_0_r.
Qed.

(** A sibling's range: its start is aligned beyond its length. *)
Definition good_range (n : Z) (r : Z * Z) : Prop :=
  exists g, 0 <= g /\ 0 <= r.1 < r.2 /\ r.2 <= n /\ (2 ^ g | r.1) /\ r.2 - r.1 <= 2 ^ g.

Lemma split_divides s g : 0 <= g -> (2 ^ (g + 1) | s) -> (2 ^ g | s) /\ (2 ^ g | s + 2 ^ g).
Proof.
  intros Hg Hd. assert ((2 ^ g | s)) as H by (eapply divide_pow2_le; [|exact Hd]; lia).
  split; [done|]. apply Z.divide_add_r; [done|by exists 1; lia].
Qed.

Lemma sibs_good i n :
  0 <= i < n -> n <= 2 ^ 64 -> Forall (good_range n) (sibs 64 0 n i).
Proof.
  intros Hi Hn. set (f := 64%nat).
  apply (leaf_ind_tree (fun f s e => e <= n -> Forall (good_range n) (sibs f s e i)) i n); try done.
  - intros f' _. by rewrite sibs_single.
  - intros f' s e g Hs Hie Hg k Hk Hek Hd Hsp IHl IHr He. rewrite sibs_S by lia. cbv zeta.
    rewrite Hsp. fold k. destruct (split_divides s g Hg Hd). pose proof (pow2_pos g Hg).
    destruct (Z.ltb_spec i k); (apply Forall_app; split; [auto with lia|]);
      (constructor; [|done]); exists g; cbn [fst snd]; split_and!; (done || lia).
Qed.

(** The prover's path: the hashes of the siblings' ranges. *)
Lemma collect_siblings_sibs {H : Hasher} (tree : MerkleTree) i :
  0 <= i < len (leaves tree) -> len (leaves tree) < 2 ^ 64 ->
  collect_siblings 64 tree 0 (len (leaves tree)) i [] =
  Ok (map (fun r => mth (slice (leaves tree) r.1 r.2)) (sibs 64 0 (len (leaves tree)) i)).
Proof.
  intros Hi Hn. set (n := len (leaves tree)) in *.
  apply (leaf_ind_tree (fun f s e => e <= n -> collect_siblings f tree s e i [] =
    Ok (map (fun r => mth (slice (leaves tree) r.1 r.2)) (sibs f s e i))) i n); try lia.
  - intros f _. rewrite sibs_single. destruct f; cbn [collect_siblings];
      by rewrite (proj2 (Z.eqb_eq _ _)) by lia.
  - intros f s e g Hs Hie Hg k Hk Hek Hd Hsp IHl IHr He. rewrite sibs_S by lia. cbv zeta.
    cbn [collect_siblings]. rewrite (proj2 (Z.eqb_neq _ _)) by lia.
    change (largest_power_of_two_below (e - s)) with (split_point (e - s)). rewrite Hsp. fold k.
    destruct (Z.ltb_spec i k); [rewrite IHl by lia|rewrite IHr by lia];
      rewrite subtree_hash_ok by (fold n; lia); cbn [ok_or]; by rewrite map_app.
Qed.

(** ** The blocks of the siblings *)

Lemma decompose_full s g :
  0 <= g -> 0 <= s -> (2 ^ g | s) -> s + 2 ^ g < 2 ^ 64 ->
  decompose_range s (s + 2 ^ g) = [Subtree_new s (s + 2 ^ g)].
Proof.
  intros Hg Hs Hd Hb. pose proof (pow2_pos g Hg). rewrite decompose_range_unfold by lia.
  rewrite (dec_step_aligned _ _ g); [|lia..| |done].
  - by rewrite decompose_range_stop.
  - replace (s + 2 ^ g - s) with (2 ^ g) by lia. by rewrite Z.log2_pow2.
Qed.

Lemma decompose_left s i g :
  0 <= g -> 0 <= s -> (2 ^ g | s) -> s + 2 ^ g <= i < s + 2 * 2 ^ g -> i < 2 ^ 64 ->
  decompose_range s i = Subtree_new s (s + 2 ^ g) :: decompose_range (s + 2 ^ g) i.
Proof.
  intros Hg Hs Hd Hi Hb. pose proof (pow2_pos g Hg). rewrite decompose_range_unfold by lia.
  rewrite (dec_step_aligned _ _ g); [done|lia..| |done].
  symmetry. apply Z.log2_unique; [done|]. rewrite Z.pow_succ_r by done. lia.
Qed.

(** Inside an aligned half the greedy step does not depend on what follows the half. *)
Lemma dec_step_half s a e g :
  0 <= g -> 0 <= s -> (2 ^ (g + 1) | s) -> s < a < s + 2 ^ g -> s + 2 ^ g <= e ->
  dec_step a e = 2 ^ trailing_zeros a /\ a + 2 ^ trailing_zeros a <= s + 2 ^ g.
Proof.
  intros Hg Hs Hd Ha He. destruct (split_divides s g Hg Hd) as [Hsg Hkg].
  destruct (trailing_zeros_spec a ltac:(lia)) as (Ht & _). set (t := trailing_zeros a) in *.
  assert ((2 ^ t | a)) as Hta by (apply divide_trailing_zeros; lia).
  assert (t < g) as Htg.
  { destruct (Z.le_gt_cases g t) as [Hgt|]; [exfalso|done].
    assert ((2 ^ g | a - s)) as [c Hc].
    { apply Z.divide_sub_r; [|done]. eapply divide_pow2_le; [|exact Hta]. lia. }
    pose proof (pow2_pos g Hg). assert (0 < c < 1) by nia. lia. }
  assert ((2 ^ t | s + 2 ^ g - a)) as [c Hc].
  { apply Z.divide_sub_r; [|done]. eapply divide_pow2_le; [|exact Hkg]. lia. }
  pose proof (pow2_pos t Ht).
  assert (2 ^ t <= s + 2 ^ g - a) as Hle by (apply Z.divide_pos_le; [lia|by exists c]). split; [|lia].
  unfold dec_step. rewrite (proj2 (Z.eqb_neq a 0)), Z.shiftl_1_l by lia. fold t.
  apply Z.min_l. unfold largest_pow2_le, ilog2. rewrite Z.shiftl_1_l.
  apply pow2_le. rewrite <- (Z.log2_pow2 t) by done. apply Z.log2_le_mono. lia.
Qed.

Lemma decompose_half s e g : forall a,
  0 <= g -> 0 <= s -> (2 ^ (g + 1) | s) -> s < a <= s + 2 ^ g -> s + 2 ^ g <= e -> e < 2 ^ 64 ->
  decompose_range a e = decompose_range a (s + 2 ^ g) ++ decompose_range (s + 2 ^ g) e.
Proof.
  intros a Hg Hs Hd. remember (Z.to_nat (s + 2 ^ g - a)) as d eqn:Ed. revert a Ed.
  induction d as [d IH] using lt_wf_ind. intros a Ed Ha He Hb.
  destruct (Z.eq_dec a (s + 2 ^ g)) as [->|Hne]; [by rewrite (decompose_range_stop (s + 2 ^ g) (s + 2 ^ g)) by lia|].
  destruct (dec_step_half s a e g Hg Hs Hd ltac:(lia) He) as [He1 Hle].
  destruct (dec_step_half s a (s + 2 ^ g) g Hg Hs Hd ltac:(lia) ltac:(lia)) as [He2 _].
  destruct (trailing_zeros_spec a ltac:(lia)) as (Ht & _). pose proof (pow2_pos _ Ht).
  rewrite (decompose_range_unfold a e), (decompose_range_unfold a (s + 2 ^ g)), He1, He2 by lia.
  cbn [app]. f_equal. eapply IH; [|reflexivity|lia..]. lia.
Qed.

Abbreviation blocks_of rs := (flat_map (fun r : Z * Z => decompose_range r.1 r.2) rs).

(** The siblings' blocks are the blocks on either side of the leaf. *)
Lemma sibs_blocks i n :
  0 <= i < n -> n < 2 ^ 64 ->
  blocks_of (sibs 64 0 n i) ≡ₚ decompose_range 0 i ++ decompose_range (i + 1) n.
Proof.
  intros Hi Hn.
  apply (leaf_ind_tree (fun f s e => e <= n ->
    blocks_of (sibs f s e i) ≡ₚ decompose_range s i ++ decompose_range (i + 1) e) i n); try lia.
  - intros f _. by rewrite sibs_single, !decompose_range_stop by lia.
  - intros f s e g Hs Hie Hg k Hk Hek Hd Hsp IHl IHr He. rewrite sibs_S by lia. cbv zeta.
    rewrite Hsp. fold k. destruct (split_divides s g Hg Hd).
    destruct (Z.ltb_spec i k); rewrite flat_map_app; cbn [flat_map fst snd]; rewrite app_nil_r.
    + rewrite IHl by lia. rewrite (decompose_half s e g (i + 1)) by (done || lia). fold k.
      by rewrite app_assoc.
    + rewrite IHr by lia. pose proof (decompose_full s g Hg Hs ltac:(done) ltac:(lia)) as Hf.
      fold k in Hf. rewrite Hf.
      rewrite (decompose_left s i g) by (done || lia). fold k. cbn [app].
      by rewrite (Permutation_app_comm _ [_]).
Qed.

(** ** A run of hashes and its subtree *)

Section Runs.
Context {H : Hasher}.

Definition level_run (ls : list HashOutput) (l k : Z) (m : nat) : list HashOutput :=
  map (fun j => level_hash ls l (k + Z.of_nat j)) (seq 0 m).

Lemma length_level_run ls l k m : length (level_run ls l k m) = m.
Proof. unfold level_run. by rewrite length_map, length_seq. Qed.

Lemma level_run_app ls l k m m' :
  level_run ls l k (m + m') = level_run ls l k m ++ level_run ls l (k + Z.of_nat m) m'.
Proof.
  unfold level_run. rewrite seq_app, map_app. f_equal. rewrite Nat.add_0_l.
  replace (seq m m') with (seq (m + 0) m') by (f_equal; lia). rewrite <- fmap_add_seq.
  change (Nat.add m <$> seq 0 m') with (map (Nat.add m) (seq 0 m')). rewrite map_map.
  apply map_ext. intros j. f_equal. lia.
Qed.

(** [q] hashes from slot [s] of [w]. *)
Lemma slice_get_level_run ls l k w s q :
  0 <= s -> 0 <= q -> s + q <= w ->
  slice_get (level_run ls l k (Z.to_nat w)) s (s + q) = Some (level_run ls l (k + s) (Z.to_nat q)).
Proof.
  intros Hs Hq Hw. unfold slice_get, len. rewrite length_level_run.
  rewrite (proj2 (Z.leb_le _ _)), (proj2 (Z.leb_le _ _)) by lia. cbn [andb]. f_equal.
  replace (Z.to_nat (s + q - s)) with (Z.to_nat q) by lia.
  replace (Z.to_nat w) with (Z.to_nat s + (Z.to_nat q + Z.to_nat (w - s - q)))%nat by lia.
  rewrite !level_run_app, Z2Nat.id by lia.
  rewrite drop_app_length' by (by rewrite length_level_run).
  by rewrite take_app_length' by (by rewrite length_level_run).
Qed.

(** [2 ^ r] hashes of level [l] combine to the root over their leaves. *)
Lemma mth_level_run ls l r : forall k,
  0 <= l -> 0 <= k -> (k + 2 ^ Z.of_nat r) * 256 ^ l <= len ls ->
  mth (level_run ls l k (Z.to_nat (2 ^ Z.of_nat r))) =
  mth (slice ls (k * 256 ^ l) ((k + 2 ^ Z.of_nat r) * 256 ^ l)).
Proof.
  pose proof (fun l => pow256_pos l) as Hp256.
  induction r as [|r IH]; intros k Hl Hk Hb.
  { change (2 ^ Z.of_nat 0) with 1. change (Z.to_nat 1) with 1%nat. unfold level_run. cbn [seq map].
    rewrite Z.add_0_r. apply mth_single. }
  rewrite Nat2Z.inj_succ, Z.pow_succ_r in * by lia. specialize (Hp256 l Hl).
  pose proof (pow2_pos (Z.of_nat r) ltac:(lia)) as Hr. set (q := 2 ^ Z.of_nat r) in *.
  replace (Z.to_nat (2 * q)) with (Z.to_nat q + Z.to_nat q)%nat by lia.
  rewrite level_run_app, Z2Nat.id by lia.
  rewrite (mth_app _ _ (Z.of_nat r)) by (unfold len; rewrite ?length_level_run; lia).
  rewrite !IH by nia. replace (k + q + q) with (k + 2 * q) by lia.
  rewrite (slice_split ls (k * 256 ^ l) ((k + q) * 256 ^ l) ((k + 2 * q) * 256 ^ l)) by nia.
  rewrite (mth_app _ _ (Z.of_nat r + 8 * l)).
  - done.
  - lia.
  - rewrite len_slice by nia. rewrite Z.pow_add_r, <- pow256_pow2 by lia. fold q. lia.
  - rewrite len_slice by nia. rewrite Z.pow_add_r, <- pow256_pow2 by lia. fold q. nia.
Qed.

(** A tile of the tree is found among its published tiles. *)
Lemma fetch_build_tiles ls l i w :
  len ls < 2 ^ 64 -> 0 <= l -> 0 <= i -> tile_width l i (len ls) = Some w ->
  fetch (build_tiles ls) (TileCoord_new l i w) =
  Some (MkTile (TileCoord_new l i w) (level_run ls l (i * 256) (Z.to_nat w))).
Proof.
  intros Hn Hl Hi Hw.
  assert (MkTile (TileCoord_new l i w) (level_run ls l (i * 256) (Z.to_nat w)) ∈ build_tiles ls) as Hin
    by (apply elem_of_build_tiles; [done|]; by exists l, i, w).
  unfold fetch. destruct (List.find _ _) as [t|] eqn:Hf.
  - apply List.find_some in Hf as [Ht Hc]. apply bool_decide_eq_true in Hc.
    apply list_elem_of_In, elem_of_build_tiles in Ht as (l' & i' & w' & _ & _ & _ & ->); [|done].
    cbn [coord] in Hc. by injection Hc as -> -> ->.
  - apply list_elem_of_In in Hin. pose proof (List.find_none _ _ Hf _ Hin) as Hc.
    apply bool_decide_eq_false in Hc. done.
Qed.

(** The run of an aligned block of the tree: the tile [tile_for_subtree] names, and slots whose
    hashes combine to the block's root. *)
Lemma block_to_slot_run_ok block n :
  aligned_block block -> st_end block <= n -> in_u64 n ->
  exists r, block_to_slot_run (st_start block) (st_len block) n = Ok r /\
    tile_for_subtree block n = Ok (run_coord r) /\
    forall ls, len ls = n ->
      run_root (build_tiles ls) r = Some (mth (slice ls (st_start block) (st_end block))).
Proof.
  intros Hb Hn Hu. destruct (tile_for_subtree_ok block n Hb Hn Hu) as (c & Hc & _).
  destruct Hb as (h & Hh & Ha & He & Hd). destruct block as [a e]. cbn [st_start st_end] in *. subst e.
  pose proof (pow2_pos h Hh) as Hp. assert (a < 2 ^ 64) as Ha64 by (destruct Hu; lia).
  assert (h < 64) as Hh64. { apply (Z.pow_lt_mono_r_iff 2); [lia..|]. destruct Hu. lia. }
  destruct (block_geometry a h n Hh Ha Hd Hn) as (l & k & q & i & Hat).
  pose proof (block_tile_width _ _ _ _ _ _ _ Hat Hu) as Hw.
  pose proof (block_tile_index _ _ _ _ _ _ _ Hat Ha64) as Hidx.
  destruct Hat as [(Hl & Hlh & Hl8) (Hk & Hak) (Hq & Hq2 & Hhq) (Hi & Hik & Hik1 & Hfit) Hbound].
  pose proof (pow256_pos l Hl) as Hs. set (w := Z.min (n / 256 ^ l - i * 256) 256) in *.
  assert (Hslot : Z.land (Z.shiftr a (8 * l)) (FULL_TILE_HASHES - 1) = k - i * 256).
  { change (FULL_TILE_HASHES - 1) with (Z.ones 8). rewrite Z.land_ones, Z.shiftr_div_pow2 by lia.
    rewrite <- pow256_pow2, Hak, Z.div_mul by lia. change (2 ^ 8) with 256. rewrite Hik.
    pose proof (Z.div_mod k 256). lia. }
  assert (Hq128 : q <= 256) by lia.
  exists (MkRun (TileCoord_new l i w) (k - i * 256) q). split_and!.
  - unfold block_to_slot_run, st_len, saturating_sub. cbn [st_start st_end].
    replace (Z.max (a + 2 ^ h - a) 0) with (2 ^ h) by lia.
    rewrite trailing_zeros_pow2 by done. unfold TILE_HEIGHT. rewrite <- Hlh.
    rewrite try_from_uint_in by (split; [done|lia]).
    rewrite Hslot, try_from_uint_in by (split; lia).
    by rewrite Hidx, Hw, Z.shiftl_1_l, Hq2.
  - cbn [run_coord]. revert Hc. unfold tile_for_subtree, st_len, saturating_sub. cbn [st_start st_end].
    replace (Z.max (a + 2 ^ h - a) 0) with (2 ^ h) by lia.
    rewrite trailing_zeros_pow2 by done. unfold TILE_HEIGHT. rewrite <- Hlh.
    rewrite try_from_uint_in by (split; [done|lia]). cbn [default from_option id].
    by rewrite Hidx, Hw.
  - intros ls Hls. unfold run_root. cbn [run_coord run_slot run_len].
    destruct Hu as [Hu0 Hu1].
    rewrite fetch_build_tiles by (rewrite ?Hls; done || lia). cbn [mbind option_bind hashes].
    rewrite slice_get_level_run by (unfold w; lia). cbn [mbind option_bind].
    rewrite combine_mth. replace (i * 256 + (k - i * 256)) with k by lia. f_equal.
    replace q with (2 ^ Z.of_nat (Z.to_nat (h - 8 * l))) by (rewrite Z2Nat.id by lia; done).
    rewrite mth_level_run.
    + rewrite Z2Nat.id, <- Hq2 by lia. f_equal. f_equal; [done|]. rewrite Hhq, Hak. ring.
    + done.
    + done.
    + rewrite Z2Nat.id, <- Hq2 by lia. pose proof (Z.mul_div_le n (256 ^ l) Hs). nia.
Qed.
End Runs.

(** ** Steps and the whole plan *)

(** A run stands for a block of the [n]-leaf tree. *)
Definition run_of {H : Hasher} (n : Z) (block : Subtree) (r : TileSlotRun) : Prop :=
  tile_for_subtree block n = Ok (run_coord r) /\
  forall ls, len ls = n ->
    run_root (build_tiles ls) r = Some (mth (slice ls (st_start block) (st_end block))).

Definition step_of {H : Hasher} (n : Z) (range : Z * Z) (step : PathStep) : Prop :=
  Forall2 (run_of n) (decompose_range range.1 range.2) (step_blocks step).

Lemma push_blocks_ok {H : Hasher} n bs : forall acc,
  Forall aligned_block bs -> Forall (fun s => st_end s <= n) bs -> in_u64 n ->
  exists rs, push_blocks bs n acc = Ok (acc ++ rs) /\ Forall2 (run_of n) bs rs.
Proof.
  induction bs as [|b bs IH]; intros acc Ha Hb Hu; cbn [push_blocks].
  - exists []. by rewrite app_nil_r.
  - inversion Ha; subst. inversion Hb; subst.
    destruct (block_to_slot_run_ok b n) as (r & -> & Ht & Hr); [done..|].
    destruct (IH (acc ++ [r])) as (rs & -> & Hf); [done..|].
    exists (r :: rs). rewrite <- app_assoc. split; [done|]. by constructor.
Qed.

Lemma good_range_blocks n r :
  good_range n r -> n < 2 ^ 64 ->
  Forall aligned_block (decompose_range r.1 r.2) /\
  Forall (fun s => st_end s <= n) (decompose_range r.1 r.2).
Proof.
  intros (g & Hg & Hr & Hn & _) Hu.
  destruct (decompose_range_good r.1 r.2) as (Hc & Ha & _); [lia..|].
  destruct (covers_bound _ _ _ Ha Hc) as [_ Hb]. split; [done|].
  eapply Forall_impl; [exact Hb|]. simpl. lia.
Qed.

Lemma push_steps_ok {H : Hasher} n ranges : forall acc,
  Forall (good_range n) ranges -> in_u64 n ->
  exists steps, push_steps ranges n acc = Ok (acc ++ steps) /\ Forall2 (step_of n) ranges steps.
Proof.
  induction ranges as [|[a b] ranges IH]; intros acc Hg Hu; cbn [push_steps].
  - exists []. by rewrite app_nil_r.
  - inversion Hg as [|? ? Hr Hg']; subst.
    destruct (good_range_blocks n _ Hr) as [Ha Hb]; [by destruct Hu|].
    destruct (push_blocks_ok n _ [] Ha Hb Hu) as (rs & Hp & Hf). cbn [fst snd app] in Hp. rewrite Hp.
    destruct (IH (acc ++ [MkStep rs])) as (steps & -> & Hs); [done..|].
    exists (MkStep rs :: steps). rewrite <- app_assoc. split; [done|]. by constructor.
Qed.

(** Leaning right over the blocks of a sibling's range gives its Merkle Tree Hash. *)
Lemma lean_right_range {H : Hasher} ls g : forall a b,
  0 <= a < b -> b <= len ls -> len ls < 2 ^ 64 ->
  (2 ^ Z.of_nat g | a) -> b - a <= 2 ^ Z.of_nat g ->
  lean_right (map (fun s => mth (slice ls (st_start s) (st_end s))) (decompose_range a b)) =
  Some (mth (slice ls a b)).
Proof.
  induction g as [g IH] using lt_wf_ind. intros a b Ha Hb Hn Hd Hw.
  destruct (largest_pow2_le_spec (b - a)) as (d & Hd0 & Hlog & _ & Hbd); [lia|].
  assert (d <= Z.of_nat g) as Hdg by (apply pow2_le_inv; lia).
  assert ((2 ^ d | a)) as Hda by (eapply divide_pow2_le; [|exact Hd]; lia).
  rewrite decompose_range_unfold by lia.
  rewrite (dec_step_aligned a b d) by (done || lia). cbn [map st_start st_end].
  destruct (Z.eq_dec (b - a) (2 ^ d)) as [E|Hne].
  - replace (a + 2 ^ d) with b by lia. by rewrite decompose_range_stop by lia.
  - assert (d < Z.of_nat g) as Hlt.
    { destruct (Z.eq_dec d (Z.of_nat g)) as [->|]; [|lia]. lia. }
    specialize (IH (Z.to_nat d) ltac:(lia) (a + 2 ^ d) b).
    rewrite Z2Nat.id in IH by lia. pose proof (pow2_pos d Hd0).
    specialize (IH ltac:(lia) Hb Hn (Z.divide_add_r _ _ _ Hda (Z.divide_refl _)) ltac:(lia)).
    revert IH. rewrite (decompose_range_unfold (a + 2 ^ d) b) by lia. intros IH.
    cbn [map lean_right] in *. rewrite IH. cbn [fmap option_fmap option_map]. f_equal.
    rewrite (slice_split ls a (a + 2 ^ d) b) by lia.
    by rewrite (mth_app _ _ d) by (rewrite ?len_slice by lia; lia).
Qed.

Lemma sibling_hash_ok {H : Hasher} ls range step :
  len ls < 2 ^ 64 -> good_range (len ls) range -> step_of (len ls) range step ->
  sibling_hash (build_tiles ls) step = Some (mth (slice ls range.1 range.2)).
Proof.
  intros Hn (g & Hg & Hr & Hb & Hd & Hw) Hs. unfold sibling_hash.
  assert (mapM (run_root (build_tiles ls)) (step_blocks step) =
    Some (map (fun s => mth (slice ls (st_start s) (st_end s))) (decompose_range range.1 range.2))) as ->.
  { apply mapM_Some_2. unfold step_of in Hs. induction Hs as [|s r ss rs [_ Hrun] _ IH]; [constructor|].
    constructor; [by apply Hrun|done]. }
  cbn [mbind option_bind]. apply (lean_right_range ls (Z.to_nat g)); rewrite ?Z2Nat.id by done;
    (done || lia).
Qed.

Lemma leaf_block i : 0 <= i -> aligned_block (Subtree_new i (i + 1)).
Proof.
  intros Hi. exists 0. change (2 ^ 0) with 1. cbn. split_and!; [done|lia|done|apply Z.divide_1_l].
Qed.

(** A leaf of the tree has a plan, made of its own run and its siblings' steps. *)
Lemma plan_inclusion_ok {H : Hasher} i n :
  0 <= i < n -> in_u64 n ->
  exists leaf steps, plan_inclusion n i = Ok (MkPlan n i leaf steps) /\
    run_of n (Subtree_new i (i + 1)) leaf /\ Forall2 (step_of n) (sibs 64 0 n i) steps.
Proof.
  intros Hi Hu. destruct Hu as [Hu0 Hu1].
  destruct (block_to_slot_run_ok (Subtree_new i (i + 1)) n) as (leaf & Hl & Hleaf);
    [apply leaf_block; lia|cbn; lia|by split|].
  destruct (push_steps_ok n (sibs 64 0 n i) []) as (steps & Hp & Hs); [apply sibs_good; lia|by split|].
  exists leaf, steps. split; [|done]. unfold plan_inclusion. rewrite (proj2 (Z.leb_gt _ _)) by lia.
  revert Hl. unfold st_len, saturating_sub. cbn [st_start st_end].
  replace (Z.max (i + 1 - i) 0) with 1 by lia. intros ->. by rewrite Hp.
Qed.

(** ** The tiles of a plan *)

#[export] Instance tile_le_trans : Transitive tile_le.
Proof. intros a b c. unfold tile_le. lia. Qed.
#[export] Instance tile_le_antisymm : AntiSymm eq tile_le.
Proof. intros [] []. unfold tile_le. cbn. intros. f_equal; lia. Qed.

Lemma merge_sort_tiles l l' : l ≡ₚ l' -> merge_sort tile_le l = merge_sort tile_le l'.
Proof.
  intros Hp. apply (StronglySorted_unique tile_le);
    [apply (StronglySorted_merge_sort _)..|]. by rewrite !merge_sort_Permutation.
Qed.

(** The coordinate of a block, when it has one. *)
Definition tile_of (n : Z) (block : Subtree) : TileCoord :=
  match tile_for_subtree block n with Ok c => c | Err _ => TileCoord_new 0 0 0 end.

Lemma run_of_coord {H : Hasher} n b r : run_of n b r -> run_coord r = tile_of n b.
Proof. intros [Ht _]. unfold tile_of. by rewrite Ht. Qed.

Lemma steps_coords {H : Hasher} n ranges steps :
  Forall2 (step_of n) ranges steps ->
  flat_map (fun step => map run_coord (step_blocks step)) steps = map (tile_of n) (blocks_of ranges).
Proof.
  induction 1 as [|range step ranges steps Hs _ IH]; [done|]. cbn [flat_map].
  rewrite map_app, IH. f_equal. unfold step_of in Hs.
  induction Hs as [|b r bs rs Hr _ IH']; [done|]. cbn [map]. by rewrite (run_of_coord _ _ _ Hr), IH'.
Qed.

Lemma push_tiles_coords n bs : forall acc coords,
  push_tiles bs n acc = Ok coords -> coords = acc ++ map (tile_of n) bs.
Proof.
  induction bs as [|b bs IH]; intros acc coords; cbn [push_tiles map].
  - intros [= <-]. by rewrite app_nil_r.
  - destruct (tile_for_subtree b n) as [c|] eqn:Hc; [|done]. intros E%IH. rewrite E, <- app_assoc.
    unfold tile_of at 2. by rewrite Hc.
Qed.

(** ** The properties *)

(** C17. Reading a proof from tiles: for every leaf of a tree there is a plan; the siblings assembled
    from the tree's published tiles as the plan directs are, in order, the audit path the prover
    generates from the tree itself, and the plan's leaf slot holds the leaf's hash. *)
Theorem plan_assembles_path {H : Hasher} (tree : MerkleTree) (i : Index) :
  0 <= i < tree_len tree -> in_u64 (tree_len tree) ->
  exists plan path,
    plan_inclusion (tree_len tree) i = Ok plan /\
    assemble (build_tiles (leaves tree)) plan = Some path /\
    generate tree i = Ok (from_parts (tree_len tree) i path) /\
    run_root (build_tiles (leaves tree)) (plan_leaf plan) = leaf_hash tree i.
Proof.
  intros Hi Hu. destruct (plan_inclusion_ok i _ Hi Hu) as (leaf & steps & Hp & [_ Hleaf] & Hs).
  destruct Hu as [Hu0 Hu1]. unfold tree_len in *.
  exists (MkPlan (len (leaves tree)) i leaf steps),
    (map (fun r => mth (slice (leaves tree) r.1 r.2)) (sibs 64 0 (len (leaves tree)) i)).
  split_and!; [done| | |].
  - unfold assemble. cbn [plan_steps]. apply mapM_Some_2.
    pose proof (sibs_good i (len (leaves tree)) Hi ltac:(lia)) as Hg.
    clear Hp. revert Hg Hs. generalize (sibs 64 0 (len (leaves tree)) i). intros rs Hg Hs.
    induction Hs as [|range step rs steps Hst _ IH]; [constructor|].
    apply Forall_cons in Hg as [Hr Hg]. constructor; [by apply sibling_hash_ok|by apply IH].
  - unfold generate, tree_len. rewrite (proj2 (Z.leb_gt _ _)) by lia.
    by rewrite collect_siblings_sibs by lia.
  - cbn [plan_leaf]. rewrite (Hleaf (leaves tree) eq_refl). cbn [st_start st_end].
    destruct (lookup_lt_is_Some_2 (leaves tree) (Z.to_nat i)) as [x Hx]; [unfold len in Hi; lia|].
    rewrite (slice_singleton _ _ x) by (lia || done). unfold leaf_hash.
    by rewrite try_from_uint_in, Hx by (split; lia).
Qed.

Lemma plan_assembles_path_witness :
  exists plan path,
    plan_inclusion 259 256 = Ok plan /\
    assemble (H := ToyHasher) (build_tiles (H := ToyHasher) (leaves (toy_tree 259))) plan = Some path /\
    generate (H := ToyHasher) (toy_tree 259) 256 = Ok (from_parts 259 256 path) /\
    run_root (H := ToyHasher) (build_tiles (H := ToyHasher) (leaves (toy_tree 259))) (plan_leaf plan)
    = leaf_hash (toy_tree 259) 256.
Proof. apply (plan_assembles_path (H := ToyHasher) (toy_tree 259) 256); vm_compute; intuition discriminate. Defined.

(** The planner is total and agrees with the library's: on every index and size it either plans
    exactly the tiles [tiles_for_inclusion] names, or reports the index out of range, which it
    does for no leaf of the tree. *)
Theorem plan_tiles_canonical (i : Index) (n : TreeSize) :
  in_u64 i -> in_u64 n ->
  match plan_inclusion n i with
  | Ok plan => i < n /\ tiles_for_inclusion i n = Ok (plan_tiles plan)
  | Err e => n <= i /\ e = PlanIndexOutOfRange i n
  end.
Proof.
  intros [Hi0 _] Hu. destruct (Z.le_gt_cases n i) as [Hle|Hlt].
  { unfold plan_inclusion. by rewrite (proj2 (Z.leb_le _ _)). }
  destruct (plan_inclusion_ok (H := ToyHasher) i n) as (leaf & steps & -> & Hleaf & Hs); [lia|done|].
  destruct Hu as [Hu0 Hu1]. split; [done|].
  destruct (inclusion_ranges_good i n) as [Ha Hb]; [lia..|].
  destruct (push_tiles_ok n _ [] Ha Hb) as (coords & Hp & _); [by split|].
  unfold tiles_for_inclusion. rewrite (proj2 (Z.leb_gt _ _)), Hp by lia.
  apply push_tiles_coords in Hp. rewrite Hp. unfold plan_tiles. cbn [plan_leaf plan_steps app].
  rewrite (steps_coords _ _ _ Hs), (run_of_coord _ _ _ Hleaf).
  rewrite (merge_sort_tiles (tile_of n (Subtree_new i (i + 1)) :: map (tile_of n) (blocks_of (sibs 64 0 n i)))
    (map (tile_of n) (inclusion_ranges i n))); [done|].
  unfold inclusion_ranges. cbn [map]. f_equiv. apply Permutation_map, sibs_blocks; lia.
Qed.

Lemma plan_tiles_canonical_witness :
  match plan_inclusion 70000 300 with
  | Ok plan => 300 < 70000 /\ tiles_for_inclusion 300 70000 = Ok (plan_tiles plan)
  | Err e => 70000 <= 300 /\ e = PlanIndexOutOfRange 300 70000
  end.
Proof. apply (plan_tiles_canonical 300 70000); vm_compute; intuition discriminate. Defined.
