(* ===== verification/KV.v ===== *)
(** * The replicated key-value store

    [cloud-types/src/replicated_kv.rs] and [cloud-types/src/errors.rs]: values, conditions, update
    expressions, transactions and errors; [cloud-memory/src/replicated_kv.rs]: the in-memory
    backend, whose mutex makes every operation one atomic step on the map of items. An operation
    is a function from the items to its result and the items it leaves.

    The text of an error's [reason] is not modelled: [Reason] names the message and what it
    interpolates. *)

From stdpp Require Import gmap.
From S2P Require Import Prelude BTree.

Local Open Scope mtc_scope.
Local Open Scope Z_scope.

(** ** Data *)

(** [Key], a newtype over [String]. *)
Definition Key : Type := string.

(** [Value]; a [BTreeMap<String, Value>] is a finite map. *)
Inductive Value :=
| VBool (b : bool)
| VU64 (n : Z)
| VString (s : string)
| VBytes (bs : list byte)
| VMap (m : gmap string Value).

#[export] Instance value_eq_dec : EqDecision Value.
Proof.
  refine (fix go (x y : Value) : Decision (x = y) :=
    let _ : EqDecision Value := @go in
    match x, y with
    | VBool a, VBool b => cast_if (decide (a = b))
    | VU64 a, VU64 b => cast_if (decide (a = b))
    | VString a, VString b => cast_if (decide (a = b))
    | VBytes a, VBytes b => cast_if (decide (a = b))
    | VMap a, VMap b => cast_if (decide (a = b))
    | _, _ => right _
    end); clear dependent go; abstract congruence.
Defined.

(** [Item]. *)
Record Item := MkItem { item_key : Key; item_value : Value }.

(** The messages of [ConditionFailed] and of a backend's transport errors. *)
Inductive Reason :=
| ItemAlreadyExists
| ItemDoesNotExist
| AttributeDidNotMatch (attribute : string)
| RequiresMap
| WouldOverflowU64 (attribute : string)
| NotAU64Attribute (attribute : string)
| KeyDoesNotExist (key : Key)
| RetainedUntil (key : Key) (retain_until : Z)
| RetentionForwardOnly (key : Key) (current requested : Z)
| OtherReason (s : string).

(** [CloudError]. *)
Inductive CloudError :=
| NotFound (key : string)
| AlreadyExists (key : string)
| ConditionFailed (reason : Reason)
| RetentionViolation (reason : Reason)
| Transport (retryable : bool) (reason : Reason).

(** [CloudError::is_retryable]. *)
Definition is_retryable (e : CloudError) : bool :=
  match e with Transport true _ => true | _ => false end.

(** [CloudError::is_precondition_failure]. *)
Definition is_precondition_failure (e : CloudError) : bool :=
  match e with AlreadyExists _ | ConditionFailed _ => true | _ => false end.

(** [Condition]. *)
Inductive Condition :=
| NotExists
| Exists
| AttributeEquals (attribute : string) (expected : Value).

(** [UpdateAction]. *)
Inductive UpdateAction :=
| SetAttribute (attribute : string) (value : Value)
| Increment (attribute : string) (by_ : Z)
| Remove (attribute : string).

(** [UpdateExpression] and its builder. *)
Definition UpdateExpression : Type := list UpdateAction.
Definition update_new : UpdateExpression := [].
Definition update_set (e : UpdateExpression) (attribute : string) (value : Value) : UpdateExpression :=
  e ++ [SetAttribute attribute value].
Definition update_increment (e : UpdateExpression) (attribute : string) (by_ : Z) : UpdateExpression :=
  e ++ [Increment attribute by_].
Definition update_remove (e : UpdateExpression) (attribute : string) : UpdateExpression :=
  e ++ [Remove attribute].

(** [Operation]. *)
Inductive Operation :=
| Put (key : Key) (value : Value) (conditions : list Condition)
| Update (key : Key) (expr : UpdateExpression) (conditions : list Condition)
| Delete (key : Key) (conditions : list Condition)
| ConditionCheck (key : Key) (conditions : list Condition).

(** ** The in-memory backend *)

(** The mutex-protected map of [MemoryReplicatedKv]. *)
Definition Items : Type := gmap Key Value.

Definition memory_new : Items := ∅.

(** [attribute_value]: the empty attribute names the whole value. *)
Definition attribute_value (value : option Value) (attribute : string) : option Value :=
  match value with
  | None => None
  | Some v =>
      if String.eqb attribute "" then Some v
      else match v with
           | VMap m => m !! attribute
           | _ => None
           end
  end.

(** One turn of the loop of [check_conditions]. *)
Definition check_condition (value : option Value) (c : Condition) : result unit CloudError :=
  match c with
  | NotExists =>
      match value with Some _ => Err (ConditionFailed ItemAlreadyExists) | None => Ok tt end
  | Exists =>
      match value with Some _ => Ok tt | None => Err (ConditionFailed ItemDoesNotExist) end
  | AttributeEquals attribute expected =>
      if decide (attribute_value value attribute = Some expected) then Ok tt
      else Err (ConditionFailed (AttributeDidNotMatch attribute))
  end.

(** [check_conditions]. *)
Fixpoint check_conditions (value : option Value) (conditions : list Condition)
  : result unit CloudError :=
  match conditions with
  | [] => Ok tt
  | c :: rest =>
      let? _u := check_condition value c in
      check_conditions value rest
  end.

(** One turn of the loop of [apply_update_actions]. *)
Definition apply_action (m : gmap string Value) (action : UpdateAction)
  : result (gmap string Value) CloudError :=
  match action with
  | SetAttribute attribute value => Ok (<[attribute := value]> m)
  | Increment attribute by_ =>
      match m !! attribute with
      | Some (VU64 current) =>
          let? next := ok_or (checked_add 64 current by_)
                             (ConditionFailed (WouldOverflowU64 attribute)) in
          Ok (<[attribute := VU64 next]> m)
      | _ => Err (ConditionFailed (NotAU64Attribute attribute))
      end
  | Remove attribute => Ok (delete attribute m)
  end.

Fixpoint apply_actions (m : gmap string Value) (actions : list UpdateAction)
  : result (gmap string Value) CloudError :=
  match actions with
  | [] => Ok m
  | a :: rest => let? m' := apply_action m a in apply_actions m' rest
  end.

(** [apply_update_actions]. *)
Definition apply_update_actions (existing : Value) (expr : UpdateExpression)
  : result Value CloudError :=
  match existing with
  | VMap m => let? m' := apply_actions m expr in Ok (VMap m')
  | _ => Err (ConditionFailed RequiresMap)
  end.

(** [PlannedWrite]. *)
Inductive PlannedWrite :=
| PlanPut (key : Key) (value : Value)
| PlanDelete (key : Key)
| PlanNoOp.

Definition write_state {S E} (s : S) : M S E unit := fun _ => (Ok tt, s).

(** [get]. *)
Definition get (key : Key) : M Items CloudError Item :=
  let! items := read_state in
  lift (ok_or (MkItem key <$> items !! key) (NotFound key)).

(** [put]. *)
Definition put (key : Key) (value : Value) (conditions : list Condition) : M Items CloudError unit :=
  let! items := read_state in
  do! lift (check_conditions (items !! key) conditions);
  write_state (<[key := value]> items).

(** [atomic_update]. *)
Definition atomic_update (key : Key) (expr : UpdateExpression) (conditions : list Condition)
  : M Items CloudError Item :=
  let! items := read_state in
  let! existing := lift (ok_or (items !! key) (NotFound key)) in
  do! lift (check_conditions (Some existing) conditions);
  let! updated := lift (apply_update_actions existing expr) in
  do! write_state (<[key := updated]> items);
  ret (MkItem key updated).

(** The body of [transact]'s validation loop. *)
Definition plan_op (items : Items) (op : Operation) : result PlannedWrite CloudError :=
  match op with
  | Put key value conditions =>
      let? _u := check_conditions (items !! key) conditions in
      Ok (PlanPut key value)
  | Update key expr conditions =>
      let? _u := check_conditions (items !! key) conditions in
      let? existing := ok_or (items !! key) (ConditionFailed (KeyDoesNotExist key)) in
      let? updated := apply_update_actions existing expr in
      Ok (PlanPut key updated)
  | Delete key conditions =>
      let? _u := check_conditions (items !! key) conditions in
      Ok (PlanDelete key)
  | ConditionCheck key conditions =>
      let? _u := check_conditions (items !! key) conditions in
      Ok PlanNoOp
  end.

(** Pass 1 of [transact]: every operation against the same snapshot. *)
Fixpoint plan_ops (items : Items) (ops : list Operation) : result (list PlannedWrite) CloudError :=
  match ops with
  | [] => Ok []
  | op :: rest =>
      let? step := plan_op items op in
      let? steps := plan_ops items rest in
      Ok (step :: steps)
  end.

(** The body of [transact]'s second loop. *)
Definition apply_write (items : Items) (w : PlannedWrite) : Items :=
  match w with
  | PlanPut key value => <[key := value]> items
  | PlanDelete key => delete key items
  | PlanNoOp => items
  end.

(** [transact]. *)
Definition transact (ops : list Operation) : M Items CloudError unit :=
  let! items := read_state in
  let! planned := lift (plan_ops items ops) in
  write_state (fold_left apply_write planned items).

(** [query]. *)
Definition query (prefix : string) : M Items CloudError (list Item) :=
  let! items := read_state in
  ret ((fun kv : Key * Value => MkItem kv.1 kv.2) <$> btree_with_prefix prefix items).
