(* ===== verification/KVContract.v ===== *)
(** * The contract of [ReplicatedKv]

    What the trait's documentation promises, stated without the code that keeps it: a condition is a
    proposition about the stored value, an update a function of each attribute alone, a
    transaction all or nothing. [kv_step] adds what a remote backend may do besides: fail in
    transport, before or after the operation took effect. [applied] also settles two operations of one
    transaction on one key, of which the documentation does not say what the backends do; [documented] is
    the documentation for all other calls, and the in-memory backend is shown to keep both. The lease
    protocol is proved against [kv_step] alone. *)

From stdpp Require Import gmap sorting.
From S2P Require Import Prelude BTree KV.

Local Open Scope mtc_scope.
Local Open Scope Z_scope.

(** ** The operations as calls *)

Inductive Call : Type -> Type :=
| CGet (key : Key) : Call Item
| CPut (key : Key) (value : Value) (conditions : list Condition) : Call unit
| CUpdate (key : Key) (expr : UpdateExpression) (conditions : list Condition) : Call Item
| CTransact (ops : list Operation) : Call unit
| CQuery (prefix : string) : Call (list Item).

(** The in-memory backend's answer to a call. *)
Definition memory {A} (c : Call A) : M Items CloudError A :=
  match c with
  | CGet k => get k
  | CPut k v cs => put k v cs
  | CUpdate k e cs => atomic_update k e cs
  | CTransact ops => transact ops
  | CQuery p => query p
  end.

(** ** The specification *)

Definition holds (value : option Value) (c : Condition) : Prop :=
  match c with
  | NotExists => value = None
  | Exists => is_Some value
  | AttributeEquals a expected => attribute_value value a = Some expected
  end.

(** What the actions make of attribute [a]: actions on other attributes do not matter. [None] when
    an increment finds no integer or overflows. *)
Fixpoint attr_after (a : string) (v : option Value) (actions : list UpdateAction)
  : option (option Value) :=
  match actions with
  | [] => Some v
  | SetAttribute b x :: rest => attr_after a (if decide (a = b) then Some x else v) rest
  | Remove b :: rest => attr_after a (if decide (a = b) then None else v) rest
  | Increment b n :: rest =>
      if decide (a = b) then
        match v with
        | Some (VU64 c) =>
            if decide (c + n < 2 ^ 64) then attr_after a (Some (VU64 (c + n))) rest else None
        | _ => None
        end
      else attr_after a v rest
  end.

(** [updates v expr v']: [expr] turns the stored [v] into [v']. *)
Definition updates (v : Value) (expr : UpdateExpression) (v' : Value) : Prop :=
  exists m m', v = VMap m /\ v' = VMap m' /\
    forall a, attr_after a (m !! a) expr = Some (m' !! a).

(** What an operation of a transaction asks of the items, and what it writes: [updates] reads the
    items as they were before the transaction. *)
Definition op_enabled (m : Items) (op : Operation) : Prop :=
  match op with
  | Put k _ cs | Delete k cs | ConditionCheck k cs => Forall (holds (m !! k)) cs
  | Update k expr cs =>
      Forall (holds (m !! k)) cs /\ exists v v', m !! k = Some v /\ updates v expr v'
  end.

Definition op_writes (m : Items) (op : Operation) (w : option (Key * option Value)) : Prop :=
  match op with
  | Put k v _ => w = Some (k, Some v)
  | Delete k _ => w = Some (k, None)
  | ConditionCheck _ _ => w = None
  | Update k expr _ => exists v v', m !! k = Some v /\ updates v expr v' /\ w = Some (k, Some v')
  end.

Definition op_key (op : Operation) : Key :=
  match op with Put k _ _ | Update k _ _ | Delete k _ | ConditionCheck k _ => k end.

Definition perform (m : Items) (w : option (Key * option Value)) : Items :=
  match w with
  | Some (k, v) => partial_alter (fun _ => v) k m
  | None => m
  end.

Definition refused {A} (r : result A CloudError) : Prop :=
  exists reason, r = Err (ConditionFailed reason).

Definition key_lt (a b : Item) : Prop :=
  String.le (item_key a) (item_key b) /\ item_key a <> item_key b.

(** The operation took place, atomically. *)
Definition applied (m : Items) {A} (c : Call A) : result A CloudError -> Items -> Prop :=
  match c in Call A return result A CloudError -> Items -> Prop with
  | CGet k => fun r m' =>
      m' = m /\ r = match m !! k with Some v => Ok (MkItem k v) | None => Err (NotFound k) end
  | CPut k v cs => fun r m' =>
      (Forall (holds (m !! k)) cs /\ r = Ok tt /\ m' = <[k := v]> m) \/
      (~ Forall (holds (m !! k)) cs /\ refused r /\ m' = m)
  | CUpdate k expr cs => fun r m' =>
      match m !! k with
      | None => r = Err (NotFound k) /\ m' = m
      | Some v =>
          (Forall (holds (Some v)) cs /\
             exists v', updates v expr v' /\ r = Ok (MkItem k v') /\ m' = <[k := v']> m) \/
          (~ (Forall (holds (Some v)) cs /\ exists v', updates v expr v') /\ refused r /\ m' = m)
      end
  | CTransact ops => fun r m' =>
      (Forall (op_enabled m) ops /\ r = Ok tt /\
         exists ws, Forall2 (op_writes m) ops ws /\ m' = fold_left perform ws m) \/
      (~ Forall (op_enabled m) ops /\ refused r /\ m' = m)
  | CQuery p => fun r m' =>
      m' = m /\ exists items, r = Ok items /\ StronglySorted key_lt items /\
        forall it, it ∈ items <->
          m !! item_key it = Some (item_value it) /\ String.prefix p (item_key it) = true
  end.

(** The answers a backend may give: the operation took place and its result arrives, or it is
    reported as a transport failure, having taken place or not. *)
Inductive kv_step (m : Items) {A} (c : Call A) : result A CloudError -> Items -> Prop :=
| kv_answered r m' : applied m c r m' -> kv_step m c r m'
| kv_response_lost r m' b reason : applied m c r m' -> kv_step m c (Err (Transport b reason)) m'
| kv_request_lost b reason : kv_step m c (Err (Transport b reason)) m.

(** ** Conditions *)

Lemma check_condition_holds v c :
  match check_condition v c with Ok _ => holds v c | Err e => (exists r, e = ConditionFailed r) /\ ~ holds v c end.
Proof.
  destruct c as [| |a e]; cbn [check_condition holds].
  - destruct v; [split; [eauto|done]|done].
  - destruct v; [done|]. split; [eauto|]. by intros [? ?].
  - case_decide; [done|]. split; [eauto|done].
Qed.

Lemma check_conditions_holds v cs :
  match check_conditions v cs with
  | Ok _ => Forall (holds v) cs
  | Err e => (exists r, e = ConditionFailed r) /\ ~ Forall (holds v) cs
  end.
Proof.
  induction cs as [|c cs IH]; cbn [check_conditions]; [constructor|].
  pose proof (check_condition_holds v c) as Hc.
  destruct (check_condition v c).
  - destruct (check_conditions v cs); [by constructor|].
    destruct IH as [? IH]. split; [done|]. by intros [_ ?]%Forall_cons.
  - destruct Hc as [? Hc]. split; [done|]. by intros [? _]%Forall_cons.
Qed.

Ltac check_cs :=
  match goal with
  | |- context [check_conditions ?v ?cs] =>
      let H := fresh "Hcs" in
      pose proof (check_conditions_holds v cs) as H;
      destruct (check_conditions v cs); [|destruct H as [[? ->] H]]
  end.

(** ** Updates *)

Lemma apply_action_attr m act a rest :
  match apply_action m act with
  | Ok m' => attr_after a (m !! a) (act :: rest) = attr_after a (m' !! a) rest
  | Err e => (exists r, e = ConditionFailed r) /\
      exists b, forall rest, attr_after b (m !! b) (act :: rest) = None
  end.
Proof.
  destruct act as [b x|b n|b]; cbn [apply_action attr_after].
  - rewrite lookup_insert. by repeat case_decide; subst.
  - destruct (m !! b) as [[|c| | |]|] eqn:Eb;
      try (split; [eauto|]; exists b; intros; rewrite decide_True, Eb by done; done).
    unfold checked_add. destruct (Z.ltb_spec (c + n) (2 ^ 64)); cbn [ok_or].
    + rewrite lookup_insert. repeat case_decide; subst; try done.
      rewrite Eb. by rewrite decide_True by done.
    + split; [eauto|]. exists b. intros. rewrite decide_True, Eb by done.
      by rewrite decide_False by lia.
  - rewrite lookup_delete. by repeat case_decide; subst.
Qed.

Lemma apply_actions_attr m expr :
  match apply_actions m expr with
  | Ok m' => forall a, attr_after a (m !! a) expr = Some (m' !! a)
  | Err e => (exists r, e = ConditionFailed r) /\ exists a, attr_after a (m !! a) expr = None
  end.
Proof.
  revert m. induction expr as [|act expr IH]; intros m; cbn [apply_actions]; [done|].
  pose proof (fun a => apply_action_attr m act a expr) as Ha.
  destruct (apply_action m act) as [m'|e].
  - specialize (IH m'). destruct (apply_actions m' expr) as [m''|e].
    + intros a. by rewrite Ha.
    + destruct IH as [? [a IH]]. split; [done|]. exists a. by rewrite Ha.
  - destruct (Ha ""%string) as [? [b Hb]]. eauto.
Qed.

Lemma apply_update_actions_spec v expr :
  match apply_update_actions v expr with
  | Ok v' => updates v expr v'
  | Err e => (exists r, e = ConditionFailed r) /\ ~ exists v', updates v expr v'
  end.
Proof.
  destruct v as [| | | |m]; cbn [apply_update_actions];
    try (split; [eauto|]; by intros (? & ? & ? & ? & ?)).
  pose proof (apply_actions_attr m expr) as Ha. destruct (apply_actions m expr) as [m'|e].
  - by exists m, m'.
  - destruct Ha as [? [a Ha]]. split; [done|].
    intros (? & ? & m' & [= <-] & _ & Hu). specialize (Hu a). congruence.
Qed.

Lemma updates_det v expr v1 v2 : updates v expr v1 -> updates v expr v2 -> v1 = v2.
Proof.
  intros (m & m1 & -> & -> & H1) (? & m2 & [= <-] & -> & H2). f_equal.
  apply map_eq. intros a. specialize (H1 a). specialize (H2 a). congruence.
Qed.

(** ** Transactions *)

Definition write_of (w : PlannedWrite) : option (Key * option Value) :=
  match w with
  | PlanPut k v => Some (k, Some v)
  | PlanDelete k => Some (k, None)
  | PlanNoOp => None
  end.

Lemma apply_write_perform m w : apply_write m w = perform m (write_of w).
Proof. by destruct w. Qed.

Lemma fold_apply_write ws m : fold_left apply_write ws m = fold_left perform (write_of <$> ws) m.
Proof. revert m. induction ws as [|w ws IH]; intros m; csimpl; [done|]. by rewrite apply_write_perform. Qed.

Lemma plan_op_spec m op :
  match plan_op m op with
  | Ok w => op_enabled m op /\ op_writes m op (write_of w)
  | Err e => (exists r, e = ConditionFailed r) /\ ~ op_enabled m op
  end.
Proof.
  destruct op as [k v cs|k expr cs|k cs|k cs]; cbn [plan_op op_enabled op_writes write_of];
    check_cs; try (split; [by eauto|]; tauto); try done.
  destruct (m !! k) as [v|] eqn:Ek; cbn [ok_or].
  - pose proof (apply_update_actions_spec v expr) as Hu.
    destruct (apply_update_actions v expr) as [v'|e]; [naive_solver|].
    destruct Hu as [? Hu]. split; [done|]. intros [_ (? & ? & [= <-] & ?)]. eauto.
  - split; [by eauto|]. by intros [_ (? & ? & ? & ?)].
Qed.

Lemma plan_ops_spec m ops :
  match plan_ops m ops with
  | Ok ws => Forall (op_enabled m) ops /\ Forall2 (op_writes m) ops (write_of <$> ws)
  | Err e => (exists r, e = ConditionFailed r) /\ ~ Forall (op_enabled m) ops
  end.
Proof.
  induction ops as [|op ops IH]; cbn [plan_ops]; [by split; constructor|].
  pose proof (plan_op_spec m op) as Ho. destruct (plan_op m op) as [w|e].
  - destruct (plan_ops m ops) as [ws|e].
    + destruct Ho, IH. csimpl. split; by constructor.
    + destruct IH as [? IH]. split; [done|]. by intros [_ ?]%Forall_cons.
  - destruct Ho as [? Ho]. split; [done|]. by intros [? _]%Forall_cons.
Qed.

(** ** Queries *)

Definition item_of (kv : Key * Value) : Item := MkItem kv.1 kv.2.

Lemma query_answer (m : Items) prefix :
  let items := item_of <$> btree_with_prefix prefix m in
  StronglySorted key_lt items /\
  forall it, it ∈ items <->
    m !! item_key it = Some (item_value it) /\ String.prefix prefix (item_key it) = true.
Proof.
  cbn zeta. split.
  - eapply StronglySorted_fmap; [|apply btree_with_prefix_sorted]. done.
  - intros [k v]. rewrite list_elem_of_fmap. cbn [item_key item_value].
    rewrite <- elem_of_btree_with_prefix. split.
    + by intros ([k' v'] & [= -> ->] & Hin).
    + intros Hin. by exists (k, v).
Qed.

(** ** The in-memory backend implements the contract *)

Lemma memory_applied {A} (c : Call A) (m : Items) :
  applied m c (memory c m).1 (memory c m).2.
Proof.
  destruct c as [k|k v cs|k expr cs|ops|p]; cbn [memory applied];
    unfold get, put, atomic_update, transact, query, bind, lift, read_state, write_state, ret.
  - split; [done|]. by destruct (m !! k).
  - check_cs; cbn; [by left|right]. unfold refused. eauto.
  - destruct (m !! k) as [v|]; cbn [ok_or]; [|done].
    check_cs; cbn [fst snd]; [|right; unfold refused; naive_solver].
    pose proof (apply_update_actions_spec v expr) as Hu.
    destruct (apply_update_actions v expr) as [v'|e]; cbn [fst snd]; [left; eauto|right].
    destruct Hu as [[r ->] Hu]. unfold refused. naive_solver.
  - pose proof (plan_ops_spec m ops) as Ho. destruct (plan_ops m ops) as [ws|e]; cbn [fst snd].
    + left. destruct Ho. repeat split; [done|]. exists (write_of <$> ws).
      by rewrite <- fold_apply_write.
    + right. destruct Ho as [[r ->] Ho]. unfold refused. eauto.
  - split; [done|]. destruct (query_answer m p). eauto.
Qed.

(** The contract leaves a backend no other choice than the message of a refusal. *)
Lemma op_writes_det m op w1 w2 : op_writes m op w1 -> op_writes m op w2 -> w1 = w2.
Proof.
  destruct op; cbn [op_writes]; try congruence.
  intros (v & v1 & H1 & Hu1 & ->) (? & v2 & H2 & Hu2 & ->). simplify_eq.
  by rewrite (updates_det _ _ _ _ Hu1 Hu2).
Qed.

Lemma sorted_NoDup l : StronglySorted key_lt l -> NoDup l.
Proof.
  induction l as [|x l IH]; [constructor|]. intros [Hs Hl]%StronglySorted_inv.
  constructor; [|by apply IH]. intros Hx. rewrite Forall_forall in Hl. by destruct (Hl x Hx).
Qed.

Lemma sorted_items_unique l1 l2 :
  StronglySorted key_lt l1 -> StronglySorted key_lt l2 -> (forall it, it ∈ l1 <-> it ∈ l2) ->
  l1 = l2.
Proof.
  intros H1 H2 He. apply (StronglySorted_unique_strong key_lt); [|done..|].
  - intros x y _ _ [Hxy Hne] [Hyx _]. destruct Hne. by apply (anti_symm String.le).
  - apply NoDup_Permutation; eauto using sorted_NoDup.
Qed.

Lemma Forall2_op_writes_det m ops ws1 ws2 :
  Forall2 (op_writes m) ops ws1 -> Forall2 (op_writes m) ops ws2 -> ws1 = ws2.
Proof.
  intros H. revert ws2. induction H as [|op w ops ws Hw H IH]; intros ws2 H2; inversion H2; subst.
  - done.
  - f_equal; eauto using op_writes_det.
Qed.

Lemma applied_items {A} (c : Call A) m r1 m1 r2 m2 :
  applied m c r1 m1 -> applied m c r2 m2 -> m1 = m2.
Proof.
  destruct c; cbn [applied]; try naive_solver.
  - destruct (m !! key); [|naive_solver].
    intros [(? & v1 & Hu1 & _ & ->)|(? & _ & ->)] [(? & v2 & Hu2 & _ & ->)|(? & _ & ->)];
      [|naive_solver..].
    by rewrite (updates_det _ _ _ _ Hu1 Hu2).
  - intros [(? & _ & ws1 & Hw1 & ->)|(? & _ & ->)] [(? & _ & ws2 & Hw2 & ->)|(? & _ & ->)];
      [|naive_solver..].
    by rewrite (Forall2_op_writes_det _ _ _ _ Hw1 Hw2).
Qed.

(** A successful answer is determined too. *)
Lemma applied_Ok {A} (c : Call A) m a1 m1 r2 m2 :
  applied m c (Ok a1) m1 -> applied m c r2 m2 -> r2 = Ok a1.
Proof.
  destruct c; cbn [applied]; unfold refused.
  - intros [_ ->] [_ ->]. done.
  - naive_solver.
  - destruct (m !! key); [|naive_solver].
    intros [(? & v1 & Hu1 & [= ->] & _)|(? & [??] & _)] [(? & v2 & Hu2 & -> & _)|(? & ? & _)];
      [|naive_solver..].
    by rewrite (updates_det _ _ _ _ Hu1 Hu2).
  - naive_solver.
  - intros (_ & l1 & [= ->] & S1 & H1) (_ & l2 & -> & S2 & H2). f_equal.
    apply sorted_items_unique; [done..|]. intros it. by rewrite H1, H2.
Qed.

(** ** The trait's documentation *)

(** [applied] settles what the documentation of [transact] leaves open, what two operations on one key do
    together: the backend reads both from the items before the transaction and keeps the last one's
    write. The documentation speaks of the others: when a transaction is done, each of its writes is
    there for everyone to see and nothing else has changed; when it is refused, none is. *)
Definition names_keys_once {A} (c : Call A) : Prop :=
  match c with CTransact ops => NoDup (op_key <$> ops) | _ => True end.

Definition visible (m m' : Items) (op : Operation) : Prop :=
  exists w, op_writes m op w /\
  match w with Some (k, v) => m' !! k = v | None => m' !! op_key op = m !! op_key op end.

Definition documented (m : Items) {A} (c : Call A) : result A CloudError -> Items -> Prop :=
  match c in Call A return result A CloudError -> Items -> Prop with
  | CTransact ops => fun r m' =>
      (Forall (op_enabled m) ops /\ r = Ok tt /\ Forall (visible m m') ops /\
         forall k, k ∉ op_key <$> ops -> m' !! k = m !! k) \/
      (~ Forall (op_enabled m) ops /\ refused r /\ m' = m)
  | c => applied m c
  end.

Lemma op_writes_key m op k v : op_writes m op (Some (k, v)) -> k = op_key op.
Proof. destruct op; cbn; [congruence|naive_solver|congruence|done]. Qed.

Lemma op_enabled_writes m op : op_enabled m op -> exists w, op_writes m op w.
Proof. destruct op; cbn; naive_solver. Qed.

Lemma perform_other m w k : (forall v, w <> Some (k, v)) -> perform m w !! k = m !! k.
Proof.
  destruct w as [[k' v]|]; [|done]. intros H. cbn. apply lookup_partial_alter_ne. intros ->. by apply (H v).
Qed.

Lemma fold_perform_other m0 ops ws k : forall m,
  Forall2 (op_writes m0) ops ws -> k ∉ op_key <$> ops -> fold_left perform ws m !! k = m !! k.
Proof.
  intros m H. revert m. induction H as [|op w ops ws Hw H IH]; intros m Hk; [done|].
  csimpl in Hk. apply not_elem_of_cons in Hk as [Hne Hk]. cbn [fold_left]. rewrite IH by done.
  apply perform_other. intros v ->. by apply op_writes_key in Hw.
Qed.

(** With distinct keys every write is there at the end. *)
Lemma fold_perform_visible m0 ops ws : forall m,
  Forall2 (op_writes m0) ops ws -> NoDup (op_key <$> ops) -> (forall k, k ∈ op_key <$> ops -> m !! k = m0 !! k) ->
  Forall (visible m0 (fold_left perform ws m)) ops.
Proof.
  intros m H. revert m. induction H as [|op w ops ws Hw H IH]; intros m Hd Hm; [constructor|].
  csimpl in Hd. apply NoDup_cons in Hd as [Hn Hd]. cbn [fold_left]. constructor.
  - exists w. split; [done|]. destruct w as [[k v]|].
    + rewrite (op_writes_key _ _ _ _ Hw), (fold_perform_other m0 ops ws) by done. apply lookup_partial_alter_eq.
    + rewrite (fold_perform_other m0 ops ws) by done. cbn. apply Hm. csimpl. left.
  - apply IH; [done|]. intros k Hk. rewrite perform_other; [apply Hm; csimpl; by right|].
    intros v ->. apply op_writes_key in Hw as ->. done.
Qed.

(** So for calls that name a key once, the two say the same. *)
Lemma documented_applied {A} (c : Call A) m r m' :
  names_keys_once c -> documented m c r m' <-> applied m c r m'.
Proof.
  destruct c as [| | |ops|]; try done. cbn [names_keys_once documented applied]. intros Hd. split.
  - intros [(He & -> & Hv & Ho)|?]; [left|by right]. split_and!; [done..|].
    assert (exists ws, Forall2 (op_writes m) ops ws) as [ws Hws].
    { clear -He. induction He as [|op ops [w Hw]%op_enabled_writes _ [ws IH]]; [by exists []|].
      exists (w :: ws). by constructor. }
    exists ws. split; [done|]. pose proof (fold_perform_visible m ops ws m Hws Hd (fun _ _ => eq_refl)) as Hv'.
    apply map_eq. intros k. destruct (decide (k ∈ op_key <$> ops)) as [Hin|Hn].
    + apply list_elem_of_fmap in Hin as (op & -> & Hop). rewrite Forall_forall in Hv, Hv'.
      destruct (Hv op Hop) as (w & Hw & E), (Hv' op Hop) as (w' & Hw' & E').
      pose proof (op_writes_det _ _ _ _ Hw Hw') as <-. destruct w as [[k v]|];
        [rewrite <- (op_writes_key _ _ _ _ Hw)|]; exact (eq_trans E (eq_sym E')).
    + by rewrite (fold_perform_other m ops ws), Ho.
  - intros [(He & -> & ws & Hws & ->)|?]; [left|by right]. split_and!; [done..| |].
    + by apply fold_perform_visible.
    + intros k Hk. by apply (fold_perform_other m ops ws).
Qed.

(** Whatever the call, an error means that nothing changed. *)
Lemma applied_error {A} (c : Call A) m e m' : applied m c (Err e) m' -> m' = m.
Proof. destruct c; cbn [applied]; try naive_solver. destruct (m !! key); naive_solver. Qed.

(** C14. The in-memory backend keeps what the trait documents. For every call, transactions naming each
    key once: its answer and the items it leaves are the documented ones (a conditional put or update
    writes exactly when the conditions hold of the stored item; a transaction is done exactly when each
    of its operations can be, and then every write is visible and nothing else has changed; a query
    lists the matching items in key order), and any other store that keeps the documentation leaves the
    same items and succeeds with the same answer. And whatever the call, a transaction that names a key
    twice included, an error leaves the items as they were. *)
Theorem memory_refines {A} (c : Call A) (m : Items) :
  (names_keys_once c ->
     documented m c (memory c m).1 (memory c m).2 /\
     forall r m', documented m c r m' ->
       m' = (memory c m).2 /\ forall a, r = Ok a <-> (memory c m).1 = Ok a) /\
  (forall e, (memory c m).1 = Err e -> (memory c m).2 = m).
Proof.
  pose proof (memory_applied c m) as Hm. split.
  2: { intros e E. rewrite E in Hm. by eapply applied_error. }
  intros Hk. split; [by apply documented_applied|]. intros r m' H. apply documented_applied in H; [|done].
  split; [by eapply applied_items|]. intros a. split; intros E.
  - rewrite E in H. by eapply applied_Ok.
  - rewrite E in Hm. by eapply applied_Ok.
Qed.

(** A transfer: two counters change together, under a condition on a third item. *)
Definition transfer : list Operation :=
  [Update "a" (update_increment update_new "n" 3) []; Put "b" (VU64 1) [NotExists]; ConditionCheck "c" [Exists]].
Definition transfer_items : Items := {["a"%string := VMap {["n"%string := VU64 4]}; "c"%string := VU64 9]}.

Lemma memory_refines_witness :
  documented transfer_items (CTransact transfer) (Ok tt)
    {["a"%string := VMap {["n"%string := VU64 7]}; "b"%string := VU64 1; "c"%string := VU64 9]}.
Proof.
  assert (memory (CTransact transfer) transfer_items =
    (Ok tt, {["a"%string := VMap {["n"%string := VU64 7]}; "b"%string := VU64 1; "c"%string := VU64 9]})) as E
    by (vm_compute; reflexivity).
  pose proof (proj1 (proj1 (memory_refines (CTransact transfer) transfer_items) ltac:(by apply (bool_decide_unpack _)))) as H.
  rewrite E in H. exact H.
Defined.

(** ** The transaction's writes to one key *)

(** Two updates of one key in a transaction read the same snapshot, so only the last one's effect
    remains: two increments by one add one. So the documentation, by which all of a transaction's writes
    are seen, is not kept for a transaction that names a key twice. *)
Example transact_same_key_last_wins :
  let bump := Update "k" (update_increment update_new "n" 1) [] in
  let items := {["k"%string := VMap {["n"%string := VU64 0]}]} in
  transact [bump; bump] items = (Ok tt, {["k"%string := VMap {["n"%string := VU64 1]}]}).
Proof. vm_compute. reflexivity. Qed.
