(* ===== verification/Lease.v ===== *)
(** * The primary-region lease

    [coordination/src/protocol.rs], [coordination/src/ids.rs], [coordination/src/errors.rs]: the
    lease item, its encoding, and the coordinator's operations. An [async fn] over [Arc<dyn
    ReplicatedKv>] and [Arc<dyn Clock>] is a program: a tree that reads the clock and calls the
    store between its pure steps, each call one atomic step of the store. [run] executes a program
    alone on the in-memory backend. *)

From stdpp Require Import gmap.
From S2P Require Import Prelude Time Types KV KVContract.

Local Open Scope mtc_scope.
Local Open Scope Z_scope.

(** ** Programs *)

Inductive Prog (A : Type) : Type :=
| Done (a : A)
| Now (k : Z -> Prog A)
| Invoke {B : Type} (c : Call B) (k : result B CloudError -> Prog A).
Arguments Done {A} a.
Arguments Now {A} k.
Arguments Invoke {A B} c k.

(** [let x = p.await?; k]. *)
Fixpoint and_then {A B E} (p : Prog (result A E)) (k : A -> Prog (result B E)) : Prog (result B E) :=
  match p with
  | Done (Ok a) => k a
  | Done (Err e) => Done (Err e)
  | Now f => Now (fun t => and_then (f t) k)
  | Invoke c f => Invoke c (fun r => and_then (f r) k)
  end.

(** A program alone with the in-memory backend, its clock standing still at [t]. *)
Fixpoint run {A} (t : Z) (p : Prog A) (items : Items) : A * Items :=
  match p with
  | Done a => (a, items)
  | Now f => run t (f t) items
  | Invoke c f => let '(r, items') := memory c items in run t (f r) items'
  end.

(** ** Time *)

(** [to_unix_millis], [from_unix_millis], [duration_millis]. *)
Definition to_unix_millis (t : Z) : Z :=
  if t <? 0 then 0 else default u64_max (try_from_uint 64 (as_millis t)).
Definition from_unix_millis (ms : Z) : option Z := system_time_checked_add 0 (ms * nanos_per_milli).
Definition duration_millis (d : Z) : Z := default u64_max (try_from_uint 64 (as_millis d)).

(** [LEASE_TTL], [TAKEOVER_SAFETY_MARGIN]: one minute each. *)
Definition LEASE_TTL : Z := 60 * nanos_per_sec.
Definition TAKEOVER_SAFETY_MARGIN : Z := 60 * nanos_per_sec.

(** [takeover_eligible_millis]. *)
Definition takeover_eligible_millis (now_ms expires_at_ms safety_margin_ms : Z) : bool :=
  saturating_add 64 expires_at_ms safety_margin_ms <=? now_ms.

(** ** Identifiers and errors *)

Definition HolderId : Type := string.
Definition Region : Type := string.

Definition INITIAL_EPOCH : Epoch := 1.

Record EpochOverflow := MkEpochOverflow { overflow_current : Z }.

(** [EpochExt::checked_next]. *)
Definition checked_next (e : Epoch) : result Epoch EpochOverflow :=
  ok_or (checked_add 64 e 1) (MkEpochOverflow e).

(** What [MalformedLease]'s reason says. *)
Inductive Malformed :=
| ValueIsNotAMap
| AttributeIsNotAU64 (attr : string)
| AttributeIsNotAString (attr : string)
| AttributeIsMissing (attr : string)
| ExpiryOutsideRange.

(** [LeaseError]. *)
Inductive LeaseError :=
| LeaseHeld
| LostLease
| EpochAdvanced
| NoLease (key : string)
| MalformedLease (reason : Malformed)
| LeaseEpochOverflow (e : EpochOverflow)
| Backend (e : CloudError).

(** ** The lease item *)

Definition LEASE_SORT_KEY : string := "primary-region-lease".
Definition ATTR_REGION : string := "region".
Definition ATTR_EXPIRES_AT : string := "expires_at".
Definition ATTR_EPOCH : string := "epoch".
Definition ATTR_HOLDER_ID : string := "holder_id".

(** [lease_key]. *)
Definition lease_key (log_id : LogId) : Key :=
  ("log#" ++ String.string_of_list_byte (as_str log_id) ++ "/" ++ LEASE_SORT_KEY)%string.

(** [epoch_condition]. *)
Definition epoch_condition (epoch : Epoch) : Condition := AttributeEquals ATTR_EPOCH (VU64 epoch).

(** [Lease]. *)
Record Lease := MkLease {
  lease_region : Region;
  lease_holder_id : HolderId;
  lease_epoch : Epoch;
  lease_expires_at : Z
}.

(** [encode_lease]. *)
Definition encode_lease (region : Region) (holder : HolderId) (epoch : Epoch) (expires_at_ms : Z)
  : Value :=
  VMap (list_to_map [(ATTR_REGION, VString region); (ATTR_HOLDER_ID, VString holder);
                     (ATTR_EPOCH, VU64 epoch); (ATTR_EXPIRES_AT, VU64 expires_at_ms)]).

(** [require_u64], [require_string]. *)
Definition require_u64 (m : gmap string Value) (attr : string) : result Z LeaseError :=
  match m !! attr with
  | Some (VU64 n) => Ok n
  | Some _ => Err (MalformedLease (AttributeIsNotAU64 attr))
  | None => Err (MalformedLease (AttributeIsMissing attr))
  end.
Definition require_string (m : gmap string Value) (attr : string) : result string LeaseError :=
  match m !! attr with
  | Some (VString s) => Ok s
  | Some _ => Err (MalformedLease (AttributeIsNotAString attr))
  | None => Err (MalformedLease (AttributeIsMissing attr))
  end.

(** [decode_lease]. *)
Definition decode_lease (item : Item) : result Lease LeaseError :=
  match item_value item with
  | VMap m =>
      let? region := require_string m ATTR_REGION in
      let? holder_id := require_string m ATTR_HOLDER_ID in
      let? epoch := require_u64 m ATTR_EPOCH in
      let? expires_at_ms := require_u64 m ATTR_EXPIRES_AT in
      let? expires_at := ok_or (from_unix_millis expires_at_ms) (MalformedLease ExpiryOutsideRange) in
      Ok (MkLease region holder_id epoch expires_at)
  | _ => Err (MalformedLease ValueIsNotAMap)
  end.

(** ** The coordinator *)

(** [LeaseCoordinator], without the store and the clock it calls. *)
Record LeaseCoordinator := MkCoordinator {
  co_key : Key;
  co_identity : HolderId;
  co_region : Region
}.

(** [LeaseCoordinator::new]. *)
Definition coordinator_new (log_id : LogId) (identity : HolderId) (region : Region)
  : LeaseCoordinator :=
  MkCoordinator (lease_key log_id) identity region.

(** [own_lease]. *)
Definition own_lease (co : LeaseCoordinator) (epoch : Epoch) (expires_at_ms : Z)
  : result Lease LeaseError :=
  let? expires_at := ok_or (from_unix_millis expires_at_ms) (MalformedLease ExpiryOutsideRange) in
  Ok (MkLease (co_region co) (co_identity co) epoch expires_at).

(** [read_lease]. *)
Definition read_lease (co : LeaseCoordinator) : Prog (result Lease LeaseError) :=
  Invoke (CGet (co_key co)) (fun r => Done
    match r with
    | Ok item => decode_lease item
    | Err (NotFound key) => Err (NoLease key)
    | Err other => Err (Backend other)
    end).

(** The answer to [acquire]'s insert. *)
Definition acquire_result (co : LeaseCoordinator) (expires_at_ms : Z) (r : result unit CloudError)
  : result Lease LeaseError :=
  match r with
  | Ok _ => own_lease co INITIAL_EPOCH expires_at_ms
  | Err (ConditionFailed _) => Err LeaseHeld
  | Err other => Err (Backend other)
  end.

(** [acquire]. *)
Definition acquire (co : LeaseCoordinator) : Prog (result Lease LeaseError) :=
  Now (fun now =>
  let expires_at_ms := saturating_add 64 (to_unix_millis now) (duration_millis LEASE_TTL) in
  let value := encode_lease (co_region co) (co_identity co) INITIAL_EPOCH expires_at_ms in
  Invoke (CPut (co_key co) value [NotExists]) (fun r => Done (acquire_result co expires_at_ms r))).

(** The answer to the conditional update of [renew] and [claim_lease]: [lost] is the error of a
    failed condition. *)
Definition update_result (lost : LeaseError) (r : result Item CloudError) : result Lease LeaseError :=
  match r with
  | Ok item => decode_lease item
  | Err (ConditionFailed _) => Err lost
  | Err (NotFound key) => Err (NoLease key)
  | Err other => Err (Backend other)
  end.

(** The conditions and the update of [renew]. *)
Definition renew_conditions (co : LeaseCoordinator) (epoch : Epoch) : list Condition :=
  [AttributeEquals ATTR_HOLDER_ID (VString (co_identity co)); epoch_condition epoch].
Definition renew_expr (expires_at_ms : Z) : UpdateExpression :=
  update_set update_new ATTR_EXPIRES_AT (VU64 expires_at_ms).

(** [renew]. *)
Definition renew (co : LeaseCoordinator) (epoch : Epoch) : Prog (result Lease LeaseError) :=
  Now (fun now =>
  let expires_at_ms := saturating_add 64 (to_unix_millis now) (duration_millis LEASE_TTL) in
  Invoke (CUpdate (co_key co) (renew_expr expires_at_ms) (renew_conditions co epoch))
         (fun r => Done (update_result LostLease r))).

(** The update of [claim_lease]. *)
Definition claim_expr (co : LeaseCoordinator) (next_epoch : Epoch) (expires_at_ms : Z)
  : UpdateExpression :=
  update_set (update_set (update_set (update_set update_new
    ATTR_EPOCH (VU64 next_epoch))
    ATTR_HOLDER_ID (VString (co_identity co)))
    ATTR_REGION (VString (co_region co)))
    ATTR_EXPIRES_AT (VU64 expires_at_ms).

(** The steps of [claim_lease] after it has read the current lease. *)
Definition claim_current (co : LeaseCoordinator) (current : Lease) : Prog (result Lease LeaseError) :=
  Now (fun now =>
  let now_ms := to_unix_millis now in
  let expires_at_ms := to_unix_millis (lease_expires_at current) in
  if negb (takeover_eligible_millis now_ms expires_at_ms (duration_millis TAKEOVER_SAFETY_MARGIN))
  then Done (Err LeaseHeld)
  else match checked_next (lease_epoch current) with
       | Err e => Done (Err (LeaseEpochOverflow e))
       | Ok next_epoch =>
           let new_expires_at_ms := saturating_add 64 now_ms (duration_millis LEASE_TTL) in
           Invoke (CUpdate (co_key co) (claim_expr co next_epoch new_expires_at_ms)
                           [epoch_condition (lease_epoch current)])
                  (fun r => Done (update_result EpochAdvanced r))
       end).

(** [claim_lease]. *)
Definition claim_lease (co : LeaseCoordinator) : Prog (result Lease LeaseError) :=
  and_then (read_lease co) (claim_current co).

(** ** Many coordinators

    Operations of any number of coordinators of one lease, interleaved call by call with each
    other and with other clients of the store. Clocks are not synchronised: a reading is any time.
    A read may be stale: it may return the item any earlier store held. *)

(** The operation a caller asked for. *)
Inductive Request :=
| Read
| Acquire
| Renew (epoch : Epoch)
| Claim.

Definition program (co : LeaseCoordinator) (req : Request) : Prog (result Lease LeaseError) :=
  match req with
  | Read => read_lease co
  | Acquire => acquire co
  | Renew epoch => renew co epoch
  | Claim => claim_lease co
  end.

(** An operation under way: what is left of its program. *)
Record Task := MkTask {
  task_co : LeaseCoordinator;
  task_request : Request;
  task_rest : Prog (result Lease LeaseError)
}.

(** The store, the stores before it, and every operation ever started, in order. *)
Record World := MkWorld {
  w_items : Items;
  w_past : list Items;
  w_tasks : list Task
}.

(** One step; [k] is the lease's key. Other clients call the store as they like, but leave the
    lease item alone. *)
Inductive step (k : Key) : World -> World -> Prop :=
| step_start items past tasks co req :
    co_key co = k ->
    step k (MkWorld items past tasks)
           (MkWorld items past (tasks ++ [MkTask co req (program co req)]))
| step_now items past tasks i co req f t :
    tasks !! i = Some (MkTask co req (Now f)) ->
    step k (MkWorld items past tasks) (MkWorld items past (<[i := MkTask co req (f t)]> tasks))
| step_call items past tasks i co req B (c : Call B) f r items' :
    tasks !! i = Some (MkTask co req (Invoke c f)) ->
    kv_step items c r items' ->
    step k (MkWorld items past tasks)
           (MkWorld items' (items :: past) (<[i := MkTask co req (f r)]> tasks))
| step_stale items past tasks i co req key f r old :
    tasks !! i = Some (MkTask co req (Invoke (CGet key) f)) ->
    old ∈ past ->
    kv_step old (CGet key) r old ->
    step k (MkWorld items past tasks) (MkWorld items past (<[i := MkTask co req (f r)]> tasks))
| step_other items past tasks B (c : Call B) r items' :
    kv_step items c r items' ->
    items' !! k = items !! k ->
    step k (MkWorld items past tasks) (MkWorld items' (items :: past) tasks).

(** Before the first lease: no lease item, nothing under way. *)
Inductive initial (k : Key) : World -> Prop :=
| initial_world items : items !! k = None -> initial k (MkWorld items [] []).

Definition steps (k : Key) : World -> World -> Prop := rtc (step k).

Definition reachable (k : Key) (w : World) : Prop := exists w0, initial k w0 /\ steps k w0 w.

(** The lease of a store, the epoch it stands at ([0] before the first lease), and the lease an
    operation that changes the holder returned. *)
Definition lease_at (k : Key) (items : Items) : option Lease :=
  v ← items !! k; ok (decode_lease (MkItem k v)).

Definition epoch_at (k : Key) (items : Items) : Epoch :=
  from_option lease_epoch 0 (lease_at k items).

Definition granted (t : Task) : option Lease :=
  match task_request t, task_rest t with
  | (Acquire | Claim), Done (Ok l) => Some l
  | _, _ => None
  end.
