(* ===== verification/LeaseFacts.v ===== *)
(** * Facts about the lease protocol

    Encoding of the lease item, what each operation does to it, and the safety of any
    interleaving: the epoch only grows and names one holder, each epoch is granted once, and a
    write that carries an old epoch does nothing. Everything is proved against the store's
    contract, with lost requests, lost answers and stale reads. *)

From stdpp Require Import gmap.
From S2P Require Import Prelude Time Types KV KVContract Lease.

Local Open Scope mtc_scope.
Local Open Scope Z_scope.

(** ** Time *)

Lemma from_unix_millis_Some ms : ms <= u64_max -> from_unix_millis ms = Some (ms * nanos_per_milli).
Proof.
  intros H. unfold from_unix_millis, system_time_checked_add, nanos_per_milli, nanos_per_sec, u64_max in *.
  destruct (Z.ltb_spec (0 + ms * 10 ^ 6) (2 ^ 63 * 10 ^ 9)); [f_equal; lia|lia].
Qed.

Lemma to_from_unix_millis ms : in_u64 ms -> to_unix_millis (ms * nanos_per_milli) = ms.
Proof.
  intros [H0 H]. unfold to_unix_millis, as_millis, nanos_per_milli.
  destruct (Z.ltb_spec (ms * 10 ^ 6) 0); [lia|]. rewrite Z.div_mul by lia.
  unfold try_from_uint. destruct (Z.leb_spec 0 ms), (Z.ltb_spec ms (2 ^ 64)); try lia. done.
Qed.

Lemma to_unix_millis_range t : in_u64 (to_unix_millis t).
Proof.
  unfold to_unix_millis, in_uint. destruct (t <? 0); [lia|]. unfold try_from_uint.
  destruct (Z.leb_spec 0 (as_millis t)), (Z.ltb_spec (as_millis t) (2 ^ 64));
    cbn [andb default from_option id]; unfold u64_max; lia.
Qed.

Lemma saturating_add_range a b : in_u64 a -> 0 <= b -> in_u64 (saturating_add 64 a b).
Proof. unfold in_uint, saturating_add. lia. Qed.

Lemma ttl_millis : duration_millis LEASE_TTL = 60000.
Proof. reflexivity. Qed.
Lemma margin_millis : duration_millis TAKEOVER_SAFETY_MARGIN = 60000.
Proof. reflexivity. Qed.

(** The expiry written at clock reading [now]. *)
Definition expiry_at (now : Z) : Z := saturating_add 64 (to_unix_millis now) 60000.

Lemma expiry_at_range now : in_u64 (expiry_at now).
Proof. apply saturating_add_range; [apply to_unix_millis_range|lia]. Qed.

(** ** The lease item *)

(** The item's attributes, with the expiry in milliseconds. *)
Record has_lease (m : gmap string Value) (r : Region) (h : HolderId) (e : Epoch) (x : Z) : Prop := {
  has_region : m !! ATTR_REGION = Some (VString r);
  has_holder : m !! ATTR_HOLDER_ID = Some (VString h);
  has_epoch : m !! ATTR_EPOCH = Some (VU64 e);
  has_expiry : m !! ATTR_EXPIRES_AT = Some (VU64 x)
}.

Lemma require_u64_Ok m a n : require_u64 m a = Ok n <-> m !! a = Some (VU64 n).
Proof. unfold require_u64. destruct (m !! a) as [[]|]; naive_solver. Qed.

Lemma require_string_Ok m a s : require_string m a = Ok s <-> m !! a = Some (VString s).
Proof. unfold require_string. destruct (m !! a) as [[]|]; naive_solver. Qed.

Lemma decode_lease_Ok it l :
  decode_lease it = Ok l <->
  exists m x, item_value it = VMap m /\ from_unix_millis x = Some (lease_expires_at l) /\
    has_lease m (lease_region l) (lease_holder_id l) (lease_epoch l) x.
Proof.
  unfold decode_lease. destruct (item_value it) as [| | | |m]; try naive_solver.
  split.
  - destruct (require_string m ATTR_REGION) as [r|] eqn:Er; [|done].
    destruct (require_string m ATTR_HOLDER_ID) as [h|] eqn:Eh; [|done].
    destruct (require_u64 m ATTR_EPOCH) as [e|] eqn:Ee; [|done].
    destruct (require_u64 m ATTR_EXPIRES_AT) as [x|] eqn:Ex; [|done].
    destruct (from_unix_millis x) as [t|] eqn:Et; cbn [ok_or]; [|done].
    intros [= <-]. exists m, x. split; [done|]. split; [done|].
    rewrite require_string_Ok in Er, Eh. rewrite require_u64_Ok in Ee, Ex. done.
  - intros (? & x & [= <-] & Ht & []).
    rewrite (proj2 (require_string_Ok m _ _) has_region0), (proj2 (require_string_Ok m _ _) has_holder0),
      (proj2 (require_u64_Ok m _ _) has_epoch0), (proj2 (require_u64_Ok m _ _) has_expiry0), Ht.
    by destruct l.
Qed.

Lemma decode_has_lease k m r h e x :
  has_lease m r h e x -> x <= u64_max ->
  decode_lease (MkItem k (VMap m)) = Ok (MkLease r h e (x * nanos_per_milli)).
Proof. intros H Hx. apply decode_lease_Ok. exists m, x. split; [done|]. split; [by apply from_unix_millis_Some|done]. Qed.

Lemma encode_has_lease r h e x : exists m, encode_lease r h e x = VMap m /\ has_lease m r h e x.
Proof. eexists. split; [reflexivity|]. split; reflexivity. Qed.

Lemma lease_at_Some k items v l :
  items !! k = Some v -> decode_lease (MkItem k v) = Ok l -> lease_at k items = Some l.
Proof. intros Hv Hl. unfold lease_at. rewrite Hv. cbn. by rewrite Hl. Qed.

Lemma lease_at_inv k items l :
  lease_at k items = Some l -> exists v, items !! k = Some v /\ decode_lease (MkItem k v) = Ok l.
Proof.
  unfold lease_at. destruct (items !! k) as [v|]; cbn; [|done].
  destruct (decode_lease (MkItem k v)) eqn:E; cbn; [|done]. intros [= <-]. eauto.
Qed.

Lemma lease_at_same k items items' : items' !! k = items !! k -> lease_at k items' = lease_at k items.
Proof. unfold lease_at. by intros ->. Qed.

(** ** The updates of [renew] and [claim_lease] *)

Ltac at_attr Hu a H :=
  pose proof (Hu a) as H; cbn [attr_after update_set update_new app renew_expr claim_expr] in H;
  repeat first [rewrite decide_True in H by done | rewrite decide_False in H by done];
  apply Some_inj in H; symmetry in H.

Lemma renew_updates m r h e x x' v' :
  has_lease m r h e x -> updates (VMap m) (renew_expr x') v' ->
  exists m', v' = VMap m' /\ has_lease m' r h e x'.
Proof.
  intros [] (? & m' & [= <-] & -> & Hu). exists m'. split; [done|].
  at_attr Hu ATTR_REGION H1. at_attr Hu ATTR_HOLDER_ID H2. at_attr Hu ATTR_EPOCH H3.
  at_attr Hu ATTR_EXPIRES_AT H4. split; congruence.
Qed.

Lemma claim_updates v co e x v' :
  updates v (claim_expr co e x) v' ->
  exists m', v' = VMap m' /\ has_lease m' (co_region co) (co_identity co) e x.
Proof.
  intros (? & m' & -> & -> & Hu). exists m'. split; [done|].
  at_attr Hu ATTR_REGION H1. at_attr Hu ATTR_HOLDER_ID H2. at_attr Hu ATTR_EPOCH H3.
  at_attr Hu ATTR_EXPIRES_AT H4. by split.
Qed.

Lemma epoch_condition_holds m r h e x e' :
  has_lease m r h e x -> holds (Some (VMap m)) (epoch_condition e') -> e' = e.
Proof. intros [] H. cbn in H. congruence. Qed.

(** ** What a call does to the lease *)

(** A well-formed store: no lease item, or one that decodes and whose epoch has started. *)
Definition wf (k : Key) (items : Items) : Prop :=
  items !! k = None \/ exists l, lease_at k items = Some l /\ 1 <= lease_epoch l.

(** Who holds the lease, and at which epoch. *)
Definition term (l : Lease) : Region * HolderId * Epoch :=
  (lease_region l, lease_holder_id l, lease_epoch l).

(** How a step may change the lease; [g] is the lease it grants to its caller. *)
Inductive moves (k : Key) (items items' : Items) (g : option Lease) : Prop :=
| untouched : items' !! k = items !! k -> g = None -> moves k items items' g
| renewed l l' :
    lease_at k items = Some l -> lease_at k items' = Some l' -> term l' = term l -> g = None ->
    moves k items items' g
| advanced l' :
    lease_at k items' = Some l' -> epoch_at k items + 1 = lease_epoch l' ->
    (forall l, g = Some l -> l = l') -> moves k items items' g.

Lemma epoch_at_Some k items l : lease_at k items = Some l -> epoch_at k items = lease_epoch l.
Proof. unfold epoch_at. by intros ->. Qed.

Lemma epoch_at_None k items : items !! k = None -> epoch_at k items = 0.
Proof. unfold epoch_at, lease_at. by intros ->. Qed.

Lemma wf_epoch k items : wf k items -> 0 <= epoch_at k items.
Proof.
  intros [H|(l & H & ?)]; [by rewrite epoch_at_None|]. rewrite (epoch_at_Some _ _ _ H). lia.
Qed.

Lemma moves_wf k items items' g : wf k items -> moves k items items' g -> wf k items'.
Proof.
  intros Hwf [E _|l l' Hl Hl' Ht _|l' Hl' He _]; unfold wf in *.
  - by rewrite E, (lease_at_same _ _ _ E).
  - right. exists l'. split; [done|]. unfold term in Ht.
    destruct Hwf as [Hn|(l0 & H0 & ?)]; [unfold lease_at in Hl; by rewrite Hn in Hl|].
    simplify_eq. lia.
  - right. exists l'. split; [done|]. pose proof (wf_epoch k items Hwf). lia.
Qed.

Lemma moves_epoch k items items' g : moves k items items' g -> epoch_at k items <= epoch_at k items'.
Proof.
  intros [E _|l l' Hl Hl' Ht _|l' Hl' He _].
  - unfold epoch_at. by rewrite (lease_at_same _ _ _ E).
  - unfold term in Ht. rewrite (epoch_at_Some _ _ _ Hl), (epoch_at_Some _ _ _ Hl'). simplify_eq. lia.
  - rewrite (epoch_at_Some _ _ _ Hl'). lia.
Qed.

(** A call that is refused or lost does nothing; a successful one is [applied]. *)
Lemma kv_step_cases items {B} (c : Call B) r items' :
  kv_step items c r items' ->
  (items' = items /\ forall b, r <> Ok b) \/
  (exists r', applied items c r' items' /\ (r = r' \/ forall b, r <> Ok b)).
Proof. intros [?? H|? ? ? ? H|]; [right; eauto| |left; done]. right. eexists. split; [done|]. by right. Qed.

Lemma refused_not_Ok {A} (r : result A CloudError) a : refused r -> r <> Ok a.
Proof. by intros [? ->]. Qed.

Lemma acquire_effect co x items r items' :
  kv_step items (CPut (co_key co) (encode_lease (co_region co) (co_identity co) INITIAL_EPOCH x)
                      [NotExists]) r items' ->
  x <= u64_max ->
  moves (co_key co) items items' (ok (acquire_result co x r)).
Proof.
  intros Hs Hx.
  assert (Hok : forall l, ok (acquire_result co x r) = Some l ->
            r = Ok tt /\ l = MkLease (co_region co) (co_identity co) INITIAL_EPOCH (x * nanos_per_milli)).
  { intros l. destruct r as [[]|[]]; cbn; try done. unfold own_lease.
    rewrite from_unix_millis_Some by done. cbn. intros [= <-]. done. }
  assert (Hno : r <> Ok tt -> ok (acquire_result co x r) = None).
  { intros Hne. destruct (ok _) as [l|] eqn:E; [|done]. by destruct (Hok l eq_refl). }
  apply kv_step_cases in Hs as [[-> Hn]|(r' & [(Hc & -> & ->)|(_ & Hr & ->)] & Hrr)].
  - apply untouched; auto.
  - rewrite Forall_singleton in Hc. cbn in Hc.
    destruct (encode_has_lease (co_region co) (co_identity co) INITIAL_EPOCH x) as (m & Em & Hm).
    apply (advanced _ _ _ _ (MkLease (co_region co) (co_identity co) INITIAL_EPOCH (x * nanos_per_milli))).
    + eapply lease_at_Some; [apply lookup_insert_eq|]. rewrite Em. by eapply decode_has_lease.
    + by rewrite (epoch_at_None _ _ Hc).
    + intros l Hl. by apply Hok.
  - apply untouched; [done|]. apply Hno. destruct Hrr as [->|?]; eauto using refused_not_Ok.
Qed.

(** The shape of an answered conditional update of the lease item. *)
Lemma update_effect k items expr cs lost r items' :
  kv_step items (CUpdate k expr cs) r items' ->
  (items' = items /\ ok (update_result lost r) = None) \/
  (exists v v', items !! k = Some v /\ Forall (holds (Some v)) cs /\ updates v expr v' /\
     items' !! k = Some v' /\
     forall l, ok (update_result lost r) = Some l -> decode_lease (MkItem k v') = Ok l).
Proof.
  intros Hs.
  assert (Hno : (forall it, r <> Ok it) -> ok (update_result lost r) = None).
  { intros Hn. destruct r as [it|[]]; try done. by destruct (Hn it). }
  apply kv_step_cases in Hs as [[-> Hn]|(r' & Ha & Hr)]; [by left; auto|].
  cbn in Ha. destruct (items !! k) as [v|] eqn:Ek.
  2:{ destruct Ha as [-> ->]. left. split; [done|]. apply Hno. by destruct Hr as [->|]. }
  destruct Ha as [(Hcs & v' & Hu & -> & ->)|(_ & Href & ->)].
  - right. exists v, v'. repeat split; [done..|apply lookup_insert_eq|].
    intros l. destruct Hr as [->|Hr]; [|by rewrite Hno].
    cbn [update_result]. by destruct (decode_lease _) eqn:?; intros [= <-].
  - left. split; [done|]. apply Hno. destruct Hr as [->|]; eauto using refused_not_Ok.
Qed.

Lemma wf_has_lease k items v :
  wf k items -> items !! k = Some v ->
  exists m l x, v = VMap m /\ lease_at k items = Some l /\ 1 <= lease_epoch l /\
    has_lease m (lease_region l) (lease_holder_id l) (lease_epoch l) x.
Proof.
  intros [?|(l & Hl & He)] Hv; [congruence|]. pose proof Hl as Hl'.
  apply lease_at_inv in Hl' as (v' & Hv' & Hd). simplify_eq.
  apply decode_lease_Ok in Hd as (m & x & Em & _ & Hm). cbn in Em. exists m, l, x. done.
Qed.

Lemma renew_effect co e x items r items' :
  wf (co_key co) items ->
  kv_step items (CUpdate (co_key co) (renew_expr x) (renew_conditions co e)) r items' ->
  x <= u64_max -> moves (co_key co) items items' None.
Proof.
  intros Hwf Hs Hx. apply (update_effect _ _ _ _ LostLease) in Hs as
    [[-> _]|(v & v' & Hv & _ & Hu & Hv' & _)]; [by apply untouched|].
  destruct (wf_has_lease _ _ _ Hwf Hv) as (m & l & x0 & -> & Hl & _ & Hm).
  destruct (renew_updates _ _ _ _ _ _ _ Hm Hu) as (m' & -> & Hm').
  pose proof (decode_has_lease (co_key co) _ _ _ _ _ Hm' Hx) as Hd.
  by eapply renewed; [done|by eapply lease_at_Some|..].
Qed.

Lemma claim_effect co e x items r items' :
  wf (co_key co) items ->
  kv_step items (CUpdate (co_key co) (claim_expr co (e + 1) x) [epoch_condition e]) r items' ->
  x <= u64_max -> moves (co_key co) items items' (ok (update_result EpochAdvanced r)).
Proof.
  intros Hwf Hs Hx. apply (update_effect _ _ _ _ EpochAdvanced) in Hs as
    [[-> ?]|(v & v' & Hv & Hc & Hu & Hv' & Hg)]; [by apply untouched|].
  destruct (wf_has_lease _ _ _ Hwf Hv) as (m & l & x0 & -> & Hl & _ & Hm).
  rewrite Forall_singleton in Hc. pose proof (epoch_condition_holds _ _ _ _ _ _ Hm Hc) as ->.
  destruct (claim_updates _ _ _ _ _ Hu) as (m' & -> & Hm').
  pose proof (decode_has_lease (co_key co) _ _ _ _ _ Hm' Hx) as Hd.
  eapply advanced; [eapply lease_at_Some; done| |].
  - by rewrite (epoch_at_Some _ _ _ Hl).
  - intros l' Hl'. apply Hg in Hl'. congruence.
Qed.

(** ** What is left of an operation *)

(** The programs an operation passes through. *)
Inductive shape (co : LeaseCoordinator) : Request -> Prog (result Lease LeaseError) -> Prop :=
| shape_done req r : shape co req (Done r)
| shape_start req : shape co req (program co req)
| shape_acquire x :
    x <= u64_max ->
    shape co Acquire
      (Invoke (CPut (co_key co) (encode_lease (co_region co) (co_identity co) INITIAL_EPOCH x)
                    [NotExists]) (fun r => Done (acquire_result co x r)))
| shape_renew e x :
    x <= u64_max ->
    shape co (Renew e)
      (Invoke (CUpdate (co_key co) (renew_expr x) (renew_conditions co e))
              (fun r => Done (update_result LostLease r)))
| shape_current current : shape co Claim (claim_current co current)
| shape_claim e x :
    x <= u64_max ->
    shape co Claim
      (Invoke (CUpdate (co_key co) (claim_expr co (e + 1) x) [epoch_condition e])
              (fun r => Done (update_result EpochAdvanced r))).

Lemma expiry_at_max now :
  saturating_add 64 (to_unix_millis now) (duration_millis LEASE_TTL) <= u64_max.
Proof. unfold saturating_add, u64_max. lia. Qed.

Lemma checked_next_Ok e e' : checked_next e = Ok e' -> e' = e + 1.
Proof. unfold checked_next, checked_add. destruct (_ <? _); cbn; congruence. Qed.

(** Reading the clock keeps the shape and grants nothing. *)
Lemma shape_now co req p :
  shape co req p ->
  match p with
  | Now f => forall t, shape co req (f t) /\ granted (MkTask co req (f t)) = None
  | _ => True
  end.
Proof.
  intros [req' r|[| |e|]|x Hx|e x Hx|cur|e x Hx]; cbn [program read_lease acquire renew claim_lease
    and_then claim_current]; try done.
  - intros t. split; [apply shape_acquire, expiry_at_max|done].
  - intros t. split; [apply shape_renew, expiry_at_max|done].
  - intros t. destruct (negb _); [by split; [apply shape_done|]|].
    destruct (checked_next (lease_epoch cur)) as [e'|] eqn:E; [|by split; [apply shape_done|]].
    apply checked_next_Ok in E as ->. split; [apply shape_claim, expiry_at_max|done].
Qed.

(** So does the answer to a read, whatever it is. *)
Lemma shape_get co req p :
  shape co req p ->
  match p with
  | Invoke c f =>
      match c in Call B return (result B CloudError -> Prog (result Lease LeaseError)) -> Prop with
      | CGet _ => fun f => forall r, shape co req (f r) /\ granted (MkTask co req (f r)) = None
      | _ => fun _ => True
      end f
  | _ => True
  end.
Proof.
  intros [req' r|[| |e|]|x Hx|e x Hx|cur|e x Hx]; cbn [program read_lease acquire renew claim_lease
    and_then claim_current]; try done.
  - intros r. split; [apply shape_done|done].
  - intros r. destruct r as [it|[]]; try (split; [apply shape_done|done]).
    destruct (decode_lease it) as [l|e]; split; try done; [apply shape_current|apply shape_done].
Qed.

(** Any call: the shape is kept, and the lease moves as [moves] allows. *)
Lemma shape_call co req p :
  shape co req p ->
  match p with
  | Invoke c f => forall items r items', wf (co_key co) items -> kv_step items c r items' ->
      shape co req (f r) /\ moves (co_key co) items items' (granted (MkTask co req (f r)))
  | _ => True
  end.
Proof.
  intros Hsh. pose proof (shape_get _ _ _ Hsh) as Hget.
  destruct Hsh as [req' r|[| |e|]|x Hx|e x Hx|cur|e x Hx]; cbn [program acquire renew claim_current];
    try done.
  1-2: cbn in Hget |- *; intros items r items' _ Hs; destruct (Hget r) as [? Hg]; split; [done|];
    try rewrite Hg; apply untouched; [|done]; by destruct Hs as [?? [-> _]|? ? ? ? [-> _]|].
  - intros items r items' _ Hs. split; [apply shape_done|]. cbn. by apply acquire_effect in Hs.
  - intros items r items' Hwf Hs. split; [apply shape_done|]. cbn. by apply renew_effect in Hs.
  - intros items r items' Hwf Hs. split; [apply shape_done|]. cbn. by apply claim_effect in Hs.
Qed.

(** ** The invariant of a reachable world *)

Record inv (k : Key) (w : World) : Prop := {
  inv_wf : wf k (w_items w);
  inv_shape : forall i t, w_tasks w !! i = Some t ->
    co_key (task_co t) = k /\ shape (task_co t) (task_request t) (task_rest t);
  inv_granted : forall i t l, w_tasks w !! i = Some t -> granted t = Some l ->
    lease_epoch l <= epoch_at k (w_items w);
  inv_unique : forall i j t u l l', w_tasks w !! i = Some t -> w_tasks w !! j = Some u ->
    granted t = Some l -> granted u = Some l' -> lease_epoch l = lease_epoch l' -> i = j
}.

(** What a step does to the operations under way, [g] being the lease it grants. *)
Inductive tasks_move (k : Key) (g : option Lease) (tasks : list Task) : list Task -> Prop :=
| tasks_same : g = None -> tasks_move k g tasks tasks
| tasks_started co req :
    co_key co = k -> g = None -> tasks_move k g tasks (tasks ++ [MkTask co req (program co req)])
| tasks_progress i co req p p' :
    tasks !! i = Some (MkTask co req p) -> granted (MkTask co req p) = None ->
    shape co req p' -> granted (MkTask co req p') = g ->
    tasks_move k g tasks (<[i := MkTask co req p']> tasks).

Lemma step_moves k w w' :
  inv k w -> step k w w' ->
  exists g, moves k (w_items w) (w_items w') g /\ tasks_move k g (w_tasks w) (w_tasks w').
Proof.
  intros Hi Hs. pose proof (inv_shape k w Hi) as Hsh.
  destruct Hs as [items past tasks co req Hk|items past tasks i co req f t Ht
    |items past tasks i co req B c f r items' Ht Hc
    |items past tasks i co req key f r old Ht _ _|items past tasks B c r items' _ Hk];
    cbn [w_items w_tasks] in *.
  - exists None. split; [by apply untouched|by apply tasks_started].
  - destruct (Hsh _ _ Ht) as [_ Ht']. cbn [task_co task_request task_rest] in Ht'.
    destruct (shape_now _ _ _ Ht' t) as [Hsf Hg]. exists None.
    split; [by apply untouched|]. eapply tasks_progress; try done. by destruct req.
  - destruct (Hsh _ _ Ht) as [<- Ht']. cbn [task_co task_request task_rest] in Ht'.
    destruct (shape_call _ _ _ Ht' items r items' (inv_wf _ _ Hi) Hc) as [Hsf Hm].
    eexists. split; [exact Hm|]. eapply tasks_progress; try done. by destruct req.
  - destruct (Hsh _ _ Ht) as [_ Ht']. cbn [task_co task_request task_rest] in Ht'.
    destruct (shape_get _ _ _ Ht' r) as [Hsf Hg]. exists None.
    split; [by apply untouched|]. eapply tasks_progress; try done. by destruct req.
  - exists None. split; [by apply untouched|by apply tasks_same].
Qed.

Lemma program_not_granted co req : granted (MkTask co req (program co req)) = None.
Proof. by destruct req. Qed.

(** The operations after a step: the old ones, and perhaps one that was just granted [g]. *)
Lemma tasks_move_lookup k g tasks tasks' i t :
  tasks_move k g tasks tasks' -> tasks' !! i = Some t ->
  (tasks !! i = Some t) \/
  (granted t = g /\ (forall u, tasks !! i = Some u -> granted u = None) /\
   (forall j u, j <> i -> tasks' !! j = Some u -> tasks !! j = Some u) /\
   ((forall i t, tasks !! i = Some t -> co_key (task_co t) = k) -> co_key (task_co t) = k) /\
   shape (task_co t) (task_request t) (task_rest t)).
Proof.
  intros [Hg|co req Hk Hg|i0 co req p p' Hp Hn Hsh Hg] Ht.
  - by left.
  - apply lookup_snoc_Some in Ht as [[? ?]|[-> <-]]; [by left|right].
    rewrite program_not_granted. repeat split; [done| | |done|apply shape_start].
    + intros u Hu%lookup_lt_Some. lia.
    + intros j u Hj Hu. apply lookup_snoc_Some in Hu as [[? ?]|[-> _]]; done.
  - destruct (decide (i0 = i)) as [<-|Hne].
    + right. pose proof (lookup_lt_Some _ _ _ Hp). rewrite list_lookup_insert_eq in Ht by done.
      injection Ht as <-. repeat split; [done| | |intros Hall; apply (Hall _ _ Hp)|done].
      * intros u Hu. by simplify_eq.
      * intros j u Hj Hu. by rewrite list_lookup_insert_ne in Hu by done.
    + left. by rewrite list_lookup_insert_ne in Ht by done.
Qed.

(** A grant is new: its epoch is above every earlier one. *)
Lemma moves_grant k items items' l : moves k items items' (Some l) ->
  epoch_at k items + 1 = lease_epoch l /\ epoch_at k items' = lease_epoch l.
Proof.
  intros [?|? ? ? ? ? ?|l' Hl' He Hg]; [done..|]. rewrite (Hg l eq_refl), He. split; [done|].
  by apply epoch_at_Some.
Qed.

Lemma inv_step k w w' : inv k w -> step k w w' -> inv k w'.
Proof.
  intros Hi Hs. destruct (step_moves k w w' Hi Hs) as (g & Hm & Ht). clear Hs.
  pose proof (moves_epoch _ _ _ _ Hm) as Hle.
  assert (Hnew : forall i t l, w_tasks w' !! i = Some t -> granted t = Some l ->
    (w_tasks w !! i = Some t /\ lease_epoch l <= epoch_at k (w_items w)) \/
    (epoch_at k (w_items w) < lease_epoch l /\ lease_epoch l = epoch_at k (w_items w') /\
     forall j u, j <> i -> w_tasks w' !! j = Some u -> w_tasks w !! j = Some u)).
  { intros i t l Hl Hg. destruct (tasks_move_lookup _ _ _ _ _ _ Ht Hl) as [Ho|(Hg' & _ & Hj & _)].
    - left. split; [done|]. by eapply (inv_granted k w Hi).
    - right. rewrite Hg in Hg'. subst g. destruct (moves_grant _ _ _ _ Hm). split; [lia|done]. }
  split.
  - eapply moves_wf; [apply Hi|done].
  - intros i t Hl. destruct (tasks_move_lookup _ _ _ _ _ _ Ht Hl) as [Ho|(_ & _ & _ & Hk & Hsh)].
    + by apply (inv_shape k w Hi) in Ho.
    + split; [|done]. apply Hk. intros. by eapply (inv_shape k w Hi).
  - intros i t l Hl Hg. destruct (Hnew i t l Hl Hg) as [[_ ?]|(_ & ? & _)]; lia.
  - intros i j t u l l' Hlt Hlu Hgt Hgu He.
    destruct (decide (i = j)) as [|Hne]; [done|exfalso].
    destruct (Hnew i t l Hlt Hgt) as [[Ho Hle1]|(Hlt1 & _ & Hj)],
      (Hnew j u l' Hlu Hgu) as [[Ho' Hle2]|(Hlt2 & _ & Hj')]; try lia.
    + by destruct Hne; eapply (inv_unique k w Hi).
    + pose proof (Hj j u ltac:(done) Hlu) as Hu.
      pose proof (inv_granted k w Hi _ _ _ Hu Hgu). lia.
Qed.

Lemma inv_initial k w : initial k w -> inv k w.
Proof. intros [items Hn]. split; cbn; [by left|done..]. Qed.

Lemma inv_steps k w w' : inv k w -> steps k w w' -> inv k w'.
Proof. intros Hi Hs. induction Hs; eauto using inv_step. Qed.

Lemma inv_reachable k w : reachable k w -> inv k w.
Proof. intros (w0 & Hi & Hs). eauto using inv_steps, inv_initial. Qed.

(** ** Safety of every interleaving *)

(** The lease of a later store continues the lease of an earlier one. *)
Definition onwards (k : Key) (items items' : Items) : Prop :=
  forall l, lease_at k items = Some l -> exists l', lease_at k items' = Some l' /\
    lease_epoch l <= lease_epoch l' /\ (lease_epoch l' = lease_epoch l -> term l' = term l).

#[export] Instance onwards_preorder k : PreOrder (onwards k).
Proof.
  split.
  - intros items l Hl. exists l. split; [done|]. split; [lia|done].
  - intros a b c Hab Hbc l Hl. destruct (Hab l Hl) as (l1 & H1 & Hle1 & Ht1).
    destruct (Hbc l1 H1) as (l2 & H2 & Hle2 & Ht2). exists l2. split; [done|]. split; [lia|].
    intros E. rewrite Ht2 by lia. apply Ht1. lia.
Qed.

Lemma moves_onwards k items items' g : moves k items items' g -> onwards k items items'.
Proof.
  intros [E _|l0 l0' H0 H0' Ht _|l0' H0' He _] l Hl.
  - exists l. rewrite (lease_at_same _ _ _ E). split; [done|]. split; [lia|done].
  - assert (l0 = l) as -> by congruence. exists l0'. split; [done|]. split; [|done].
    injection Ht. lia.
  - exists l0'. rewrite (epoch_at_Some _ _ _ Hl) in He. split; [done|]. split; [lia|]. intros; lia.
Qed.

Lemma steps_onwards k w w' : inv k w -> steps k w w' ->
  onwards k (w_items w) (w_items w') /\ epoch_at k (w_items w) <= epoch_at k (w_items w').
Proof.
  intros Hi Hs. induction Hs as [w|w w1 w2 H1 Hs IH]; [split; [done|lia]|].
  destruct (step_moves _ _ _ Hi H1) as (g & Hm & _).
  destruct IH as [IHo IHe]; [by eapply inv_step|]. split.
  - etrans; [by eapply moves_onwards|done].
  - apply moves_epoch in Hm. lia.
Qed.

(** Whatever coordinators and other clients do, in any interleaving, with any clocks, stale
    reads, lost requests and lost answers: once there is a lease item it stays one and decodes,
    its epoch never decreases, and as long as the epoch is the same so are its holder and region. *)
Theorem lease_epoch_monotone k w w' :
  reachable k w -> steps k w w' ->
  epoch_at k (w_items w) <= epoch_at k (w_items w') /\
  (w_items w' !! k = None \/ is_Some (lease_at k (w_items w'))) /\
  forall l, lease_at k (w_items w) = Some l -> exists l', lease_at k (w_items w') = Some l' /\
    (lease_epoch l' = lease_epoch l ->
     lease_holder_id l' = lease_holder_id l /\ lease_region l' = lease_region l).
Proof.
  intros Hr%inv_reachable Hs. destruct (steps_onwards _ _ _ Hr Hs) as [Ho He].
  split; [done|]. split.
  - destruct (inv_wf _ _ (inv_steps _ _ _ Hr Hs)) as [?|(l & -> & _)]; eauto.
  - intros l Hl. destruct (Ho l Hl) as (l' & Hl' & _ & Ht). exists l'. split; [done|].
    intros E. by injection (Ht E).
Qed.

(** What the invariant says of the leases granted so far. *)
Lemma inv_grants k w : inv k w -> NoDup (lease_epoch <$> omap granted (w_tasks w)).
Proof.
  intros Hr. pose proof (inv_unique k w Hr) as Hu. revert Hu.
  generalize (w_tasks w) as tasks. intros tasks.
  induction tasks as [|t tasks IH]; intros Hu; [constructor|].
  assert (Htl : NoDup (lease_epoch <$> omap granted tasks)).
  { apply IH. intros i j x y l l' Hx Hy Hlx Hly He.
    apply Nat.succ_inj. by apply (Hu (S i) (S j) x y l l'). }
  cbn. destruct (granted t) as [l|] eqn:Hg; [|done]. csimpl. constructor; [|done].
  intros (l' & He & Hin)%list_elem_of_fmap. apply list_elem_of_omap in Hin as (u & Hin & Hgu).
  apply list_elem_of_lookup in Hin as [j Hj].
  discriminate (Hu 0%nat (S j) t u l l' eq_refl Hj Hg Hgu He).
Qed.

(** C7. Each epoch is granted at most once: of all the acquisitions and takeovers that ever
    returned a lease, no two returned the same epoch. *)
Theorem lease_single_grant k w :
  reachable k w -> NoDup (lease_epoch <$> omap granted (w_tasks w)).
Proof. intros Hr%inv_reachable. by apply (inv_grants k). Qed.

(** C8. Fencing: once the lease stands past epoch [e], no write that carries [e] in its condition
    does anything, now or later: a transaction that checks the lease's epoch and an update of the
    lease item both leave the store as it is and report no success. *)
Theorem lease_fencing k w w' e cs :
  reachable k w -> steps k w w' -> e < epoch_at k (w_items w) -> epoch_condition e ∈ cs ->
  (forall ops r items', ConditionCheck k cs ∈ ops ->
     kv_step (w_items w') (CTransact ops) r items' -> items' = w_items w' /\ r <> Ok tt) /\
  (forall expr r items', kv_step (w_items w') (CUpdate k expr cs) r items' ->
     items' = w_items w' /\ forall it, r <> Ok it).
Proof.
  intros Hr%inv_reachable Hs He Hcs. pose proof (steps_onwards _ _ _ Hr Hs) as [_ Hle].
  pose proof (inv_wf _ _ (inv_steps _ _ _ Hr Hs)) as Hwf.
  assert (Hno : ~ Forall (holds (w_items w' !! k)) cs).
  { rewrite Forall_forall. intros H. specialize (H _ Hcs).
    destruct (w_items w' !! k) as [v|] eqn:Hv; [|done].
    destruct (wf_has_lease _ _ _ Hwf Hv) as (m & l & x & -> & Hl & _ & Hm).
    pose proof (epoch_condition_holds _ _ _ _ _ _ Hm H).
    pose proof (wf_epoch k (w_items w)). rewrite (epoch_at_Some _ _ _ Hl) in Hle. lia. }
  split.
  - intros ops r items' Hop Hk.
    apply kv_step_cases in Hk as [[-> Hn]|(r' & [(Hf & _)|(_ & Href & ->)] & Hrr)].
    + by split.
    + destruct Hno. rewrite Forall_forall in Hf. exact (Hf _ Hop).
    + split; [done|]. destruct Hrr as [->|]; eauto using refused_not_Ok.
  - intros expr r items' Hk.
    apply kv_step_cases in Hk as [[-> Hn]|(r' & Ha & Hrr)]; [by split|]. cbn in Ha.
    destruct (w_items w' !! k) as [v|].
    + destruct Ha as [(Hf & _)|(_ & Href & ->)]; [done|]. split; [done|].
      destruct Hrr as [->|]; eauto using refused_not_Ok.
    + destruct Ha as [-> ->]. split; [done|]. by destruct Hrr as [->|].
Qed.

(** ** The operations one by one *)

(** The item [claim_lease] leaves: the lease's attributes replaced, any others kept. *)
Definition with_lease (v : Value) (r : Region) (h : HolderId) (e : Epoch) (x : Z) : Value :=
  match v, encode_lease r h e x with
  | VMap m, VMap a => VMap (a ∪ m)
  | _, _ => v
  end.

Lemma with_lease_spec m r h e x m' :
  has_lease m' r h e x ->
  (forall a, a <> ATTR_REGION -> a <> ATTR_HOLDER_ID -> a <> ATTR_EPOCH -> a <> ATTR_EXPIRES_AT ->
     m' !! a = m !! a) ->
  VMap m' = with_lease (VMap m) r h e x.
Proof.
  intros [] Ho. unfold with_lease, encode_lease. f_equal. apply map_eq. intros a.
  rewrite lookup_union. cbn [list_to_map foldr fst snd]. rewrite !lookup_insert, lookup_empty.
  repeat case_decide; subst; rewrite ?union_Some_l; try done; [by destruct (m !! _)..|].
  rewrite left_id by apply _. by apply Ho.
Qed.

Lemma now_not_eligible now e :
  negb (takeover_eligible_millis (to_unix_millis now) e (duration_millis TAKEOVER_SAFETY_MARGIN)) =
  (to_unix_millis now <? saturating_add 64 e 60000).
Proof. unfold takeover_eligible_millis. rewrite margin_millis, Z.leb_antisym. apply negb_involutive. Qed.

(** A [claim_lease] or [renew] update that meets its conditions. *)
Lemma update_run lost k items m m' expr cs :
  items !! k = Some (VMap m) -> check_conditions (Some (VMap m)) cs = Ok tt ->
  apply_actions m expr = Ok m' ->
  (let '(r, items') := memory (CUpdate k expr cs) items in (update_result lost r, items')) =
  (decode_lease (MkItem k (VMap m')), <[k := VMap m']> items).
Proof.
  intros Hk Hc Ha. cbn [memory]. unfold atomic_update, bind, read_state, lift, write_state, ret.
  rewrite Hk. cbn [ok_or]. rewrite Hc. cbn [apply_update_actions]. by rewrite Ha.
Qed.

(** What a takeover does on the in-memory store, branch by branch: without an item there is
    nothing to claim; an item that does not decode is reported; a lease not yet a minute past its
    expiry is held; at the last epoch the takeover is refused; otherwise the caller becomes the
    holder at the next epoch, for one minute from its clock, and the item's other attributes and
    all other items stay. *)
Theorem claim_lease_run co items now :
  run now (claim_lease co) items =
  match items !! co_key co with
  | None => (Err (NoLease (co_key co)), items)
  | Some v =>
      match decode_lease (MkItem (co_key co) v) with
      | Err e => (Err e, items)
      | Ok l =>
          if to_unix_millis now <? saturating_add 64 (to_unix_millis (lease_expires_at l)) 60000
          then (Err LeaseHeld, items)
          else if 2 ^ 64 <=? lease_epoch l + 1
          then (Err (LeaseEpochOverflow (MkEpochOverflow (lease_epoch l))), items)
          else (Ok (MkLease (co_region co) (co_identity co) (lease_epoch l + 1)
                            (expiry_at now * nanos_per_milli)),
                <[co_key co := with_lease v (co_region co) (co_identity co) (lease_epoch l + 1)
                                          (expiry_at now)]> items)
      end
  end.
Proof.
  unfold claim_lease, read_lease. cbn [and_then run memory].
  unfold get, bind, read_state, lift. destruct (items !! co_key co) as [v|] eqn:Hv; cbn [fmap option_fmap option_map ok_or]; [|done].
  destruct (decode_lease (MkItem (co_key co) v)) as [l|e] eqn:Hd; [|done].
  cbn [claim_current run]. rewrite now_not_eligible. destruct (_ <? _); [done|].
  unfold checked_next, checked_add. rewrite Z.leb_antisym.
  destruct (lease_epoch l + 1 <? 2 ^ 64); cbn [ok_or negb]; [|done].
  apply decode_lease_Ok in Hd as (m & x & Hm & _ & Hl). cbn in Hm. subst v.
  rewrite ttl_millis. fold (expiry_at now). cbn [run].
  set (m' := <[ATTR_EXPIRES_AT := VU64 (expiry_at now)]> (<[ATTR_REGION := VString (co_region co)]>
     (<[ATTR_HOLDER_ID := VString (co_identity co)]> (<[ATTR_EPOCH := VU64 (lease_epoch l + 1)]> m)))).
  assert (Hm' : has_lease m' (co_region co) (co_identity co) (lease_epoch l + 1) (expiry_at now)).
  { split; unfold m'; by simplify_map_eq. }
  rewrite (update_run _ _ _ m m'); [|done| |done].
  - rewrite (decode_has_lease _ _ _ _ _ _ Hm') by (pose proof (expiry_at_range now); unfold in_uint, u64_max in *; lia).
    by rewrite (with_lease_spec m _ _ _ _ m') by (done || (intros; unfold m'; by rewrite !lookup_insert_ne)).
  - cbn. destruct Hl as [_ _ He _]. by rewrite decide_True.
Qed.

(** ** A concrete run

    Two regions: A acquires at time zero; at 200 s B claims while A renews; B's write comes first
    and A has lost the lease. *)

(** A coordinator starts an operation. *)
Definition start (co : LeaseCoordinator) (req : Request) (w : World) : World :=
  MkWorld (w_items w) (w_past w) (w_tasks w ++ [MkTask co req (program co req)]).

(** Operation [i] takes one step: the clock reads [t], the store is the in-memory backend. *)
Definition turn (i : nat) (t : Z) (w : World) : World :=
  match w_tasks w !! i with
  | Some (MkTask co req (Now f)) =>
      MkWorld (w_items w) (w_past w) (<[i := MkTask co req (f t)]> (w_tasks w))
  | Some (MkTask co req (Invoke c f)) =>
      let '(r, items') := memory c (w_items w) in
      MkWorld items' (w_items w :: w_past w) (<[i := MkTask co req (f r)]> (w_tasks w))
  | _ => w
  end.

Lemma start_steps k co req w0 w :
  co_key co = k -> steps k w0 w -> steps k w0 (start co req w).
Proof. intros Hk Hs. eapply rtc_r; [done|]. destruct w. by apply step_start. Qed.

Lemma turn_steps k i t w0 w : steps k w0 w -> steps k w0 (turn i t w).
Proof.
  intros Hs. destruct w as [items past tasks]. unfold turn. cbn [w_tasks w_items w_past].
  destruct (tasks !! i) as [[co req [r|f|B c f]]|] eqn:Ht; [done| | |done].
  - eapply rtc_r; [done|]. by apply step_now.
  - destruct (memory c items) as [r items'] eqn:E. eapply rtc_r; [done|].
    apply step_call with (c := c); [done|]. apply kv_answered.
    pose proof (memory_applied c items) as H. by rewrite E in H.
Qed.

Definition demo_log : LogId := MkId [x64].
Definition region_a : LeaseCoordinator := coordinator_new demo_log "a/1" "a".
Definition region_b : LeaseCoordinator := coordinator_new demo_log "b/1" "b".
Definition demo_key : Key := lease_key demo_log.
Definition demo_start : World := MkWorld ∅ [] [].

Definition demo_acquired : World := turn 0 0 (turn 0 0 (start region_a Acquire demo_start)).
Definition demo_claimed : World :=
  let t := 200 * nanos_per_sec in
  turn 1 t (turn 2 t (turn 2 t (turn 2 t (turn 1 t
    (start region_b Claim (start region_a (Renew 1) demo_acquired)))))).

Lemma demo_steps : steps demo_key demo_acquired demo_claimed.
Proof. repeat apply turn_steps. repeat (apply start_steps; [reflexivity|]). apply rtc_refl. Qed.

Lemma demo_reachable : reachable demo_key demo_acquired.
Proof.
  exists demo_start. split; [by constructor|].
  repeat apply turn_steps. apply start_steps; [reflexivity|apply rtc_refl].
Qed.

Lemma demo_claimed_reachable : reachable demo_key demo_claimed.
Proof.
  destruct demo_reachable as (w0 & Hi & Hs). exists w0. split; [done|].
  etrans; [exact Hs|exact demo_steps].
Qed.

(** A was granted epoch 1, B epoch 2, and A's renewal failed. *)
Example demo_outcome :
  (lease_epoch <$> omap granted (w_tasks demo_claimed)) = [1; 2] /\
  task_rest <$> w_tasks demo_claimed !! 1%nat = Some (Done (Err LostLease)) /\
  epoch_at demo_key (w_items demo_claimed) = 2.
Proof. vm_compute. auto. Qed.

Lemma lease_epoch_monotone_witness :
  lease_at demo_key (w_items demo_acquired) = Some (MkLease "a" "a/1" 1 (60 * nanos_per_sec)) /\
  epoch_at demo_key (w_items demo_acquired) <= epoch_at demo_key (w_items demo_claimed).
Proof.
  split; [vm_compute; reflexivity|].
  exact (proj1 (lease_epoch_monotone demo_key demo_acquired demo_claimed demo_reachable demo_steps)).
Defined.

Lemma lease_single_grant_witness : NoDup (lease_epoch <$> omap granted (w_tasks demo_claimed)).
Proof. exact (lease_single_grant demo_key demo_claimed demo_claimed_reachable). Defined.

(** A's transaction under epoch 1 after B's takeover. *)
Lemma lease_fencing_witness :
  let w := demo_claimed in
  let ops := [ConditionCheck demo_key [epoch_condition 1]; Put "batch" (VU64 7) []] in
  memory (CTransact ops) (w_items w) = (Err (ConditionFailed (AttributeDidNotMatch "epoch")), w_items w) /\
  forall r items', kv_step (w_items w) (CTransact ops) r items' -> items' = w_items w /\ r <> Ok tt.
Proof.
  split; [vm_compute; reflexivity|]. intros r items' Hk.
  refine (proj1 (lease_fencing demo_key demo_claimed demo_claimed 1 [epoch_condition 1]
    demo_claimed_reachable (rtc_refl _ _) _ _) _ r items' _ Hk).
  - vm_compute. reflexivity.
  - apply list_elem_of_here.
  - apply list_elem_of_here.
Defined.

(** The safety margin does not by itself stop a takeover of a live lease: B has read the expired
    lease, A renews it until 260 s, and B's update still matches A's epoch. A believes it holds
    the lease for another minute; only the epoch on its writes stops it. *)
Definition demo_overtaken : World :=
  let t := 200 * nanos_per_sec in
  turn 2 t (turn 1 t (turn 1 t (turn 2 t (turn 2 t
    (start region_b Claim (start region_a (Renew 1) demo_acquired)))))).

Lemma takeover_of_a_renewed_lease :
  reachable demo_key demo_overtaken /\
  task_rest <$> w_tasks demo_overtaken !! 1%nat =
    Some (Done (Ok (MkLease "a" "a/1" 1 (260 * nanos_per_sec)))) /\
  task_rest <$> w_tasks demo_overtaken !! 2%nat =
    Some (Done (Ok (MkLease "b" "b/1" 2 (260 * nanos_per_sec)))).
Proof.
  split; [|vm_compute; auto].
  destruct demo_reachable as (w0 & Hi & Hs). exists w0. split; [done|].
  repeat apply turn_steps. repeat (apply start_steps; [reflexivity|]). done.
Qed.
