(* ===== verification/Hsm.v ===== *)
(** * Hardware security modules

    [cloud-types/src/hsm.rs]: the [Hsm] trait as a class over the module's state, a call being
    one atomic state transformer; [cloud-memory/src/hsm.rs]: the in-memory module, over the [p256]
    crate and the operating system's random source, which are parameters.

    Keys are drawn from the random source, kept under handles never used before, and stay what they
    are; what the module signs verifies under the key it publishes. *)

From stdpp Require Import gmap.
From S2P Require Import Prelude Format Signing KV.

Local Open Scope mtc_scope.
Local Open Scope Z_scope.

(** [KeyHandle], [PublicKey], [KeySpec]. *)
Definition KeyHandle : Type := string.
Record PublicKey : Type := public_key_from_spki_der { public_spki_der : list byte }.
Inductive KeySpec : Type := KeySpecEcdsaP256.

(** [Hsm]. *)
Class Hsm (S : Type) : Type := {
  hsm_sign : KeyHandle -> list byte -> M S CloudError (list byte);
  hsm_get_public_key : KeyHandle -> M S CloudError PublicKey;
  hsm_generate_key : KeySpec -> M S CloudError KeyHandle;
  is_fips_validated : S -> bool
}.

(** ** The in-memory module *)

Section MemoryHsm.
Context (p : P256).

(** The [p256] crate's infallible [Signer::sign], and [getrandom::fill] on a 32-byte buffer: the
    outcome of its [n]-th call, [None] when it fails. *)
Context (p256_sign : P256SigningKey p -> list byte -> P256Signature p).
Context (getrandom_fill : nat -> option (list byte)).

(** [MemoryHsm], with the number of draws made from the random source. *)
Record MemoryHsm : Type := MkMemoryHsm {
  hm_keys : gmap KeyHandle (P256SigningKey p);
  hm_next_id : Z;
  hm_draws : nat
}.

(** [MemoryHsm::new]. *)
Definition memory_hsm_new : MemoryHsm := MkMemoryHsm ∅ 0 0.

Definition csprng_failure : CloudError := Transport true (OtherReason "CSPRNG failure").
Definition no_valid_scalar : CloudError :=
  Transport false (OtherReason "failed to draw a valid P-256 scalar after repeated attempts").

Definition MAX_ATTEMPTS : nat := 8.

(** The loop of [random_signing_key], over the attempts left. *)
Fixpoint draw_signing_key (attempts : nat) : M MemoryHsm CloudError (P256SigningKey p) :=
  match attempts with
  | O => throw no_valid_scalar
  | S attempts' => fun h =>
      let h' := MkMemoryHsm (hm_keys h) (hm_next_id h) (S (hm_draws h)) in
      match getrandom_fill (hm_draws h) with
      | None => (Err csprng_failure, h')
      | Some scalar_bytes =>
          match sk_from_slice p scalar_bytes with
          | Some key => (Ok key, h')
          | None => draw_signing_key attempts' h'
          end
      end
  end.
Definition random_signing_key : M MemoryHsm CloudError (P256SigningKey p) :=
  draw_signing_key MAX_ATTEMPTS.

(** [keys.get(key_handle).ok_or_else(..)]. *)
Definition find_key (key_handle : KeyHandle) : M MemoryHsm CloudError (P256SigningKey p) :=
  let! h := read_state in
  lift (ok_or (hm_keys h !! key_handle) (NotFound key_handle)).

(** [sign]. *)
Definition memory_sign (key_handle : KeyHandle) (data : list byte)
    : M MemoryHsm CloudError (list byte) :=
  let! signing_key := find_key key_handle in
  ret (sig_to_bytes p (p256_sign signing_key data)).

(** [get_public_key]. *)
Definition memory_get_public_key (key_handle : KeyHandle) : M MemoryHsm CloudError PublicKey :=
  let! signing_key := find_key key_handle in
  let! der := lift (ok_or (to_public_key_der p (verifying_key p signing_key))
                          (Transport false (OtherReason "SPKI DER encoding failed"))) in
  ret (public_key_from_spki_der der).

(** [format!("mem-hsm-{id:016x}")]. *)
Definition memory_handle (id : Z) : KeyHandle := ("mem-hsm-" +:+ hex016 id)%string.

(** [next_id.fetch_add(1)] wraps at [2 ^ 64]. *)
Definition allocate_id : M MemoryHsm CloudError Z := fun h =>
  (Ok (hm_next_id h), MkMemoryHsm (hm_keys h) ((hm_next_id h + 1) mod 2 ^ 64) (hm_draws h)).

(** [generate_key]. *)
Definition memory_generate_key (spec : KeySpec) : M MemoryHsm CloudError KeyHandle :=
  match spec with
  | KeySpecEcdsaP256 =>
      let! signing_key := random_signing_key in
      let! id := allocate_id in
      let handle := memory_handle id in
      let! h := read_state in
      do! write_state (MkMemoryHsm (<[handle := signing_key]> (hm_keys h)) (hm_next_id h) (hm_draws h));
      ret handle
  end.

#[export] Instance memory_hsm : Hsm MemoryHsm := {|
  hsm_sign := memory_sign;
  hsm_get_public_key := memory_get_public_key;
  hsm_generate_key := memory_generate_key;
  is_fips_validated := fun _ => false
|}.
End MemoryHsm.
Arguments MkMemoryHsm {p}.
Arguments hm_keys {p}.
Arguments hm_next_id {p}.
Arguments hm_draws {p}.
Arguments memory_hsm_new {p}.

Lemma memory_handle_inj i j : in_u64 i -> in_u64 j -> memory_handle i = memory_handle j -> i = j.
Proof. intros Hi Hj E. apply app_inv_head_str in E. by apply hex016_inj. Qed.

Section MemoryHsm.
Context (p : P256) (p256_sign : P256SigningKey p -> list byte -> P256Signature p).
Context (getrandom_fill : nat -> option (list byte)).

(** Every key held is under the handle of an identifier already allocated. *)
Definition handles_allocated (h : MemoryHsm p) : Prop :=
  0 <= hm_next_id h < 2 ^ 64 /\
  map_Forall (fun handle _ => exists i, 0 <= i < hm_next_id h /\ handle = memory_handle i) (hm_keys h).

Lemma handles_allocated_new : handles_allocated (memory_hsm_new (p := p)).
Proof. split; [done|]. apply map_Forall_empty. Qed.

(** The next handle is free. *)
Lemma next_handle_free h : handles_allocated h -> hm_keys h !! memory_handle (hm_next_id h) = None.
Proof.
  intros [Hn Hk]. destruct (hm_keys h !! memory_handle (hm_next_id h)) as [k|] eqn:E; [|done].
  destruct (Hk _ _ E) as (i & Hi & Hh). apply memory_handle_inj in Hh; unfold in_uint; lia.
Qed.

(** A draw of the loop: it only moves the random source, and its key is one of the [attempts] next
    blocks of the source. *)
Lemma draw_signing_key_spec attempts : forall h r h',
  draw_signing_key p getrandom_fill attempts h = (r, h') ->
  hm_keys h' = hm_keys h /\ hm_next_id h' = hm_next_id h /\
  (hm_draws h <= hm_draws h' <= hm_draws h + attempts)%nat /\
  (forall key, r = Ok key -> exists n bytes, (hm_draws h <= n < hm_draws h')%nat /\
     getrandom_fill n = Some bytes /\ sk_from_slice p bytes = Some key).
Proof.
  induction attempts as [|attempts IH]; intros h r h'; simpl.
  - intros [= <- <-]. split_and!; [done..|lia|lia|done].
  - destruct (getrandom_fill (hm_draws h)) as [bytes|] eqn:Eg.
    + destruct (sk_from_slice p bytes) as [key|] eqn:Ek.
      * intros [= <- <-]. split_and!; [done..|simpl; lia|simpl; lia|].
        intros key' [= <-]. exists (hm_draws h), bytes. split_and!; [lia|simpl; lia|done..].
      * intros E. apply IH in E as (? & ? & Hd & Hk). simpl in *. split_and!; [done..|lia|lia|].
        intros key Hr. destruct (Hk key Hr) as (n & bs & ? & ? & ?). exists n, bs. split_and!; [lia..|done|done].
    + intros [= <- <-]. split_and!; [done..|simpl; lia|simpl; lia|done].
Qed.

Lemma memory_generate_key_spec h handle h' :
  memory_generate_key p getrandom_fill KeySpecEcdsaP256 h = (Ok handle, h') ->
  exists key, handle = memory_handle (hm_next_id h) /\
    hm_keys h' = <[handle := key]> (hm_keys h) /\
    hm_next_id h' = (hm_next_id h + 1) mod 2 ^ 64 /\
    exists n bytes, getrandom_fill n = Some bytes /\ sk_from_slice p bytes = Some key.
Proof.
  unfold memory_generate_key, random_signing_key, bind.
  destruct (draw_signing_key p getrandom_fill MAX_ATTEMPTS h) as [[key|] h1] eqn:E; [|done].
  apply draw_signing_key_spec in E as (Ek & En & _ & Hk). simpl. intros [= <- <-].
  destruct (Hk key eq_refl) as (n & bytes & _ & ? & ?). rewrite Ek, En. exists key. simpl. eauto 10.
Qed.

(** A failed generation keeps every key and handle. *)
Lemma memory_generate_key_Err h e h' :
  memory_generate_key p getrandom_fill KeySpecEcdsaP256 h = (Err e, h') ->
  hm_keys h' = hm_keys h /\ hm_next_id h' = hm_next_id h.
Proof.
  unfold memory_generate_key, random_signing_key, bind.
  destruct (draw_signing_key p getrandom_fill MAX_ATTEMPTS h) as [[key|] h1] eqn:E; [done|].
  apply draw_signing_key_spec in E as (Ek & En & _). by intros [= _ <-].
Qed.

Lemma generate_preserves h handle h' :
  handles_allocated h -> hm_next_id h + 1 < 2 ^ 64 ->
  memory_generate_key p getrandom_fill KeySpecEcdsaP256 h = (Ok handle, h') ->
  handles_allocated h' /\ hm_keys h !! handle = None /\ hm_keys h ⊆ hm_keys h'.
Proof.
  intros Hok Hn (key & -> & Hk & Hi & _)%memory_generate_key_spec.
  pose proof (next_handle_free h Hok) as Hf. destruct Hok as [Hr Hall].
  rewrite Z.mod_small in Hi by lia. split_and!; [|done|].
  - split; [lia|]. rewrite Hk, Hi. apply map_Forall_insert_2; [exists (hm_next_id h); split; [lia|done]|].
    eapply map_Forall_impl; [done|]. simpl. intros ? ? (i & ? & ?). exists i. split; [lia|done].
  - rewrite Hk. by apply insert_subseteq.
Qed.

(** Signing and reading a public key leave the module as it was. *)
Lemma memory_sign_held h handle key data :
  hm_keys h !! handle = Some key ->
  memory_sign p p256_sign handle data h = (Ok (sig_to_bytes p (p256_sign key data)), h).
Proof. intros Hk. unfold memory_sign, find_key, bind, read_state, lift. by rewrite Hk. Qed.

Lemma memory_sign_absent h handle data :
  hm_keys h !! handle = None -> memory_sign p p256_sign handle data h = (Err (NotFound handle), h).
Proof. intros Hk. unfold memory_sign, find_key, bind, read_state, lift. by rewrite Hk. Qed.

Lemma memory_get_public_key_Ok h handle pk h' :
  memory_get_public_key p handle h = (Ok pk, h') ->
  h' = h /\ exists key, hm_keys h !! handle = Some key /\
    to_public_key_der p (verifying_key p key) = Some (public_spki_der pk).
Proof.
  unfold memory_get_public_key, find_key, bind, read_state, lift.
  destruct (hm_keys h !! handle) as [key|]; [|done]. cbn [ok_or].
  destruct (to_public_key_der p (verifying_key p key)) as [der|] eqn:E; [|done].
  intros [= <- <-]. split; [done|]. by exists key.
Qed.
End MemoryHsm.

(** What the module signs verifies under the public key it gives for the handle. *)
Lemma memory_signature_verifies (p : P256) (Hp : P256_documented p)
    (p256_sign : P256SigningKey p -> list byte -> P256Signature p)
    (Hsign : forall k m, p256_verify p (verifying_key p k) m (p256_sign k m) = true)
    h handle key data pk h' :
  hm_keys h !! handle = Some key -> memory_get_public_key p handle h = (Ok pk, h') ->
  scheme_verify (SignatureScheme := EcdsaP256 p) (from_spki_der ALGORITHM (public_spki_der pk)) data
    (Signature_from_bytes (sig_to_bytes p (p256_sign key data))) = Ok tt.
Proof.
  intros Hk (-> & key' & Hk' & Hd)%memory_get_public_key_Ok. assert (key' = key) as -> by congruence.
  simpl. unfold ecdsa_verify, parse_verifying_key. cbn [vk_algorithm spki_der].
  rewrite bool_decide_true by done. cbn [negb]. rewrite (der_roundtrip p Hp _ _ Hd). cbn [ok_or sig_bytes].
  rewrite (sig_length p Hp). change (64 =? P1363_LEN) with true. cbn [negb].
  rewrite (sig_roundtrip p Hp). cbn [ok_or]. by rewrite Hsign.
Qed.
