(* ===== verification/Signer.v ===== *)
(** * The checkpoint signer: [crates/checkpoint-signer/src/]

    The retry policy ([retry.rs]), the object a signed checkpoint is published as ([framing.rs]),
    and signing on a hardware module with retries ([signer.rs]). The state is the module's and the
    list of delays slept so far. *)

From S2P Require Import Prelude Format Types Wire Signing Checkpoint KV Hsm.

Local Open Scope Z_scope.
Local Open Scope mtc_scope.

(** ** Retrying ([retry.rs]) *)

(** [RetryPolicy]; durations are their nanoseconds. *)
Record RetryPolicy : Type := MkRetryPolicy {
  max_retries : Z;
  base_backoff : Z;
  max_backoff : Z
}.

Definition default_retry_policy : RetryPolicy := MkRetryPolicy 5 (50 * 10 ^ 6) (5 * 10 ^ 9).

(** [u128::saturating_mul]. *)
Definition saturating_mul (w a b : Z) : Z := Z.min (a * b) (2 ^ w - 1).

(** [RetryPolicy::backoff_for]. *)
Definition backoff_for (policy : RetryPolicy) (retry_index : Z) : Z :=
  let base_nanos := base_backoff policy in
  let doublings := Z.shiftl 1 (Z.min retry_index 63) in
  let scaled := saturating_mul 128 base_nanos doublings in
  let capped := Z.min scaled (max_backoff policy) in
  default u64_max (try_from_uint 64 capped).

(** ** Errors ([error.rs]) *)

Inductive CheckpointSignerError : Type :=
| SignerInput (e : TrustAnchorIdError)
| SignerMalformedSignature (expected actual : Z)
| HsmSigningFailed (attempts : Z) (source : CloudError).

Definition P1363_SIGNATURE_LEN : Z := 64.

(** ** The published object ([framing.rs]) *)

Definition CHECKPOINT_OBJECT_PREFIX : string := "checkpoints/".

(** [checkpoint_object_key]. *)
Definition checkpoint_object_key (size : TreeSize) : string :=
  (CHECKPOINT_OBJECT_PREFIX +:+ zero_pad 16 (decimal size) +:+ ".signed")%string.

(** [SignedCheckpointObject]. *)
Record SignedCheckpointObject : Type := MkSignedCheckpointObject {
  object_key : string;
  object_bytes : list byte;
  object_tree_size : TreeSize
}.

(** [frame_signed_checkpoint]. *)
Definition frame_signed_checkpoint (id : LogId) (size : TreeSize) (root : HashOutput)
    (time : Z) (sig : list byte) : result (list byte) CheckpointSignerError :=
  let id := as_str id in
  let? taid_len := map_err SignerInput (trust_anchor_id_len_byte id) in
  let? sig_len := ok_or (try_from_uint 16 (len sig))
                        (SignerMalformedSignature P1363_SIGNATURE_LEN (len sig)) in
  Ok (to_be_bytes 1 taid_len ++ id ++ to_be_bytes 8 size ++ as_bytes root ++
      to_be_bytes 8 time ++ to_be_bytes 2 sig_len ++ sig).

(** [SignedCheckpointObject::frame]. *)
Definition frame (checkpoint : Checkpoint Unsigned) (sig : list byte) :
    result SignedCheckpointObject CheckpointSignerError :=
  let? bytes := frame_signed_checkpoint (log_id checkpoint) (tree_size checkpoint)
                  (root_hash checkpoint) (signed_at checkpoint) sig in
  Ok (MkSignedCheckpointObject (checkpoint_object_key (tree_size checkpoint)) bytes
        (tree_size checkpoint)).

(** ** Signing ([signer.rs]) *)

Section Signer.
Context {S : Type} `{Hsm S}.

(** [self.clock.sleep(backoff)], of a clock whose readings stay clear of the end of time (a sleep
    past it would wait for ever). *)
Definition sleep (backoff : Z) : M (S * list Z) CheckpointSignerError unit :=
  fun '(hsm, slept) => (Ok tt, (hsm, slept ++ [backoff])).

(** The loop of [sign_with_retry]; the fuel is the retries left in the budget, so that it is never
    exhausted where the loop continues. *)
Fixpoint sign_loop (policy : RetryPolicy) (key_handle : KeyHandle) (input : list byte)
    (fuel : nat) (retries : Z) : M (S * list Z) CheckpointSignerError (list byte) :=
  fun '(hsm, slept) =>
  match hsm_sign key_handle input hsm with
  | (Ok sig, hsm') => (Ok sig, (hsm', slept))
  | (Err error, hsm') =>
      let attempts := saturating_add 32 retries 1 in
      if (is_retryable error && (retries <? max_retries policy))%bool then
        let backoff := backoff_for policy retries in
        match fuel with
        | O => (Err (HsmSigningFailed attempts error), (hsm', slept))
        | Datatypes.S fuel' =>
            (do! sleep backoff;
             sign_loop policy key_handle input fuel' (retries + 1)) (hsm', slept)
        end
      else (Err (HsmSigningFailed attempts error), (hsm', slept))
  end.

(** [sign_with_retry]. *)
Definition sign_with_retry (policy : RetryPolicy) (key_handle : KeyHandle) (input : list byte) :
    M (S * list Z) CheckpointSignerError (list byte) :=
  sign_loop policy key_handle input (Z.to_nat (max_retries policy)) 0.

(** [sign_checkpoint]. *)
Definition sign_checkpoint (policy : RetryPolicy) (key_handle : KeyHandle) (id : LogId)
    (size : TreeSize) (root : HashOutput) (time : Z) :
    M (S * list Z) CheckpointSignerError SignedCheckpointObject :=
  let checkpoint := build (builder_signed_at (builder_tree_size (builder_root_hash
                      (builder_new id) root) size) time) in
  let! signing_input := lift (map_err SignerInput (signature_input checkpoint)) in
  let! sig := sign_with_retry policy key_handle signing_input in
  if negb (len sig =? P1363_SIGNATURE_LEN)
  then throw (SignerMalformedSignature P1363_SIGNATURE_LEN (len sig))
  else lift (frame checkpoint sig).
End Signer.
