(* ===== verification/SignerFacts.v ===== *)
(** * Correctness of the checkpoint signer

    What the retry loop does on every run of the module's answers, that a module which recovers
    within the budget is waited for, and that the published object is the wire form of the
    checkpoint the module signed. *)

From Stdlib Require Import Ascii.
From stdpp Require Import gmap.
From S2P Require Import Prelude Format Types Wire WireLaws LogEntryFacts Signing Checkpoint CheckpointFacts KV Hsm Signer.

Local Open Scope Z_scope.
Local Open Scope mtc_scope.

(** ** Backoff *)

Lemma backoff_for_spec policy i :
  0 <= base_backoff policy -> in_u64 (max_backoff policy) -> 0 <= i ->
  backoff_for policy i =
    Z.min (Z.min (base_backoff policy * 2 ^ Z.min i 63) (2 ^ 128 - 1)) (max_backoff policy).
Proof.
  intros Hb [Hm0 Hm] Hi. unfold backoff_for, saturating_mul.
  rewrite Z.shiftl_mul_pow2, Z.mul_1_l by lia.
  assert (0 < 2 ^ Z.min i 63) by (apply Z.pow_pos_nonneg; lia).
  rewrite try_from_uint_in; [done|]. unfold in_uint. nia.
Qed.

Lemma backoff_for_bounds policy i :
  0 <= base_backoff policy -> in_u64 (max_backoff policy) -> 0 <= i ->
  0 <= backoff_for policy i <= max_backoff policy.
Proof.
  intros Hb Hm Hi. rewrite backoff_for_spec by done. destruct Hm as [Hm _].
  assert (0 < 2 ^ Z.min i 63) by (apply Z.pow_pos_nonneg; lia). nia.
Qed.

(** ** The retry loop *)

Section Loop.
Context {S : Type} `{Hsm S}.
Context (policy : RetryPolicy) (key : KeyHandle) (input : list byte).

(** The module after [n] signing calls, and the answer to the next one. *)
Fixpoint hsm_after (h : S) (n : nat) : S :=
  match n with
  | O => h
  | Datatypes.S n' => snd (hsm_sign key input (hsm_after h n'))
  end.
Definition nth_answer (h : S) (n : nat) : result (list byte) CloudError :=
  fst (hsm_sign key input (hsm_after h n)).

(** A retryable failure. *)
Definition transient (r : result (list byte) CloudError) : Prop :=
  exists e, r = Err e /\ is_retryable e = true.

(** The delays of the retries [from .. from + n - 1]. *)
Definition backoffs (from : Z) (n : nat) : list Z :=
  map (fun i => backoff_for policy (from + Z.of_nat i)) (seq 0 n).

Lemma hsm_after_step h n : hsm_after (snd (hsm_sign key input h)) n = hsm_after h (Datatypes.S n).
Proof. induction n as [|n IH]; [done|]. simpl in *. by rewrite IH. Qed.

Lemma nth_answer_step h n : nth_answer (snd (hsm_sign key input h)) n = nth_answer h (Datatypes.S n).
Proof. unfold nth_answer. by rewrite hsm_after_step. Qed.

Lemma backoffs_S from n : backoffs from (Datatypes.S n) = backoff_for policy from :: backoffs (from + 1) n.
Proof.
  unfold backoffs. rewrite <- cons_seq, <- seq_shift, map_cons, map_map. f_equal; [f_equal; lia|].
  apply map_ext. intros i. f_equal. lia.
Qed.

(** The result the loop makes of the answer to attempt [k]. *)
Definition attempt_result (k : Z) (r : result (list byte) CloudError) :
    result (list byte) CheckpointSignerError :=
  map_err (HsmSigningFailed (saturating_add 32 k 1)) r.

(** Whether the loop goes on after [r] at attempt [k]. *)
Definition retried (k : Z) (r : result (list byte) CloudError) : Prop :=
  transient r /\ k < max_retries policy.

Lemma sign_loop_spec fuel : forall k h slept,
  0 <= k -> max_retries policy - k <= Z.of_nat fuel ->
  exists n, (n <= fuel)%nat /\
    (forall i, (i < n)%nat -> retried (k + Z.of_nat i) (nth_answer h i)) /\
    ~ retried (k + Z.of_nat n) (nth_answer h n) /\
    sign_loop policy key input fuel k (h, slept) =
      (attempt_result (k + Z.of_nat n) (nth_answer h n),
       (hsm_after h (Datatypes.S n), slept ++ backoffs k n)).
Proof.
  induction fuel as [|fuel IH]; intros k h slept Hk Hf.
  - exists 0%nat. rewrite Z.add_0_r. split; [lia|]. split; [lia|]. split; [intros [_ ?]; lia|].
    unfold nth_answer, backoffs. simpl. rewrite app_nil_r.
    destruct (hsm_sign key input h) as [[sig|e] h'] eqn:E; [done|].
    destruct (Z.ltb_spec k (max_retries policy)); [lia|]. by rewrite andb_false_r.
  - assert (forall r h', hsm_sign key input h = (r, h') -> ~ retried k r ->
              sign_loop policy key input (Datatypes.S fuel) k (h, slept) =
                (attempt_result k r, (h', slept))) as Hstop.
    { intros r h' E Hn. simpl. rewrite E. destruct r as [sig|e]; [done|].
      destruct (is_retryable e) eqn:Er; [|done].
      destruct (Z.ltb_spec k (max_retries policy)); [|done].
      destruct Hn. split; [by exists e|done]. }
    destruct (hsm_sign key input h) as [r h'] eqn:E.
    assert (h' = snd (hsm_sign key input h)) as Eh by (by rewrite E).
    assert (nth_answer h 0 = r) as E0 by (unfold nth_answer; simpl; by rewrite E).
    assert (retried k r \/ ~ retried k r) as [Hr|Hn].
    { unfold retried, transient. destruct r as [sig|e]; [right; by intros [(?&?&?) _]|].
      destruct (is_retryable e) eqn:Er; [|right; intros [(?&[= <-]&?) _]; congruence].
      destruct (Z.lt_ge_cases k (max_retries policy)); [left; split; [by exists e|done]|right; lia]. }
    + destruct Hr as [(e & Ee & Er) Hlt]. rewrite Ee in E, E0.
      destruct (IH (k + 1) h' (slept ++ [backoff_for policy k])) as (n & Hn & Hi & Hs & Hl); [lia..|].
      exists (Datatypes.S n). split; [lia|]. split; [|split].
      * intros [|i] Hi'.
        -- rewrite E0, Z.add_0_r. split; [by exists e|done].
        -- specialize (Hi i). rewrite Eh, nth_answer_step in Hi.
           replace (k + Z.of_nat (Datatypes.S i)) with (k + 1 + Z.of_nat i) by lia. apply Hi. lia.
      * rewrite Eh, nth_answer_step in Hs.
        by replace (k + Z.of_nat (Datatypes.S n)) with (k + 1 + Z.of_nat n) by lia.
      * cbn [sign_loop]. rewrite E, Er, (proj2 (Z.ltb_lt _ _) Hlt). cbn [andb bind sleep]. unfold bind, sleep.
        rewrite Hl, Eh, nth_answer_step, hsm_after_step, backoffs_S, <- app_assoc.
        by replace (k + Z.of_nat (Datatypes.S n)) with (k + 1 + Z.of_nat n) by lia.
    + exists 0%nat. rewrite Z.add_0_r, E0. split; [lia|]. split; [lia|]. split; [done|].
      rewrite (Hstop r h' eq_refl Hn), app_nil_r. simpl. by rewrite E.
Qed.

Lemma sign_with_retry_run h slept :
  0 <= max_retries policy ->
  exists n, Z.of_nat n <= max_retries policy /\
    (forall i, (i < n)%nat -> transient (nth_answer h i)) /\
    (transient (nth_answer h n) -> Z.of_nat n = max_retries policy) /\
    sign_with_retry policy key input (h, slept) =
      (attempt_result (Z.of_nat n) (nth_answer h n),
       (hsm_after h (Datatypes.S n), slept ++ backoffs 0 n)).
Proof.
  intros Hm. destruct (sign_loop_spec (Z.to_nat (max_retries policy)) 0 h slept)
    as (n & Hn & Hi & Hs & Hl); [lia..|]. exists n. split; [lia|]. split; [|split; [|done]].
  - intros i Hlt. by destruct (Hi i Hlt).
  - intros Ht. destruct (Z.eq_dec (Z.of_nat n) (max_retries policy)); [done|].
    destruct Hs. split; [done|lia].
Qed.
End Loop.

(** ** Framing *)

(** The checkpoint [sign_checkpoint] publishes once it has a signature. *)
Definition published (id : LogId) (size : TreeSize) (root : HashOutput) (time : Z)
    (sig : list byte) : Checkpoint Signed :=
  MkCheckpoint id size root time (MkSigned (Signature_from_bytes sig)).

Definition unsigned (id : LogId) (size : TreeSize) (root : HashOutput) (time : Z) :
    Checkpoint Unsigned := MkCheckpoint id size root time MkUnsigned.

(** The bytes of [frame_signed_checkpoint], and of the published object. *)
Definition framed_bytes (id : LogId) (size : TreeSize) (root : HashOutput) (time : Z)
    (sig : list byte) : list byte :=
  to_be_bytes 1 (len (as_str id)) ++ as_str id ++ to_be_bytes 8 size ++ as_bytes root ++
  to_be_bytes 8 time ++ to_be_bytes 2 (len sig) ++ sig.
Definition framed_object (id : LogId) (size : TreeSize) (root : HashOutput) (time : Z)
    (sig : list byte) : SignedCheckpointObject :=
  MkSignedCheckpointObject (checkpoint_object_key size) (framed_bytes id size root time sig) size.

Lemma frame_framed id size root time sig :
  1 <= len (as_str id) <= 255 -> in_u16 (len sig) ->
  frame (unsigned id size root time) sig = Ok (framed_object id size root time sig).
Proof.
  intros Hid Hs. unfold frame, frame_signed_checkpoint. cbn [log_id tree_size root_hash signed_at unsigned].
  rewrite (proj2 (trust_anchor_id_len_byte_Ok _ _) (conj eq_refl Hid)). cbn [map_err].
  by rewrite try_from_uint_in.
Qed.

Lemma framed_serializes id size root time sig :
  1 <= len (as_str id) <= 255 -> in_u16 (len sig) ->
  serialize_tls_presentation (published id size root time sig) = Ok (framed_bytes id size root time sig).
Proof.
  intros Hid Hs. apply to_vec_writes.
  replace (framed_bytes id size root time sig)
    with ((to_be_bytes 1 (len (as_str id)) ++ as_str id) ++ to_be_bytes 8 size ++ as_bytes root ++
          to_be_bytes 8 time ++ to_be_bytes 2 (len sig) ++ sig) by (unfold framed_bytes; by rewrite <- !app_assoc).
  eapply writes_bind; [unfold write_bytes; auto 10 with wire|by apply writes_trust_anchor_id|].
  eapply writes_bind; [unfold write_bytes; auto 10 with wire|done|].
  eapply writes_bind; [auto 10 with wire|done|].
  eapply writes_bind; [auto with wire|done|]. by apply writes_opaque_u16.
Qed.

Lemma framed_length id size root time sig :
  len (framed_bytes id size root time sig) = 51 + len (as_str id) + len sig.
Proof.
  unfold framed_bytes, len, as_bytes. rewrite !length_app, !length_to_be_bytes, array_length.
  unfold HashOutput_LEN. lia.
Qed.

Lemma framed_parses id size root time sig :
  id_ok id -> in_u64 size -> in_u64 time -> 1 <= len (as_str id) <= 255 -> in_u16 (len sig) ->
  parse_tls_presentation (framed_bytes id size root time sig) = Ok (published id size root time sig).
Proof.
  intros Hok Hn Ht Hid Hs. apply parse_tls_presentation_iff.
  { rewrite framed_length. destruct Hs as [_ Hs]. change (2 ^ 16) with 65536 in Hs.
    unfold isize_max. lia. }
  split; [done|by apply framed_serializes].
Qed.

Lemma checkpoint_object_key_inj n m :
  0 <= n -> 0 <= m -> checkpoint_object_key n = checkpoint_object_key m -> n = m.
Proof.
  intros Hn Hm E. unfold checkpoint_object_key in E.
  apply app_inv_head_str in E. apply (split_at_str "."%char) in E as [E _].
  - by apply zero_pad_inj in E.
  - apply all_digits_avoid, all_digits_pad. done.
  - apply all_digits_avoid, all_digits_pad. done.
Qed.

(** ** Signing a checkpoint *)

Section SignCheckpoint.
Context {S : Type} `{Hsm S}.
Context (policy : RetryPolicy) (key : KeyHandle).
Context (id : LogId) (size : TreeSize) (root : HashOutput) (time : Z).

(** The bytes the module is asked to sign. *)
Definition signing_payload : list byte :=
  SUBTREE_SIGNATURE_LABEL ++
  to_be_bytes 1 (len (as_str id)) ++ as_str id ++ to_be_bytes 1 (len (as_str id)) ++ as_str id ++
  to_be_bytes 8 0 ++ to_be_bytes 8 size ++ as_bytes root.

(** What becomes of an answer of the module. *)
Definition publish (attempt : Z) (answer : result (list byte) CloudError) :
    result SignedCheckpointObject CheckpointSignerError :=
  match answer with
  | Err e => Err (HsmSigningFailed (saturating_add 32 attempt 1) e)
  | Ok sig => if len sig =? 64 then Ok (framed_object id size root time sig)
              else Err (SignerMalformedSignature 64 (len sig))
  end.

Lemma signature_input_payload :
  1 <= len (as_str id) <= 255 -> signature_input (unsigned id size root time) = Ok signing_payload.
Proof.
  intros Hid. unfold signature_input, subtree_signature_input. cbn [log_id tree_size root_hash unsigned].
  by rewrite (proj2 (trust_anchor_id_len_byte_Ok _ _) (conj eq_refl Hid)).
Qed.

Lemma signature_input_refused :
  ~ 1 <= len (as_str id) <= 255 ->
  signature_input (unsigned id size root time) = Err (MkTrustAnchorIdError (len (as_str id))).
Proof.
  intros Hid. unfold signature_input, subtree_signature_input. cbn [log_id tree_size root_hash unsigned].
  rewrite trust_anchor_id_len_byte_dec.
  destruct (Z.leb_spec 1 (len (as_str id))), (Z.leb_spec (len (as_str id)) 255); cbn [andb]; by try lia.
Qed.

Lemma sign_checkpoint_refused st :
  ~ 1 <= len (as_str id) <= 255 ->
  sign_checkpoint policy key id size root time st =
    (Err (SignerInput (MkTrustAnchorIdError (len (as_str id)))), st).
Proof.
  intros Hid. unfold sign_checkpoint, bind, lift.
  change (build _) with (unsigned id size root time). by rewrite signature_input_refused.
Qed.

Lemma sign_checkpoint_run (h : S) slept :
  1 <= len (as_str id) <= 255 -> 0 <= max_retries policy ->
  exists n, Z.of_nat n <= max_retries policy /\
    (forall i, (i < n)%nat -> transient (nth_answer key signing_payload h i)) /\
    (transient (nth_answer key signing_payload h n) -> Z.of_nat n = max_retries policy) /\
    sign_checkpoint policy key id size root time (h, slept) =
      (publish (Z.of_nat n) (nth_answer key signing_payload h n),
       (hsm_after key signing_payload h (Datatypes.S n), slept ++ backoffs policy 0 n)).
Proof.
  intros Hid Hm. destruct (sign_with_retry_run policy key signing_payload h slept Hm)
    as (n & Hn & Hi & Hs & Hl). exists n. split_and!; [done..|].
  unfold sign_checkpoint, bind at 1, lift at 1.
  change (build _) with (unsigned id size root time). rewrite signature_input_payload by done.
  cbn [map_err]. unfold bind. rewrite Hl. unfold attempt_result, publish.
  destruct (nth_answer key signing_payload h n) as [sig|e]; [|done]. cbn [map_err].
  change P1363_SIGNATURE_LEN with 64. destruct (Z.eqb_spec (len sig) 64) as [E|]; [|done]. cbn [negb].
  unfold lift. rewrite frame_framed; [done..|]. unfold in_uint. change (2 ^ 16) with 65536. lia.
Qed.

Lemma publish_Ok k answer obj :
  publish k answer = Ok obj ->
  exists sig, answer = Ok sig /\ len sig = 64 /\ obj = framed_object id size root time sig.
Proof.
  unfold publish. destruct answer as [sig|]; [|done]. destruct (Z.eqb_spec (len sig) 64); [|done].
  intros [= <-]. by exists sig.
Qed.

(** A 64-byte signature at attempt [n], after retryable failures, is published. *)
Lemma sign_checkpoint_success (h : S) slept n sig :
  Z.of_nat n <= max_retries policy -> 1 <= len (as_str id) <= 255 -> len sig = 64 ->
  (forall i, (i < n)%nat -> transient (nth_answer key signing_payload h i)) ->
  nth_answer key signing_payload h n = Ok sig ->
  sign_checkpoint policy key id size root time (h, slept) =
    (Ok (framed_object id size root time sig),
     (hsm_after key signing_payload h (Datatypes.S n), slept ++ backoffs policy 0 n)).
Proof.
  intros Hn Hid Hlen Hi Ha.
  destruct (sign_checkpoint_run h slept Hid) as (m & Hm & Hi' & Hs & Hl); [lia|].
  assert (m = n) as ->.
  { destruct (lt_eq_lt_dec m n) as [[Hlt|]|Hlt]; [|done|].
    - specialize (Hs (Hi m Hlt)). lia.
    - destruct (Hi' n Hlt) as (e & He & _). congruence. }
  rewrite Hl, Ha. unfold publish. by rewrite Hlen.
Qed.
End SignCheckpoint.

(** ** The properties *)

(** C22. What [sign_checkpoint] does, whatever the module answers: an empty or oversized log id is
    refused before the module is called; otherwise there is a last attempt [n], within the
    retry budget, such that all the attempts before it failed retryably, each followed by the sleep
    [min (base * 2 ^ i) max], and either it did not fail retryably or the budget is spent. Its
    answer decides the result: a failure is returned with the number of attempts, a
    signature that is not 64 bytes long is malformed, any other one is framed. *)
Theorem sign_checkpoint_outcome {S : Type} (hsm : Hsm S) (policy : RetryPolicy) (key : KeyHandle)
    (id : LogId) (size : TreeSize) (root : HashOutput) (time : Z) (h : S) (slept : list Z) :
  0 <= max_retries policy -> 0 <= base_backoff policy -> in_u64 (max_backoff policy) ->
  (~ 1 <= len (as_str id) <= 255 /\
   sign_checkpoint policy key id size root time (h, slept) =
     (Err (SignerInput (MkTrustAnchorIdError (len (as_str id)))), (h, slept))) \/
  exists n, Z.of_nat n <= max_retries policy /\
    (forall i, (i < n)%nat -> transient (nth_answer key (signing_payload id size root) h i)) /\
    (transient (nth_answer key (signing_payload id size root) h n) -> Z.of_nat n = max_retries policy) /\
    sign_checkpoint policy key id size root time (h, slept) =
      (match nth_answer key (signing_payload id size root) h n with
       | Err e => Err (HsmSigningFailed (Z.min (Z.of_nat n + 1) (2 ^ 32 - 1)) e)
       | Ok sig => if len sig =? 64 then Ok (framed_object id size root time sig)
                   else Err (SignerMalformedSignature 64 (len sig))
       end,
       (hsm_after key (signing_payload id size root) h (Datatypes.S n),
        slept ++ map (fun i => Z.min (Z.min (base_backoff policy * 2 ^ Z.min (Z.of_nat i) 63) (2 ^ 128 - 1))
                                     (max_backoff policy)) (seq 0 n))).
Proof.
  intros Hm Hb Hx. assert (1 <= len (as_str id) <= 255 \/ ~ 1 <= len (as_str id) <= 255) as [Hid|Hid] by lia.
  - right. destruct (sign_checkpoint_run policy key id size root time h slept Hid Hm)
      as (n & Hn & Hi & Hs & Hl). exists n. split_and!; [done..|]. rewrite Hl. unfold publish.
    do 3 f_equal. unfold backoffs. apply map_ext. intros i. apply backoff_for_spec; [done..|lia].
  - left. split; [done|]. by apply sign_checkpoint_refused.
Qed.

(** C21. What is published: if [sign_checkpoint] returns an object, the module returned a 64-byte
    signature of the payload [MTCSubtreeSignatureInput] of this log, size and root in its
    last call; the object's bytes parse to the checkpoint of the four fields with this signature,
    which [serialize_tls_presentation] turns into the same bytes; and the object's key is that of its
    size and of no other size. *)
Theorem sign_checkpoint_published {S : Type} (hsm : Hsm S) (policy : RetryPolicy) (key : KeyHandle)
    (id : LogId) (size : TreeSize) (root : HashOutput) (time : Z) (st st' : S * list Z)
    (object : SignedCheckpointObject) :
  0 <= max_retries policy -> id_ok id -> in_u64 size -> in_u64 time ->
  sign_checkpoint policy key id size root time st = (Ok object, st') ->
  exists sig payload h,
    hsm_sign key payload h = (Ok sig, fst st') /\ len sig = 64 /\
    signature_input (published id size root time sig) = Ok payload /\
    parse_tls_presentation (object_bytes object) = Ok (published id size root time sig) /\
    serialize_tls_presentation (published id size root time sig) = Ok (object_bytes object) /\
    object_tree_size object = size /\
    (forall size', 0 <= size' -> object_key object = checkpoint_object_key size' <-> size' = size).
Proof.
  intros Hm Hok Hn Ht E. destruct st as [h slept].
  assert (1 <= len (as_str id) <= 255 \/ ~ 1 <= len (as_str id) <= 255) as [Hid|Hid] by lia;
    [|by rewrite sign_checkpoint_refused in E].
  destruct (sign_checkpoint_run policy key id size root time h slept Hid Hm) as (n & _ & _ & _ & Hl).
  rewrite Hl in E. injection E as E <-. apply publish_Ok in E as (sig & Ea & Hlen & ->).
  assert (in_u16 (len sig)) by (rewrite Hlen; done).
  exists sig, (signing_payload id size root), (hsm_after key (signing_payload id size root) h n).
  split_and!; [|done| |by apply framed_parses|by apply framed_serializes|done|].
  - unfold nth_answer in Ea. rewrite <- Ea. apply surjective_pairing.
  - rewrite (signature_input_state _ (unsigned id size root time)) by done. by apply signature_input_payload.
  - intros size' Hs. cbn [object_key framed_object]. split; [|by intros ->].
    intros E. symmetry. apply checkpoint_object_key_inj in E; [done|by destruct Hn|done].
Qed.

(** A module that recovers is waited for: if its first [n] answers are retryable failures, [n] at
    most [max_retries], and the next one is a 64-byte signature, then [sign_checkpoint] publishes a
    checkpoint with this signature after exactly [n + 1] calls and [n] sleeps. *)
Theorem sign_checkpoint_recovers {S : Type} (hsm : Hsm S) (policy : RetryPolicy) (key : KeyHandle)
    (id : LogId) (size : TreeSize) (root : HashOutput) (time : Z) (h : S) (slept : list Z)
    (n : nat) (sig : list byte) :
  Z.of_nat n <= max_retries policy -> 1 <= len (as_str id) <= 255 -> len sig = 64 ->
  (forall i, (i < n)%nat -> transient (nth_answer key (signing_payload id size root) h i)) ->
  nth_answer key (signing_payload id size root) h n = Ok sig ->
  exists slept',
    sign_checkpoint policy key id size root time (h, slept) =
      (frame (unsigned id size root time) sig,
       (hsm_after key (signing_payload id size root) h (Datatypes.S n), slept ++ slept')) /\
    length slept' = n /\ is_Some (ok (frame (unsigned id size root time) sig)).
Proof.
  intros Hn Hid Hlen Hi Ha. assert (in_u16 (len sig)) by (rewrite Hlen; done).
  exists (backoffs policy 0 n). rewrite frame_framed by done. split_and!; [| |by eexists].
  - by apply sign_checkpoint_success.
  - unfold backoffs. by rewrite length_map, length_seq.
Qed.

(** C13. From key generation to verification on the in-memory module: a key is generated under a
    fresh handle and no key held before is lost; then [sign_checkpoint] with this handle succeeds
    at once for every well-formed checkpoint, without changing the module and without sleeping,
    and the published bytes parse to a checkpoint that verifies under the public key the
    module gives for the handle. *)
Theorem memory_hsm_checkpoint_verifies (p : P256) (Hp : P256_documented p)
    (p256_sign : P256SigningKey p -> list byte -> P256Signature p)
    (Hsign : forall k m, try_sign p k m = Some (p256_sign k m))
    (getrandom_fill : nat -> option (list byte)) (policy : RetryPolicy)
    (h h1 h2 : MemoryHsm p) (handle : KeyHandle) (pk : PublicKey)
    (id : LogId) (size : TreeSize) (root : HashOutput) (time : Z) (slept : list Z) :
  0 <= max_retries policy -> id_ok id -> len (as_str id) <= 255 -> in_u64 size -> in_u64 time ->
  handles_allocated p h -> hm_next_id h + 1 < 2 ^ 64 ->
  memory_generate_key p getrandom_fill KeySpecEcdsaP256 h = (Ok handle, h1) ->
  memory_get_public_key p handle h1 = (Ok pk, h2) ->
  hm_keys h !! handle = None /\ hm_keys h ⊆ hm_keys h1 /\
  exists object c,
    sign_checkpoint (H := memory_hsm p p256_sign getrandom_fill) policy handle id size root time (h2, slept) =
      (Ok object, (h2, slept)) /\
    parse_tls_presentation (object_bytes object) = Ok c /\
    log_id c = id /\ tree_size c = size /\ root_hash c = root /\ signed_at c = time /\
    verify (H := EcdsaP256 p) c (from_spki_der ALGORITHM (public_spki_der pk)) = Ok tt.
Proof.
  intros Hm Hok Hl Hn Ht Hh Hid Hg Hpk.
  destruct (generate_preserves p getrandom_fill h handle h1 Hh Hid Hg) as (_ & Hfresh & Hsub).
  split; [done|]. split; [done|].
  apply memory_generate_key_spec in Hg as (key & _ & Hkeys & _).
  assert (hm_keys h1 !! handle = Some key) as Hk by (rewrite Hkeys; apply lookup_insert_eq).
  destruct (memory_get_public_key_Ok p h1 handle pk h2 Hpk) as [-> _].
  assert (1 <= len (as_str id) <= 255).
  { split; [|done]. destruct Hok as [Hne _]. destruct (as_str id) as [|b s]; [done|].
    rewrite len_cons. pose proof (len_nonneg s). lia. }
  set (sig := sig_to_bytes p (p256_sign key (signing_payload id size root))).
  assert (len sig = 64) as Hsl by apply (sig_length p Hp).
  assert (in_u16 (len sig)) by (rewrite Hsl; done).
  set (held := memory_hsm p p256_sign getrandom_fill).
  assert (hsm_sign (Hsm := held) handle (signing_payload id size root) h1 = (Ok sig, h1)) as Hs
    by (by apply memory_sign_held).
  exists (framed_object id size root time sig), (published id size root time sig).
  split_and!; [|by apply framed_parses|done..|].
  - rewrite (sign_checkpoint_success (H := held) policy handle id size root time h1 slept 0 sig);
      [|done..|lia|exact (f_equal fst Hs)].
    rewrite app_nil_r. do 2 f_equal. exact (f_equal snd Hs).
  - apply verify_Ok. exists (signing_payload id size root). split.
    + rewrite (signature_input_state _ (unsigned id size root time)) by done.
      by apply signature_input_payload.
    + apply (memory_signature_verifies p Hp p256_sign
               (fun k m => sign_verifies p Hp k m _ (Hsign k m)) h1 handle key _ pk h1); done.
Qed.

(** ** Examples *)

(** A module that answers signing requests from a script. *)
Definition script_pop (s : list (result (list byte) CloudError)) :
    result (list byte) CloudError * list (result (list byte) CloudError) :=
  match s with
  | [] => (Err (Transport false (OtherReason "end of script")), [])
  | r :: s' => (r, s')
  end.
Definition scripted_hsm : Hsm (list (result (list byte) CloudError)) := {|
  hsm_sign := fun _ _ => script_pop;
  hsm_get_public_key := fun key s => (Err (NotFound key), s);
  hsm_generate_key := fun _ s => (Err (Transport false (OtherReason "no keys")), s);
  is_fips_validated := fun _ => false
|}.

Definition throttled : result (list byte) CloudError := Err (Transport true (OtherReason "throttled")).
Definition sample_sig : list byte := replicate 64 x2a.

Lemma transient_below (answers : nat -> result (list byte) CloudError) :
  transient (answers 0%nat) -> transient (answers 1%nat) ->
  forall i, (i < 2)%nat -> transient (answers i).
Proof. intros H0 H1 [|[|i]] Hi; [done..|lia]. Qed.

Lemma sign_checkpoint_outcome_witness :
  exists n, Z.of_nat n <= 5 /\
    (transient (nth_answer (H := scripted_hsm) "k" (signing_payload (MkId [x61]) 5 (zero_array 32))
                  [throttled; Ok [x00]] n) -> Z.of_nat n = 5) /\
    snd (snd (sign_checkpoint (H := scripted_hsm) default_retry_policy "k" (MkId [x61]) 5 (zero_array 32) 7
           ([throttled; Ok [x00]], []))) =
      map (fun i => Z.min (Z.min (50000000 * 2 ^ Z.min (Z.of_nat i) 63) (2 ^ 128 - 1)) 5000000000) (seq 0 n).
Proof.
  destruct (sign_checkpoint_outcome scripted_hsm default_retry_policy "k" (MkId [x61]) 5 (zero_array 32) 7
              [throttled; Ok [x00]] []) as [[H _]|(n & Hn & _ & Hs & E)]; [done..| |].
  - by destruct H.
  - exists n. split; [exact Hn|]. split; [exact Hs|]. rewrite E. done.
Defined.

(** Two throttled attempts, then a signature: the object is that of the log [a] at size 5. *)
Definition sample_run : result SignedCheckpointObject CheckpointSignerError *
    (list (result (list byte) CloudError) * list Z) :=
  sign_checkpoint (H := scripted_hsm) default_retry_policy "k" (MkId [x61]) 5 (zero_array 32) 7
    ([throttled; throttled; Ok sample_sig], []).
Definition sample_object : SignedCheckpointObject :=
  unwrap_or (MkSignedCheckpointObject "" [] 0) (fst sample_run).

Lemma sample_run_value : sample_run = (Ok sample_object, ([], [50000000; 100000000])).
Proof. by vm_compute. Qed.

Lemma sign_checkpoint_recovers_witness :
  exists slept, sample_run = (Ok sample_object, ([], slept)) /\ length slept = 2%nat.
Proof.
  destruct (sign_checkpoint_recovers scripted_hsm default_retry_policy "k" (MkId [x61]) 5 (zero_array 32) 7
    [throttled; throttled; Ok sample_sig] [] 2 sample_sig) as (sl & E & Hl & _); [done..| |done|].
  - apply transient_below; by eexists.
  - exists sl. split; [exact E|exact Hl].
Defined.

Lemma sign_checkpoint_published_witness :
  exists sig, parse_tls_presentation (object_bytes sample_object) =
    Ok (published (MkId [x61]) 5 (zero_array 32) 7 sig).
Proof.
  destruct (sign_checkpoint_published scripted_hsm default_retry_policy "k" (MkId [x61]) 5 (zero_array 32) 7
    ([throttled; throttled; Ok sample_sig], []) ([], [50000000; 100000000]) sample_object)
    as (sig & _ & _ & _ & _ & _ & E & _); [done..|exact sample_run_value|by exists sig].
Defined.

(** The toy crate's infallible signing, a random source, and a module with one key generated. *)
Definition toy_p256_sign (k : P256SigningKey toy_p256) (m : list byte) : P256Signature toy_p256 :=
  be_array 64 (from_be_bytes (arr_list k ++ arr_list k)).

Lemma toy_p256_sign_ok k m : try_sign toy_p256 k m = Some (toy_p256_sign k m).
Proof.
  destruct (array_of_length 64 (arr_list k ++ arr_list k)) as (a & Ha & El).
  - by rewrite length_app, !array_length.
  - change (array_of 64 (arr_list k ++ arr_list k) = Some (toy_p256_sign k m)). rewrite Ha.
    unfold toy_p256_sign. rewrite <- El. by rewrite <- be_array_from.
Qed.

Definition toy_fill (n : nat) : option (list byte) := Some (replicate 32 (byte_of_Z (Z.of_nat n))).
Definition toy_generated : MemoryHsm toy_p256 :=
  snd (memory_generate_key toy_p256 toy_fill KeySpecEcdsaP256 memory_hsm_new).
Definition toy_public_key : PublicKey :=
  unwrap_or (public_key_from_spki_der [])
    (fst (memory_get_public_key toy_p256 (memory_handle 0) toy_generated)).

Lemma memory_hsm_checkpoint_verifies_witness :
  exists object c,
    fst (sign_checkpoint (H := memory_hsm toy_p256 toy_p256_sign toy_fill) default_retry_policy
           "mem-hsm-0000000000000000" (MkId [x61]) 5 (zero_array 32) 7 (toy_generated, [])) = Ok object /\
    parse_tls_presentation (object_bytes object) = Ok c /\
    verify (H := EcdsaP256 toy_p256) c (from_spki_der ALGORITHM (public_spki_der toy_public_key)) = Ok tt.
Proof.
  destruct (memory_hsm_checkpoint_verifies toy_p256 toy_p256_documented toy_p256_sign toy_p256_sign_ok
    toy_fill default_retry_policy memory_hsm_new toy_generated toy_generated "mem-hsm-0000000000000000"
    toy_public_key (MkId [x61]) 5 (zero_array 32) 7 [])
    as (_ & _ & object & c & E & Hp & _ & _ & _ & _ & Hv).
  - done.
  - by split.
  - done.
  - done.
  - done.
  - apply handles_allocated_new.
  - done.
  - etransitivity; [apply surjective_pairing|]. apply (f_equal (fun r => (r, _))). by vm_compute.
  - etransitivity; [apply surjective_pairing|]. apply (f_equal2 pair); [vm_compute|]; reflexivity.
  - exists object, c. split; [by rewrite E|]. by split.
Defined.
