(* ===== verification/ObjectStore.v ===== *)
(** * Object store and object lock

    [cloud-types/src/object_store.rs] and [object_lock.rs]: the traits as classes over the store's
    state; [cloud-memory/src/object_store.rs] and [object_lock.rs]: the in-memory store, whose
    mutex makes every operation one atomic step, over a clock given by its successive readings. *)

From stdpp Require Import gmap.
From S2P Require Import Prelude BTree KV.

Local Open Scope mtc_scope.
Local Open Scope Z_scope.

(** ** Data *)

(** [PutMode], [PutOptions]. *)
Inductive PutMode : Type := IfNotExists | Overwrite.
Record PutOptions : Type := MkPutOptions { mode : PutMode }.
Definition if_not_exists : PutOptions := MkPutOptions IfNotExists.
Definition overwrite : PutOptions := MkPutOptions Overwrite.

(** [ObjectMetadata], [ObjectInfo]; an instant is its nanoseconds since [UNIX_EPOCH]. *)
Record ObjectMetadata : Type := MkObjectMetadata { om_size_bytes : Z; om_last_modified : Z }.
Record ObjectInfo : Type := MkObjectInfo {
  oi_key : string;
  oi_size_bytes : Z;
  oi_last_modified : Z
}.

(** [ObjectStore], [ObjectLock]. *)
Class ObjectStore (S : Type) : Type := {
  store_put : string -> list byte -> PutOptions -> M S CloudError unit;
  store_get : string -> M S CloudError (list byte);
  store_head : string -> M S CloudError ObjectMetadata;
  store_list : string -> M S CloudError (list ObjectInfo);
  store_delete : string -> M S CloudError unit
}.
Class ObjectLock (S : Type) : Type := {
  lock_put_with_retention : string -> list byte -> Z -> M S CloudError unit;
  lock_extend_retention : string -> Z -> M S CloudError unit;
  lock_get_retention : string -> M S CloudError Z
}.

(** ** The in-memory store *)

(** [StoredObject]. *)
Record StoredObject : Type := MkStoredObject {
  data : list byte;
  last_modified : Z;
  retain_until : option Z
}.

(** [size_bytes]. *)
Definition size_bytes (data : list byte) : Z := default u64_max (try_from_uint 64 (len data)).

(** [MemoryObjectStore], with the number of readings made of its clock. *)
Record MemoryObjectStore : Type := MkMemoryObjectStore {
  objects : gmap string StoredObject;
  readings : nat
}.

(** [MemoryObjectStore::new]. *)
Definition memory_object_store_new : MemoryObjectStore := MkMemoryObjectStore ∅ 0.

Section MemoryObjectStore.
(** The [n]-th reading of the clock. *)
Context (clock : nat -> Z).

Abbreviation StoreM := (M MemoryObjectStore CloudError).

(** [clock.now()]. *)
Definition now : StoreM Z := fun s => (Ok (clock (readings s)), MkMemoryObjectStore (objects s) (S (readings s))).

(** [objects.get(key)], [objects.insert(key, object)], [objects.remove(key)]. *)
Definition lookup_object (key : string) : StoreM (option StoredObject) := fun s => (Ok (objects s !! key), s).
Definition insert_object (key : string) (object : StoredObject) : StoreM unit := fun s =>
  (Ok tt, MkMemoryObjectStore (<[key := object]> (objects s)) (readings s)).
Definition remove_object (key : string) : StoreM unit := fun s =>
  (Ok tt, MkMemoryObjectStore (delete key (objects s)) (readings s)).

(** [reject_if_retained]. *)
Definition reject_if_retained (existing : StoredObject) (key : string) : StoreM unit :=
  match retain_until existing with
  | Some retain_until =>
      let! t := now in
      if t <? retain_until then throw (RetentionViolation (RetainedUntil key retain_until)) else ret tt
  | None => ret tt
  end.

(** [put]. *)
Definition memory_put (key : string) (data : list byte) (opts : PutOptions) : StoreM unit :=
  let! existing := lookup_object key in
  do! match mode opts with
      | IfNotExists =>
          match existing with Some _ => throw (AlreadyExists key) | None => ret tt end
      | Overwrite =>
          match existing with Some existing => reject_if_retained existing key | None => ret tt end
      end;
  let! last_modified := now in
  insert_object key (MkStoredObject data last_modified None).

(** [get]. *)
Definition memory_get (key : string) : StoreM (list byte) :=
  let! existing := lookup_object key in
  lift (ok_or (data <$> existing) (NotFound key)).

(** [head]. *)
Definition memory_head (key : string) : StoreM ObjectMetadata :=
  let! existing := lookup_object key in
  lift (ok_or ((fun object => MkObjectMetadata (size_bytes (data object)) (last_modified object)) <$> existing)
              (NotFound key)).

(** [list]. *)
Definition memory_list (prefix : string) : StoreM (list ObjectInfo) :=
  let! s := read_state in
  ret ((fun entry : string * StoredObject =>
          MkObjectInfo entry.1 (size_bytes (data entry.2)) (last_modified entry.2)) <$>
       btree_with_prefix prefix (objects s)).

(** [delete]. *)
Definition memory_delete (key : string) : StoreM unit :=
  let! existing := lookup_object key in
  let! existing := lift (ok_or existing (NotFound key)) in
  do! reject_if_retained existing key;
  remove_object key.

(** [put_with_retention]. *)
Definition memory_put_with_retention (key : string) (data : list byte) (retain_until : Z) : StoreM unit :=
  let! existing := lookup_object key in
  do! match existing with Some _ => throw (AlreadyExists key) | None => ret tt end;
  let! last_modified := now in
  insert_object key (MkStoredObject data last_modified (Some retain_until)).

(** [extend_retention]. *)
Definition memory_extend_retention (key : string) (new_retain_until : Z) : StoreM unit :=
  let! existing := lookup_object key in
  let! existing := lift (ok_or existing (NotFound key)) in
  let! current := lift (ok_or (retain_until existing) (NotFound key)) in
  if new_retain_until <=? current
  then throw (RetentionViolation (RetentionForwardOnly key current new_retain_until))
  else insert_object key (MkStoredObject (data existing) (last_modified existing) (Some new_retain_until)).

(** [get_retention]. *)
Definition memory_get_retention (key : string) : StoreM Z :=
  let! existing := lookup_object key in
  let! existing := lift (ok_or existing (NotFound key)) in
  lift (ok_or (retain_until existing) (NotFound key)).

#[export] Instance memory_object_store : ObjectStore MemoryObjectStore := {|
  store_put := memory_put;
  store_get := memory_get;
  store_head := memory_head;
  store_list := memory_list;
  store_delete := memory_delete
|}.
#[export] Instance memory_object_lock : ObjectLock MemoryObjectStore := {|
  lock_put_with_retention := memory_put_with_retention;
  lock_extend_retention := memory_extend_retention;
  lock_get_retention := memory_get_retention
|}.
End MemoryObjectStore.
