(* ===== verification/ObjectStoreFacts.v ===== *)
(** * Correctness of the object store

    The documented contract of [ObjectStore] and [ObjectLock] as a relation between a call, the
    instant it is made at, the objects before, the answer and the objects after; the
    in-memory store implements it; and under the contract a retained object cannot change. *)

From stdpp Require Import gmap sorting.
From S2P Require Import Prelude BTree KV ObjectStore.

Local Open Scope mtc_scope.
Local Open Scope Z_scope.

(** ** The contract *)

(** The calls of the two traits, by the type of their answer. *)
Inductive StoreCall : Type -> Type :=
| CallPut (key : string) (bytes : list byte) (opts : PutOptions) : StoreCall unit
| CallGet (key : string) : StoreCall (list byte)
| CallHead (key : string) : StoreCall ObjectMetadata
| CallList (prefix : string) : StoreCall (list ObjectInfo)
| CallDelete (key : string) : StoreCall unit
| CallPutWithRetention (key : string) (bytes : list byte) (until : Z) : StoreCall unit
| CallExtendRetention (key : string) (until : Z) : StoreCall unit
| CallGetRetention (key : string) : StoreCall Z.

(** An implementation of the traits, call by call. *)
Definition run_call {S} `{!ObjectStore S, !ObjectLock S} {A} (c : StoreCall A) : M S CloudError A :=
  match c with
  | CallPut key bytes opts => store_put key bytes opts
  | CallGet key => store_get key
  | CallHead key => store_head key
  | CallList prefix => store_list prefix
  | CallDelete key => store_delete key
  | CallPutWithRetention key bytes until => lock_put_with_retention key bytes until
  | CallExtendRetention key until => lock_extend_retention key until
  | CallGetRetention key => lock_get_retention key
  end.

Abbreviation Objects := (gmap string StoredObject).

(** The object is inside its retention window at [t]. *)
Definition retained (t : Z) (o : StoredObject) : Prop :=
  exists until, retain_until o = Some until /\ t < until.

Definition metadata (o : StoredObject) : ObjectMetadata := MkObjectMetadata (size_bytes (data o)) (last_modified o).
Definition info (key : string) (o : StoredObject) : ObjectInfo :=
  MkObjectInfo key (size_bytes (data o)) (last_modified o).
Definition info_lt (a b : ObjectInfo) : Prop := String.le (oi_key a) (oi_key b) /\ oi_key a <> oi_key b.

(** The change a call makes when it succeeds, and the errors it may refuse with. *)
Definition performed {A} (t : Z) (c : StoreCall A) (m : Objects) : A -> Objects -> Prop :=
  match c in StoreCall A return A -> Objects -> Prop with
  | CallPut key bytes opts => fun _ m' =>
      (mode opts = IfNotExists -> m !! key = None) /\
      (forall o, m !! key = Some o -> ~ retained t o) /\
      exists modified, m' = <[key := MkStoredObject bytes modified None]> m
  | CallGet key => fun bytes m' => m' = m /\ exists o, m !! key = Some o /\ bytes = data o
  | CallHead key => fun md m' => m' = m /\ exists o, m !! key = Some o /\ md = metadata o
  | CallList prefix => fun infos m' =>
      m' = m /\ StronglySorted info_lt infos /\
      forall i, i ∈ infos <->
        exists o, m !! oi_key i = Some o /\ String.prefix prefix (oi_key i) = true /\ i = info (oi_key i) o
  | CallDelete key => fun _ m' =>
      m' = delete key m /\ exists o, m !! key = Some o /\ ~ retained t o
  | CallPutWithRetention key bytes until => fun _ m' =>
      m !! key = None /\ exists modified, m' = <[key := MkStoredObject bytes modified (Some until)]> m
  | CallExtendRetention key until => fun _ m' =>
      exists o current, m !! key = Some o /\ retain_until o = Some current /\ current < until /\
        m' = <[key := MkStoredObject (data o) (last_modified o) (Some until)]> m
  | CallGetRetention key => fun until m' =>
      m' = m /\ exists o, m !! key = Some o /\ retain_until o = Some until
  end.
Definition refusal {A} (t : Z) (c : StoreCall A) (m : Objects) (e : CloudError) : Prop :=
  match c with
  | CallPut key _ opts =>
      (mode opts = IfNotExists /\ is_Some (m !! key) /\ e = AlreadyExists key) \/
      (mode opts = Overwrite /\ (exists o, m !! key = Some o /\ retained t o) /\
       exists reason, e = RetentionViolation reason)
  | CallGet key | CallHead key => m !! key = None /\ e = NotFound key
  | CallList _ => False
  | CallDelete key =>
      (m !! key = None /\ e = NotFound key) \/
      ((exists o, m !! key = Some o /\ retained t o) /\ exists reason, e = RetentionViolation reason)
  | CallPutWithRetention key _ _ => is_Some (m !! key) /\ e = AlreadyExists key
  | CallExtendRetention key until =>
      (m !! key ≫= retain_until = None /\ e = NotFound key) \/
      ((exists current, m !! key ≫= retain_until = Some current /\ until <= current) /\
       exists reason, e = RetentionViolation reason)
  | CallGetRetention key => m !! key ≫= retain_until = None /\ e = NotFound key
  end.

(** A call at the instant [t]: done, or refused with nothing changed. *)
Definition contract {A} (t : Z) (c : StoreCall A) (m : Objects) (r : result A CloudError) (m' : Objects) : Prop :=
  match r with
  | Ok a => performed t c m a m'
  | Err e => m' = m /\ refusal t c m e
  end.

(** ** Under the contract *)

(** A retained object stays as it is, but for an end of retention that may move later. *)
Definition kept (key : string) (o : StoredObject) (until : Z) (m : Objects) : Prop :=
  exists until', until <= until' /\
    m !! key = Some (MkStoredObject (data o) (last_modified o) (Some until')).

Lemma contract_keeps {A} t (c : StoreCall A) m r m' key o until :
  contract t c m r m' -> t < until -> kept key o until m -> kept key o until m'.
Proof.
  intros Hc Ht (u & Hu & Hk). destruct r as [a|e]; [|destruct Hc as [-> _]; by exists u].
  assert (forall k (o' : StoredObject), m !! k = Some o' -> ~ retained t o' -> k <> key) as Hne.
  { intros k o' Hl Hr ->. rewrite Hk in Hl. injection Hl as <-. apply Hr. exists u. split; [done|lia]. }
  assert (forall k (o' : StoredObject), m !! k = None -> k <> key) as Hnew by (intros; congruence).
  destruct c as [k bytes opts|k|k|p|k|k bytes w|k w|k]; cbn [contract performed] in Hc.
  - destruct Hc as (_ & Hr & lm & ->). exists u. split; [done|].
    destruct (decide (k = key)) as [->|Hd]; [|by rewrite lookup_insert_ne].
    by destruct (Hne key _ Hk (Hr _ Hk)).
  - destruct Hc as [-> _]. by exists u.
  - destruct Hc as [-> _]. by exists u.
  - destruct Hc as [-> _]. by exists u.
  - destruct Hc as (-> & o' & Hl & Hr). exists u. split; [done|].
    rewrite lookup_delete_ne; [done|by apply (Hne _ o')].
  - destruct Hc as (Hl & lm & ->). exists u. split; [done|].
    rewrite lookup_insert_ne; [done|]. congruence.
  - destruct Hc as (o' & cur & Hl & Hcur & Hlt & ->). destruct (decide (k = key)) as [->|Hd].
    + rewrite Hk in Hl. injection Hl as <-. injection Hcur as <-. exists w. split; [lia|].
      by rewrite lookup_insert_eq.
    + exists u. split; [done|]. by rewrite lookup_insert_ne.
  - destruct Hc as [-> _]. by exists u.
Qed.

(** ** The in-memory store *)

Section Memory.
Context (clock : nat -> Z).
#[local] Instance the_store : ObjectStore MemoryObjectStore := memory_object_store clock.
#[local] Instance the_lock : ObjectLock MemoryObjectStore := memory_object_lock clock.

Lemma reject_if_retained_spec o key s :
  (retained (clock (readings s)) o /\ exists reason s',
     reject_if_retained clock o key s = (Err (RetentionViolation reason), s') /\ objects s' = objects s) \/
  (~ retained (clock (readings s)) o /\ exists s',
     reject_if_retained clock o key s = (Ok tt, s') /\ objects s' = objects s).
Proof.
  unfold reject_if_retained, retained, bind, now. destruct (retain_until o) as [u|].
  - destruct (Z.ltb_spec (clock (readings s)) u); [left|right].
    + split; [by exists u|]. eexists _, _. done.
    + split; [intros (? & [= <-] & ?); lia|]. by eexists.
  - right. split; [by intros (? & ? & _)|]. by exists s.
Qed.

Lemma memory_contract {A} (c : StoreCall A) s :
  contract (clock (readings s)) c (objects s) (fst (run_call c s)) (objects (snd (run_call c s))).
Proof.
  destruct c as [k bytes opts|k|k|p|k|k bytes w|k w|k]; cbn [run_call store_put store_get store_head
    store_list store_delete lock_put_with_retention lock_extend_retention lock_get_retention
    the_store the_lock memory_object_store memory_object_lock].
  - unfold memory_put, bind, lookup_object. destruct (mode opts) eqn:Em.
    + destruct (objects s !! k) as [o|] eqn:Ek; cbn; [split; [done|left]; by eauto|].
      split_and!; [done|by rewrite Ek|by eexists].
    + destruct (objects s !! k) as [o|] eqn:Ek; cbn.
      * destruct (reject_if_retained_spec o k s) as [(Hr & rs & s' & -> & E)|(Hr & s' & -> & E)]; cbn.
        -- split; [done|]. right. split; [done|]. split; [by exists o|by exists rs].
        -- rewrite Em, E, Ek. split_and!; [done| |by eexists]. by intros ? [= <-].
      * rewrite Em, Ek. split_and!; [done..|by eexists].
  - unfold memory_get, bind, lookup_object, lift. destruct (objects s !! k) as [o|] eqn:Ek; cbn; eauto.
  - unfold memory_head, bind, lookup_object, lift. destruct (objects s !! k) as [o|] eqn:Ek; cbn; eauto.
  - cbn. split; [done|]. split.
    + eapply StronglySorted_fmap; [|apply btree_with_prefix_sorted]. done.
    + intros i. rewrite list_elem_of_fmap. split.
      * intros ([key o] & -> & Hin). apply elem_of_btree_with_prefix in Hin as [? ?]. by exists o.
      * intros (o & Hl & Hp & ->). exists (oi_key i, o). split; [done|].
        by apply elem_of_btree_with_prefix.
  - unfold memory_delete, bind, lookup_object, lift. destruct (objects s !! k) as [o|] eqn:Ek; cbn; [|by eauto].
    destruct (reject_if_retained_spec o k s) as [(Hr & rs & s' & -> & E)|(Hr & s' & -> & E)]; cbn.
    + split; [done|]. right. split; [by exists o|by exists rs].
    + rewrite E. split; [done|]. by exists o.
  - unfold memory_put_with_retention, bind, lookup_object.
    destruct (objects s !! k) as [o|] eqn:Ek; cbn; [by eauto|]. split; [done|by eexists].
  - unfold memory_extend_retention, bind, lookup_object, lift.
    destruct (objects s !! k) as [o|] eqn:Ek; cbn; [|by rewrite Ek; eauto].
    destruct (retain_until o) as [cur|] eqn:Eu; cbn; [|rewrite Ek; cbn; by eauto].
    destruct (Z.leb_spec w cur); cbn; [rewrite Ek; cbn; by eauto 10|]. eauto 10.
  - unfold memory_get_retention, bind, lookup_object, lift.
    destruct (objects s !! k) as [o|] eqn:Ek; cbn; [|by rewrite Ek].
    destruct (retain_until o) as [cur|] eqn:Eu; cbn; [|rewrite Ek; cbn]; by eauto.
Qed.

(** The clock is only read forward. *)
Definition advancing {A} (m : M MemoryObjectStore CloudError A) : Prop :=
  forall s, (readings s <= readings (snd (m s)))%nat.

Lemma advancing_bind {A B} (m : M MemoryObjectStore CloudError A) (k : A -> M MemoryObjectStore CloudError B) :
  advancing m -> (forall a, advancing (k a)) -> advancing (bind m k).
Proof.
  intros Hm Hk s. unfold bind. pose proof (Hm s). destruct (m s) as [[a|e] s']; cbn in *; [|done].
  etrans; [done|apply Hk].
Qed.

Lemma advancing_pure {A} (m : M MemoryObjectStore CloudError A) :
  (forall s, readings (snd (m s)) = readings s) -> advancing m.
Proof. intros H s. by rewrite H. Qed.

Lemma advancing_now : advancing (now clock).
Proof. intros s. simpl. lia. Qed.

Lemma advancing_reject o key : advancing (reject_if_retained clock o key).
Proof.
  unfold reject_if_retained. destruct (retain_until o); [|by apply advancing_pure].
  apply advancing_bind; [apply advancing_now|]. intros t. case_match; by apply advancing_pure.
Qed.

Lemma advancing_run_call {A} (c : StoreCall A) : advancing (run_call c).
Proof.
  destruct c; cbn; unfold memory_put, memory_get, memory_head, memory_list, memory_delete,
    memory_put_with_retention, memory_extend_retention, memory_get_retention;
    repeat (apply advancing_bind; [|intros ?]); repeat case_match;
    first [apply advancing_now | apply advancing_reject | by apply advancing_pure].
Qed.

(** A sequence of calls, by any number of callers. *)
Fixpoint run_calls (calls : list (sigT StoreCall)) (s : MemoryObjectStore) : MemoryObjectStore :=
  match calls with
  | [] => s
  | existT _ c :: rest => run_calls rest (snd (run_call c s))
  end.

Lemma run_calls_readings calls : forall s, (readings s <= readings (run_calls calls s))%nat.
Proof.
  induction calls as [|[A c] calls IH]; intros s; cbn [run_calls]; [done|].
  etrans; [apply (advancing_run_call c)|apply IH].
Qed.

Lemma run_calls_keep calls key o until : forall s,
  kept key o until (objects s) ->
  (forall n, (readings s <= n <= readings (run_calls calls s))%nat -> clock n < until) ->
  kept key o until (objects (run_calls calls s)).
Proof.
  induction calls as [|[A c] calls IH]; intros s Hk Hc; cbn [run_calls] in *; [done|].
  pose proof (advancing_run_call c s) as H1. pose proof (run_calls_readings calls (snd (run_call c s))) as H2.
  apply IH; [|intros n Hn; apply Hc; lia].
  eapply contract_keeps; [apply memory_contract|apply Hc; lia|done].
Qed.
End Memory.

(** What a retained object is protected from. *)
Lemma kept_protected (clock : nat -> Z) (s : MemoryObjectStore) key o until :
  objects s !! key = Some (MkStoredObject (data o) (last_modified o) (Some until)) ->
  clock (readings s) < until ->
  fst (memory_get key s) = Ok (data o) /\ fst (memory_get_retention key s) = Ok until /\
  (exists reason, fst (memory_delete clock key s) = Err (RetentionViolation reason)) /\
  (forall bytes, exists reason,
     fst (memory_put clock key bytes overwrite s) = Err (RetentionViolation reason)) /\
  (forall bytes, fst (memory_put clock key bytes if_not_exists s) = Err (AlreadyExists key)) /\
  (forall bytes w, fst (memory_put_with_retention clock key bytes w s) = Err (AlreadyExists key)).
Proof.
  intros Hs Hnow. unfold memory_get, memory_get_retention, memory_delete, memory_put,
    memory_put_with_retention, reject_if_retained, bind, lookup_object, lift, now.
  rewrite Hs. cbn. rewrite (proj2 (Z.ltb_lt _ _)) by lia. split_and!; [done..|by eexists|by eexists|done|done].
Qed.

(** The in-memory store, call by call. *)
Definition memory_call (clock : nat -> Z) {A} (c : StoreCall A) : M MemoryObjectStore CloudError A :=
  @run_call _ (memory_object_store clock) (memory_object_lock clock) _ c.

(** ** The properties *)

(** C26. The in-memory store implements the documented contract: for every call of the two
    traits, in every state, the answer and the objects left are those the contract allows at
    the instant of the call. A write with [IfNotExists] or with retention only succeeds on a free
    key; an overwrite or a deletion inside the retention window is refused; retention is
    only extended; a listing is complete and in the order of the keys; a refused call changes no
    object, and each error is returned only in its documented case. *)
Theorem memory_store_contract (clock : nat -> Z) {A} (c : StoreCall A) (s : MemoryObjectStore) :
  contract (clock (readings s)) c (objects s)
    (fst (memory_call clock c s)) (objects (snd (memory_call clock c s))).
Proof. apply memory_contract. Qed.

(** C11. Write once, read many: once an object is stored under retention, then whatever calls follow,
    as long as the clock reads less than the end of retention, the object is still there with
    the same bytes, its retention has not been shortened, and deleting it or overwriting it is
    refused with a retention violation; nor can [IfNotExists] or [put_with_retention] replace it. *)
Theorem retention_worm (clock : nat -> Z) (s : MemoryObjectStore) (key : string) (o : StoredObject)
    (until : Z) (calls : list (sigT StoreCall)) :
  let s' := run_calls clock calls s in
  objects s !! key = Some o -> retain_until o = Some until ->
  (forall n, (readings s <= n <= readings s')%nat -> clock n < until) ->
  fst (memory_get key s') = Ok (data o) /\
  (exists until', until <= until' /\ fst (memory_get_retention key s') = Ok until') /\
  (exists reason, fst (memory_delete clock key s') = Err (RetentionViolation reason)) /\
  (forall bytes, exists reason,
     fst (memory_put clock key bytes overwrite s') = Err (RetentionViolation reason)) /\
  (forall bytes, fst (memory_put clock key bytes if_not_exists s') = Err (AlreadyExists key)) /\
  (forall bytes w, fst (memory_put_with_retention clock key bytes w s') = Err (AlreadyExists key)).
Proof.
  cbv zeta. intros Hk Hu Hc.
  pose proof (Hc _ (conj (run_calls_readings clock calls s) (le_n _))) as Hnow.
  destruct (run_calls_keep clock calls key o until s) as (u & Hle & Hs); [|done|].
  { exists until. split; [lia|]. rewrite Hk. by destruct o; cbn in *; subst. }
  destruct (kept_protected clock _ key o u Hs) as (? & ? & ?); [lia|]. split; [done|]. split; [by exists u|done].
Qed.

(** An object stored at 10 until 100, and an attempt to replace it and to shorten its retention. *)
Definition sample_clock (n : nat) : Z := 10 + Z.of_nat n.
Definition sample_store : MemoryObjectStore :=
  snd (memory_put_with_retention sample_clock "entries/0" [x01; x02] 100 memory_object_store_new).
Definition sample_attack : list (sigT StoreCall) :=
  [existT _ (CallDelete "entries/0"); existT _ (CallExtendRetention "entries/0" 50);
   existT _ (CallPut "entries/0" [x03] overwrite); existT _ (CallExtendRetention "entries/0" 200);
   existT _ (CallPut "entries/1" [x04] if_not_exists); existT _ (CallDelete "entries/1")].

Lemma retention_worm_witness :
  fst (memory_get "entries/0" (run_calls sample_clock sample_attack sample_store)) = Ok [x01; x02].
Proof.
  apply (retention_worm sample_clock sample_store "entries/0" (MkStoredObject [x01; x02] 10 (Some 100)) 100
           sample_attack); [done..|].
  intros n Hn. assert (readings (run_calls sample_clock sample_attack sample_store) = 4%nat) as E by done.
  unfold sample_clock. lia.
Defined.
