(* ===== verification/Retention.v ===== *)
(** * Retention: [crates/retention/src/]

    Configured durations ([duration.rs], [config.rs]) and the instant an object of each class is
    retained until ([policy.rs]). A [Duration] and an instant are nanoseconds, days and minutes
    are [i64]s.

    The configuration that is accepted and the window it gives, and that the window is enforced by
    the object store. *)

From stdpp Require Import gmap.
From S2P Require Import Prelude Time WireLaws KV ObjectStore ObjectStoreFacts.

Local Open Scope mtc_scope.
Local Open Scope Z_scope.

(** ** Durations ([duration.rs]) *)

(** [RetentionConfigError]. *)
Inductive RetentionConfigError : Type :=
| NonPositiveDays (days : Z)
| NonPositiveMinutes (minutes : Z)
| DurationOverflow (unit_ : string) (value : Z).

Definition SECS_PER_DAY : Z := 24 * 60 * 60.
Definition SECS_PER_MINUTE : Z := 60.

(** [i64::checked_mul]. *)
Definition i64_checked_mul (a b : Z) : option Z :=
  if ((- 2 ^ 63 <=? a * b) && (a * b <? 2 ^ 63))%bool then Some (a * b) else None.

Definition positive_i64_to_u64 (secs : Z) : Z := default u64_max (try_from_uint 64 secs).

(** [Duration::from_secs]. *)
Definition from_secs (secs : Z) : Z := secs * nanos_per_sec.

(** [RetentionDuration]. *)
Record RetentionDuration : Type := MkRetentionDuration { as_duration : Z }.

(** [RetentionDuration::from_days]. *)
Definition from_days (days : Z) : result RetentionDuration RetentionConfigError :=
  if days <=? 0 then Err (NonPositiveDays days)
  else
    let? secs := ok_or (i64_checked_mul days SECS_PER_DAY) (DurationOverflow "retention_days" days) in
    Ok (MkRetentionDuration (from_secs (positive_i64_to_u64 secs))).

(** [RetentionDuration::from_minutes]. *)
Definition from_minutes (minutes : Z) : result RetentionDuration RetentionConfigError :=
  if minutes <=? 0 then Err (NonPositiveMinutes minutes)
  else
    let? secs := ok_or (i64_checked_mul minutes SECS_PER_MINUTE)
                       (DurationOverflow "dev_override_minutes" minutes) in
    Ok (MkRetentionDuration (from_secs (positive_i64_to_u64 secs))).

(** ** The policy ([policy.rs]) *)

Inductive ObjectClass : Type := Entry | TileObject | PruningCheckpointObject.

Definition INDEFINITE_RETENTION_SECS : Z := 253402300799.
Definition indefinite_retention : Z := 0 + from_secs INDEFINITE_RETENTION_SECS.

Inductive RetentionError : Type := RetentionOverflow (write_time duration : Z).

(** [RetentionPolicy], [from_duration]. *)
Record RetentionPolicy : Type := from_duration { entry_tile_duration : RetentionDuration }.

(** [RetentionPolicy::retain_until]. *)
Definition policy_retain_until (policy : RetentionPolicy) (class : ObjectClass) (write_time : Z) :
    result Z RetentionError :=
  match class with
  | PruningCheckpointObject => Ok indefinite_retention
  | Entry | TileObject =>
      let duration := as_duration (entry_tile_duration policy) in
      ok_or (system_time_checked_add write_time duration) (RetentionOverflow write_time duration)
  end.

(** ** Configuration ([config.rs]) *)

Definition DEFAULT_RETENTION_DAYS : Z := 7 * 365.

Record RetentionPolicyConfig : Type := MkRetentionPolicyConfig {
  retention_days : Z;
  dev_override_minutes : option Z
}.

(** [Default::default]. *)
Definition default_retention_config : RetentionPolicyConfig :=
  MkRetentionPolicyConfig DEFAULT_RETENTION_DAYS None.

(** [RetentionPolicyConfig::build]. *)
Definition build_policy (config : RetentionPolicyConfig) : result RetentionPolicy RetentionConfigError :=
  let? base := from_days (retention_days config) in
  let? effective :=
    match dev_override_minutes config with
    | Some minutes => from_minutes minutes
    | None => Ok base
    end in
  Ok (from_duration effective).

(** The duration of [n] units of [secs] seconds, as it is accepted. *)
Lemma from_days_spec days :
  match from_days days with
  | Ok d => 1 <= days <= (2 ^ 63 - 1) / 86400 /\ as_duration d = days * 86400 * nanos_per_sec
  | Err (NonPositiveDays v) => v = days /\ days <= 0
  | Err (DurationOverflow u v) => v = days /\ u = "retention_days"%string /\ (2 ^ 63 - 1) / 86400 < days
  | Err (NonPositiveMinutes _) => False
  end.
Proof.
  unfold from_days, i64_checked_mul, SECS_PER_DAY. destruct (Z.leb_spec days 0); [done|].
  destruct (Z.leb_spec (- 2 ^ 63) (days * (24 * 60 * 60))); [|lia].
  destruct (Z.ltb_spec (days * (24 * 60 * 60)) (2 ^ 63)); cbn [andb ok_or].
  - unfold positive_i64_to_u64, from_secs. rewrite try_from_uint_in by (unfold in_uint; lia). simpl.
    split; [|done]. Z.to_euclidean_division_equations. lia.
  - split_and!; [done..|]. Z.to_euclidean_division_equations. lia.
Qed.

Lemma from_minutes_spec minutes :
  match from_minutes minutes with
  | Ok d => 1 <= minutes <= (2 ^ 63 - 1) / 60 /\ as_duration d = minutes * 60 * nanos_per_sec
  | Err (NonPositiveMinutes v) => v = minutes /\ minutes <= 0
  | Err (DurationOverflow u v) =>
      v = minutes /\ u = "dev_override_minutes"%string /\ (2 ^ 63 - 1) / 60 < minutes
  | Err (NonPositiveDays _) => False
  end.
Proof.
  unfold from_minutes, i64_checked_mul, SECS_PER_MINUTE. destruct (Z.leb_spec minutes 0); [done|].
  destruct (Z.leb_spec (- 2 ^ 63) (minutes * 60)); [|lia].
  destruct (Z.ltb_spec (minutes * 60) (2 ^ 63)); cbn [andb ok_or].
  - unfold positive_i64_to_u64, from_secs. rewrite try_from_uint_in by (unfold in_uint; lia). simpl.
    split; [|done]. Z.to_euclidean_division_equations. lia.
  - split_and!; [done..|]. Z.to_euclidean_division_equations. lia.
Qed.

(** The seconds a configuration asks for. *)
Definition configured_secs (config : RetentionPolicyConfig) : Z :=
  match dev_override_minutes config with
  | Some minutes => minutes * 60
  | None => retention_days config * 86400
  end.

Lemma build_policy_Ok config policy :
  build_policy config = Ok policy ->
  1 <= retention_days config /\ 60 <= configured_secs config < 2 ^ 63 /\
  as_duration (entry_tile_duration policy) = configured_secs config * nanos_per_sec.
Proof.
  unfold build_policy, configured_secs. pose proof (from_days_spec (retention_days config)) as Hd.
  destruct (from_days (retention_days config)) as [d|]; [|done]. destruct Hd as [Hd Ed].
  destruct (dev_override_minutes config) as [minutes|].
  - pose proof (from_minutes_spec minutes) as Hm. destruct (from_minutes minutes) as [d'|]; [|done].
    destruct Hm as [Hm Em]. intros [= <-]. simpl. split_and!; [lia| | |done];
      Z.to_euclidean_division_equations; lia.
  - intros [= <-]. simpl. split_and!; [lia| | |done]; Z.to_euclidean_division_equations; lia.
Qed.

Lemma retain_until_Ok policy class t until :
  policy_retain_until policy class t = Ok until ->
  until = match class with
          | PruningCheckpointObject => 253402300799 * nanos_per_sec
          | _ => t + as_duration (entry_tile_duration policy)
          end.
Proof.
  unfold policy_retain_until, system_time_checked_add. destruct class; [| |by intros [= <-]];
    destruct (_ <? _); cbn [ok_or]; congruence.
Qed.

(** ** The properties *)

(** A retained object is kept for as long as configured: if [build] accepts a configuration and an
    object of some class is written with [put_with_retention] until the instant the policy gives
    for its write time, then, whatever calls follow, as long as the clock reads less than the write
    time plus the configured seconds (the days, or the minutes of the development override; the
    year 9999 for pruning checkpoints), the object can be read back unchanged and cannot be deleted or
    overwritten. A configuration that is accepted asks for a positive number of days and at least
    a minute. *)
Theorem retention_enforced (config : RetentionPolicyConfig) (policy : RetentionPolicy)
    (class : ObjectClass) (clock : nat -> Z) (write_time until : Z) (key : string) (bytes : list byte)
    (s s1 : MemoryObjectStore) (calls : list (sigT StoreCall)) :
  let s' := run_calls clock calls s1 in
  let window_end := match class with
                    | PruningCheckpointObject => 253402300799 * nanos_per_sec
                    | _ => write_time + configured_secs config * nanos_per_sec
                    end in
  build_policy config = Ok policy -> policy_retain_until policy class write_time = Ok until ->
  memory_put_with_retention clock key bytes until s = (Ok tt, s1) ->
  (forall n, (readings s1 <= n <= readings s')%nat -> clock n < window_end) ->
  1 <= retention_days config /\ 60 <= configured_secs config /\
  fst (memory_get key s') = Ok bytes /\
  (exists reason, fst (memory_delete clock key s') = Err (RetentionViolation reason)) /\
  (forall bytes', exists reason,
     fst (memory_put clock key bytes' overwrite s') = Err (RetentionViolation reason)).
Proof.
  cbv zeta. intros Hb Hu Hp Hc. apply build_policy_Ok in Hb as (Hd & Hs & Ed).
  apply retain_until_Ok in Hu. rewrite Ed in Hu. rewrite <- Hu in Hc.
  assert (exists t, objects s1 !! key = Some (MkStoredObject bytes t (Some until))) as [t Hk].
  { unfold memory_put_with_retention, bind, lookup_object in Hp. destruct (objects s !! key); [done|].
    injection Hp as <-. eexists. apply lookup_insert_eq. }
  pose proof (Hc _ (conj (run_calls_readings clock calls s1) (le_n _))) as Hnow.
  set (o := MkStoredObject bytes t (Some until)).
  destruct (run_calls_keep clock calls key o until s1) as (u & Hle & Hs'); [by exists until|done|].
  destruct (kept_protected clock _ key o u Hs') as (? & _ & ? & ? & _); [lia|]. split_and!; [done|lia|done..].
Qed.

(** Entry 0 written at 10 under the default policy, of seven years, and an attempt to delete it
    the moment before its window ends. *)
Definition sample_policy : RetentionPolicy := from_duration (MkRetentionDuration (220752000 * nanos_per_sec)).
Definition late_clock (n : nat) : Z := match n with O => 10 | _ => 220752000 * nanos_per_sec end.
Definition sample_written : MemoryObjectStore :=
  snd (memory_put_with_retention late_clock "entries/0" [x01; x02] (10 + 220752000 * nanos_per_sec)
         memory_object_store_new).

Lemma retention_enforced_witness :
  fst (memory_get "entries/0" (run_calls late_clock [existT _ (CallDelete "entries/0")] sample_written)) =
    Ok [x01; x02].
Proof.
  apply (retention_enforced default_retention_config sample_policy Entry late_clock 10
           (10 + 220752000 * nanos_per_sec) "entries/0" [x01; x02] memory_object_store_new sample_written
           [existT _ (CallDelete "entries/0")]); [done|by vm_compute|done|].
  intros n Hn. unfold late_clock. by destruct n.
Defined.
