(* ===== verification/Clock.v ===== *)
(** * Clocks: [crates/clock/src/]

    The fake clock ([fake.rs]): its atomic counter, and [advance], [set] and [now] as threads that
    interleave at the counter's loads and compare-exchanges. The interval of [tokio.rs]. The
    wake-ups of waiting tasks and the system clock are in [ClockSleep].

    The fake clock is linearizable: whatever the schedule, the outcomes of the calls are those of
    an atomic clock that never goes back, executed in the order in which the calls return. *)

From S2P Require Import Prelude Time WireLaws.

Local Open Scope mtc_scope.
Local Open Scope Z_scope.

(** ** The fake clock ([fake.rs]) *)

(** [time_to_nanos], [nanos_to_time]. *)
Definition time_to_nanos (t : Z) : Z := if t <? 0 then 0 else default u64_max (try_from_uint 64 t).
Definition nanos_to_time (nanos : Z) : Z := nanos.

(** [FakeClock::new]: the counter. *)
Definition fake_clock_new (start : Z) : Z := time_to_nanos start.

(** A call in progress: [Advance] with [delta] cut to a [u64], [Set]. *)
Inductive ClockOp : Type :=
| Now
| Advance (delta : Z)
| Set_ (to : Z).

Inductive Outcome : Type :=
| Observed (t : Z)
| Advanced (t : Z)
| SetDone
| ClockWentBackward (current requested : Z).

(** A thread: before its first load, in its compare-exchange loop with the value it read last, or
    returned. *)
Inductive Thread : Type :=
| Start (op : ClockOp)
| Loop (op : ClockOp) (current : Z)
| Returned (op : ClockOp) (outcome : Outcome).

(** The operation goes on with the value [current] it just read: [set] leaves its loop if its
    target is behind. *)
Definition examine (op : ClockOp) (current : Z) : Thread :=
  match op with
  | Now => Returned Now (Observed (nanos_to_time current))
  | Advance delta => Loop op current
  | Set_ to =>
      let target := time_to_nanos to in
      if target <? current then Returned op (ClockWentBackward (nanos_to_time current) to) else Loop op current
  end.

(** The value the loop would store over [current]: [saturating_add], or the target of [set]. *)
Definition next_nanos (op : ClockOp) (current : Z) : Z :=
  match op with
  | Now => current
  | Advance delta => saturating_add 64 current (default u64_max (try_from_uint 64 delta))
  | Set_ to => time_to_nanos to
  end.

(** What the operation returns once the counter holds [next]. *)
Definition stored_outcome (op : ClockOp) (next : Z) : Outcome :=
  match op with
  | Now => Observed (nanos_to_time next)
  | Advance _ => Advanced (nanos_to_time next)
  | Set_ _ => SetDone
  end.

(** One access of a thread to the counter: [load], or [compare_exchange(current, next)], which
    on failure gives the actual value. *)
Definition thread_step (nanos : Z) (t : Thread) : Thread * Z :=
  match t with
  | Start op => (examine op nanos, nanos)
  | Loop op current =>
      if nanos =? current
      then let next := next_nanos op current in (Returned op (stored_outcome op next), next)
      else (examine op nanos, nanos)
  | Returned _ _ => (t, nanos)
  end.

(** Threads sharing a clock. *)
Record ClockSystem : Type := MkClockSystem { counter : Z; threads : list Thread }.

Definition system_step (s : ClockSystem) (i : nat) : ClockSystem :=
  match threads s !! i with
  | None => s
  | Some t =>
      let '(t', nanos) := thread_step (counter s) t in
      MkClockSystem nanos (<[i := t']> (threads s))
  end.

(** A schedule: which thread makes the next access. *)
Definition run_schedule (s : ClockSystem) (schedule : list nat) : ClockSystem :=
  fold_left system_step schedule s.

(** ** Intervals ([tokio.rs]) *)

(** [Interval], without its clock. *)
Record Interval : Type := MkInterval { period : Z; next : option Z }.

(** [Interval::new], [Interval::new_at]. *)
Definition interval_new (now period : Z) : Interval :=
  MkInterval period (system_time_checked_add now period).
Definition interval_new_at (first_tick period : Z) : Interval := MkInterval period (Some first_tick).

(** [Interval::tick] once the clock has reached its deadline: the deadline and the interval after
    it; [None] when it waits for ever. *)
Definition tick (i : Interval) : option (Z * Interval) :=
  match next i with
  | Some deadline => Some (deadline, MkInterval (period i) (system_time_checked_add deadline (period i)))
  | None => None
  end.

(** [AsyncClock::sleep]: the deadline it waits for. *)
Definition sleep_deadline (now duration : Z) : option Z := system_time_checked_add now duration.

(** ** The atomic clock *)

(** Each operation in one step. *)
Definition atomic_op (op : ClockOp) (nanos : Z) : Outcome * Z :=
  match op with
  | Now => (Observed nanos, nanos)
  | Advance delta => let n := Z.min (nanos + Z.min delta u64_max) u64_max in (Advanced n, n)
  | Set_ to =>
      let target := Z.min (Z.max to 0) u64_max in
      if target <? nanos then (ClockWentBackward nanos to, nanos) else (SetDone, target)
  end.

(** A sequence of operations with their outcomes takes the clock from one value to another. *)
Inductive history : Z -> list (ClockOp * Outcome) -> Z -> Prop :=
| history_nil nanos : history nanos [] nanos
| history_cons nanos op outcome nanos' rest nanos'' :
    atomic_op op nanos = (outcome, nanos') -> history nanos' rest nanos'' ->
    history nanos ((op, outcome) :: rest) nanos''.

Definition op_ok (op : ClockOp) : Prop := match op with Advance d => 0 <= d | _ => True end.

Lemma time_to_nanos_spec t : time_to_nanos t = Z.min (Z.max t 0) u64_max.
Proof.
  unfold time_to_nanos, try_from_uint, u64_max. destruct (Z.ltb_spec t 0); [lia|].
  destruct (Z.leb_spec 0 t), (Z.ltb_spec t (2 ^ 64)); simpl; lia.
Qed.

Lemma next_nanos_spec op nanos :
  op_ok op -> in_u64 nanos ->
  match op with Set_ to => (time_to_nanos to <? nanos) = false | _ => True end ->
  atomic_op op nanos = (stored_outcome op (next_nanos op nanos), next_nanos op nanos).
Proof.
  intros Ho Hn Hs. destruct op as [|d|to]; [done| |].
  - simpl in *. unfold saturating_add, nanos_to_time, try_from_uint, u64_max in *.
    destruct (Z.leb_spec 0 d); [|lia]. destruct (Z.ltb_spec d (2 ^ 64)); simpl.
    + rewrite (Z.min_l d) by lia. done.
    + rewrite (Z.min_r d) by lia. done.
  - simpl in *. rewrite time_to_nanos_spec in *. by rewrite Hs.
Qed.

(** The atomic clock never goes back, nor out of range. *)
Lemma atomic_op_forward op nanos :
  op_ok op -> in_u64 nanos -> nanos <= snd (atomic_op op nanos) /\ in_u64 (snd (atomic_op op nanos)).
Proof.
  intros Ho [H0 H1]. unfold in_uint, u64_max in *. destruct op as [|d|to]; simpl in *.
  - unfold in_uint. lia.
  - unfold in_uint, u64_max. lia.
  - unfold u64_max. case_match; simpl; unfold in_uint; lia.
Qed.

(** ** Threads *)

Definition thread_op (t : Thread) : ClockOp :=
  match t with Start op | Loop op _ | Returned op _ => op end.

(** The value a thread read last is one the counter had. *)
Definition thread_ok (t : Thread) : Prop :=
  op_ok (thread_op t) /\
  match t with
  | Loop (Set_ to) current => (time_to_nanos to <? current) = false
  | Loop Now _ => False
  | _ => True
  end.

(** The operation goes on, or what it read is the atomic operation's answer. *)
Lemma examine_spec op nanos :
  op_ok op ->
  thread_ok (examine op nanos) /\ thread_op (examine op nanos) = op /\
  match examine op nanos with Returned op' outcome => atomic_op op' nanos = (outcome, nanos) | _ => True end.
Proof.
  intros Ho. destruct op as [|d|to]; [done..|]. simpl.
  destruct (time_to_nanos to <? nanos) eqn:E; [|done]. split_and!; [done..|].
  simpl. rewrite time_to_nanos_spec in E. by rewrite E.
Qed.

(** An access to the counter: a thread that returns has run its operation atomically at this
    moment, and any other access leaves the counter as it is. *)
Lemma thread_step_spec nanos t t' nanos' :
  thread_ok t -> in_u64 nanos -> (forall op o, t <> Returned op o) -> thread_step nanos t = (t', nanos') ->
  thread_ok t' /\ thread_op t' = thread_op t /\
  match t' with
  | Returned op outcome => atomic_op op nanos = (outcome, nanos')
  | _ => nanos' = nanos
  end.
Proof.
  intros [Ho Ht] Hn Hr E. destruct t as [op|op current|op o]; cbn [thread_step thread_op] in *.
  - injection E as <- <-. destruct (examine_spec op nanos Ho) as (Hk & Hop & Hx).
    split_and!; [done..|]. by destruct (examine op nanos).
  - destruct (Z.eqb_spec nanos current) as [->|Hne].
    + injection E as <- <-. split; [done|]. split; [done|]. apply next_nanos_spec; [done..|]. by destruct op.
    + injection E as <- <-. destruct (examine_spec op nanos Ho) as (Hk & Hop & Hx).
      split_and!; [done..|]. by destruct (examine op nanos).
  - by destruct (Hr op o).
Qed.

(** ** Schedules *)

Definition returned (t : Thread) : bool := match t with Returned _ _ => true | _ => false end.

(** The call thread [i] returned from in the step from [s] to [s']. *)
Definition returns_at (s s' : ClockSystem) (i : nat) : list (nat * (ClockOp * Outcome)) :=
  match threads s !! i, threads s' !! i with
  | Some (Returned _ _), _ => []
  | _, Some (Returned op outcome) => [(i, (op, outcome))]
  | _, _ => []
  end.

(** The calls returned from, in the order of their returns. *)
Fixpoint returns (s : ClockSystem) (schedule : list nat) : list (nat * (ClockOp * Outcome)) :=
  match schedule with
  | [] => []
  | i :: rest => let s' := system_step s i in returns_at s s' i ++ returns s' rest
  end.

Record system_ok (s : ClockSystem) : Prop := {
  counter_ok : in_u64 (counter s);
  threads_ok : Forall thread_ok (threads s)
}.

Lemma system_step_spec s i :
  system_ok s ->
  system_ok (system_step s i) /\ history (counter s) (returns_at s (system_step s i) i).*2 (counter (system_step s i)) /\
  counter s <= counter (system_step s i) /\
  thread_op <$> threads (system_step s i) = thread_op <$> threads s /\
  (forall j op o, threads (system_step s i) !! j = Some (Returned op o) <->
     threads s !! j = Some (Returned op o) \/ (j, (op, o)) ∈ returns_at s (system_step s i) i) /\
  (forall j r, (j, r) ∈ returns_at s (system_step s i) i ->
     j = i /\ exists t, threads s !! j = Some t /\ returned t = false).
Proof.
  intros [Hc Ht]. unfold system_step, returns_at. destruct (threads s !! i) as [t|] eqn:Ei.
  2:{ rewrite Ei. split_and!; [by split|constructor|lia|done| |set_solver].
      intros j op o. rewrite elem_of_nil. tauto. }
  destruct (thread_step (counter s) t) as [t' nanos] eqn:Es. simpl.
  assert (i < length (threads s))%nat as Hlen by (by apply lookup_lt_Some in Ei).
  rewrite list_lookup_insert_eq by done.
  destruct (returned t) eqn:Er.
  { destruct t as [| |op o]; [done..|]. simpl in Es. injection Es as <- <-.
    rewrite list_insert_id by done. split_and!; [by split|constructor|lia|done| |set_solver].
    intros j op' o'. rewrite elem_of_nil. tauto. }
  assert (thread_ok t) as Hok by (by apply (Forall_lookup_1 _ _ _ _ Ht Ei)).
  destruct (thread_step_spec (counter s) t t' nanos Hok Hc) as (Hk & Hop & Hx); [by intros op o ->|done|].
  assert (system_ok (MkClockSystem nanos (<[i:=t']> (threads s))) /\ counter s <= nanos) as [Hsys Hle].
  { destruct t' as [op|op cur|op o]; [subst nanos; split; [|done]..|]; try (split; [done|by apply Forall_insert]).
    destruct Hk as [Ho _]. destruct (atomic_op_forward op (counter s) Ho Hc) as [Hle Hin].
    rewrite Hx in Hle, Hin. split; [|done]. split; [done|by apply Forall_insert]. }
  assert (thread_op <$> <[i:=t']> (threads s) = thread_op <$> threads s) as Hops.
  { rewrite list_fmap_insert, Hop. apply list_insert_id. by rewrite list_lookup_fmap, Ei. }
  assert (forall j op o, <[i:=t']> (threads s) !! j = Some (Returned op o) <->
            (j = i /\ t' = Returned op o) \/ (j <> i /\ threads s !! j = Some (Returned op o))) as Hl.
  { intros j op o. destruct (decide (j = i)) as [->|Hd].
    - rewrite list_lookup_insert_eq by done. naive_solver.
    - rewrite list_lookup_insert_ne by done. naive_solver. }
  assert (forall j op o, threads s !! j = Some (Returned op o) -> j <> i) as Hni.
  { intros j op o Hj ->. rewrite Ei in Hj. injection Hj as ->. done. }
  destruct t as [op0|op0 cur0|]; [| |done]; (destruct t' as [op|op cur|op o];
    [split_and!; [done|subst nanos; constructor|done|done| |set_solver]..|split_and!; [done| |done|done| |]]).
  all: try (intros j op' o'; rewrite Hl; rewrite ?elem_of_nil, ?list_elem_of_singleton; naive_solver).
  all: try (simpl; econstructor; [exact Hx|constructor]).
  all: intros j r [= -> _]%list_elem_of_singleton; eauto.
Qed.

Lemma history_app ops : forall n n' ops' n'',
  history n ops n' -> history n' ops' n'' -> history n (ops ++ ops') n''.
Proof.
  induction ops as [|x ops IH]; intros n n' ops' n'' H H'; inversion H; subst; simpl; [done|].
  econstructor; [done|by eapply IH].
Qed.

(** A thread that has not returned after a step had not before. *)
Lemma step_not_returned s i j t :
  system_ok s -> threads (system_step s i) !! j = Some t -> returned t = false ->
  exists t0, threads s !! j = Some t0 /\ returned t0 = false.
Proof.
  intros Hok Hj Hn. destruct (system_step_spec s i Hok) as (_ & _ & _ & Hops & Hr & _).
  assert (is_Some (threads s !! j)) as [t0 Ht0].
  { apply lookup_lt_is_Some. rewrite <- (length_fmap thread_op), <- Hops, length_fmap.
    by apply lookup_lt_Some in Hj. }
  exists t0. split; [done|]. destruct t0 as [| |op o]; [done..|].
  assert (threads (system_step s i) !! j = Some (Returned op o)) as E by (apply Hr; by left).
  rewrite Hj in E. by injection E as ->.
Qed.

Lemma returns_at_NoDup s s' i : NoDup (returns_at s s' i).*1.
Proof. unfold returns_at. repeat case_match; simpl; auto using NoDup_nil_2, NoDup_singleton. Qed.

Lemma run_schedule_spec schedule : forall s,
  system_ok s ->
  let s' := run_schedule s schedule in
  system_ok s' /\ history (counter s) (returns s schedule).*2 (counter s') /\ counter s <= counter s' /\
  thread_op <$> threads s' = thread_op <$> threads s /\
  (forall j op o, threads s' !! j = Some (Returned op o) <->
     threads s !! j = Some (Returned op o) \/ (j, (op, o)) ∈ returns s schedule) /\
  NoDup (returns s schedule).*1 /\
  (forall j, j ∈ (returns s schedule).*1 -> exists t, threads s !! j = Some t /\ returned t = false).
Proof.
  induction schedule as [|i schedule IH]; intros s Hok; cbn [run_schedule fold_left returns].
  - split_and!; [done|constructor|lia|done| |constructor|set_solver].
    intros j op o. rewrite elem_of_nil. tauto.
  - change (fold_left system_step schedule (system_step s i)) with (run_schedule (system_step s i) schedule).
    destruct (system_step_spec s i Hok) as (Hok1 & Hh1 & Hle1 & Hops1 & Hr1 & Hf1).
    destruct (IH _ Hok1) as (Hok2 & Hh2 & Hle2 & Hops2 & Hr2 & Hnd2 & Hf2).
    split_and!; [exact Hok2| |by etrans|by rewrite Hops2| | |].
    + rewrite fmap_app. by eapply history_app.
    + intros j op o. rewrite Hr2, Hr1, elem_of_app. tauto.
    + rewrite fmap_app, NoDup_app. split_and!; [apply returns_at_NoDup| |done].
      intros j ([j' [op o]] & -> & Hj)%list_elem_of_fmap (t & Ht & Hn)%Hf2. simpl in *.
      destruct (Hf1 _ _ Hj) as [-> _]. rewrite (proj2 (Hr1 i op o)) in Ht by (by right).
      by injection Ht as <-.
    + intros j Hj. rewrite fmap_app, elem_of_app in Hj. destruct Hj as [Hj|Hj].
      * apply list_elem_of_fmap in Hj as ([j' r] & -> & Hj). by destruct (Hf1 _ _ Hj) as [_ ?].
      * destruct (Hf2 j Hj) as (t & Ht & Hn). by apply (step_not_returned s i j t).
Qed.

Lemma returned_stays s i op o :
  threads s !! i = Some (Returned op o) -> threads (system_step s i) !! i = Some (Returned op o).
Proof. intros Hi. unfold system_step. rewrite Hi. cbn [thread_step threads]. by rewrite list_insert_id. Qed.

(** A thread that runs alone returns within two accesses. *)
Lemma alone_returns s i t :
  threads s !! i = Some t ->
  exists op o, threads (run_schedule s [i; i]) !! i = Some (Returned op o).
Proof.
  intros Hi. assert (i < length (threads s))%nat by (by apply lookup_lt_Some in Hi).
  assert (forall op n ts, ts !! i = Some (examine op n) -> (i < length ts)%nat ->
    exists op' o, threads (system_step (MkClockSystem n ts) i) !! i = Some (Returned op' o)) as Hx.
  { intros op n ts Hts Hlt. unfold system_step. simpl. rewrite Hts.
    assert (exists op' o m, thread_step n (examine op n) = (Returned op' o, m)) as (op' & o & m & ->).
    { destruct op as [|d|to]; simpl; [by eexists _, _, _|rewrite Z.eqb_refl; by eexists _, _, _|].
      case_match; simpl; [by eexists _, _, _|rewrite Z.eqb_refl; by eexists _, _, _]. }
    exists op', o. simpl. by apply list_lookup_insert_eq. }
  unfold run_schedule. cbn [fold_left]. unfold system_step at 2. rewrite Hi.
  destruct t as [op|op cur|op o]; cbn [thread_step].
  - apply (Hx op); [by apply list_lookup_insert_eq|by rewrite length_insert].
  - destruct (counter s =? cur).
    + eexists op, _. apply returned_stays. by apply list_lookup_insert_eq.
    + apply (Hx op); [by apply list_lookup_insert_eq|by rewrite length_insert].
  - exists op, o. apply returned_stays. by apply list_lookup_insert_eq.
Qed.

(** ** Intervals *)

(** The first [n] ticks of an interval. *)
Fixpoint ticks (n : nat) (i : Interval) : option (list Z) :=
  match n with
  | O => Some []
  | S n' => match tick i with
            | Some (t, i') => cons t <$> ticks n' i'
            | None => None
            end
  end.

Lemma ticks_spec n : forall first period,
  0 <= period -> first + Z.of_nat n * period < 2 ^ 63 * nanos_per_sec ->
  ticks n (interval_new_at first period) = Some (map (fun k => first + Z.of_nat k * period) (seq 0 n)).
Proof.
  induction n as [|n IH]; intros first period Hp Hb; [done|].
  cbn [ticks tick interval_new_at next Clock.period]. unfold system_time_checked_add.
  rewrite (proj2 (Z.ltb_lt _ _)) by nia. fold (interval_new_at (first + period) period).
  rewrite IH by (try done; nia). simpl. rewrite <- seq_shift, map_map. do 2 f_equal; [lia|].
  apply map_ext. intros k. lia.
Qed.

(** ** The properties *)

(** C24. The fake clock is linearizable and never goes back. For any calls of [now], [advance] and [set]
    on threads that interleave arbitrarily at their loads and compare-exchanges: the calls
    that have returned, in the order they returned in, have exactly the outcomes of an atomic clock
    executing them one after the other from the start value, and the counter holds what that
    clock holds; each thread returns once, from the call it made; a thread left alone returns within
    two accesses. No [advance] is lost, saturation and refused [set]s included. *)
Theorem fake_clock_linearizable (start : Z) (calls : list ClockOp) (schedule : list nat) :
  Forall op_ok calls ->
  let s0 := MkClockSystem (fake_clock_new start) (Start <$> calls) in
  let s := run_schedule s0 schedule in
  let h := returns s0 schedule in
  history (fake_clock_new start) h.*2 (counter s) /\ fake_clock_new start <= counter s < 2 ^ 64 /\
  NoDup h.*1 /\ thread_op <$> threads s = calls /\
  (forall i op o, threads s !! i = Some (Returned op o) <-> (i, (op, o)) ∈ h) /\
  (forall i op, calls !! i = Some op ->
     exists o, threads (run_schedule s [i; i]) !! i = Some (Returned op o)).
Proof.
  intros Hc s0 s h.
  assert (system_ok s0) as H0.
  { split.
    - unfold s0, fake_clock_new. simpl. rewrite time_to_nanos_spec. unfold in_uint, u64_max. lia.
    - apply Forall_fmap. eapply Forall_impl; [exact Hc|]. intros op Ho. by split. }
  destruct (run_schedule_spec schedule s0 H0) as (Hok & Hh & Hle & Hops & Hr & Hnd & _).
  assert (thread_op <$> threads s0 = calls) as E0.
  { unfold s0. simpl. rewrite <- list_fmap_compose. apply list_fmap_id. }
  split_and!; [exact Hh|exact Hle|apply Hok|exact Hnd|by rewrite <- E0| |].
  - intros i op o. unfold s. rewrite Hr. split; [|by right]. intros [Hi|]; [|done].
    unfold s0 in Hi. simpl in Hi. rewrite list_lookup_fmap in Hi. by destruct (calls !! i).
  - intros i op Hi. assert ((thread_op <$> threads s) !! i = Some op) as Ht.
    { unfold s. by rewrite Hops, E0. }
    rewrite list_lookup_fmap in Ht. destruct (threads s !! i) as [t|] eqn:Es; [|done].
    destruct (alone_returns s i t Es) as (op' & o & Ha). exists o.
    destruct (run_schedule_spec [i; i] s Hok) as (_ & _ & _ & Hops' & _).
    assert ((thread_op <$> threads (run_schedule s [i; i])) !! i = Some op) as Ht'.
    { rewrite Hops', list_lookup_fmap, Es. done. }
    rewrite list_lookup_fmap, Ha in Ht'. injection Ht' as <-. exact Ha.
Qed.

(** Two advances and a refused [set] that race: the first advance's compare-exchange fails once. *)
Lemma fake_clock_linearizable_witness :
  history 10 [(Advance 5, Advanced 15); (Advance 7, Advanced 22); (Set_ 12, ClockWentBackward 22 12)] 22.
Proof.
  apply (fake_clock_linearizable 10 [Advance 7; Advance 5; Set_ 12] [0; 1; 1; 0; 0; 2]%nat).
  by repeat constructor.
Defined.
