(* ===== verification/ClockSleep.v ===== *)
(** * Sleeping on a clock: [crates/clock/src/tokio.rs], [notify_waiters] of [fake.rs], [SystemClock]

    Tasks in [FakeClock::sleep_until] among threads that move the clock. What wakes a task is a
    [tokio] watch channel: every [send_replace] makes a new version, a receiver remembers the version it
    has seen, and [changed] is ready once there is another. A task that is not ready stays
    suspended; which task or thread goes on next is arbitrary.

    No task wakes before its deadline, and no wake-up is lost. A sleep on the system clock is one
    [tokio::time::sleep], and reaches its deadline as long as the wall clock is not set back. *)

From S2P Require Import Prelude Time WireLaws Clock.

Local Open Scope mtc_scope.
Local Open Scope Z_scope.

(** ** The system clock *)

(** [SystemClock]'s [now], the host's wall clock at an instant of its monotonic clock; and its
    [sleep_until]: how long to sleep, [None] when [duration_since] reports a deadline in the past. *)
Definition system_now (wall : Z -> Z) (monotonic : Z) : Z := wall monotonic.
Definition system_sleep_until (now deadline : Z) : option Z :=
  if deadline <? now then None else Some (deadline - now).

(** The monotonic instant it completes at: [tokio::time::sleep] measures the duration on the monotonic
    clock, and may be late. *)
Definition system_wakes_at (wall : Z -> Z) (monotonic deadline late : Z) : Z :=
  match system_sleep_until (system_now wall monotonic) deadline with
  | Some remaining => monotonic + remaining + late
  | None => monotonic
  end.

(** Its deadline is reached if the wall clock keeps pace with the monotonic one while it sleeps, ... *)
Lemma system_sleep_reaches (wall : Z -> Z) monotonic deadline late :
  0 <= late -> (forall d, 0 <= d -> wall monotonic + d <= wall (monotonic + d)) ->
  deadline <= system_now wall (system_wakes_at wall monotonic deadline late).
Proof.
  unfold system_wakes_at, system_sleep_until, system_now. intros Hl Hw.
  destruct (Z.ltb_spec deadline (wall monotonic)); [lia|].
  rewrite <- Z.add_assoc. pose proof (Hw (deadline - wall monotonic + late)). lia.
Qed.

(** ... and not if it is set back meanwhile: the sleep does not look at the clock again, and ends
    before its deadline. *)
Example set_back_wakes_early :
  let wall m := if m <? 5 then m else m - 3 in
  system_wakes_at wall 0 10 0 = 10 /\ system_now wall 10 = 7.
Proof. split; reflexivity. Qed.

(** ** Tasks and threads *)

(** An operation that has stored a value wakes the sleepers before it returns. *)
Definition notifies (outcome : Outcome) : bool :=
  match outcome with Advanced _ | SetDone => true | Observed _ | ClockWentBackward _ _ => false end.

(** A thread in a call that moves or reads the clock, up to [notify_waiters]; and a task in
    [sleep_until]: before [subscribe], at its loop's condition, in [changed().await], or done. *)
Inductive SleepTask : Type :=
| Calling (t : Thread)
| Notifying (op : ClockOp) (outcome : Outcome)
| Called (op : ClockOp) (outcome : Outcome)
| Subscribing (deadline : Z)
| Checking (deadline seen : Z)
| Waiting (deadline seen : Z)
| Woke (deadline : Z).

(** The counter and the version of the channel. *)
Record ClockShared : Type := MkClockShared { nanos : Z; version : Z }.

(** A call that has left its loop. *)
Definition leave (t : Thread) : SleepTask :=
  match t with
  | Returned op outcome => if notifies outcome then Notifying op outcome else Called op outcome
  | _ => Calling t
  end.

(** [send_replace]. *)
Definition notify_waiters (c : ClockShared) : ClockShared := MkClockShared (nanos c) (version c + 1).

(** One access to what is shared. *)
Definition task_step (c : ClockShared) (t : SleepTask) : SleepTask * ClockShared :=
  match t with
  | Calling u => let '(u', n) := thread_step (nanos c) u in (leave u', MkClockShared n (version c))
  | Notifying op outcome => (Called op outcome, notify_waiters c)
  | Subscribing deadline => (Checking deadline (version c), c)
  | Checking deadline seen =>
      (if nanos_to_time (nanos c) <? deadline then Waiting deadline seen else Woke deadline, c)
  | Waiting deadline seen =>
      (if seen =? version c then Waiting deadline seen else Checking deadline (version c), c)
  | Called _ _ | Woke _ => (t, c)
  end.

Record SleepSystem : Type := MkSleepSystem { shared : ClockShared; tasks : list SleepTask }.

Definition sleep_step (s : SleepSystem) (i : nat) : SleepSystem :=
  match tasks s !! i with
  | None => s
  | Some t => let '(t', c) := task_step (shared s) t in MkSleepSystem c (<[i := t']> (tasks s))
  end.

Definition run_tasks (s : SleepSystem) (schedule : list nat) : SleepSystem := fold_left sleep_step schedule s.

(** [AsyncClock::sleep] read the clock at [now]: past the end of time it is never done. *)
Definition sleep_task (now duration : Z) : option SleepTask := Subscribing <$> sleep_deadline now duration.

(** ** The invariant *)

(** Some thread has moved the clock and not woken the sleepers yet. *)
Definition waking (ts : list SleepTask) : Prop := exists j op outcome, ts !! j = Some (Notifying op outcome).

(** A task that sleeps on the newest version has a deadline that is not reached, or somebody is about
    to wake it. *)
Definition task_ok (c : ClockShared) (pending : Prop) (t : SleepTask) : Prop :=
  match t with
  | Calling u => thread_ok u /\ returned u = false
  | Checking _ seen => seen <= version c
  | Waiting deadline seen => seen <= version c /\ (seen = version c -> nanos c < deadline \/ pending)
  | Woke deadline => deadline <= nanos c
  | _ => True
  end.

Record sleep_ok (s : SleepSystem) : Prop := {
  nanos_ok : in_u64 (nanos (shared s));
  tasks_ok : Forall (task_ok (shared s) (waking (tasks s))) (tasks s)
}.

Lemma task_ok_mono (c c' : ClockShared) (p p' : Prop) t :
  nanos c <= nanos c' -> version c <= version c' ->
  (p -> p' \/ version c < version c') -> (nanos c <> nanos c' -> p') ->
  task_ok c p t -> task_ok c' p' t.
Proof.
  intros Hn Hv Hp Hm. destruct t as [u|op o|op o|d|d seen|d seen|d]; simpl; try done; [lia| |lia].
  intros [Hs Hw]. split; [lia|]. intros ->.
  destruct (decide (nanos c = nanos c')) as [<-|Hne]; [|right; by apply Hm].
  assert (version c = version c') as Ev by lia. destruct (Hw (eq_sym Ev)) as [|H]; [by left|].
  destruct (Hp H); [by right|lia].
Qed.

(** The thread that steps is not the one that is about to wake the sleepers. *)
Lemma waking_insert ts i t t' :
  ts !! i = Some t -> (forall op o, t <> Notifying op o) -> waking ts -> waking (<[i := t']> ts).
Proof.
  intros Hi Hn (j & op & o & Hj). exists j, op, o. rewrite list_lookup_insert_ne; [done|].
  intros ->. rewrite Hi in Hj. injection Hj as ->. by destruct (Hn op o).
Qed.

(** A call's access to the counter: it goes on, it is over without having moved the clock, or it
    has moved the clock and is about to say so. *)
Lemma calling_step c u u' n :
  thread_ok u -> in_u64 (nanos c) -> returned u = false ->
  thread_step (nanos c) u = (u', n) ->
  nanos c <= n /\ in_u64 n /\ (forall c' p, task_ok c' p (leave u')) /\
  (nanos c <> n -> exists op o, leave u' = Notifying op o).
Proof.
  intros Hok Hn Hr E. destruct (thread_step_spec _ _ _ _ Hok Hn ltac:(by intros op o ->) E) as (Hok' & Hop & Hx).
  destruct u' as [op|op cur|op o]; simpl; [by subst n|by subst n|]. destruct Hok' as [Ho _].
  destruct (atomic_op_forward op (nanos c) Ho Hn) as [Hle Hin]. rewrite Hx in Hle, Hin. simpl in *.
  split_and!; [done|done|by intros; destruct (notifies o)|].
  intros Hne. destruct op as [|d|to]; simpl in Hx.
  - by injection Hx as <- <-.
  - injection Hx as <- _. by eexists _, _.
  - case_match; injection Hx as <- <-; [done|]. by eexists _, _.
Qed.

Lemma sleep_step_ok s i : sleep_ok s -> sleep_ok (sleep_step s i).
Proof.
  intros [Hn Hts]. unfold sleep_step. destruct (tasks s !! i) as [t|] eqn:Ei; [|done].
  pose proof (Forall_lookup_1 _ _ _ _ Hts Ei) as Ht.
  destruct (task_step (shared s) t) as [t' c'] eqn:E.
  assert (Hgoal : nanos (shared s) <= nanos c' -> in_u64 (nanos c') -> version (shared s) <= version c' ->
    (waking (tasks s) -> waking (<[i := t']> (tasks s)) \/ version (shared s) < version c') ->
    (nanos (shared s) <> nanos c' -> waking (<[i := t']> (tasks s))) ->
    task_ok c' (waking (<[i := t']> (tasks s))) t' -> sleep_ok (MkSleepSystem c' (<[i := t']> (tasks s)))).
  { intros H1 H2 H3 H4 H5 H6. split; [done|]. simpl. apply Forall_insert; [|done].
    eapply Forall_impl; [exact Hts|]. intros x. by apply task_ok_mono. }
  assert (i < length (tasks s))%nat as Hlt by (by apply lookup_lt_Some in Ei).
  destruct t as [u|op o|op o|d|d seen|d seen|d]; simpl in E.
  - destruct (thread_step (nanos (shared s)) u) as [u' n] eqn:Eu. injection E as <- <-.
    destruct Ht as [Ht Hr].
    destruct (calling_step (shared s) u u' n Ht Hn Hr Eu) as (Hle & Hin & Hok & Hw).
    apply Hgoal; simpl; [done|done|lia| | |apply Hok].
    + intros ?. left. by eapply waking_insert.
    + intros (op & o & Eo)%Hw. exists i, op, o. by rewrite list_lookup_insert_eq, Eo.
  - injection E as <- <-. apply Hgoal; simpl; [lia|done|lia| |done|done]. intros _. right. lia.
  - injection E as <- <-. apply Hgoal; [lia|done|lia| |done|done]. intros ?. left. by eapply waking_insert.
  - injection E as <- <-. apply Hgoal; [lia|done|lia| |done|simpl; lia]. intros ?. left. by eapply waking_insert.
  - injection E as <- <-. apply Hgoal; [lia|done|lia| |done|].
    { intros ?. left. by eapply waking_insert. }
    unfold nanos_to_time. destruct (Z.ltb_spec (nanos (shared s)) d); simpl in *; [|done]. split; [done|by left].
  - injection E as <- <-. apply Hgoal; [lia|done|lia| |done|].
    { intros ?. left. by eapply waking_insert. }
    destruct Ht as [Hs Hw]. destruct (Z.eqb_spec seen (version (shared s))) as [Ev|Ev]; simpl; [|lia].
    split; [done|]. intros _. destruct (Hw Ev); [by left|right; by eapply waking_insert].
  - injection E as <- <-. apply Hgoal; [lia|done|lia| |done|done]. intros ?. left. by eapply waking_insert.
Qed.

Lemma run_tasks_ok schedule : forall s, sleep_ok s -> sleep_ok (run_tasks s schedule).
Proof. induction schedule as [|i l IH]; intros s Hs; [done|]. by apply IH, sleep_step_ok. Qed.

(** ** Tasks that run alone *)

Lemma sleep_step_at s i t :
  tasks s !! i = Some t ->
  shared (sleep_step s i) = (task_step (shared s) t).2 /\
  tasks (sleep_step s i) !! i = Some (task_step (shared s) t).1.
Proof.
  intros Hi. unfold sleep_step. rewrite Hi. destruct (task_step (shared s) t) as [t' c]. simpl.
  split; [done|]. apply list_lookup_insert_eq. by apply lookup_lt_Some in Hi.
Qed.

Definition sleeping (t : SleepTask) : option Z :=
  match t with
  | Subscribing d | Checking d _ | Waiting d _ | Woke d => Some d
  | _ => None
  end.

(** Steps to the end of a sleep whose deadline is reached, if it is not waiting for the newest version. *)
Definition wake_steps (t : SleepTask) : nat :=
  match t with Subscribing _ | Waiting _ _ => 2 | Checking _ _ => 1 | _ => 0 end%nat.

Lemma alone_wakes k : forall s i t d,
  tasks s !! i = Some t -> sleeping t = Some d -> d <= nanos (shared s) ->
  (forall seen, t = Waiting d seen -> seen <> version (shared s)) -> (wake_steps t <= k)%nat ->
  tasks (run_tasks s (replicate k i)) !! i = Some (Woke d) /\
  shared (run_tasks s (replicate k i)) = shared s.
Proof.
  induction k as [|k IH]; intros s i t d Hi Hd Hle Hw Hk.
  { destruct t; simpl in *; try lia; try done. by injection Hd as ->. }
  destruct (sleep_step_at s i t Hi) as [Hsh Hi']. change (run_tasks s (replicate (S k) i))
    with (run_tasks (sleep_step s i) (replicate k i)).
  destruct t as [u|op o|op o|d0|d0 seen|d0 seen|d0]; try done; injection Hd as ->; simpl in *;
    unfold nanos_to_time in *.
  - rewrite <- Hsh. eapply IH; [exact Hi'|done|by rewrite Hsh|done|simpl; lia].
  - destruct (Z.ltb_spec (nanos (shared s)) d) as [|_]; [lia|].
    rewrite <- Hsh. eapply IH; [exact Hi'|done|by rewrite Hsh|done|simpl; lia].
  - rewrite (proj2 (Z.eqb_neq _ _) (Hw seen eq_refl)) in *.
    rewrite <- Hsh. eapply IH; [exact Hi'|done|by rewrite Hsh|done|simpl; lia].
  - rewrite <- Hsh. eapply IH; [exact Hi'|done|by rewrite Hsh|done|simpl; lia].
Qed.

(** ** The properties *)

(** C25. Sleeping on the fake clock. Let threads move the clock while tasks are in [sleep_until], in any
    interleaving of their accesses to the counter and to the watch channel. A task that is done has
    had its deadline reached. No wake-up is lost: once the deadline is reached and no thread is
    left between its store and its [notify_waiters], the task is done within two more steps of its own; a
    thread between the two has only that step to take. *)
Theorem sleep_no_lost_wakeup (start : Z) (calls : list ClockOp) (deadlines : list Z) (schedule : list nat) :
  Forall op_ok calls ->
  let s := run_tasks (MkSleepSystem (MkClockShared (fake_clock_new start) 0)
             (map (fun op => Calling (Start op)) calls ++ map Subscribing deadlines)) schedule in
  (forall i d, tasks s !! i = Some (Woke d) -> d <= nanos (shared s)) /\
  (forall i t d, tasks s !! i = Some t -> sleeping t = Some d -> d <= nanos (shared s) ->
     ~ waking (tasks s) -> tasks (run_tasks s [i; i]) !! i = Some (Woke d)) /\
  (forall j op o, tasks s !! j = Some (Notifying op o) -> tasks (sleep_step s j) !! j = Some (Called op o)).
Proof.
  intros Hc s.
  assert (sleep_ok s) as [Hn Hts].
  { apply run_tasks_ok. split; simpl.
    - unfold fake_clock_new. rewrite time_to_nanos_spec. unfold in_uint, u64_max. lia.
    - apply Forall_app. split; apply Forall_map; [|by apply Forall_true].
      eapply Forall_impl; [exact Hc|]. intros op Ho. by split. }
  split_and!.
  - intros i d Hi. by pose proof (Forall_lookup_1 _ _ _ _ Hts Hi).
  - intros i t d Hi Hd Hle Hw. apply (alone_wakes 2 s i t d Hi Hd Hle); [|destruct t; simpl; lia].
    intros seen -> ->. destruct (Forall_lookup_1 _ _ _ _ Hts Hi) as [_ H]. destruct (H eq_refl); [lia|done].
  - intros j op o Hj. by apply (sleep_step_at s j _ Hj).
Qed.

(** A sleeper that checked the clock just before an advance: it suspends, and the advance wakes it. *)
Lemma sleep_no_lost_wakeup_witness :
  let s := run_tasks (MkSleepSystem (MkClockShared (fake_clock_new 10) 0) [Calling (Start (Advance 5)); Subscribing 12])
             [0; 1; 1; 0; 1; 0]%nat in
  tasks s !! 1%nat = Some (Waiting 12 0) /\ tasks (run_tasks s [1; 1]%nat) !! 1%nat = Some (Woke 12).
Proof.
  split; [reflexivity|].
  apply (proj1 (proj2 (sleep_no_lost_wakeup 10 [Advance 5] [12] [0; 1; 1; 0; 1; 0]%nat
    ltac:(by repeat constructor))) 1%nat (Waiting 12 0) 12); [reflexivity|reflexivity|vm_compute; discriminate|].
  intros (j & op & o & Hj). destruct j as [|[|j]]; discriminate.
Defined.

(** With [subscribe] after the first check instead, a wake-up between the two is lost: the channel's
    version is already the newest when the task subscribes, and it waits with its deadline reached. *)
Example late_subscription_sleeps_on :
  let s := run_tasks (MkSleepSystem (MkClockShared 15 1) [Called (Advance 5) (Advanced 15); Waiting 12 1]) (replicate 10 1%nat) in
  tasks s !! 1%nat = Some (Waiting 12 1).
Proof. reflexivity. Qed.
