(* ===== verification/Batch.v ===== *)
(** * The certificate authority's batch pipeline: [crates/ca-service/src/]

    Submitted entries ([entry.rs]), the submission interface ([intake.rs]), the queue
    ([batch/queue.rs]), the batch builder ([batch/builder.rs]) and their pairing ([batch/mod.rs]).
    The bounded channel and the one-shot completion handles are [tokio]'s: the channel is a
    parameter with its documented behaviour, a handle is opaque and what is sent through the handles
    is a list of messages. A suspended [next_batch] is a value, and the pipeline
    is a deterministic machine over a sequence of events: submissions, shutdown, clock ticks and the
    builder being woken. *)

From S2P Require Import Prelude Time Types.

Local Open Scope mtc_scope.
Local Open Scope Z_scope.

(** ** Entries ([entry.rs], [intake.rs]) *)

(** [SourceType], [SourceId], [LogEntry]. *)
Inductive SourceType : Type := NativeAcme | Adapter (name : string).
Definition SourceId : Type := string.
Record LogEntry : Type := MkLogEntry {
  tbs_cert : list byte;
  source_type : SourceType;
  source_id : SourceId;
  submitted_at : Z
}.

(** [IntakeError]. *)
Inductive IntakeError : Type := QueueFull | NotPrimary | IntakeShutdown.

(** ** Configuration ([batch/mod.rs]) *)

(** [BatchConfig], [BatchConfigError]. *)
Record BatchConfig : Type := MkBatchConfig { max_batch_size : Z; cadence : Z }.
Inductive BatchConfigError : Type := ZeroBatchSize.

Definition production : BatchConfig := MkBatchConfig 256 (3 * nanos_per_sec).
Definition dev : BatchConfig := MkBatchConfig 256 (250 * nanos_per_milli).

(** [BatchConfig::new]. *)
Definition BatchConfig_new (max_batch_size cadence : Z) : result BatchConfig BatchConfigError :=
  if max_batch_size =? 0 then Err ZeroBatchSize else Ok (MkBatchConfig max_batch_size cadence).

(** ** [tokio]'s bounded channel *)

Inductive TrySendError : Type := Full | Closed.

(** A channel with one sender and one receiver, both alive at first; [recv] is [None] while
    [Receiver::recv] waits. *)
Record Mpsc (E : Type) : Type := MkMpsc {
  Chan : Type;
  mpsc_channel : Z -> Chan;
  try_send : Chan -> E -> result unit TrySendError * Chan;
  recv : Chan -> option (option E * Chan);
  drop_sender : Chan -> Chan
}.
Arguments Chan {E}.
Arguments mpsc_channel {E}.
Arguments try_send {E}.
Arguments recv {E}.
Arguments drop_sender {E}.

(** Its documented behaviour, while the receiver exists: a bounded queue. *)
Record Mpsc_documented {E : Type} (mpsc : Mpsc E) (contents : Chan mpsc -> list E)
    (capacity : Chan mpsc -> Z) (sender_alive : Chan mpsc -> bool) : Prop := {
  channel_new : forall n, 0 < n ->
    let ch := mpsc_channel mpsc n in contents ch = [] /\ capacity ch = n /\ sender_alive ch = true;
  try_send_room : forall ch e, sender_alive ch = true -> len (contents ch) < capacity ch ->
    exists ch', try_send mpsc ch e = (Ok tt, ch') /\ contents ch' = contents ch ++ [e] /\
      capacity ch' = capacity ch /\ sender_alive ch' = true;
  try_send_full : forall ch e, sender_alive ch = true -> capacity ch <= len (contents ch) ->
    exists ch', try_send mpsc ch e = (Err Full, ch') /\ contents ch' = contents ch /\
      capacity ch' = capacity ch /\ sender_alive ch' = true;
  recv_message : forall ch e q, contents ch = e :: q ->
    exists ch', recv mpsc ch = Some (Some e, ch') /\ contents ch' = q /\
      capacity ch' = capacity ch /\ sender_alive ch' = sender_alive ch;
  recv_closed : forall ch, contents ch = [] -> sender_alive ch = false ->
    exists ch', recv mpsc ch = Some (None, ch') /\ contents ch' = [] /\
      capacity ch' = capacity ch /\ sender_alive ch' = false;
  recv_waits : forall ch, contents ch = [] -> sender_alive ch = true -> recv mpsc ch = None;
  sender_dropped : forall ch, contents (drop_sender mpsc ch) = contents ch /\
    capacity (drop_sender mpsc ch) = capacity ch /\ sender_alive (drop_sender mpsc ch) = false
}.

Section Batch.
(** [oneshot::Sender<Result<Index, IntakeError>>]. *)
Context {Completion : Type}.

(** ** Batches ([batch/builder.rs]) *)

Record BatchEntry : Type := MkBatchEntry { log_entry : LogEntry; completion : Completion }.
Definition Batch : Type := list BatchEntry.

(** The messages sent through the completion handles. *)
Definition Sent : Type := list (Completion * result Z IntakeError).

(** [BatchEntry::complete], [BatchEntry::fail]. *)
Definition complete (entry : BatchEntry) (index : Z) (sent : Sent) : Sent :=
  sent ++ [(completion entry, Ok index)].
Definition fail (entry : BatchEntry) (error : IntakeError) (sent : Sent) : Sent :=
  sent ++ [(completion entry, Err error)].

(** [Batch::complete_sequential]: the loop over the entries from the [offset]-th on. *)
Fixpoint complete_from (offset : Z) (entries : Batch) (start : Z) (sent : Sent) : Sent :=
  match entries with
  | [] => sent
  | entry :: rest =>
      let offset64 := default u64_max (try_from_uint 64 offset) in
      complete_from (offset + 1) rest start (complete entry (saturating_add 64 start offset64) sent)
  end.
Definition complete_sequential (batch : Batch) (start : Z) (sent : Sent) : Sent :=
  complete_from 0 batch start sent.

(** [Batch::fail_all]. *)
Definition fail_all (batch : Batch) (error : IntakeError) (sent : Sent) : Sent :=
  fold_left (fun sent entry => fail entry error sent) batch sent.

(** [submit_entry] after the queue took the entry: [rx.await.unwrap_or(Err(Shutdown))], of the
    message received or [None] when the handle was dropped. *)
Definition submit_answer (received : option (result Z IntakeError)) : result Z IntakeError :=
  default (Err IntakeShutdown) received.

(** A suspended [next_batch]: at its first [recv], or in its loop. *)
Inductive Suspended : Type :=
| AwaitingFirst
| Accumulating (entries : list BatchEntry) (deadline : option Z).

(** What [next_batch] comes to when it runs: the next suspension, or its result. *)
Inductive Progress : Type :=
| Suspend (s : Suspended)
| Return (r : option Batch).

Section Builder.
Context (config : BatchConfig).

(** The head of the [while] loop. *)
Definition loop_head (entries : list BatchEntry) (deadline : option Z) : Progress :=
  if len entries <? max_batch_size config
  then Suspend (Accumulating entries deadline)
  else Return (Some entries).

(** [next_batch] from its first [recv] on, with the clock reading [now]. *)
Definition on_first (now : Z) (received : option BatchEntry) : Progress :=
  match received with
  | None => Return None
  | Some first =>
      let deadline := system_time_checked_add now (cadence config) in
      loop_head [first] deadline
  end.

(** The loop body from [received] on. *)
Definition on_received (entries : list BatchEntry) (deadline : option Z)
    (received : option BatchEntry) : Progress :=
  match received with
  | Some entry => loop_head (entries ++ [entry]) deadline
  | None => Return (Some entries)
  end.
End Builder.

(** ** The pipeline ([batch::channel]) *)

Section Pipeline.
Context (mpsc : Mpsc BatchEntry) (config : BatchConfig).

(** The queue's [Mutex<Option<Sender>>], the channel, the builder's [next_batch], the clock, the
    batches returned, and whether [next_batch] has returned [None], which ends its caller's
    loop. *)
Record Pipeline : Type := MkPipeline {
  gate_open : bool;
  chan : Chan mpsc;
  builder : Suspended;
  clock_now : Z;
  emitted : list Batch;
  finished : bool
}.

(** [channel]. *)
Definition channel (now : Z) : Pipeline :=
  MkPipeline true (mpsc_channel mpsc (max_batch_size config)) AwaitingFirst now [] false.

Definition with_chan (p : Pipeline) (ch : Chan mpsc) : Pipeline :=
  MkPipeline (gate_open p) ch (builder p) (clock_now p) (emitted p) (finished p).

(** [IntakeQueue::try_enqueue]. *)
Definition try_enqueue (item : BatchEntry) : M Pipeline IntakeError unit := fun p =>
  if gate_open p then
    let '(r, ch) := try_send mpsc (chan p) item in
    (map_err (fun err => match err with Full => QueueFull | Closed => IntakeShutdown end) r,
     with_chan p ch)
  else (Err IntakeShutdown, p).

(** [IntakeQueue::shutdown]. *)
Definition shutdown (p : Pipeline) : Pipeline :=
  MkPipeline false (if gate_open p then drop_sender mpsc (chan p) else chan p)
    (builder p) (clock_now p) (emitted p) (finished p).

(** The builder's task runs on until [next_batch] suspends; when it returns a batch, the caller
    takes the batch and calls it again. *)
Definition progress (p : Pipeline) (r : Progress) : Pipeline :=
  match r with
  | Suspend s => MkPipeline (gate_open p) (chan p) s (clock_now p) (emitted p) (finished p)
  | Return (Some batch) =>
      MkPipeline (gate_open p) (chan p) AwaitingFirst (clock_now p) (emitted p ++ [batch]) (finished p)
  | Return None =>
      MkPipeline (gate_open p) (chan p) AwaitingFirst (clock_now p) (emitted p) true
  end.

(** [receiver.recv()] completes. *)
Definition builder_recv (p : Pipeline) : option Pipeline :=
  if finished p then None else
  match recv mpsc (chan p) with
  | None => None
  | Some (received, ch) =>
      Some (progress (with_chan p ch)
        match builder p with
        | AwaitingFirst => on_first config (clock_now p) received
        | Accumulating entries deadline => on_received config entries deadline received
        end)
  end.

(** [clock.sleep_until(deadline)] completes. *)
Definition builder_timeout (p : Pipeline) : option Pipeline :=
  match builder p with
  | Accumulating entries (Some deadline) =>
      if deadline <=? clock_now p
      then Some (progress p (on_received config entries (Some deadline) None))
      else None
  | _ => None
  end.

Inductive Event : Type :=
| Submit (item : BatchEntry)
| Shutdown
| Tick (now : Z)
| BuilderRecv
| BuilderTimeout.

(** One event, with the entry the queue accepted, if it did; [None] when the event cannot happen. *)
Definition step (p : Pipeline) (e : Event) : option (Pipeline * list BatchEntry) :=
  match e with
  | Submit item =>
      let '(r, p') := try_enqueue item p in
      Some (p', match r with Ok _ => [item] | Err _ => [] end)
  | Shutdown => Some (shutdown p, [])
  | Tick now => Some (MkPipeline (gate_open p) (chan p) (builder p) now (emitted p) (finished p), [])
  | BuilderRecv => (fun p' => (p', [])) <$> builder_recv p
  | BuilderTimeout => (fun p' => (p', [])) <$> builder_timeout p
  end.

(** A sequence of events, with the entries accepted, in order. *)
Fixpoint run (p : Pipeline) (events : list Event) : option (Pipeline * list BatchEntry) :=
  match events with
  | [] => Some (p, [])
  | e :: rest =>
      match step p e with
      | Some (p', accepted) =>
          match run p' rest with
          | Some (p'', accepted') => Some (p'', accepted ++ accepted')
          | None => None
          end
      | None => None
      end
  end.
End Pipeline.
End Batch.
Arguments BatchEntry Completion : clear implicits.
Arguments MkBatchEntry {Completion}.
Arguments Batch Completion : clear implicits.
