(* ===== verification/BatchFacts.v ===== *)
(** * Correctness of the batch pipeline

    Against the documented behaviour of the channel, over every sequence of events: the entries
    accepted are, in order, those of the batches returned, of the batch in progress and of the
    queue; after a shutdown the builder drains them all; and completing the batches with
    consecutive index ranges answers each entry with its position. *)

From S2P Require Import Prelude Time Types WireLaws Batch.

Local Open Scope mtc_scope.
Local Open Scope Z_scope.

Lemma len_nil {A} : len ([] : list A) = 0.
Proof. done. Qed.

Section Pipeline.
Context {Completion : Type} (mpsc : Mpsc (BatchEntry Completion)).
Context (contents : Chan mpsc -> list (BatchEntry Completion)).
Context (capacity : Chan mpsc -> Z) (sender_alive : Chan mpsc -> bool).
Context (Hmpsc : Mpsc_documented mpsc contents capacity sender_alive).
Context (config : BatchConfig) (Hmax : 0 < max_batch_size config).

Abbreviation max := (max_batch_size config).
Implicit Types (p : Pipeline mpsc).

(** The entries of the batch in progress. *)
Definition in_progress (s : Suspended) : list (BatchEntry Completion) :=
  match s with AwaitingFirst => [] | Accumulating entries _ => entries end.

(** The entries in the pipeline, in order. *)
Definition pending p : list (BatchEntry Completion) := in_progress (builder mpsc p) ++ contents (chan mpsc p).

Definition batch_ok (b : Batch Completion) : Prop := 1 <= len b <= max.

Record pipeline_ok p : Prop := {
  ok_capacity : capacity (chan mpsc p) = max;
  ok_queue : len (contents (chan mpsc p)) <= max;
  ok_sender : sender_alive (chan mpsc p) = gate_open mpsc p;
  ok_progress : match builder mpsc p with AwaitingFirst => True | Accumulating es _ => 1 <= len es < max end;
  ok_emitted : Forall batch_ok (emitted mpsc p);
  ok_finished : finished mpsc p = true -> gate_open mpsc p = false /\ pending p = []
}.

(** What the loop's head makes of the entries it has. *)
Lemma loop_head_cases (entries : list (BatchEntry Completion)) deadline :
  1 <= len entries <= max ->
  (loop_head config entries deadline = Suspend (Accumulating entries deadline) /\ 1 <= len entries < max) \/
  (loop_head config entries deadline = Return (Some entries) /\ batch_ok entries).
Proof.
  intros Hl. unfold loop_head. destruct (Z.ltb_spec (len entries) max); [left|right]; split; by try lia.
Qed.

Lemma len_snoc {A} (l : list A) x : len (l ++ [x]) = len l + 1.
Proof. unfold len. rewrite length_app. simpl. lia. Qed.

(** ** Each event *)

Lemma channel_ok now : pipeline_ok (channel mpsc config now) /\ pending (channel mpsc config now) = [].
Proof.
  destruct (channel_new _ _ _ _ Hmpsc max Hmax) as (Hc & Hn & Ha). split; [|by unfold pending; simpl; rewrite Hc].
  split; simpl; [done|rewrite Hc, len_nil; lia|done|done|constructor|done].
Qed.

(** A change of state that accepts [accepted] keeps the invariant and the order of the entries. *)
Definition moves p p' (accepted : list (BatchEntry Completion)) : Prop :=
  pipeline_ok p' /\
  concat (emitted mpsc p') ++ pending p' = concat (emitted mpsc p) ++ pending p ++ accepted.

Lemma submit_moves p item :
  pipeline_ok p ->
  moves p (snd (try_enqueue mpsc item p))
    match fst (try_enqueue mpsc item p) with Ok _ => [item] | Err _ => [] end.
Proof.
  intros [Hcap Hq Hs Hp He Hf]. unfold moves, try_enqueue. destruct (gate_open mpsc p) eqn:Hg.
  - destruct (Z.lt_ge_cases (len (contents (chan mpsc p))) (capacity (chan mpsc p))) as [Hl|Hl].
    + destruct (try_send_room _ _ _ _ Hmpsc _ item Hs Hl) as (ch & -> & Hc & Hk & Ha).
      unfold pending. simpl. split; [|by rewrite Hc, <- !app_assoc].
      split; simpl; [by rewrite Hk|rewrite Hc, len_snoc; lia|by rewrite Ha, Hg|done|done|].
      intros Hfin. destruct (Hf Hfin). congruence.
    + destruct (try_send_full _ _ _ _ Hmpsc _ item Hs Hl) as (ch & -> & Hc & Hk & Ha).
      unfold pending. simpl. split; [|by rewrite Hc, !app_nil_r].
      split; simpl; [by rewrite Hk|by rewrite Hc|by rewrite Ha, Hg|done|done|].
      intros Hfin. destruct (Hf Hfin). congruence.
  - simpl. split; [by split; try rewrite Hg|by rewrite app_nil_r].
Qed.

Lemma shutdown_moves p : pipeline_ok p -> moves p (shutdown mpsc p) [].
Proof.
  intros [Hcap Hq Hs Hp He Hf]. unfold moves.
  destruct (sender_dropped _ _ _ _ Hmpsc (chan mpsc p)) as (Hc & Hk & Ha).
  unfold shutdown, pending. destruct (gate_open mpsc p) eqn:Hg; simpl; rewrite app_nil_r.
  - rewrite Hc. split; [|done]. split; simpl; unfold pending; simpl; rewrite ?Hc, ?Hk; try done.
    intros Hfin. destruct (Hf Hfin). congruence.
  - split; [|done]. by split.
Qed.

(** The builder goes on with the entries [es]. *)
Lemma loop_head_moves p es deadline :
  capacity (chan mpsc p) = max -> len (contents (chan mpsc p)) <= max ->
  sender_alive (chan mpsc p) = gate_open mpsc p -> Forall batch_ok (emitted mpsc p) ->
  finished mpsc p = false -> 1 <= len es <= max ->
  let p' := progress mpsc p (loop_head config es deadline) in
  pipeline_ok p' /\
  concat (emitted mpsc p') ++ pending p' = concat (emitted mpsc p) ++ es ++ contents (chan mpsc p).
Proof.
  intros Hcap Hq Hs He Hfin Hl. cbv zeta. destruct (loop_head_cases es deadline Hl) as [[-> Hl']|[-> Hb]].
  - split; [|done]. split; simpl; try done. by rewrite Hfin.
  - split.
    + split; simpl; try done; [|by rewrite Hfin]. by apply Forall_app_2, Forall_singleton.
    + unfold pending. simpl. by rewrite concat_app, <- app_assoc; simpl; rewrite app_nil_r.
Qed.

(** The builder returns what it has. *)
Lemma return_moves p es deadline :
  pipeline_ok p -> builder mpsc p = Accumulating es deadline ->
  moves p (progress mpsc p (on_received config es deadline None)) [].
Proof.
  intros [Hcap Hq Hs Hp He Hf] Hb. rewrite Hb in Hp. unfold moves, pending. rewrite Hb. simpl.
  split; [|rewrite concat_app, app_nil_r, <- app_assoc; simpl; by rewrite app_nil_r].
  split; simpl; try done.
  - apply Forall_app_2, Forall_singleton; [done|]. unfold batch_ok. lia.
  - intros Hfin. destruct (Hf Hfin) as [? Hn]. split; [done|]. unfold pending in *. rewrite Hb in Hn.
    simpl in *. by apply app_nil in Hn as [_ ->].
Qed.

Lemma recv_moves p p' : pipeline_ok p -> builder_recv mpsc config p = Some p' -> moves p p' [].
Proof.
  intros Hok. pose proof Hok as [Hcap Hq Hs Hp He Hf]. unfold builder_recv.
  destruct (finished mpsc p) eqn:Hfin; [done|].
  destruct (contents (chan mpsc p)) as [|e q] eqn:Hc.
  - destruct (gate_open mpsc p) eqn:Hg; [by rewrite (recv_waits _ _ _ _ Hmpsc _ Hc Hs)|].
    destruct (recv_closed _ _ _ _ Hmpsc _ Hc Hs) as (ch & -> & Hc' & Hk & Ha). intros [= <-].
    assert (pipeline_ok (with_chan mpsc p ch)) as Hok'.
    { split; simpl; [by rewrite Hk|by rewrite Hc'|by rewrite Ha, Hg|done|done|by rewrite Hfin]. }
    destruct (builder mpsc p) as [|es d] eqn:Hb.
    + unfold moves, pending. simpl. rewrite Hb, Hc', Hc. split; [|done].
      destruct Hok'. by split.
    + destruct (return_moves (with_chan mpsc p ch) es d Hok' Hb) as [Hm E]. split; [exact Hm|].
      etransitivity; [exact E|]. unfold pending. simpl. by rewrite Hc', Hc.
  - destruct (recv_message _ _ _ _ Hmpsc _ _ _ Hc) as (ch & -> & Hc' & Hk & Ha). intros [= <-].
    rewrite len_cons in Hq. unfold moves.
    assert (forall es d, 1 <= len es <= max ->
      let p' := progress mpsc (with_chan mpsc p ch) (loop_head config es d) in
      pipeline_ok p' /\ concat (emitted mpsc p') ++ pending p' = concat (emitted mpsc p) ++ es ++ q) as Hl.
    { intros es d Hl. destruct (loop_head_moves (with_chan mpsc p ch) es d) as [? E]; simpl;
        [by rewrite Hk|rewrite Hc'; lia|by rewrite Ha|done|done|done|]. split; [done|].
      rewrite E. simpl. by rewrite Hc'. }
    unfold pending at 2. rewrite Hc. destruct (builder mpsc p) as [|es d]; simpl in *.
    + destruct (Hl [e] (system_time_checked_add (clock_now mpsc p) (cadence config))) as [? E];
        [change (len [e]) with 1; lia|]. split; [done|]. rewrite E. by rewrite app_nil_r.
    + destruct (Hl (es ++ [e]) d) as [? E]; [rewrite len_snoc; lia|]. split; [done|].
      rewrite E, app_nil_r. by rewrite <- !app_assoc.
Qed.

Lemma timeout_moves p p' : pipeline_ok p -> builder_timeout mpsc config p = Some p' -> moves p p' [].
Proof.
  intros Hok. unfold builder_timeout. destruct (builder mpsc p) as [|es [d|]] eqn:Hb; [done| |done].
  destruct (d <=? clock_now mpsc p); [|done]. intros [= <-]. by apply (return_moves p es (Some d)).
Qed.

Lemma event_moves p e p' accepted :
  pipeline_ok p -> step mpsc config p e = Some (p', accepted) -> moves p p' accepted.
Proof.
  intros Hok E. destruct e as [item| |t| |]; cbn [step] in E.
  - pose proof (submit_moves p item Hok) as H. destruct (try_enqueue mpsc item p) as [r q].
    by injection E as <- <-.
  - injection E as <- <-. by apply shutdown_moves.
  - injection E as <- <-. unfold moves. rewrite app_nil_r. destruct Hok. by split.
  - apply fmap_Some in E as (q & E & [= -> ->]). by apply recv_moves.
  - apply fmap_Some in E as (q & E & [= -> ->]). by apply timeout_moves.
Qed.

Lemma run_moves events : forall p p' accepted,
  pipeline_ok p -> run mpsc config p events = Some (p', accepted) -> moves p p' accepted.
Proof.
  induction events as [|e events IH]; intros p p' accepted Hok E; cbn [run] in E.
  - injection E as <- <-. split; [done|]. by rewrite app_nil_r.
  - destruct (step mpsc config p e) as [[q acc]|] eqn:Es; [|done].
    destruct (event_moves p e q acc Hok Es) as [Hq Eq].
    destruct (run mpsc config q events) as [[r acc']|] eqn:Er; [|done]. injection E as <- <-.
    destruct (IH q r acc' Hq Er) as [Hr E']. split; [done|].
    by rewrite E', app_assoc, Eq, <- !app_assoc.
Qed.

(** ** Draining *)

Lemma loop_head_keeps p es deadline :
  let p' := progress mpsc p (loop_head config es deadline) in
  chan mpsc p' = chan mpsc p /\ gate_open mpsc p' = gate_open mpsc p /\ finished mpsc p' = finished mpsc p.
Proof. unfold loop_head. by destruct (len es <? max). Qed.

Lemma recv_message_step p e q :
  finished mpsc p = false -> contents (chan mpsc p) = e :: q ->
  exists p', builder_recv mpsc config p = Some p' /\ contents (chan mpsc p') = q /\
    gate_open mpsc p' = gate_open mpsc p /\ finished mpsc p' = false.
Proof.
  intros Hfin Hc. destruct (recv_message _ _ _ _ Hmpsc _ _ _ Hc) as (ch & Er & Hc' & _).
  unfold builder_recv. rewrite Hfin, Er. eexists. split; [done|].
  destruct (builder mpsc p) as [|es d]; cbn [on_first on_received];
    edestruct loop_head_keeps as (-> & -> & ->); done.
Qed.

Lemma recv_closed_step p :
  pipeline_ok p -> finished mpsc p = false -> gate_open mpsc p = false -> contents (chan mpsc p) = [] ->
  exists p', builder_recv mpsc config p = Some p' /\ contents (chan mpsc p') = [] /\
    gate_open mpsc p' = false /\ builder mpsc p' = AwaitingFirst /\
    finished mpsc p' = match builder mpsc p with AwaitingFirst => true | _ => false end.
Proof.
  intros Hok Hfin Hg Hc. pose proof (ok_sender p Hok) as Hs. rewrite Hg in Hs.
  destruct (recv_closed _ _ _ _ Hmpsc _ Hc Hs) as (ch & Er & Hc' & _).
  unfold builder_recv. rewrite Hfin, Er. eexists. split; [done|]. by destruct (builder mpsc p).
Qed.

Lemma run_recv p p' events r :
  builder_recv mpsc config p = Some p' -> run mpsc config p' events = Some (r, []) ->
  run mpsc config p (BuilderRecv :: events) = Some (r, []).
Proof. intros E Er. cbn [run step]. rewrite E. cbn. by rewrite Er. Qed.

Lemma drain q : forall p,
  pipeline_ok p -> gate_open mpsc p = false -> finished mpsc p = false -> contents (chan mpsc p) = q ->
  exists n r, (n <= length q + 2)%nat /\
    run mpsc config p (replicate n BuilderRecv) = Some (r, []) /\ finished mpsc r = true.
Proof.
  induction q as [|e q IH]; intros p Hok Hg Hfin Hc.
  - destruct (recv_closed_step p Hok Hfin Hg Hc) as (p1 & E1 & Hc1 & Hg1 & Hb1 & Hf1).
    destruct (builder mpsc p) as [|es d].
    + exists 1%nat, p1. split; [simpl; lia|]. split; [by apply (run_recv p p1 [])|done].
    + destruct (recv_moves p p1 Hok E1) as [Hok1 _].
      destruct (recv_closed_step p1 Hok1 Hf1 Hg1 Hc1) as (p2 & E2 & _ & _ & _ & Hf2).
      rewrite Hb1 in Hf2. exists 2%nat, p2. split; [simpl; lia|]. split; [|done].
      apply (run_recv p p1); [done|]. by apply (run_recv p1 p2 []).
  - destruct (recv_message_step p e q Hfin Hc) as (p1 & E1 & Hc1 & Hg1 & Hf1).
    destruct (recv_moves p p1 Hok E1) as [Hok1 _].
    destruct (IH p1) as (n & r & Hn & Er & Hr); [done|congruence|done|done|].
    exists (S n), r. split; [simpl; lia|]. split; [|done]. by apply (run_recv p p1).
Qed.
End Pipeline.

(** ** Completion *)

Section Completion.
Context {Completion : Type}.

(** Each entry with the answer [Index(start + i)], [i] its position. *)
Definition numbered (start : Z) (entries : list (BatchEntry Completion)) :
    list (Completion * result Z IntakeError) :=
  imap (fun i entry => (completion entry, Ok (start + Z.of_nat i))) entries.

Lemma numbered_app start a b :
  numbered start (a ++ b) = numbered start a ++ numbered (start + len a) b.
Proof.
  unfold numbered. rewrite imap_app. f_equal. apply imap_ext. intros i x _. unfold compose. simpl.
  unfold len. do 2 f_equal. lia.
Qed.

Lemma complete_from_numbered entries : forall offset start sent,
  0 <= offset -> 0 <= start -> start + offset + len entries <= 2 ^ 64 ->
  complete_from offset entries start sent = sent ++ numbered (start + offset) entries.
Proof.
  induction entries as [|e es IH]; intros offset start sent Ho Hs Hl; cbn [complete_from].
  - by rewrite app_nil_r.
  - rewrite len_cons in Hl. pose proof (len_nonneg es). rewrite IH by lia.
    rewrite try_from_uint_in by (unfold in_uint; lia). change (default u64_max (Some offset)) with offset.
    unfold complete.
    unfold saturating_add. rewrite Z.min_l by lia. rewrite <- app_assoc. f_equal.
    change (e :: es) with ([e] ++ es). rewrite numbered_app. change (len [e]) with 1.
    replace (start + (offset + 1)) with (start + offset + 1) by lia. f_equal.
    unfold numbered. simpl. by rewrite Z.add_0_r.
Qed.

(** The batches completed in order, each with the range of indices after the one before. *)
Fixpoint complete_batches (batches : list (Batch Completion)) (start : Z)
    (sent : list (Completion * result Z IntakeError)) : list (Completion * result Z IntakeError) :=
  match batches with
  | [] => sent
  | b :: rest => complete_batches rest (start + len b) (complete_sequential b start sent)
  end.

Lemma complete_batches_numbered batches : forall start sent,
  0 <= start -> start + len (concat batches) <= 2 ^ 64 ->
  complete_batches batches start sent = sent ++ numbered start (concat batches).
Proof.
  induction batches as [|b batches IH]; intros start sent Hs Hl; cbn [complete_batches concat].
  - by rewrite app_nil_r.
  - cbn [concat] in Hl. rewrite len_app in Hl. pose proof (len_nonneg b). pose proof (len_nonneg (concat batches)).
    unfold complete_sequential. rewrite complete_from_numbered by lia. rewrite IH by lia.
    by rewrite numbered_app, Z.add_0_r, <- app_assoc.
Qed.

Lemma fail_all_spec (entries : list (BatchEntry Completion)) error : forall sent,
  fail_all entries error sent = sent ++ map (fun e => (completion e, Err error)) entries.
Proof.
  unfold fail_all. induction entries as [|e es IH]; intros sent; simpl; [by rewrite app_nil_r|].
  rewrite IH. unfold fail. by rewrite <- app_assoc.
Qed.
End Completion.

Section Runs.
Context {Completion : Type} (mpsc : Mpsc (BatchEntry Completion)) (config : BatchConfig).

Lemma run_app events events' : forall (p q r : Pipeline mpsc) a b,
  run mpsc config p events = Some (q, a) -> run mpsc config q events' = Some (r, b) ->
  run mpsc config p (events ++ events') = Some (r, a ++ b).
Proof.
  induction events as [|e events IH]; intros p q r a b E E'; cbn [run app] in *.
  - by injection E as <- <-.
  - destruct (step mpsc config p e) as [[p1 a1]|]; [|done].
    destruct (run mpsc config p1 events) as [[q1 a2]|] eqn:E1; [|done]. injection E as <- <-.
    rewrite (IH p1 q1 r a2 b E1 E'). by rewrite app_assoc.
Qed.
End Runs.

(** ** The properties *)

(** C10. No entry is lost, duplicated or reordered: after any sequence of submissions, shutdowns, clock
    changes and wake-ups of the builder, the entries whose submission the queue accepted are, in the
    order of acceptance, those of the batches returned, then those of the batch in progress, then
    those in the channel. Every batch has at least one and at most [max_batch_size] entries, the
    channel never holds more than one batch, and once [next_batch] has returned [None] all accepted
    entries have been returned in batches. *)
Theorem pipeline_fifo {Completion : Type} (mpsc : Mpsc (BatchEntry Completion))
    (contents : Chan mpsc -> list (BatchEntry Completion)) (capacity : Chan mpsc -> Z)
    (sender_alive : Chan mpsc -> bool) (config : BatchConfig) (now : Z) (events : list Event)
    (p : Pipeline mpsc) (accepted : list (BatchEntry Completion)) :
  Mpsc_documented mpsc contents capacity sender_alive -> 0 < max_batch_size config ->
  run mpsc config (channel mpsc config now) events = Some (p, accepted) ->
  accepted = concat (emitted mpsc p) ++ in_progress (builder mpsc p) ++ contents (chan mpsc p) /\
  Forall (fun b : Batch Completion => 1 <= len b <= max_batch_size config) (emitted mpsc p) /\
  len (in_progress (builder mpsc p)) < max_batch_size config /\
  len (contents (chan mpsc p)) <= max_batch_size config /\
  (finished mpsc p = true -> gate_open mpsc p = false /\ accepted = concat (emitted mpsc p)).
Proof.
  intros Hd Hm E. destruct (channel_ok mpsc contents capacity sender_alive Hd config Hm now) as [Hok Hp].
  destruct (run_moves mpsc contents capacity sender_alive Hd config Hm events _ _ _ Hok E) as [[_ Hq _ Hb He Hf] Ea].
  rewrite Hp in Ea. simpl in Ea. split_and!; [done|done| |done|].
  - destruct (builder mpsc p); simpl in *; [done|lia].
  - intros Hfin. destruct (Hf Hfin) as [? Hn]. split; [done|]. by rewrite <- Ea, Hn, app_nil_r.
Qed.

(** Submitters are answered with their positions: if the batches returned are completed in order
    with [complete_sequential], each with the index range after the one before it from [base] on, then
    exactly one answer is sent for each entry in them, and the [i]-th accepted entry's submitter
    gets [Index(base + i)]: no index is used twice and none is skipped. *)
Theorem submitters_answered {Completion : Type} (mpsc : Mpsc (BatchEntry Completion))
    (contents : Chan mpsc -> list (BatchEntry Completion)) (capacity : Chan mpsc -> Z)
    (sender_alive : Chan mpsc -> bool) (config : BatchConfig) (now base : Z) (events : list Event)
    (p : Pipeline mpsc) (accepted : list (BatchEntry Completion)) :
  Mpsc_documented mpsc contents capacity sender_alive -> 0 < max_batch_size config ->
  run mpsc config (channel mpsc config now) events = Some (p, accepted) ->
  0 <= base -> base + len (concat (emitted mpsc p)) <= 2 ^ 64 ->
  complete_batches (emitted mpsc p) base [] =
    imap (fun i entry => (completion entry, Ok (base + Z.of_nat i)))
         (take (length (concat (emitted mpsc p))) accepted).
Proof.
  intros Hd Hm E Hb Hl. destruct (channel_ok mpsc contents capacity sender_alive Hd config Hm now) as [Hok Hp].
  destruct (run_moves mpsc contents capacity sender_alive Hd config Hm events _ _ _ Hok E) as [_ Ea].
  rewrite Hp in Ea. simpl in Ea. rewrite <- Ea, take_app_length.
  by rewrite complete_batches_numbered.
Qed.

(** C23. Shutting down drains: once the queue is shut down, whatever happened before, waking the
    builder at most two times more than there are entries in the channel makes [next_batch]
    return [None], and by then the batches returned hold every entry ever accepted. *)
Theorem shutdown_drains {Completion : Type} (mpsc : Mpsc (BatchEntry Completion))
    (contents : Chan mpsc -> list (BatchEntry Completion)) (capacity : Chan mpsc -> Z)
    (sender_alive : Chan mpsc -> bool) (config : BatchConfig) (now : Z) (events : list Event)
    (p : Pipeline mpsc) (accepted : list (BatchEntry Completion)) :
  Mpsc_documented mpsc contents capacity sender_alive -> 0 < max_batch_size config ->
  run mpsc config (channel mpsc config now) events = Some (p, accepted) -> gate_open mpsc p = false ->
  exists n r, (n <= length (contents (chan mpsc p)) + 2)%nat /\
    run mpsc config (channel mpsc config now) (events ++ replicate n BuilderRecv) = Some (r, accepted) /\
    finished mpsc r = true /\ concat (emitted mpsc r) = accepted.
Proof.
  intros Hd Hm E Hg. destruct (channel_ok mpsc contents capacity sender_alive Hd config Hm now) as [Hok Hp].
  destruct (run_moves mpsc contents capacity sender_alive Hd config Hm events _ _ _ Hok E) as [Hokp _].
  assert (exists n r, (n <= length (contents (chan mpsc p)) + 2)%nat /\
    run mpsc config p (replicate n BuilderRecv) = Some (r, []) /\ finished mpsc r = true)
    as (n & r & Hn & Er & Hr).
  { destruct (finished mpsc p) eqn:Hfin; [exists 0%nat, p; split; [lia|done]|].
    by apply (drain mpsc contents capacity sender_alive Hd config Hm _ p Hokp Hg Hfin). }
  exists n, r. split; [done|]. pose proof (run_app mpsc config _ _ _ _ _ _ _ E Er) as Ea.
  rewrite app_nil_r in Ea. split_and!; [done..|].
  destruct (run_moves mpsc contents capacity sender_alive Hd config Hm _ _ _ _ Hok Ea) as [Hokr Eq].
  destruct (ok_finished _ _ _ _ _ _ Hokr Hr) as [_ Hn']. rewrite Hn', Hp, app_nil_r in Eq. exact Eq.
Qed.

(** ** An example *)

(** A bounded channel as a list. *)
Record ListChan (E : Type) : Type := MkListChan { lc_items : list E; lc_capacity : Z; lc_alive : bool }.
Arguments MkListChan {E}.
Arguments lc_items {E}.
Arguments lc_capacity {E}.
Arguments lc_alive {E}.

Definition list_try_send {E} (ch : ListChan E) (e : E) : result unit TrySendError * ListChan E :=
  if len (lc_items ch) <? lc_capacity ch
  then (Ok tt, MkListChan (lc_items ch ++ [e]) (lc_capacity ch) (lc_alive ch))
  else (Err Full, ch).
Definition list_recv {E} (ch : ListChan E) : option (option E * ListChan E) :=
  match lc_items ch with
  | e :: q => Some (Some e, MkListChan q (lc_capacity ch) (lc_alive ch))
  | [] => if lc_alive ch then None else Some (None, ch)
  end.
Definition list_mpsc (E : Type) : Mpsc E :=
  MkMpsc E (ListChan E) (fun n => MkListChan [] n true) list_try_send list_recv
    (fun ch => MkListChan (lc_items ch) (lc_capacity ch) false).

Lemma list_mpsc_documented E : Mpsc_documented (list_mpsc E) lc_items lc_capacity lc_alive.
Proof.
  split; cbn [list_mpsc mpsc_channel try_send recv drop_sender Chan]; unfold list_try_send, list_recv.
  - done.
  - intros ch e Ha Hl. rewrite (proj2 (Z.ltb_lt _ _) Hl). by eexists.
  - intros ch e Ha Hl. rewrite (proj2 (Z.ltb_ge _ _) Hl). by exists ch.
  - intros ch e q Hc. rewrite Hc. by eexists.
  - intros ch Hc Ha. rewrite Hc, Ha. by exists ch.
  - intros ch Hc Ha. by rewrite Hc, Ha.
  - done.
Qed.

(** Three entries with batches of two: the first two fill a batch, the third waits for the cadence
    and leaves on the timeout; the queue is then shut down, and refuses a fourth. *)
Definition sample_submission (n : nat) : BatchEntry nat :=
  MkBatchEntry (MkLogEntry [] NativeAcme "order" 0) n.
Definition sample_config : BatchConfig := MkBatchConfig 2 (3 * nanos_per_sec).
Definition sample_events : list Event :=
  [Submit (sample_submission 0); Submit (sample_submission 1); Submit (sample_submission 9);
   BuilderRecv; BuilderRecv; Submit (sample_submission 2); BuilderRecv; Tick (3 * nanos_per_sec);
   BuilderTimeout; Submit (sample_submission 3); Shutdown; Submit (sample_submission 4)].
Definition sample_end : option (Pipeline (list_mpsc (BatchEntry nat)) * list (BatchEntry nat)) :=
  run (list_mpsc (BatchEntry nat)) sample_config (channel (list_mpsc (BatchEntry nat)) sample_config 0) sample_events.
Definition sample_pipeline : Pipeline (list_mpsc (BatchEntry nat)) :=
  match sample_end with Some (p, _) => p | None => channel _ sample_config 0 end.
Definition sample_accepted : list (BatchEntry nat) := sample_submission <$> [0; 1; 2; 3]%nat.

Lemma sample_end_value : sample_end = Some (sample_pipeline, sample_accepted).
Proof. done. Qed.

Lemma pipeline_fifo_witness :
  sample_accepted = concat (emitted _ sample_pipeline) ++ in_progress (builder _ sample_pipeline) ++
    lc_items (chan _ sample_pipeline).
Proof.
  apply (pipeline_fifo (list_mpsc (BatchEntry nat)) lc_items lc_capacity lc_alive sample_config 0
           sample_events sample_pipeline sample_accepted); [apply list_mpsc_documented|done|].
  exact sample_end_value.
Defined.

Lemma submitters_answered_witness :
  complete_batches (emitted _ sample_pipeline) 100 [] = [(0%nat, Ok 100); (1%nat, Ok 101); (2%nat, Ok 102)].
Proof.
  apply (submitters_answered (list_mpsc (BatchEntry nat)) lc_items lc_capacity lc_alive sample_config 0 100
           sample_events sample_pipeline sample_accepted);
    [apply list_mpsc_documented|done|exact sample_end_value|done|done].
Defined.

Lemma shutdown_drains_witness :
  exists n r, (n <= 3)%nat /\
    run (list_mpsc (BatchEntry nat)) sample_config (channel (list_mpsc (BatchEntry nat)) sample_config 0)
      (sample_events ++ replicate n BuilderRecv) = Some (r, sample_accepted) /\
    finished _ r = true /\ concat (emitted _ r) = sample_accepted.
Proof.
  apply (shutdown_drains (list_mpsc (BatchEntry nat)) lc_items lc_capacity lc_alive sample_config 0
           sample_events sample_pipeline sample_accepted);
    [apply list_mpsc_documented|done|exact sample_end_value|done].
Defined.
