(* ===== verification/Acme.v ===== *)
(** * The ACME front end: [crates/acme-core/src/]

    Errors and problem documents ([error.rs], [problem.rs]), anti-replay nonces ([nonce.rs]), signed
    requests ([jws.rs], [client.rs]'s counterpart), accounts ([account.rs]) and the handlers ([routes.rs]).
    The crates the source calls are parameters: [serde_json], [base64ct], [sha2], [p256], the
    operating system's random source and the validity of a header value. A handler's accesses
    to the nonces and to the accounts are each atomic under their lock. *)

From Stdlib Require Import Ascii.
From stdpp Require Import gmap.
From S2P Require Import Prelude Format Time Signing.

Local Open Scope mtc_scope.
Local Open Scope Z_scope.

(** ** Errors ([error.rs], [problem.rs]) *)

Definition ES256 : string := "ES256".

(** [AcmeError]; a message is its fixed text. *)
Inductive AcmeError : Type :=
| BadNonce
| BadSignatureAlgorithm (alg : string)
| Malformed (reason : string)
| AccountDoesNotExist
| UrlMismatch
| BadPublicKey (reason : string)
| Internal (reason : string).

Inductive ProblemType : Type :=
| PBadNonce
| PBadSignatureAlgorithm
| PMalformed
| PAccountDoesNotExist
| PUnauthorized
| PBadPublicKey
| PServerInternal.

Definition urn (p : ProblemType) : string :=
  match p with
  | PBadNonce => "urn:ietf:params:acme:error:badNonce"
  | PBadSignatureAlgorithm => "urn:ietf:params:acme:error:badSignatureAlgorithm"
  | PMalformed => "urn:ietf:params:acme:error:malformed"
  | PAccountDoesNotExist => "urn:ietf:params:acme:error:accountDoesNotExist"
  | PUnauthorized => "urn:ietf:params:acme:error:unauthorized"
  | PBadPublicKey => "urn:ietf:params:acme:error:badPublicKey"
  | PServerInternal => "urn:ietf:params:acme:error:serverInternal"
  end.

Definition problem_status (p : ProblemType) : Z :=
  match p with
  | PBadNonce | PBadSignatureAlgorithm | PMalformed | PAccountDoesNotExist | PBadPublicKey => 400
  | PUnauthorized => 401
  | PServerInternal => 500
  end.

(** [ProblemDocument], without the detail text. *)
Record ProblemDocument : Type := MkProblemDocument {
  problem_type : string;
  pd_status : Z;
  algorithms : option (list string)
}.
Definition ProblemDocument_new (p : ProblemType) : ProblemDocument :=
  MkProblemDocument (urn p) (problem_status p) None.
Definition with_algorithms (d : ProblemDocument) (algs : list string) : ProblemDocument :=
  MkProblemDocument (problem_type d) (pd_status d) (Some algs).

(** [AcmeError::problem]. *)
Definition problem (e : AcmeError) : ProblemDocument :=
  match e with
  | BadNonce => ProblemDocument_new PBadNonce
  | BadSignatureAlgorithm _ => with_algorithms (ProblemDocument_new PBadSignatureAlgorithm) [ES256]
  | Malformed _ => ProblemDocument_new PMalformed
  | AccountDoesNotExist => ProblemDocument_new PAccountDoesNotExist
  | UrlMismatch => ProblemDocument_new PUnauthorized
  | BadPublicKey _ => ProblemDocument_new PBadPublicKey
  | Internal _ => ProblemDocument_new PServerInternal
  end.

(** ** Base64url, of the [base64ct] crate *)

Record Base64 : Type := MkBase64 {
  encode_string : list byte -> string;
  decode_vec : string -> option (list byte)
}.

(** ** Nonces ([nonce.rs]) *)

Section Nonces.
Context (b64 : Base64) (getrandom_fill : nat -> option (list byte)).

Definition DEFAULT_NONCE_TTL_MILLIS : Z := 5 * 60 * 1000.
Definition Nonce : Type := string.

(** [NonceStore], with the number of draws made from the random source. *)
Record NonceStore : Type := MkNonceStore {
  ttl_millis : Z;
  issued : gmap Nonce Z;
  draws : nat
}.
Definition NonceStore_new (ttl_millis : Z) : NonceStore := MkNonceStore ttl_millis ∅ 0.

(** [prune_expired]. *)
Definition prune_expired (s : NonceStore) (now : Z) : NonceStore :=
  MkNonceStore (ttl_millis s) (filter (fun kv : Nonce * Z => now <= kv.2) (issued s)) (draws s).

(** [issue], with the clock reading [now]. *)
Definition issue (now : Z) : M NonceStore AcmeError Nonce := fun s0 =>
  let s := prune_expired s0 now in
  match getrandom_fill (draws s) with
  | None => (Err (Internal "os rng"), MkNonceStore (ttl_millis s) (issued s) (S (draws s)))
  | Some buf =>
      let nonce := encode_string b64 buf in
      (Ok nonce, MkNonceStore (ttl_millis s)
                   (<[nonce := now + ttl_millis s * nanos_per_milli]> (issued s)) (S (draws s)))
  end.

(** [consume]. *)
Definition consume (nonce : Nonce) (now : Z) : M NonceStore AcmeError unit := fun s =>
  (match issued s !! nonce with
   | Some deadline => if now <=? deadline then Ok tt else Err BadNonce
   | None => Err BadNonce
   end,
   MkNonceStore (ttl_millis s) (delete nonce (issued s)) (draws s)).
End Nonces.

(** ** Signed requests ([jws.rs]) *)

Record Jwk : Type := MkJwk { kty : string; crv : string; jwk_x : string; jwk_y : string }.
Definition JwkThumbprint : Type := string.

Record ProtectedHeader : Type := MkProtectedHeader {
  alg : string;
  header_nonce : option string;
  header_url : option string;
  header_jwk : option Jwk;
  header_kid : option string
}.

Record FlattenedJws : Type := MkFlattenedJws {
  fl_protected : string;
  fl_payload : string;
  fl_signature : string
}.

Record Jws : Type := MkJws {
  protected : ProtectedHeader;
  payload : list byte;
  jws_signature : list byte;
  protected_b64 : string;
  payload_b64 : string
}.

Inductive AccountKeySource : Type := FromJwk (jwk : Jwk) | FromKid (kid : string).

(** [NewAccountRequest] ([account.rs]). *)
Record NewAccountRequest : Type := MkNewAccountRequest {
  contact : list string;
  terms_of_service_agreed : bool;
  only_return_existing : bool
}.

(** What the source gets from [serde_json] and [sha2]: the deserializers, the compact JSON object
    of a key's four members, and SHA-256. *)
Record Json : Type := MkJson {
  flattened_from_slice : list byte -> option FlattenedJws;
  header_from_slice : list byte -> option ProtectedHeader;
  request_from_slice : list byte -> option NewAccountRequest;
  jwk_json : Jwk -> list byte
}.

Section Jws.
Context (b64 : Base64) (json : Json) (sha256 : list byte -> list byte) (p : P256).

(** [VerifyingKey::from_encoded_point] of an uncompressed point. *)
Context (from_affine_coordinates : array 32 -> array 32 -> option (P256VerifyingKey p)).

(** [decode_coordinate]. *)
Definition decode_coordinate (value : string) : result (array 32) AcmeError :=
  let? bytes := ok_or (decode_vec b64 value) (BadPublicKey "coordinate: invalid base64url") in
  ok_or (array_of 32 bytes) (BadPublicKey "coordinate: expected 32 bytes").

(** [Jwk::verifying_key]. *)
Definition jwk_verifying_key (jwk : Jwk) : result (P256VerifyingKey p) AcmeError :=
  if negb (String.eqb (kty jwk) "EC") then Err (BadPublicKey "unsupported kty")
  else if negb (String.eqb (crv jwk) "P-256") then Err (BadPublicKey "unsupported crv")
  else
    let? x := decode_coordinate (jwk_x jwk) in
    let? y := decode_coordinate (jwk_y jwk) in
    ok_or (from_affine_coordinates x y) (BadPublicKey "coordinates are not a P-256 point").

(** [Jwk::thumbprint]. *)
Definition thumbprint (jwk : Jwk) : JwkThumbprint := encode_string b64 (sha256 (jwk_json json jwk)).

(** [Jws::parse]. *)
Definition parse_jws (body : list byte) : result Jws AcmeError :=
  let? flat := ok_or (flattened_from_slice json body) (Malformed "invalid JWS request body") in
  let? protected_bytes := ok_or (decode_vec b64 (fl_protected flat)) (Malformed "protected: invalid base64url") in
  let? protected := ok_or (header_from_slice json protected_bytes) (Malformed "invalid protected header") in
  let? payload := ok_or (decode_vec b64 (fl_payload flat)) (Malformed "payload: invalid base64url") in
  let? signature := ok_or (decode_vec b64 (fl_signature flat)) (Malformed "signature: invalid base64url") in
  Ok (MkJws protected payload signature (fl_protected flat) (fl_payload flat)).

(** [check_alg]. *)
Definition check_alg (jws : Jws) : result unit AcmeError :=
  if String.eqb (alg (protected jws)) ES256 then Ok tt
  else Err (BadSignatureAlgorithm (alg (protected jws))).

(** [nonce]. *)
Definition jws_nonce (jws : Jws) : result Nonce AcmeError :=
  match header_nonce (protected jws) with
  | Some n => if String.eqb n "" then Err BadNonce else Ok n
  | None => Err BadNonce
  end.

(** [check_url]. *)
Definition check_url (jws : Jws) (expected : string) : result unit AcmeError :=
  match header_url (protected jws) with
  | None => Err (Malformed "protected header missing url")
  | Some url => if String.eqb url expected then Ok tt else Err UrlMismatch
  end.

(** [account_key]. *)
Definition account_key (jws : Jws) : result AccountKeySource AcmeError :=
  match header_jwk (protected jws), header_kid (protected jws) with
  | Some jwk, None => Ok (FromJwk jwk)
  | None, Some kid => Ok (FromKid kid)
  | _, _ => Err (Malformed "protected header must contain exactly one of jwk or kid")
  end.

(** [verify_signature]. *)
Definition signing_input (jws : Jws) : list byte :=
  String.list_byte_of_string (protected_b64 jws +:+ "." +:+ payload_b64 jws).
Definition verify_signature (jws : Jws) (key : P256VerifyingKey p) : result unit AcmeError :=
  let? signature := ok_or (sig_from_slice p (jws_signature jws))
                          (Malformed "signature: expected 64-byte ES256 (r || s)") in
  if p256_verify p key (signing_input jws) signature then Ok tt
  else Err (Malformed "JWS signature verification failed").

(** ** Accounts ([account.rs]) *)

Inductive AccountStatus : Type := Valid.

Record Account : Type := MkAccount {
  account_id : Z;
  account_jwk : Jwk;
  account_thumbprint : JwkThumbprint;
  account_status : AccountStatus;
  account_contact : list string;
  account_tos_agreed : bool
}.

Record AccountStore : Type := MkAccountStore {
  next_id : Z;
  by_thumbprint : gmap JwkThumbprint Account;
  id_index : gmap Z JwkThumbprint
}.
Definition AccountStore_new : AccountStore := MkAccountStore 1 ∅ ∅.

Definition find_by_thumbprint (s : AccountStore) (tp : JwkThumbprint) : option Account := by_thumbprint s !! tp.
Definition find_by_id (s : AccountStore) (id : Z) : option Account :=
  tp ← id_index s !! id; by_thumbprint s !! tp.

(** [get_or_create]; the release build's [u64] wraps. *)
Definition get_or_create (key : Jwk) (request : NewAccountRequest) (s : AccountStore) :
    (Account * bool) * AccountStore :=
  let tp := thumbprint key in
  match by_thumbprint s !! tp with
  | Some existing => ((existing, false), s)
  | None =>
      let id := next_id s in
      let account := MkAccount id key tp Valid (contact request) (terms_of_service_agreed request) in
      ((account, true),
       MkAccountStore ((next_id s + 1) mod 2 ^ 64) (<[tp := account]> (by_thumbprint s))
         (<[id := tp]> (id_index s)))
  end.

(** ** Routes ([routes.rs]) *)

Definition DIRECTORY_PATH : string := "/acme/directory".
Definition NEW_NONCE_PATH : string := "/acme/new-nonce".
Definition NEW_ACCOUNT_PATH : string := "/acme/new-account".
Definition ACCOUNT_PATH_PREFIX : string := "/acme/acct/".
Definition JOSE_JSON : string := "application/jose+json".

(** [BaseUrl::new]: drop the trailing slashes; [BaseUrl::join]. *)
Fixpoint base_url (url : string) : string :=
  match url with
  | EmptyString => ""
  | String c rest =>
      let rest' := base_url rest in
      if (Ascii.eqb c "/" && String.eqb rest' "")%bool then "" else String c rest'
  end.
Definition join (base path : string) : string := (base +:+ path)%string.

(** [StateInner], without its clock. *)
Record AcmeState : Type := MkAcmeState {
  state_base_url : string;
  nonces : NonceStore;
  accounts : AccountStore
}.
Definition AcmeState_with_nonce_ttl (url : string) (ttl : Z) : AcmeState :=
  MkAcmeState url (NonceStore_new ttl) AccountStore_new.
Definition AcmeState_new (url : string) : AcmeState := AcmeState_with_nonce_ttl url DEFAULT_NONCE_TTL_MILLIS.

Definition url_for (s : AcmeState) (path : string) : string := join (state_base_url s) path.

(** [fresh_nonce], [consume_nonce], [with_accounts]: under the lock of the part they access. *)
Definition on_nonces {A} (m : M NonceStore AcmeError A) : M AcmeState AcmeError A := fun s =>
  let '(r, n) := m (nonces s) in (r, MkAcmeState (state_base_url s) n (accounts s)).
Definition with_accounts {A} (f : AccountStore -> result A AcmeError * AccountStore) : M AcmeState AcmeError A := fun s =>
  let '(r, a) := f (accounts s) in (r, MkAcmeState (state_base_url s) (nonces s) a).

(** [str::trim] and [eq_ignore_ascii_case], on ASCII. *)
Definition is_space (c : ascii) : bool :=
  let n := Ascii.nat_of_ascii c in ((Nat.leb 9 n && Nat.leb n 13) || Nat.eqb n 32)%bool.
Fixpoint trim_start (s : string) : string :=
  match s with String c rest => if is_space c then trim_start rest else s | EmptyString => s end.
Fixpoint trim_end (s : string) : string :=
  match s with
  | EmptyString => ""
  | String c rest =>
      let rest' := trim_end rest in
      if (is_space c && String.eqb rest' "")%bool then "" else String c rest'
  end.
Definition ascii_lower (c : ascii) : ascii :=
  let n := Ascii.nat_of_ascii c in
  if (Nat.leb 65 n && Nat.leb n 90)%bool then Ascii.ascii_of_nat (n + 32) else c.
Fixpoint to_lower (s : string) : string :=
  match s with String c rest => String (ascii_lower c) (to_lower rest) | EmptyString => "" end.
Fixpoint before_semicolon (s : string) : string :=
  match s with
  | EmptyString => ""
  | String c rest => if Ascii.eqb c ";" then "" else String c (before_semicolon rest)
  end.

(** [require_jose_json], of the [Content-Type] header if it is present and printable. *)
Definition require_jose_json (content_type : option string) : result unit AcmeError :=
  let media_type := trim_start (trim_end (before_semicolon (default ""%string content_type))) in
  if String.eqb (to_lower media_type) (to_lower JOSE_JSON) then Ok tt
  else Err (Malformed "content-type must be application/jose+json").

(** [AccountResource] and the response of [new_account]. *)
Record AccountResource : Type := MkAccountResource {
  res_status : AccountStatus;
  res_contact : list string;
  res_tos_agreed : bool
}.
Definition resource_from (a : Account) : AccountResource :=
  MkAccountResource (account_status a) (account_contact a) (account_tos_agreed a).
Record AccountResponse : Type := MkAccountResponse {
  resp_status : Z;
  resp_location : string;
  resp_account : AccountResource
}.

Section Routes.
(** [HeaderValue::from_str] succeeds. *)
Context (header_value_ok : string -> bool).

(** The body of the [with_accounts] closure of [new_account]. *)
Definition find_or_create (jwk : Jwk) (request : NewAccountRequest) (s : AccountStore) :
    result (Account * bool) AcmeError * AccountStore :=
  match find_by_thumbprint s (thumbprint jwk) with
  | Some existing => (Ok (existing, false), s)
  | None =>
      if only_return_existing request then (Err AccountDoesNotExist, s)
      else let '(r, s') := get_or_create jwk request s in (Ok r, s')
  end.

(** [new_account], with the clock reading [now]. *)
Definition new_account (now : Z) (content_type : option string) (body : list byte) :
    M AcmeState AcmeError AccountResponse :=
  do! lift (require_jose_json content_type);
  let! jws := lift (parse_jws body) in
  do! lift (check_alg jws);
  let! nonce := lift (jws_nonce jws) in
  do! on_nonces (consume nonce now);
  let! state := read_state in
  do! lift (check_url jws (url_for state NEW_ACCOUNT_PATH));
  let! source := lift (account_key jws) in
  let! jwk := match source with
              | FromJwk jwk => ret jwk
              | FromKid _ => throw (Malformed "new-account requires jwk, not kid")
              end in
  let! verifying_key := lift (jwk_verifying_key jwk) in
  do! lift (verify_signature jws verifying_key);
  let! request := lift (ok_or (request_from_slice json (payload jws)) (Malformed "invalid new-account payload")) in
  let! created := with_accounts (find_or_create jwk request) in
  let status := if snd created then 201 else 200 in
  let location := url_for state (ACCOUNT_PATH_PREFIX +:+ decimal (account_id (fst created))) in
  if header_value_ok location
  then ret (MkAccountResponse status location (resource_from (fst created)))
  else throw (Internal "account URL is not a valid header value").

(** A response: its status, its body as far as it is modelled, and its [Replay-Nonce]. *)
Inductive ResponseBody : Type :=
| AccountBody (location : string) (account : AccountResource)
| ProblemBody (p : ProblemDocument)
| NonceBody
| DirectoryBody (new_nonce new_account : string).
Record Response : Type := MkResponse {
  status_code : Z;
  response_body : ResponseBody;
  replay_nonce : option string
}.

(** [AcmeError::into_response]. *)
Definition into_response (e : AcmeError) : Response :=
  MkResponse (pd_status (problem e)) (ProblemBody (problem e)) None.

(** [directory], [new_nonce]. *)
Definition directory (s : AcmeState) : Response :=
  MkResponse 200 (DirectoryBody (url_for s NEW_NONCE_PATH) (url_for s NEW_ACCOUNT_PATH)) None.
Definition new_nonce (is_head : bool) : Response :=
  MkResponse (if is_head then 200 else 204) NonceBody None.

(** [attach_replay_nonce]: the handler's response, with a fresh nonce. *)
Definition attach_replay_nonce (getrandom_fill : nat -> option (list byte)) (now : Z)
    (response : Response) (s : AcmeState) : Response * AcmeState :=
  match on_nonces (issue b64 getrandom_fill now) s with
  | (Ok nonce, s') =>
      (MkResponse (status_code response) (response_body response)
         (if header_value_ok nonce then Some nonce else replay_nonce response), s')
  | (Err err, s') => (into_response err, s')
  end.

(** A [POST] to the new-account route: the handler at [now], its middleware at [later]. *)
Definition serve_new_account (getrandom_fill : nat -> option (list byte)) (now later : Z)
    (content_type : option string) (body : list byte) (s : AcmeState) : Response * AcmeState :=
  let '(r, s') := new_account now content_type body s in
  attach_replay_nonce getrandom_fill later
    match r with
    | Ok a => MkResponse (resp_status a) (AccountBody (resp_location a) (resp_account a)) None
    | Err e => into_response e
    end s'.
End Routes.
End Jws.
