(* ===== verification/AcmeFacts.v ===== *)
(** * Correctness of the ACME front end

    A nonce is spent at most once per issue and within its lifetime; an account is only returned for a
    request signed by the key it is bound to, over a fresh nonce and for this URL, and a request
    cannot be replayed until its nonce is issued again; the two indices of the account store agree. *)

From Stdlib Require Import Ascii.
From stdpp Require Import gmap relations.
From S2P Require Import Prelude Format Time Signing Acme.

Local Open Scope mtc_scope.
Local Open Scope Z_scope.

(** ** Nonces *)

Section Nonces.
Context (b64 : Base64) (getrandom_fill : nat -> option (list byte)).

(** What a call on the store did: a nonce issued at an instant, no nonce for want of randomness, a
    nonce presented at an instant and accepted or not. *)
Inductive NonceCall : Type := CallIssue (now : Z) | CallConsume (nonce : Nonce) (now : Z).
Inductive NonceEvent : Type :=
| Issued (nonce : Nonce) (now : Z)
| NotIssued
| Spent (nonce : Nonce) (now : Z) (accepted : bool).

Definition nonce_call (s : NonceStore) (c : NonceCall) : NonceEvent * NonceStore :=
  match c with
  | CallIssue now =>
      match issue b64 getrandom_fill now s with
      | (Ok nonce, s') => (Issued nonce now, s')
      | (Err _, s') => (NotIssued, s')
      end
  | CallConsume nonce now =>
      match consume nonce now s with
      | (Ok _, s') => (Spent nonce now true, s')
      | (Err _, s') => (Spent nonce now false, s')
      end
  end.

Fixpoint nonce_run (s : NonceStore) (calls : list NonceCall) : list NonceEvent * NonceStore :=
  match calls with
  | [] => ([], s)
  | c :: rest =>
      let '(e, s') := nonce_call s c in
      let '(es, s'') := nonce_run s' rest in (e :: es, s'')
  end.

(** The nonce was issued at [at_] in these events, and not presented since. *)
Definition outstanding (events : list NonceEvent) (nonce : Nonce) (at_ : Z) : Prop :=
  exists j, events !! j = Some (Issued nonce at_) /\
    forall i t ok, (j < i)%nat -> events !! i <> Some (Spent nonce t ok).

(** The store holds outstanding nonces with their deadlines. *)
Definition nonces_ok (ttl : Z) (events : list NonceEvent) (s : NonceStore) : Prop :=
  ttl_millis s = ttl /\
  forall nonce deadline, issued s !! nonce = Some deadline ->
    exists at_, outstanding events nonce at_ /\ deadline = at_ + ttl * nanos_per_milli.

Lemma outstanding_snoc events e nonce at_ :
  outstanding events nonce at_ -> (forall t ok, e <> Spent nonce t ok) -> outstanding (events ++ [e]) nonce at_.
Proof.
  intros (j & Hj & Hn) He. exists j. split; [by apply lookup_app_l_Some|].
  intros i t ok Hi [Hl|[_ Hl]]%lookup_app_Some; [by apply (Hn i t ok)|].
  destruct (i - length events)%nat as [|k]; [|done]. injection Hl as Hl. by apply (He t ok).
Qed.

Lemma outstanding_issued events nonce at_ : outstanding (events ++ [Issued nonce at_]) nonce at_.
Proof.
  exists (length events). split; [by apply list_lookup_middle|].
  intros i t ok Hi Hl. apply lookup_lt_Some in Hl. rewrite length_app in Hl. simpl in Hl. lia.
Qed.

(** The store after a call, by its lookups. *)
Lemma issue_spec now s nonce s' :
  issue b64 getrandom_fill now s = (Ok nonce, s') ->
  ttl_millis s' = ttl_millis s /\
  issued s' !! nonce = Some (now + ttl_millis s * nanos_per_milli) /\
  forall n d, n <> nonce -> issued s' !! n = Some d <-> issued s !! n = Some d /\ now <= d.
Proof.
  unfold issue. destruct (getrandom_fill _) as [buf|]; [|done]. intros [= <- <-]. simpl.
  split_and!; [done|apply lookup_insert_eq|]. intros n d Hne. rewrite lookup_insert_ne by done.
  by rewrite map_lookup_filter_Some.
Qed.

Lemma issue_Err now s e s' :
  issue b64 getrandom_fill now s = (Err e, s') ->
  ttl_millis s' = ttl_millis s /\
  forall n d, issued s' !! n = Some d <-> issued s !! n = Some d /\ now <= d.
Proof.
  unfold issue. destruct (getrandom_fill _) as [buf|]; [done|]. intros [= <- <-]. simpl.
  split; [done|]. intros n d. by rewrite map_lookup_filter_Some.
Qed.

Lemma consume_spec nonce now s :
  snd (consume nonce now s) = MkNonceStore (ttl_millis s) (delete nonce (issued s)) (draws s) /\
  (fst (consume nonce now s) = Ok tt <-> exists d, issued s !! nonce = Some d /\ now <= d) /\
  (fst (consume nonce now s) = Ok tt \/ fst (consume nonce now s) = Err BadNonce).
Proof.
  unfold consume. simpl. split; [done|]. destruct (issued s !! nonce) as [d|]; [|split; [|by right]].
  - destruct (Z.leb_spec now d); (split; [|auto]); split; [by exists d|done|done|].
    intros (? & [= <-] & ?). lia.
  - split; [done|]. by intros (? & ? & _).
Qed.

Lemma nonce_call_ok ttl events s c :
  nonces_ok ttl events s -> nonces_ok ttl (events ++ [fst (nonce_call s c)]) (snd (nonce_call s c)).
Proof.
  intros [Ht Hi]. destruct c as [now|nonce now]; cbn [nonce_call].
  - destruct (issue b64 getrandom_fill now s) as [[nonce|e] s'] eqn:E; cbn [fst snd].
    + apply issue_spec in E as (Et & En & Eo). split; [congruence|]. intros n d Hd.
      destruct (decide (n = nonce)) as [->|Hne].
      * rewrite En in Hd. injection Hd as <-. exists now. rewrite Ht. split; [apply outstanding_issued|done].
      * apply Eo in Hd as [Hd _]; [|done]. destruct (Hi n d Hd) as (at_ & Ho & ->).
        exists at_. split; [|done]. by apply outstanding_snoc.
    + apply issue_Err in E as (Et & Eo). split; [congruence|]. intros n d [Hd _]%Eo.
      destruct (Hi n d Hd) as (at_ & Ho & ->). exists at_. split; [|done]. by apply outstanding_snoc.
  - assert (nonces_ok ttl (events ++ [Spent nonce now true]) (snd (consume nonce now s)) /\
            nonces_ok ttl (events ++ [Spent nonce now false]) (snd (consume nonce now s))) as [H1 H2].
    { assert (forall b, nonces_ok ttl (events ++ [Spent nonce now b]) (snd (consume nonce now s))) as H; [|by split].
      intros b. destruct (consume_spec nonce now s) as (-> & _). split; [done|]. simpl.
      intros n d [Hne Hd]%lookup_delete_Some. destruct (Hi n d Hd) as (at_ & Ho & ->).
      exists at_. split; [|done]. apply outstanding_snoc; [done|]. intros t ok [= ->]. done. }
    by destruct (consume nonce now s) as [[[]|e] s'].
Qed.

Lemma nonce_run_spent calls : forall events0 ttl s events s',
  nonces_ok ttl events0 s -> nonce_run s calls = (events, s') ->
  forall k nonce t, events !! k = Some (Spent nonce t true) ->
  exists at_, outstanding (events0 ++ take k events) nonce at_ /\ t <= at_ + ttl * nanos_per_milli.
Proof.
  induction calls as [|c calls IH]; intros events0 ttl s events s' Hok E k nonce t Hk; cbn [nonce_run] in E.
  - injection E as <- <-. done.
  - pose proof (nonce_call_ok ttl events0 s c Hok) as Hok'.
    destruct (nonce_call s c) as [e s1] eqn:Ec. destruct (nonce_run s1 calls) as [es s2] eqn:Er.
    injection E as <- <-. destruct k as [|k].
    + injection Hk as ->. rewrite app_nil_r. destruct c as [now|n now]; cbn [nonce_call] in Ec.
      * by destruct (issue _ _ _ _) as [[?|?] ?].
      * destruct (consume_spec n now s) as (_ & Hc & _). destruct Hok as [_ Hi].
        destruct (consume n now s) as [[[]|?] ?]; [|done]. injection Ec as -> -> _.
        destruct (proj1 Hc eq_refl) as (d & Hd & Hle). destruct (Hi _ _ Hd) as (at_ & Ho & ->). by exists at_.
    + cbn [fst snd] in Hok'. destruct (IH _ _ _ _ _ Hok' Er k nonce t Hk) as (at_ & Ho & Hle).
      exists at_. split; [|done]. by rewrite <- app_assoc in Ho.
Qed.
End Nonces.

(** ** Accounts *)

Lemma lift_Ok_inv {S E A} (r : result A E) (s : S) a s' : lift r s = (Ok a, s') -> r = Ok a /\ s' = s.
Proof. unfold lift. by intros [= -> ->]. Qed.

Lemma ok_or_Ok {A E} (o : option A) (e : E) a : ok_or o e = Ok a <-> o = Some a.
Proof. destruct o; simpl; [split; by intros [= ->]|done]. Qed.

Section Accounts.
Context (b64 : Base64) (json : Json) (sha256 : list byte -> list byte) (p : P256).
Context (from_affine_coordinates : array 32 -> array 32 -> option (P256VerifyingKey p)).
Abbreviation thumb := (thumbprint b64 json sha256).

(** The two indices describe the same accounts, each under its own key's thumbprint, with the
    identifiers handed out so far. *)
Definition account_store_ok (s : AccountStore) : Prop :=
  map_Forall (fun tp a => account_thumbprint a = tp /\ thumb (account_jwk a) = tp /\
    id_index s !! account_id a = Some tp /\ 1 <= account_id a < next_id s) (by_thumbprint s) /\
  map_Forall (fun i tp => exists a, by_thumbprint s !! tp = Some a /\ account_id a = i) (id_index s).

Lemma account_store_ok_new : account_store_ok AccountStore_new.
Proof. split; apply map_Forall_empty. Qed.

Lemma find_by_id_ok s tp a :
  account_store_ok s -> by_thumbprint s !! tp = Some a -> find_by_id s (account_id a) = Some a.
Proof. intros [Ha _] Hl. destruct (Ha tp a Hl) as (_ & _ & Hi & _). unfold find_by_id. by rewrite Hi. Qed.

(** A new account. *)
Lemma get_or_create_new key request s :
  account_store_ok s -> 1 <= next_id s -> next_id s + 1 < 2 ^ 64 -> by_thumbprint s !! thumb key = None ->
  let '((a, created), s') := get_or_create b64 json sha256 key request s in
  created = true /\ account_store_ok s' /\ by_thumbprint s' !! thumb key = Some a /\
  next_id s' = next_id s + 1 /\ id_index s !! account_id a = None /\ account_id a = next_id s /\
  account_contact a = contact request /\ (forall tp, tp <> thumb key -> by_thumbprint s' !! tp = by_thumbprint s !! tp).
Proof.
  intros [Ha Hi] Hpos Hn Hk. unfold get_or_create. rewrite Hk.
  assert (id_index s !! next_id s = None) as Hfree.
  { destruct (id_index s !! next_id s) as [tp|] eqn:E; [|done].
    destruct (Hi _ _ E) as (a & Hl & He). destruct (Ha _ _ Hl) as (_ & _ & _ & Hlt). lia. }
  split_and!; [done| |simpl; apply lookup_insert_eq|simpl; by rewrite Z.mod_small by lia|done..|].
  2:{ intros tp Hne. simpl. by apply lookup_insert_ne. }
  unfold account_store_ok. cbn [by_thumbprint id_index next_id]. rewrite Z.mod_small by lia. split.
  - apply map_Forall_insert_2.
    + simpl. split_and!; [done|done|apply lookup_insert_eq|lia|lia].
    + intros tp a Hl. destruct (Ha tp a Hl) as (H1 & H2 & H3 & H4). split_and!; [done|done| |lia|lia].
      rewrite lookup_insert_ne by lia. done.
  - apply map_Forall_insert_2.
    + eexists. split; [apply lookup_insert_eq|done].
    + intros i tp Hl. destruct (Hi i tp Hl) as (a & Hb & He). exists a. split; [|done].
      rewrite lookup_insert_ne; [done|]. congruence.
Qed.

(** ** Requests *)

Lemma jws_nonce_Ok jws n : jws_nonce jws = Ok n <-> header_nonce (protected jws) = Some n /\ n <> ""%string.
Proof.
  unfold jws_nonce. destruct (header_nonce (protected jws)) as [m|]; [|naive_solver].
  destruct (String.eqb_spec m ""); naive_solver.
Qed.

Lemma check_url_Ok jws url : check_url jws url = Ok tt <-> header_url (protected jws) = Some url.
Proof.
  unfold check_url. destruct (header_url (protected jws)) as [u|]; [|done].
  destruct (String.eqb_spec u url); naive_solver.
Qed.

Lemma check_alg_Ok jws : check_alg jws = Ok tt <-> alg (protected jws) = ES256.
Proof. unfold check_alg. destruct (String.eqb_spec (alg (protected jws)) ES256); naive_solver. Qed.

Lemma account_key_jwk jws jwk :
  account_key jws = Ok (FromJwk jwk) <-> header_jwk (protected jws) = Some jwk /\ header_kid (protected jws) = None.
Proof.
  unfold account_key. destruct (header_jwk (protected jws)), (header_kid (protected jws)); naive_solver.
Qed.

Lemma verify_signature_Ok jws key :
  verify_signature p jws key = Ok tt <->
  exists sig, sig_from_slice p (jws_signature jws) = Some sig /\ p256_verify p key (signing_input jws) sig = true.
Proof.
  unfold verify_signature. destruct (sig_from_slice p (jws_signature jws)) as [sig|]; cbn [ok_or].
  - destruct (p256_verify p key (signing_input jws) sig) eqn:E.
    + split; [|done]. intros _. by exists sig.
    + split; [done|]. intros (? & [= <-] & ?). congruence.
  - split; [done|]. by intros (? & ? & _).
Qed.

(** What is decided before the nonce is spent: the parsed request and its nonce. *)
Definition request_nonce (content_type : option string) (body : list byte) : result (Jws * Nonce) AcmeError :=
  let? _u := require_jose_json content_type in
  let? jws := parse_jws b64 json body in
  let? _v := check_alg jws in
  let? nonce := jws_nonce jws in Ok (jws, nonce).

(** What is decided from the request alone after that: the account key, and the payload. *)
Definition authenticate (url : string) (jws : Jws) : result (Jwk * NewAccountRequest) AcmeError :=
  let? _u := check_url jws url in
  let? source := account_key jws in
  let? jwk := match source with
              | FromJwk jwk => Ok jwk
              | FromKid _ => Err (Malformed "new-account requires jwk, not kid")
              end in
  let? key := jwk_verifying_key b64 p from_affine_coordinates jwk in
  let? _v := verify_signature p jws key in
  let? request := ok_or (request_from_slice json (payload jws)) (Malformed "invalid new-account payload") in
  Ok (jwk, request).

Lemma request_nonce_Ok content_type body jws nonce :
  request_nonce content_type body = Ok (jws, nonce) ->
  parse_jws b64 json body = Ok jws /\ alg (protected jws) = ES256 /\
  header_nonce (protected jws) = Some nonce /\ nonce <> ""%string.
Proof.
  unfold request_nonce. destruct (require_jose_json content_type); [|done].
  destruct (parse_jws b64 json body) as [j|]; [|done].
  destruct (check_alg j) as [[]|] eqn:Ea; [|done]. destruct (jws_nonce j) as [n|] eqn:En; [|done].
  intros [= <- <-]. split; [done|]. split; [by apply check_alg_Ok|by apply jws_nonce_Ok].
Qed.

Lemma authenticate_Ok url jws jwk request :
  authenticate url jws = Ok (jwk, request) ->
  header_url (protected jws) = Some url /\ header_jwk (protected jws) = Some jwk /\
  header_kid (protected jws) = None /\
  (exists key sig, jwk_verifying_key b64 p from_affine_coordinates jwk = Ok key /\
     sig_from_slice p (jws_signature jws) = Some sig /\ p256_verify p key (signing_input jws) sig = true) /\
  request_from_slice json (payload jws) = Some request.
Proof.
  unfold authenticate. destruct (check_url jws url) as [[]|] eqn:Eu; [|done].
  destruct (account_key jws) as [[j|kid]|] eqn:Ek; [|done|done].
  destruct (jwk_verifying_key b64 p from_affine_coordinates j) as [key|] eqn:Ev; [|done].
  destruct (verify_signature p jws key) as [[]|] eqn:Es; [|done].
  destruct (request_from_slice json (payload jws)) as [r|]; [|done]. cbn [ok_or]. intros [= <- <-].
  apply check_url_Ok in Eu. apply account_key_jwk in Ek as [? ?].
  apply verify_signature_Ok in Es as (sig & ? & ?). split_and!; [done..|by exists key, sig|done].
Qed.

Lemma find_or_create_spec jwk request s r s' :
  account_store_ok s -> 1 <= next_id s < 2 ^ 64 - 1 ->
  find_or_create b64 json sha256 jwk request s = (r, s') ->
  account_store_ok s' /\
  forall account created, r = Ok (account, created) ->
    by_thumbprint s' !! thumb jwk = Some account /\
    ((created = false /\ s' = s) \/
     (created = true /\ only_return_existing request = false /\ by_thumbprint s !! thumb jwk = None /\
      id_index s !! account_id account = None /\ account_contact account = contact request /\
      forall tp, tp <> thumb jwk -> by_thumbprint s' !! tp = by_thumbprint s !! tp)).
Proof.
  intros Hok Hn. unfold find_or_create, find_by_thumbprint.
  destruct (by_thumbprint s !! thumb jwk) as [a|] eqn:E.
  - intros [= <- <-]. split; [done|]. intros account created [= <- <-]. split; [done|by left].
  - destruct (only_return_existing request); [intros [= <- <-]; by split|].
    pose proof (get_or_create_new jwk request s Hok) as Hg.
    destruct (get_or_create b64 json sha256 jwk request s) as [[a c] s1].
    destruct Hg as (-> & Hok1 & Hl & _ & Hi & _ & Hc & Ho); [lia|lia|done|].
    intros [= <- <-]. split; [done|]. intros account created [= <- <-]. split; [done|]. right. by split_and!.
Qed.

Context (header_value_ok : string -> bool).
Abbreviation serve := (new_account b64 json sha256 p from_affine_coordinates header_value_ok).

(** The handler in three steps: the request, the nonce, the account. *)
Lemma new_account_steps now content_type body st :
  serve now content_type body st =
  match request_nonce content_type body with
  | Err e => (Err e, st)
  | Ok (jws, nonce) =>
      let st1 := MkAcmeState (state_base_url st) (snd (consume nonce now (nonces st))) (accounts st) in
      match fst (consume nonce now (nonces st)) with
      | Err e => (Err e, st1)
      | Ok _ =>
          match authenticate (url_for st NEW_ACCOUNT_PATH) jws with
          | Err e => (Err e, st1)
          | Ok (jwk, request) =>
              let '(r, a) := find_or_create b64 json sha256 jwk request (accounts st) in
              (match r with
               | Err e => Err e
               | Ok (account, created) =>
                   let location := url_for st (ACCOUNT_PATH_PREFIX +:+ decimal (account_id account)) in
                   if header_value_ok location
                   then Ok (MkAccountResponse (if created then 201 else 200) location (resource_from account))
                   else Err (Internal "account URL is not a valid header value")
               end, MkAcmeState (state_base_url st) (nonces st1) a)
          end
      end
  end.
Proof.
  unfold new_account, request_nonce, authenticate, bind, lift, read_state, ret, throw.
  destruct (require_jose_json content_type); [|done]. destruct (parse_jws b64 json body) as [jws|]; [|done].
  destruct (check_alg jws); [|done]. destruct (jws_nonce jws) as [nonce|]; [|done].
  unfold on_nonces. destruct (consume nonce now (nonces st)) as [[[]|e] n1]; [|done]. cbn [fst snd].
  unfold url_for. cbn [state_base_url].
  destruct (check_url jws _); [|done]. destruct (account_key jws) as [[jwk|kid]|]; [|done|done].
  destruct (jwk_verifying_key b64 p from_affine_coordinates jwk) as [key|]; [|done].
  destruct (verify_signature p jws key); [|done].
  destruct (request_from_slice json (payload jws)) as [request|]; [|done]. cbn [ok_or].
  unfold with_accounts. cbn [accounts].
  destruct (find_or_create b64 json sha256 jwk request (accounts st)) as [[[account created]|e] store]; [|done].
  cbn [fst snd nonces state_base_url]. by destruct (header_value_ok _).
Qed.

(** A request whose nonce is gone is refused and changes nothing. *)
Lemma replay_refused later content_type body st jws nonce :
  request_nonce content_type body = Ok (jws, nonce) -> issued (nonces st) !! nonce = None ->
  serve later content_type body st = (Err BadNonce, st).
Proof.
  intros Hr Hn. rewrite new_account_steps, Hr. unfold consume. rewrite Hn. cbn [fst snd].
  destruct st as [u [ttl m d] a]. cbn in *. by rewrite delete_id.
Qed.

(** What the server does next, as long as it does not issue [nonce]: it handles a new-account request,
    whoever sends it, or it issues a nonce, for a response or for [new_nonce], from any random source. *)
Inductive serves_without (nonce : Nonce) : AcmeState -> AcmeState -> Prop :=
| serves_request now content_type body st :
    serves_without nonce st (snd (serve now content_type body st))
| serves_nonce fill now n st st' :
    on_nonces (issue b64 fill now) st = (Ok n, st') -> n <> nonce -> serves_without nonce st st'
| serves_no_nonce fill now e st st' :
    on_nonces (issue b64 fill now) st = (Err e, st') -> serves_without nonce st st'.

Lemma serves_without_none nonce st st' :
  serves_without nonce st st' -> issued (nonces st) !! nonce = None -> issued (nonces st') !! nonce = None.
Proof.
  intros H Hn. destruct H as [now content_type body st|fill now n st st' E Hne|fill now e st st' E].
  - rewrite new_account_steps. destruct (request_nonce content_type body) as [[jws n]|e]; [|done].
    assert (issued (nonces (MkAcmeState (state_base_url st) (snd (consume n now (nonces st))) (accounts st))) !! nonce = None) as H1
      by (apply lookup_delete_None; by right).
    cbv zeta. destruct (fst (consume n now (nonces st))); [|exact H1]. destruct (authenticate _ jws) as [[jwk request]|e]; [|exact H1].
    destruct (find_or_create b64 json sha256 jwk request (accounts st)) as [r store]. exact H1.
  - unfold on_nonces in E. destruct (issue b64 fill now (nonces st)) as [r s1] eqn:Ei. injection E as -> <-. cbn.
    apply issue_spec in Ei as (_ & _ & Hi). apply eq_None_not_Some. intros [d Hd]. apply Hi in Hd as [Hd _]; [congruence|done].
  - unfold on_nonces in E. destruct (issue b64 fill now (nonces st)) as [r s1] eqn:Ei. injection E as -> <-. cbn.
    apply issue_Err in Ei as (_ & Hi). apply eq_None_not_Some. intros [d Hd]. apply Hi in Hd as [Hd _]. congruence.
Qed.

Lemma serves_without_refused nonce st st' later content_type body jws :
  request_nonce content_type body = Ok (jws, nonce) -> issued (nonces st) !! nonce = None ->
  rtc (serves_without nonce) st st' -> serve later content_type body st' = (Err BadNonce, st').
Proof.
  intros Hr Hn Hs. apply (replay_refused later content_type body st' jws nonce Hr).
  induction Hs as [|st st1 st' H1 _ IH]; [done|]. by eapply IH, serves_without_none.
Qed.
End Accounts.

(** ** The properties *)

(** C20. A nonce is good once: whatever calls of [issue] and [consume] are made on a fresh store, each
    call that accepts a nonce is preceded by one that issued it, at most the nonce lifetime
    earlier, and the nonce was not presented in between, accepted or not; in particular two
    accepted uses of a nonce have an issue of this very nonce between them, and a nonce the server
    never issued is never accepted. *)
Theorem nonce_single_use (b64 : Base64) (getrandom_fill : nat -> option (list byte)) (ttl : Z)
    (calls : list NonceCall) (k : nat) (nonce : Nonce) (t : Z) :
  let events := fst (nonce_run b64 getrandom_fill (NonceStore_new ttl) calls) in
  events !! k = Some (Spent nonce t true) ->
  exists j at_, (j < k)%nat /\ events !! j = Some (Issued nonce at_) /\
    t <= at_ + ttl * nanos_per_milli /\
    forall i t' accepted, (j < i < k)%nat -> events !! i <> Some (Spent nonce t' accepted).
Proof.
  cbv zeta. intros Hk. destruct (nonce_run b64 getrandom_fill (NonceStore_new ttl) calls) as [events s'] eqn:E.
  cbn [fst] in *.
  destruct (nonce_run_spent b64 getrandom_fill calls [] ttl (NonceStore_new ttl) events s') with k nonce t
    as (at_ & (j & Hj & Hn) & Hle); [by split|done|done|]. cbn [app] in *.
  apply lookup_take_Some in Hj as [Hj Hlt]. exists j, at_. split_and!; [done..|].
  intros i t' ok Hi Hl. apply (Hn i t' ok); [lia|]. by rewrite lookup_take_lt by lia.
Qed.

(** C19. Accounts are only handed out to their key's holder, and requests cannot be replayed: if
    [new_account] answers a request, then its signature over the protected header and the payload
    verifies under the P-256 key in its header, the header names ES256, this server's new-account
    URL and a nonce that was outstanding and is now spent, the account returned is the one stored
    under this key's thumbprint, both indices find it, and it is either the account already there
    (200, nothing stored) or a new one (201, no other account touched, the identifier never used
    before); and the same request sent again is refused with [badNonce] and changes nothing, at any time
    and after whatever requests are handled and nonces issued in between, until this very nonce is
    issued again. The account store stays consistent whatever the request. *)
Theorem new_account_authenticated (b64 : Base64) (json : Json) (sha256 : list byte -> list byte) (p : P256)
    (from_affine : array 32 -> array 32 -> option (P256VerifyingKey p)) (header_value_ok : string -> bool)
    (now : Z) (content_type : option string) (body : list byte) (st st' : AcmeState)
    (r : result AccountResponse AcmeError) :
  account_store_ok b64 json sha256 (accounts st) -> 1 <= next_id (accounts st) < 2 ^ 64 - 1 ->
  new_account b64 json sha256 p from_affine header_value_ok now content_type body st = (r, st') ->
  account_store_ok b64 json sha256 (accounts st') /\
  forall response, r = Ok response ->
  exists jws nonce deadline jwk key sig request account,
    parse_jws b64 json body = Ok jws /\ alg (protected jws) = ES256 /\
    header_nonce (protected jws) = Some nonce /\ header_url (protected jws) = Some (url_for st NEW_ACCOUNT_PATH) /\
    header_jwk (protected jws) = Some jwk /\
    issued (nonces st) !! nonce = Some deadline /\ now <= deadline /\
    issued (nonces st') = delete nonce (issued (nonces st)) /\
    jwk_verifying_key b64 p from_affine jwk = Ok key /\ sig_from_slice p (jws_signature jws) = Some sig /\
    p256_verify p key (signing_input jws) sig = true /\
    request_from_slice json (payload jws) = Some request /\
    by_thumbprint (accounts st') !! thumbprint b64 json sha256 jwk = Some account /\
    find_by_id (accounts st') (account_id account) = Some account /\
    resp_account response = resource_from account /\
    ((resp_status response = 200 /\ accounts st' = accounts st) \/
     (resp_status response = 201 /\ only_return_existing request = false /\
      by_thumbprint (accounts st) !! thumbprint b64 json sha256 jwk = None /\
      id_index (accounts st) !! account_id account = None /\ account_contact account = contact request /\
      forall tp, tp <> thumbprint b64 json sha256 jwk ->
        by_thumbprint (accounts st') !! tp = by_thumbprint (accounts st) !! tp)) /\
    (forall later st'', rtc (serves_without b64 json sha256 p from_affine header_value_ok nonce) st' st'' ->
       new_account b64 json sha256 p from_affine header_value_ok later content_type body st'' = (Err BadNonce, st'')).
Proof.
  intros Hok Hid E. rewrite new_account_steps in E.
  destruct (request_nonce b64 json content_type body) as [[jws nonce]|e] eqn:Hr;
    [|injection E as <- <-; by split].
  destruct (consume_spec nonce now (nonces st)) as (Hs & Hc & _). cbv zeta in E.
  destruct (fst (consume nonce now (nonces st))) as [[]|e]; [|injection E as <- <-; by split].
  destruct (proj1 Hc eq_refl) as (deadline & Hd & Hle). rewrite Hs in E.
  destruct (authenticate b64 json p from_affine (url_for st NEW_ACCOUNT_PATH) jws) as [[jwk request]|e] eqn:Ha;
    [|injection E as <- <-; by split].
  destruct (find_or_create b64 json sha256 jwk request (accounts st)) as [r0 store] eqn:Ef.
  destruct (find_or_create_spec b64 json sha256 jwk request (accounts st) r0 store Hok Hid Ef) as [Hok' Hf].
  apply authenticate_Ok in Ha as (Hu & Hj & _ & (key & sig & Hk & Hsg & Hv) & Hq).
  pose proof Hr as (Hp & Halg & Hh & _)%request_nonce_Ok.
  injection E as Er <-. cbn [accounts nonces issued]. split; [done|]. intros response ->.
  destruct r0 as [[account created]|]; [|done]. destruct (header_value_ok _); [|done]. injection Er as <-.
  destruct (Hf account created eq_refl) as [Hl Hcase].
  exists jws, nonce, deadline, jwk, key, sig, request, account.
  split_and!; try done; [by eapply find_by_id_ok| |].
  - destruct Hcase as [[-> ->]|(-> & ? & ? & ? & ? & ?)]; [by left|right]. by split_and!.
  - intros later st''. apply (serves_without_refused b64 json sha256 p from_affine header_value_ok nonce _ st'' later
      content_type body jws Hr). cbn. apply lookup_delete_eq.
Qed.

(** ** Examples *)

(** Stand-ins for the crates: an encoding that leaves bytes as they are, and a deserializer that
    only knows the sample request. *)
Definition plain_b64 : Base64 := MkBase64 String.string_of_list_byte (fun s => Some (String.list_byte_of_string s)).
Definition sample_fill (n : nat) : option (list byte) := Some (replicate 16 x61).
Definition sample_nonce : Nonce := "aaaaaaaaaaaaaaaa".
Definition sample_x : string := "0123456789abcdef0123456789abcdef".
Definition sample_jwk : Jwk := MkJwk "EC" "P-256" sample_x sample_x.
Definition sample_header : ProtectedHeader :=
  MkProtectedHeader ES256 (Some sample_nonce) (Some "https://ca/acme/new-account"%string) (Some sample_jwk) None.
Definition sample_request : NewAccountRequest := MkNewAccountRequest ["mailto:a"] true false.
Definition sample_json : Json :=
  MkJson (fun _ => Some (MkFlattenedJws "h" "p" (sample_x +:+ sample_x))) (fun _ => Some sample_header)
    (fun _ => Some sample_request) (fun jwk => String.list_byte_of_string (jwk_x jwk +:+ jwk_y jwk)).

Lemma nonce_single_use_witness :
  exists j at_, (j < 1)%nat /\
    fst (nonce_run plain_b64 sample_fill (NonceStore_new 1) [CallIssue 0; CallConsume sample_nonce 5]) !! j =
      Some (Issued sample_nonce at_).
Proof.
  destruct (nonce_single_use plain_b64 sample_fill 1 [CallIssue 0; CallConsume sample_nonce 5] 1 sample_nonce 5)
    as (j & at_ & Hj & E & _); [done|by exists j, at_].
Defined.

(** The server at [https://ca] with one nonce issued, and its answer to the sample request. *)
Definition sample_state : AcmeState :=
  snd (on_nonces (issue plain_b64 sample_fill 0) (AcmeState_new (base_url "https://ca/"))).
Definition sample_answer : result AccountResponse AcmeError * AcmeState :=
  new_account plain_b64 sample_json id toy_p256 (fun x _ => Some x) (fun _ => true) 5
    (Some "Application/JOSE+json; charset=utf-8"%string) [] sample_state.

(** A nonce of another draw is issued in between. *)
Definition other_fill (n : nat) : option (list byte) := Some (replicate 16 x62).
Definition sample_later : AcmeState := snd (on_nonces (issue plain_b64 other_fill 5) (snd sample_answer)).

Lemma new_account_authenticated_witness :
  exists response, fst sample_answer = Ok response /\ resp_status response = 201 /\
    new_account plain_b64 sample_json id toy_p256 (fun x _ => Some x) (fun _ => true) 6
      (Some "Application/JOSE+json; charset=utf-8"%string) [] sample_later = (Err BadNonce, sample_later).
Proof.
  destruct (new_account_authenticated plain_b64 sample_json id toy_p256 (fun x _ => Some x) (fun _ => true) 5
    (Some "Application/JOSE+json; charset=utf-8"%string) [] sample_state (snd sample_answer) (fst sample_answer))
    as [_ H].
  - apply account_store_ok_new.
  - done.
  - apply surjective_pairing.
  - eexists. split; [by vm_compute|]. split; [done|].
    edestruct H as (? & nonce & ? & ? & ? & ? & ? & ? & Hp & _ & Hn & _ & _ & _ & _ & _ & _ & _ & _ & _ & _ & _ & _ & _ & R);
      [by vm_compute|]. apply R. vm_compute in Hp. injection Hp as <-. vm_compute in Hn. injection Hn as <-.
    eapply rtc_once, (serves_nonce _ _ _ _ _ _ _ other_fill 5 "bbbbbbbbbbbbbbbb"%string); [|discriminate].
    apply injective_projections; vm_compute; reflexivity.
Defined.

(** With the same draw, the nonce is issued again, and the request is served again. *)
Example reissued_nonce_served :
  let again := snd (on_nonces (issue plain_b64 sample_fill 5) (snd sample_answer)) in
  (resp_status <$> ok (fst (new_account plain_b64 sample_json id toy_p256 (fun x _ => Some x) (fun _ => true) 6
      (Some "Application/JOSE+json; charset=utf-8"%string) [] again))) = Some 200.
Proof. vm_compute. reflexivity. Qed.
