(* ===== verification/ParseInt.v ===== *)
(** * Parsing what the program reads from its environment

    [str::parse] at an unsigned type and [str::to_ascii_lowercase], with the error texts the program
    reports; parsing inverts [format!("{n}")]. *)

From Stdlib Require Import Ascii.
From stdpp Require Import pretty.
From S2P Require Import Prelude Format.

Local Open Scope mtc_scope.
Local Open Scope Z_scope.

(** [IntErrorKind]. *)
Inductive IntErrorKind : Type := IntEmpty | InvalidDigit | PosOverflow | NegOverflow.

(** [ParseIntError]'s text. *)
Definition int_error_text (e : IntErrorKind) : string :=
  match e with
  | IntEmpty => "cannot parse integer from empty string"
  | InvalidDigit => "invalid digit found in string"
  | PosOverflow => "number too large to fit in target type"
  | NegOverflow => "number too small to fit in target type"
  end.

Definition digit_value (c : ascii) : option Z :=
  if is_digit c then Some (Z.of_N (Ascii.N_of_ascii c) - 48) else None.

(** The digits at width [w]: a digit is recognised before the product's overflow is reported. *)
Fixpoint parse_digits (w acc : Z) (s : string) : result Z IntErrorKind :=
  match s with
  | EmptyString => Ok acc
  | String c s' =>
      let mul := checked_mul w acc 10 in
      let? x := ok_or (digit_value c) InvalidDigit in
      let? m := ok_or mul PosOverflow in
      let? sum := ok_or (checked_add w m x) PosOverflow in
      parse_digits w sum s'
  end.

(** [s.parse::<uN>()]: one leading plus sign is allowed. *)
Definition parse_uint (w : Z) (s : string) : result Z IntErrorKind :=
  match s with
  | EmptyString => Err IntEmpty
  | String c EmptyString => if decide (c = "+"%char) then Err InvalidDigit else parse_digits w 0 s
  | String c s' => if decide (c = "+"%char) then parse_digits w 0 s' else parse_digits w 0 s
  end.

(** The digits of an [i64], added or subtracted one by one; [sign] is [1] or [-1]. *)
Definition in_i64 (z : Z) : Prop := - 2 ^ 63 <= z < 2 ^ 63.
Definition i64_checked (z : Z) : option Z := if (- 2 ^ 63 <=? z) && (z <? 2 ^ 63) then Some z else None.
Fixpoint parse_i64_digits (sign acc : Z) (s : string) : result Z IntErrorKind :=
  match s with
  | EmptyString => Ok acc
  | String c s' =>
      let overflow := if sign <? 0 then NegOverflow else PosOverflow in
      let mul := i64_checked (acc * 10) in
      let? x := ok_or (digit_value c) InvalidDigit in
      let? m := ok_or mul overflow in
      let? sum := ok_or (i64_checked (m + sign * x)) overflow in
      parse_i64_digits sign sum s'
  end.

(** [s.parse::<i64>()]. *)
Definition parse_i64 (s : string) : result Z IntErrorKind :=
  match s with
  | EmptyString => Err IntEmpty
  | String c EmptyString =>
      if decide (c = "+"%char \/ c = "-"%char) then Err InvalidDigit else parse_i64_digits 1 0 s
  | String c s' =>
      if decide (c = "+"%char) then parse_i64_digits 1 0 s'
      else if decide (c = "-"%char) then parse_i64_digits (-1) 0 s'
      else parse_i64_digits 1 0 s
  end.

(** [i64::to_string]. *)
Definition decimal_i64 (z : Z) : string := if z <? 0 then String "-"%char (decimal (- z)) else decimal z.

(** [to_ascii_lowercase]. *)
Definition ascii_lower (c : ascii) : ascii :=
  let n := Ascii.N_of_ascii c in
  if ((65 <=? n)%N && (n <=? 90)%N)%bool then Ascii.ascii_of_N (n + 32) else c.
Fixpoint to_ascii_lowercase (s : string) : string :=
  match s with EmptyString => EmptyString | String c s' => String (ascii_lower c) (to_ascii_lowercase s') end.

(** ** What parsing accepts *)

Lemma digit_value_range c x : digit_value c = Some x -> 0 <= x <= 9.
Proof.
  unfold digit_value, is_digit. destruct (_ && _)%bool eqn:E; [|done]. intros [= <-].
  apply andb_true_iff in E as [?%N.leb_le ?%N.leb_le]. lia.
Qed.

Lemma digits_value_mono s acc : 0 <= acc -> all_digits s -> acc <= digits_value acc s.
Proof.
  revert acc. induction s as [|c s IH]; intros acc Ha; simpl; [lia|]. intros [Hc Hs].
  pose proof (digit_value_range c (Z.of_N (Ascii.N_of_ascii c) - 48)) as Hr.
  unfold digit_value in Hr. rewrite Hc in Hr. specialize (Hr eq_refl).
  etransitivity; [|apply IH; [lia|done]]. lia.
Qed.

(** Digits whose value fits are parsed to that value. *)
Lemma parse_digits_value w s acc :
  0 <= acc -> all_digits s -> digits_value acc s < 2 ^ w -> parse_digits w acc s = Ok (digits_value acc s).
Proof.
  revert acc. induction s as [|c s IH]; intros acc Ha; simpl; [done|]. intros [Hc Hs] Hw.
  pose proof (digit_value_range c (Z.of_N (Ascii.N_of_ascii c) - 48)) as Hr.
  unfold digit_value in *. rewrite Hc in *. specialize (Hr eq_refl). simpl.
  pose proof (digits_value_mono s (acc * 10 + (Z.of_N (Ascii.N_of_ascii c) - 48)) ltac:(lia) Hs).
  unfold checked_mul, checked_add. destruct (Z.ltb_spec (acc * 10) (2 ^ w)); [|lia]. simpl.
  destruct (Z.ltb_spec (acc * 10 + (Z.of_N (Ascii.N_of_ascii c) - 48)) (2 ^ w)); [|lia]. simpl.
  by apply IH; [lia| |].
Qed.

(** What is parsed is within the width. *)
Lemma parse_digits_bound w s acc n :
  0 <= acc < 2 ^ w -> parse_digits w acc s = Ok n -> 0 <= n < 2 ^ w.
Proof.
  revert acc. induction s as [|c s IH]; intros acc Ha; simpl; [by intros [= <-]|].
  destruct (digit_value c) as [x|] eqn:Ex; [|done]. apply digit_value_range in Ex. simpl.
  unfold checked_mul, checked_add. destruct (Z.ltb_spec (acc * 10) (2 ^ w)); [|done]. simpl.
  destruct (Z.ltb_spec (acc * 10 + x) (2 ^ w)); [|done]. simpl. apply IH. lia.
Qed.

Lemma parse_uint_bound w s n : 0 <= w -> parse_uint w s = Ok n -> 0 <= n < 2 ^ w.
Proof.
  intros Hw. assert (0 <= 0 < 2 ^ w) by (split; [done|by apply Z.pow_pos_nonneg]).
  unfold parse_uint. destruct s as [|c [|c' s]]; [done| |];
    case_decide; try done; intros Hp; by eapply parse_digits_bound.
Qed.

Lemma digits_not_empty n : decimal n <> ""%string.
Proof.
  unfold decimal, pretty, pretty_N. case_decide as H0; [done|].
  intros E. pose proof (digits_value_decimal (Z.of_N (Z.to_N n)) ltac:(lia)) as Hd.
  unfold decimal, pretty, pretty_N in Hd. rewrite N2Z.id in Hd. rewrite decide_False in Hd by done.
  rewrite E in Hd. simpl in Hd. lia.
Qed.

(** A number is parsed back from its decimal form. *)
Lemma parse_uint_decimal w n : 0 <= n < 2 ^ w -> parse_uint w (decimal n) = Ok n.
Proof.
  intros Hn. pose proof (all_digits_decimal n) as Hd. pose proof (digits_value_decimal n ltac:(lia)) as Hv.
  assert (parse_digits w 0 (decimal n) = Ok n) as Hp.
  { rewrite parse_digits_value; rewrite ?Hv; [done|lia|done|lia]. }
  pose proof (digits_not_empty n). unfold parse_uint.
  destruct (decimal n) as [|c [|c' s]]; [done| |];
    (case_decide; [|done]); subst c; by destruct Hd as [Hd _].
Qed.

(** ** Signed numbers *)

Lemma i64_checked_Some z : in_i64 z -> i64_checked z = Some z.
Proof.
  intros [H1 H2]. unfold i64_checked. by rewrite (proj2 (Z.leb_le _ _) H1), (proj2 (Z.ltb_lt _ _) H2).
Qed.

Lemma parse_i64_digits_value sign s acc :
  sign = 1 \/ sign = -1 -> 0 <= acc -> all_digits s -> in_i64 (sign * digits_value acc s) ->
  parse_i64_digits sign (sign * acc) s = Ok (sign * digits_value acc s).
Proof.
  intros Hsign. revert acc. induction s as [|c s IH]; intros acc Ha; simpl; [done|]. intros [Hc Hs] Hw.
  pose proof (digit_value_range c (Z.of_N (Ascii.N_of_ascii c) - 48)) as Hr.
  unfold digit_value in *. rewrite Hc in *. specialize (Hr eq_refl). simpl.
  set (x := Z.of_N (Ascii.N_of_ascii c) - 48) in *.
  pose proof (digits_value_mono s (acc * 10 + x) ltac:(lia) Hs) as Hm.
  assert (in_i64 (sign * acc * 10)) as H1 by (unfold in_i64 in *; destruct Hsign; subst sign; lia).
  rewrite (i64_checked_Some _ H1). simpl.
  replace (sign * acc * 10 + sign * x) with (sign * (acc * 10 + x)) by ring.
  rewrite i64_checked_Some by (unfold in_i64 in *; destruct Hsign; subst sign; lia). simpl.
  by apply IH; [lia| |].
Qed.

(** A number is parsed back from its decimal form. *)
Lemma parse_i64_decimal z : in_i64 z -> parse_i64 (decimal_i64 z) = Ok z.
Proof.
  intros Hz. unfold decimal_i64. destruct (Z.ltb_spec z 0) as [Hn|Hn].
  - pose proof (all_digits_decimal (- z)) as Hd. pose proof (digits_value_decimal (- z) ltac:(lia)) as Hv.
    pose proof (digits_not_empty (- z)) as Hne.
    assert (parse_i64_digits (-1) 0 (decimal (- z)) = Ok z) as Hp.
    { pose proof (parse_i64_digits_value (-1) (decimal (- z)) 0) as H. rewrite Hv in H.
      replace (-1 * - z) with z in H by ring. apply H; [by right|done|done|done]. }
    unfold parse_i64. destruct (decimal (- z)) as [|c s]; [done|]. done.
  - pose proof (all_digits_decimal z) as Hd. pose proof (digits_value_decimal z Hn) as Hv.
    assert (parse_i64_digits 1 0 (decimal z) = Ok z) as Hp.
    { pose proof (parse_i64_digits_value 1 (decimal z) 0) as H. rewrite Hv in H.
      replace (1 * z) with z in H by ring. apply H; [by left|done|done|done]. }
    pose proof (digits_not_empty z). unfold parse_i64. destruct (decimal z) as [|c [|c' s]]; [done| |];
      destruct Hd as [Hd _]; repeat case_decide; try done; naive_solver.
Qed.

Lemma decimal_i64_avoids c z : is_digit c = false -> c <> "-"%char -> avoids c (decimal_i64 z).
Proof.
  intros Hc Hm. unfold decimal_i64.
  destruct (z <? 0); simpl; [split; [congruence|]|]; by apply all_digits_avoid, all_digits_decimal.
Qed.
