(* ===== verification/Replicator.v ===== *)
(** * The development replicator: [crates/dev-replicator/src/]

    Lag scheduling ([lag.rs]), the replication of an S3 bucket version by version ([s3.rs]) and of a
    DynamoDB table by scan-diff with last-writer-wins ([ddb.rs]). The SDK clients are parameters: a
    call is a function of a world that answers and changes; reading the clock is one too. A listing's
    loop has no bound of its own and takes fuel. *)

From stdpp Require Import gmap.
From S2P Require Import Prelude Time.

Local Open Scope mtc_scope.
Local Open Scope Z_scope.

(** ** Lag scheduling ([lag.rs]) *)

(** [LagPolicy]. *)
Inductive LagPolicy : Type := Fixed (lag : Z) | Stalled.
Definition immediate : LagPolicy := Fixed 0.

(** [now.duration_since(t).unwrap_or_default()]. *)
Definition age (now t : Z) : Z := Z.max 0 (now - t).

Section Lag.
Context {K E : Type} `{Countable K}.

(** [Discovered]. *)
Record Discovered : Type := MkDiscovered { disc_key : K; disc_event : E; disc_at : Z }.

(** [LagScheduler]. *)
Record LagScheduler : Type := MkLagScheduler {
  policy : LagPolicy;
  pending : list Discovered;
  applied : gset K
}.

(** [LagScheduler::new], [set_policy]. *)
Definition LagScheduler_new (p : LagPolicy) : LagScheduler := MkLagScheduler p [] ∅.
Definition set_policy (p : LagPolicy) (s : LagScheduler) : LagScheduler :=
  MkLagScheduler p (pending s) (applied s).

(** [discover]. *)
Definition discover (key : K) (event : E) (discovered_at : Z) (s : LagScheduler) : bool * LagScheduler :=
  if bool_decide (key ∈ applied s) then (false, s)
  else if existsb (fun d => bool_decide (disc_key d = key)) (pending s) then (false, s)
  else (true, MkLagScheduler (policy s) (pending s ++ [MkDiscovered key event discovered_at]) (applied s)).

(** The loop of [drain_due]: what is due, and what stays pending and applied. *)
Fixpoint drain_loop (lag now : Z) (pending : list Discovered) (applied : gset K) :
    list Discovered * (list Discovered * gset K) :=
  match pending with
  | [] => ([], ([], applied))
  | front :: rest =>
      if age now (disc_at front) <? lag then ([], (pending, applied))
      else let '(due, kept) := drain_loop lag now rest ({[disc_key front]} ∪ applied) in
           (front :: due, kept)
  end.

(** [drain_due]. *)
Definition drain_due (now : Z) (s : LagScheduler) : list Discovered * LagScheduler :=
  match policy s with
  | Stalled => ([], s)
  | Fixed lag =>
      let '(due, (pending', applied')) := drain_loop lag now (pending s) (applied s) in
      (due, MkLagScheduler (policy s) pending' applied')
  end.

(** [pending_len], [oldest_pending_age], [applied_len]. *)
Definition pending_len (s : LagScheduler) : Z := len (pending s).
Definition oldest_pending_age (now : Z) (s : LagScheduler) : option Z :=
  (fun d => age now (disc_at d)) <$> head (pending s).
Definition applied_len (s : LagScheduler) : Z := Z.of_nat (size (applied s)).
End Lag.
Arguments Discovered : clear implicits.
Arguments LagScheduler K E {_ _}.

(** ** Paginated listings

    The loop both pollers list their source with: a page, what it is folded into, and the marker the
    next page is asked for with. [None] is a loop still running when the fuel is spent; an error ends
    it and keeps what was folded so far. *)

Section Paging.
Context {W Marker Page Acc : Type}.
Context (fetch : option Marker -> M W string (Page * option Marker)) (step : Acc -> Page -> Acc).

Fixpoint paged (fuel : nat) (marker : option Marker) (acc : Acc) (w : W) : option (result unit string * Acc * W) :=
  match fuel with
  | O => None
  | S fuel' =>
      match fetch marker w with
      | (Err e, w') => Some (Err e, acc, w')
      | (Ok (page, next), w') =>
          match next with
          | None => Some (Ok tt, step acc page, w')
          | Some m => paged fuel' (Some m) (step acc page) w'
          end
      end
  end.
End Paging.

(** [ReplicatorError], the cases the pollers return. *)
Inductive ReplicatorError : Type :=
| S3Error (op detail : string)
| DdbError (op detail : string)
| BodyError (detail : string).

(** [ApplySummary], [attempted]. *)
Record ApplySummary : Type := MkApplySummary { sum_applied : Z; sum_stale : Z; sum_failed : Z }.
Definition attempted (s : ApplySummary) : Z := sum_applied s + sum_stale s + sum_failed s.
Definition ApplySummary_default : ApplySummary := MkApplySummary 0 0 0.

(** The arms of [apply_due]'s match: what an application adds to the summary. *)
Definition count_outcome (r : result bool ReplicatorError) (s : ApplySummary) : ApplySummary :=
  match r with
  | Ok true => MkApplySummary (sum_applied s + 1) (sum_stale s) (sum_failed s)
  | Ok false => MkApplySummary (sum_applied s) (sum_stale s + 1) (sum_failed s)
  | Err _ => MkApplySummary (sum_applied s) (sum_stale s) (sum_failed s + 1)
  end.

(** The loop of [apply_due]. *)
Fixpoint apply_all {W K E} (apply_one : E -> M W ReplicatorError bool) (due : list (Discovered K E))
    (summary : ApplySummary) (w : W) : ApplySummary * W :=
  match due with
  | [] => (summary, w)
  | item :: rest =>
      let '(r, w') := apply_one (disc_event item) w in
      apply_all apply_one rest (count_outcome r summary) w'
  end.

(** ** Buckets ([s3.rs]) *)

Definition S3Key : Type := (string * string)%type.

(** [S3VersionEvent]. *)
Record S3VersionEvent : Type := MkS3VersionEvent {
  object_key : string;
  version_id : string;
  is_delete_marker : bool
}.

(** [S3Poller], without its clients and clock. *)
Record S3Poller : Type := MkS3Poller { s3_scheduler : LagScheduler S3Key S3VersionEvent }.
Definition S3Poller_new (initial_lag : LagPolicy) : S3Poller := MkS3Poller (LagScheduler_new initial_lag).
Definition s3_lag_policy (p : S3Poller) : LagPolicy := policy (s3_scheduler p).
Definition s3_set_lag_policy (policy : LagPolicy) (p : S3Poller) : S3Poller :=
  MkS3Poller (set_policy policy (s3_scheduler p)).

(** A page of [list_object_versions]: the keys and version ids of its versions and delete markers.
    The marker is the pair of the next key and version id; [is_truncated] is that there is one. *)
Record VersionPage : Type := MkVersionPage {
  versions : list (option string * option string);
  delete_markers : list (option string * option string)
}.
Definition VersionMarker : Type := (option string * option string)%type.

(** The object as read from the source; the body may fail to download. The retention and the hold
    are what the source tells of them. *)
Record SourceObject : Type := MkSourceObject { content_type : option string; body : result (list byte) string }.
Record ObjectRetention : Type := MkObjectRetention { ret_mode : option string; retain_until_date : option Z }.
Record PutObject : Type := MkPutObject {
  put_key : string;
  put_body : list byte;
  put_content_type : option string;
  put_lock_mode : option string;
  put_retain_until : option Z;
  put_legal_hold : option string
}.

Section S3.
Context {W : Type} (clock_now : W -> Z * W).
Context (list_object_versions : option VersionMarker -> M W string (VersionPage * option VersionMarker)).
Context (get_object : string -> string -> M W string SourceObject).
Context (get_object_retention : string -> string -> M W string (option ObjectRetention)).
Context (get_object_legal_hold : string -> string -> M W string (option (option string))).
Context (put_object : PutObject -> M W string unit).
Context (delete_object : string -> M W string unit).

(** The bodies of the two loops over a page, which differ in the event's flag. *)
Definition discover_version (now : Z) (is_delete_marker : bool)
    (acc : LagScheduler S3Key S3VersionEvent * Z) (v : option string * option string) :
    LagScheduler S3Key S3VersionEvent * Z :=
  let '(s, queued) := acc in
  match v with
  | (Some key, Some id) =>
      let '(new, s') := discover (key, id) (MkS3VersionEvent key id is_delete_marker) now s in
      (s', if new then queued + 1 else queued)
  | _ => acc
  end.
Definition discover_page (now : Z) (acc : LagScheduler S3Key S3VersionEvent * Z) (page : VersionPage) :=
  fold_left (discover_version now true) (delete_markers page)
    (fold_left (discover_version now false) (versions page) acc).

(** [S3Poller::discover]. *)
Definition s3_discover (fuel : nat) (p : S3Poller) (w : W) : option (result Z ReplicatorError * S3Poller * W) :=
  let '(now, w) := clock_now w in
  match paged list_object_versions (discover_page now) fuel None (s3_scheduler p, 0) w with
  | None => None
  | Some (r, (s, queued), w') =>
      Some (match r with Ok _ => Ok queued | Err e => Err (S3Error "list_object_versions" e) end,
            MkS3Poller s, w')
  end.

(** [S3Poller::apply_one]; [true] stands for its [()]. *)
Definition s3_apply_one (event : S3VersionEvent) : M W ReplicatorError bool :=
  if is_delete_marker event then
    do! map_error (S3Error "delete_object") (delete_object (object_key event));
    ret true
  else
    let! get := map_error (S3Error "get_object") (get_object (object_key event) (version_id event)) in
    let! bytes := lift (map_err BodyError (body get)) in
    fun w =>
      let '(retention, w) := get_object_retention (object_key event) (version_id event) w in
      let '(legal_hold, w) := get_object_legal_hold (object_key event) (version_id event) w in
      let retention := mjoin (ok retention) in
      (do! map_error (S3Error "put_object") (put_object (MkPutObject
             (object_key event) bytes (content_type get)
             (retention ≫= ret_mode) (retention ≫= retain_until_date)
             (mjoin (mjoin (ok legal_hold)))));
       ret true) w.

(** [S3Poller::apply_due]. *)
Definition s3_apply_due (p : S3Poller) (w : W) : ApplySummary * S3Poller * W :=
  let '(now, w) := clock_now w in
  let '(due, s) := drain_due now (s3_scheduler p) in
  let '(summary, w') := apply_all s3_apply_one due ApplySummary_default w in
  (summary, MkS3Poller s, w').
End S3.

(** ** Tables ([ddb.rs]) *)

Definition PK_ATTR : string := "PK".
Definition SK_ATTR : string := "SK".
Definition TS_ATTR : string := "_dev_replicator_ts".

(** The SDK's attribute values: a string's value, a number, and the text an item is told apart by
    ([format!("{sorted:?}")]). *)
Record Attributes : Type := MkAttributes {
  AttributeValue : Type;
  as_s : AttributeValue -> option string;
  as_n : AttributeValue -> option Z;
  s_value : string -> AttributeValue;
  n_value : Z -> AttributeValue;
  fingerprint_of : gmap string AttributeValue -> string
}.

Section Ddb.
Context (attrs : Attributes).

Definition DdbKey : Type := (string * string * string)%type.

(** [DdbChange]. *)
Inductive DdbChange : Type :=
| Upsert (pk sk : string) (item : gmap string (AttributeValue attrs))
| DeleteItem (pk sk : string).

Abbreviation Scheduler := (LagScheduler DdbKey DdbChange).

(** [DdbPoller], without its clients and clock. *)
Record DdbPoller : Type := MkDdbPoller {
  scheduler : Scheduler;
  known_live_keys : gset (string * string)
}.
Definition DdbPoller_new (initial_lag : LagPolicy) : DdbPoller :=
  MkDdbPoller (LagScheduler_new initial_lag) ∅.

(** [ts_attr_value]. *)
Definition ts_millis (now : Z) : Z := as_millis (Z.max 0 now).
Definition ts_attr_value (now : Z) : AttributeValue attrs := n_value attrs (ts_millis now).

(** [extract_key]. *)
Definition extract_key (item : gmap string (AttributeValue attrs)) : option (string * string) :=
  pk ← (item !! PK_ATTR ≫= as_s attrs);
  sk ← (item !! SK_ATTR ≫= as_s attrs);
  Some (pk, sk).

(** The body of [discover]'s loop over a page's items, with the keys seen and the count so far. *)
Definition discover_item (now : Z) (acc : Scheduler * gset (string * string) * Z)
    (item : gmap string (AttributeValue attrs)) : Scheduler * gset (string * string) * Z :=
  let '(s, current, queued) := acc in
  match extract_key item with
  | None => acc
  | Some (pk, sk) =>
      let '(new, s') := discover (pk, sk, fingerprint_of attrs item) (Upsert pk sk item) now s in
      (s', {[(pk, sk)]} ∪ current, if new then queued + 1 else queued)
  end.

(** The body of its loop over the keys that vanished. *)
Definition deleted_fingerprint : string := String (Ascii.ascii_of_nat 0) "deleted".
Definition discover_vanished (now : Z) (acc : Scheduler * Z) (key : string * string) : Scheduler * Z :=
  let '(s, queued) := acc in
  let '(pk, sk) := key in
  let '(new, s') := discover (pk, sk, deleted_fingerprint) (DeleteItem pk sk) now s in
  (s', if new then queued + 1 else queued).

(** [DdbPoller::discover]: a scan's page holds items, its marker is the last evaluated key. The
    order the vanished keys are visited in is the hash set's. *)
Section Discover.
Context {W : Type} (clock_now : W -> Z * W).
Context (scan : option (gmap string (AttributeValue attrs)) ->
  M W string (list (gmap string (AttributeValue attrs)) * option (gmap string (AttributeValue attrs)))).

Definition ddb_discover (fuel : nat) (p : DdbPoller) (w : W) : option (result Z ReplicatorError * DdbPoller * W) :=
  let '(now, w) := clock_now w in
  match paged scan (fun acc items => fold_left (discover_item now) items acc) fuel None (scheduler p, ∅, 0) w with
  | None => None
  | Some (Err e, (s, _, _), w') => Some (Err (DdbError "scan" e), MkDdbPoller s (known_live_keys p), w')
  | Some (Ok _, (s, current, queued), w') =>
      let vanished := elements (known_live_keys p ∖ current) in
      let '(s', queued') := fold_left (discover_vanished now) vanished (s, queued) in
      Some (Ok queued', MkDdbPoller s' current, w')
  end.
End Discover.

(** ** Writing to the target *)

Definition LWW_CONDITION : string := "attribute_not_exists(#ts) OR #ts < :ts".

(** A conditional write: [PutItem] or [DeleteItem] with its condition expression, the attribute
    [#ts] names and the value of [:ts]. *)
Inductive WriteAction : Type :=
| PutItem (item : gmap string (AttributeValue attrs))
| DeleteKey (pk sk : string).
Record WriteRequest : Type := MkWriteRequest {
  action : WriteAction;
  condition_expression : string;
  ts_name : string;
  ts_value : AttributeValue attrs
}.
Inductive WriteError : Type := ConditionalCheckFailed | ServiceFailure (message : string).

Section Target.
Context {W : Type} (clock_now : W -> Z * W) (send : WriteRequest -> M W WriteError unit).

(** [DdbPoller::apply_one]. *)
Definition ddb_apply_one (applied_at : Z) (event : DdbChange) : M W ReplicatorError bool := fun w =>
  let ts := ts_attr_value applied_at in
  match event with
  | Upsert _ _ item =>
      let full_item := <[TS_ATTR := ts]> item in
      match send (MkWriteRequest (PutItem full_item) LWW_CONDITION TS_ATTR ts) w with
      | (Ok _, w') => (Ok true, w')
      | (Err ConditionalCheckFailed, w') => (Ok false, w')
      | (Err (ServiceFailure m), w') => (Err (DdbError "put_item" m), w')
      end
  | DeleteItem pk sk =>
      match send (MkWriteRequest (DeleteKey pk sk) LWW_CONDITION TS_ATTR ts) w with
      | (Ok _, w') => (Ok true, w')
      | (Err ConditionalCheckFailed, w') => (Ok false, w')
      | (Err (ServiceFailure m), w') => (Err (DdbError "delete_item" m), w')
      end
  end.

(** [DdbPoller::apply_due]. *)
Definition ddb_apply_due (p : DdbPoller) (w : W) : ApplySummary * DdbPoller * W :=
  let '(now, w) := clock_now w in
  let '(due, s) := drain_due now (scheduler p) in
  let '(summary, w') := apply_all (ddb_apply_one now) due ApplySummary_default w in
  (summary, MkDdbPoller s (known_live_keys p), w').
End Target.

(** [DdbPoller::lag_policy], [set_lag_policy]. *)
Definition ddb_lag_policy (p : DdbPoller) : LagPolicy := policy (scheduler p).
Definition ddb_set_lag_policy (policy : LagPolicy) (p : DdbPoller) : DdbPoller :=
  MkDdbPoller (set_policy policy (scheduler p)) (known_live_keys p).
End Ddb.
