(* ===== verification/ReplicatorFacts.v ===== *)
(** * Correctness of the development replicator

    The scheduler releases every change it accepted once, in discovery order and not before its lag;
    what one pass of writes does to a target that decides the last-writer-wins condition. *)

From stdpp Require Import gmap.
From S2P Require Import Prelude Time Replicator.

Local Open Scope mtc_scope.
Local Open Scope Z_scope.

(** ** The scheduler *)

Section Lag.
Context {K E : Type} `{Countable K}.
Implicit Types (s : LagScheduler K E) (d : Discovered K E).

(** The calls of a link's owner. *)
Inductive LagCall : Type :=
| CallDiscover (key : K) (event : E) (at_ : Z)
| CallSetPolicy (p : LagPolicy)
| CallDrain (now : Z).

(** What a call drains, with the policy and the instant it drains at. *)
Definition lag_call s (c : LagCall) : list (LagPolicy * Z * Discovered K E) * LagScheduler K E :=
  match c with
  | CallDiscover key event at_ => ([], (discover key event at_ s).2)
  | CallSetPolicy p => ([], set_policy p s)
  | CallDrain now =>
      let '(due, s') := drain_due now s in (map (fun d => (policy s, now, d)) due, s')
  end.

Fixpoint lag_run s (calls : list LagCall) : list (LagPolicy * Z * Discovered K E) * LagScheduler K E :=
  match calls with
  | [] => ([], s)
  | c :: rest =>
      let '(out, s') := lag_call s c in
      let '(outs, s'') := lag_run s' rest in (out ++ outs, s'')
  end.

(** The first discovery of each key, in order: what no policy and no clock can change. *)
Definition first_discovery (found : list (Discovered K E)) (c : LagCall) : list (Discovered K E) :=
  match c with
  | CallDiscover key event at_ =>
      if existsb (fun d => bool_decide (disc_key d = key)) found then found
      else found ++ [MkDiscovered key event at_]
  | _ => found
  end.
Definition first_discoveries (calls : list LagCall) : list (Discovered K E) :=
  fold_left first_discovery calls [].

(** A drained change was due under the policy in force. *)
Definition released_in_time (r : LagPolicy * Z * Discovered K E) : Prop :=
  let '(p, now, d) := r in exists lag, p = Fixed lag /\ lag <= age now (disc_at d).

Lemma existsb_key (key : K) (l : list (Discovered K E)) :
  existsb (fun d => bool_decide (disc_key d = key)) l = true <-> key ∈ map disc_key l.
Proof.
  change (map disc_key l) with (disc_key <$> l).
  rewrite existsb_exists, list_elem_of_fmap. setoid_rewrite bool_decide_eq_true.
  setoid_rewrite <- list_elem_of_In. naive_solver.
Qed.

Lemma drain_loop_spec lag now pend appl due pend' appl' :
  drain_loop (E := E) lag now pend appl = (due, (pend', appl')) ->
  pend = due ++ pend' /\
  appl' = list_to_set (map disc_key due) ∪ appl /\
  Forall (fun d => lag <= age now (disc_at d)) due /\
  forall d, head pend' = Some d -> age now (disc_at d) < lag.
Proof.
  revert appl due. induction pend as [|d pend IH]; intros appl due; simpl.
  { intros [= <- <- <-]. split_and!; [done|set_solver|done|done]. }
  destruct (Z.ltb_spec (age now (disc_at d)) lag).
  { intros [= <- <- <-]. split_and!; [done|set_solver|done|]. by intros ? [= <-]. }
  destruct (drain_loop lag now pend _) as [due0 k] eqn:El. intros [= <- ->].
  destruct (IH _ _ El) as (-> & -> & Hd & Hh). split_and!; [done|set_solver|by constructor|done].
Qed.

Lemma drain_due_spec now s due s' :
  drain_due now s = (due, s') ->
  policy s' = policy s /\ pending s = due ++ pending s' /\
  applied s' = list_to_set (map disc_key due) ∪ applied s /\
  Forall (fun d => released_in_time (policy s, now, d)) due /\
  forall lag d, policy s = Fixed lag -> head (pending s') = Some d -> age now (disc_at d) < lag.
Proof.
  unfold drain_due. destruct (policy s) as [lag|] eqn:Ep.
  - destruct (drain_loop _ _ _ _) as [due0 [pend' appl']] eqn:El. intros [= <- <-].
    destruct (drain_loop_spec _ _ _ _ _ _ _ El) as (? & ? & Hd & Hh). split_and!; try done.
    + eapply Forall_impl; [exact Hd|]. intros d Hd'. by exists lag.
    + by intros ? d [= <-] ?; apply Hh.
  - intros [= <- <-]. split_and!; [done|done|set_solver|done|done].
Qed.

(** The state after any calls: what was drained and what is pending are the first discoveries. *)
Definition lag_ok (found : list (Discovered K E)) (out : list (LagPolicy * Z * Discovered K E)) s : Prop :=
  map snd out ++ pending s = found /\
  applied s = list_to_set (map (fun r => disc_key r.2) out) /\
  NoDup (map disc_key found) /\
  Forall released_in_time out.

Lemma map_tag (p : LagPolicy) (now : Z) (l : list (Discovered K E)) :
  map snd (map (fun d => (p, now, d)) l) = l /\
  map (fun r => disc_key r.2) (map (fun d => (p, now, d)) l) = map disc_key l.
Proof. rewrite !map_map. by rewrite map_id. Qed.

Lemma lag_call_ok found out s c :
  lag_ok found out s ->
  lag_ok (first_discovery found c) (out ++ (lag_call s c).1) (lag_call s c).2.
Proof.
  intros (Hf & Ha & Hn & Ht). destruct c as [key event at_|p|now]; simpl.
  - rewrite app_nil_r. unfold discover. rewrite <- Hf, existsb_app.
    case_bool_decide as Hk.
    + replace (existsb _ (map snd out)) with true; [by split_and!; rewrite ?Hf|]. symmetry.
      apply existsb_key. rewrite map_map. rewrite Ha in Hk. by apply elem_of_list_to_set in Hk.
    + destruct (existsb _ (map snd out)) eqn:Eo.
      { exfalso. apply existsb_key in Eo. rewrite map_map in Eo. apply Hk. rewrite Ha.
        by apply elem_of_list_to_set. }
      destruct (existsb _ (pending s)) eqn:Ep; simpl; [by split_and!; rewrite ?Hf|].
      unfold lag_ok; simpl. split_and!; [by rewrite <- app_assoc|done| |done].
      rewrite map_app. apply NoDup_app. rewrite Hf. split_and!; [done| |apply NoDup_singleton].
      intros k Hk' Heq%list_elem_of_singleton. subst k. rewrite <- Hf, map_app in Hk'.
      apply elem_of_app in Hk' as [Hk'|Hk']; apply existsb_key in Hk'; simpl in Hk'; congruence.
  - rewrite app_nil_r. by split_and!.
  - destruct (drain_due now s) as [due s'] eqn:Ed. simpl.
    destruct (drain_due_spec _ _ _ _ Ed) as (_ & Hp & Ha' & Ht' & _).
    destruct (map_tag (policy s) now due) as [Hm1 Hm2].
    unfold lag_ok. rewrite !map_app, Hm1, Hm2. split_and!.
    + by rewrite <- Hf, Hp, app_assoc.
    + rewrite Ha', Ha, list_to_set_app_L. set_solver.
    + done.
    + apply Forall_app. split; [done|]. by apply Forall_map.
Qed.

Lemma lag_run_ok calls found out s :
  lag_ok found out s ->
  lag_ok (fold_left first_discovery calls found) (out ++ (lag_run s calls).1) (lag_run s calls).2.
Proof.
  revert found out s. induction calls as [|c calls IH]; intros found out s Hok; simpl.
  { by rewrite app_nil_r. }
  apply (lag_call_ok _ _ _ c) in Hok. destruct (lag_call s c) as [o s'] eqn:Ec. simpl in Hok.
  apply IH in Hok. destruct (lag_run s' calls) as [os s'']. simpl in *. by rewrite app_assoc.
Qed.

Lemma lag_new_ok p : lag_ok [] [] (LagScheduler_new p).
Proof. split_and!; try done; constructor. Qed.

(** C32. Whatever is discovered, however the policy changes and whenever the scheduler is drained: the
    changes drained so far followed by those pending are the first discovery of each key, in
    discovery order, so no key is released twice and none is lost or overtaken; each was released
    under a fixed lag no longer than its age; exactly the drained keys are marked as applied; and
    once the policy is a fixed lag that every pending change has outlived, one drain releases them
    all. *)
Theorem lag_scheduler_once (p : LagPolicy) (calls : list LagCall) :
  let '(out, s) := lag_run (LagScheduler_new p) calls in
  map snd out ++ pending s = first_discoveries calls /\
  NoDup (map disc_key (first_discoveries calls)) /\
  applied s = list_to_set (map (fun r => disc_key r.2) out) /\
  Forall released_in_time out /\
  forall lag now, Forall (fun d => lag <= age now (disc_at d)) (pending s) ->
    (drain_due now (set_policy (Fixed lag) s)).1 = pending s.
Proof.
  pose proof (lag_run_ok calls [] [] _ (lag_new_ok p)) as Hok. simpl in Hok.
  destruct (lag_run (LagScheduler_new p) calls) as [out s].
  destruct Hok as (Hf & Ha & Hn & Ht). split_and!; try done.
  intros lag now Hp. destruct (drain_due now _) as [due s'] eqn:Ed.
  destruct (drain_due_spec _ _ _ _ Ed) as (_ & Hs & _ & _ & Hh). simpl in *.
  destruct (pending s') as [|d rest]; [by rewrite app_nil_r in Hs|].
  specialize (Hh lag d eq_refl eq_refl). rewrite Hs in Hp.
  apply Forall_app in Hp as [_ Hp]. apply Forall_cons in Hp as [Hp _]. lia.
Qed.
End Lag.
Arguments LagCall : clear implicits.

(** ** Discovery *)

(** The pages a client answers a listing with, from a marker to the page without a next one. *)
Inductive Listing {W Marker Page : Type} (fetch : option Marker -> M W string (Page * option Marker)) :
    option Marker -> W -> list Page -> W -> Prop :=
| listing_last marker w page w' :
    fetch marker w = (Ok (page, None), w') -> Listing fetch marker w [page] w'
| listing_next marker w page next w' pages w'' :
    fetch marker w = (Ok (page, Some next), w') -> Listing fetch (Some next) w' pages w'' ->
    Listing fetch marker w (page :: pages) w''.

(** As much fuel as pages suffices for the loop to end with every page folded in. *)
Lemma paged_listing {W Marker Page Acc} (fetch : option Marker -> M W string (Page * option Marker))
    (step : Acc -> Page -> Acc) marker w pages w' fuel acc :
  Listing fetch marker w pages w' -> (length pages <= fuel)%nat ->
  paged fetch step fuel marker acc w = Some (Ok tt, fold_left step pages acc, w').
Proof.
  intros HL. revert fuel acc. induction HL as [marker w page w' Hf|marker w page next w' pages w'' Hf HL IH];
    intros [|fuel] acc Hl; simpl in *; try lia; rewrite Hf; [done|]. apply IH. lia.
Qed.

Section Offers.
Context {K E : Type} `{Countable K}.
Implicit Type s : LagScheduler K E.

(** The scheduler has heard of a key: it was released, or it waits. *)
Definition registered s (k : K) : Prop := k ∈ applied s \/ k ∈ map disc_key (pending s).

(** Offering a list of changes found at one instant, with the count of those queued so far. *)
Definition offer (now : Z) (acc : LagScheduler K E * Z) (o : K * E) : LagScheduler K E * Z :=
  let '(new, s') := discover o.1 o.2 now acc.1 in (s', if new then acc.2 + 1 else acc.2).

(** What an offer or several leave: new changes at the end of the queue, each counted, and the
    offered keys registered. *)
Definition offered now (l : list (K * E)) (acc acc' : LagScheduler K E * Z) : Prop :=
  policy acc'.1 = policy acc.1 /\ applied acc'.1 = applied acc.1 /\
  (exists new, pending acc'.1 = pending acc.1 ++ new /\ acc'.2 = acc.2 + len new /\
    Forall (fun d => disc_at d = now /\ (disc_key d, disc_event d) ∈ l) new) /\
  forall k, registered acc'.1 k <-> registered acc.1 k \/ k ∈ map fst l.

Lemma offer_offered now acc o : offered now [o] acc (offer now acc o).
Proof.
  destruct acc as [s n], o as [k e]. unfold offer, discover. simpl. assert (registered s k \/ ~ registered s k) as Hr.
  { unfold registered. destruct (decide (k ∈ applied s)), (decide (k ∈ map disc_key (pending s))); tauto. }
  case_bool_decide as Ha; [|destruct (existsb _ (pending s)) eqn:Ex].
  1,2: assert (registered s k) by (unfold registered; first [by left|right; by apply existsb_key]);
    split_and!; try done;
    [exists []; split_and!; simpl; [by rewrite app_nil_r|unfold len; simpl; lia|done]
    |intros k'; simpl; rewrite list_elem_of_singleton; naive_solver].
  split_and!; try done.
  - exists [MkDiscovered k e now]. split_and!; [done|done|]. repeat constructor.
  - intros k'. unfold registered. simpl. rewrite map_app, elem_of_app. simpl.
    rewrite !list_elem_of_singleton. tauto.
Qed.

Lemma offered_trans now l l' acc acc' acc'' :
  offered now l acc acc' -> offered now l' acc' acc'' -> offered now (l ++ l') acc acc''.
Proof.
  intros (Hp & Ha & (new & Hn & Hc & Hf) & Hr) (Hp' & Ha' & (new' & Hn' & Hc' & Hf') & Hr').
  split_and!; [congruence|congruence| |].
  - exists (new ++ new'). split_and!.
    + by rewrite Hn', Hn, app_assoc.
    + unfold len in *. rewrite length_app. lia.
    + apply Forall_app. split; (eapply Forall_impl; [eassumption|]); intros d [? ?]; (split; [done|]); set_solver.
  - intros k. rewrite Hr', Hr, map_app, elem_of_app. tauto.
Qed.

Lemma offered_nil now acc : offered now [] acc acc.
Proof.
  split_and!; try done.
  - exists []. split_and!; [by rewrite app_nil_r|unfold len; simpl; lia|done].
  - intros k. simpl. set_solver.
Qed.

Lemma offer_all_offered now l acc : offered now l acc (fold_left (offer now) l acc).
Proof.
  revert acc. induction l as [|o l IH]; intros acc; simpl; [apply offered_nil|].
  apply (offered_trans _ [o] l _ (offer now acc o)); [apply offer_offered|apply IH].
Qed.
End Offers.

Lemma fold_left_concat {A B} (f : A -> B -> A) (pages : list (list B)) acc :
  fold_left (fun acc page => fold_left f page acc) pages acc = fold_left f (concat pages) acc.
Proof. revert acc. induction pages as [|p pages IH]; intros acc; simpl; [done|]. by rewrite fold_left_app, IH. Qed.

(** Tables. *)
Section DdbDiscover.
Context (attrs : Attributes) {W : Type} (clock_now : W -> Z * W).
Context (scan : option (gmap string (AttributeValue attrs)) ->
  M W string (list (gmap string (AttributeValue attrs)) * option (gmap string (AttributeValue attrs)))).

(** What an item or a vanished key is offered as. *)
Definition upsert_of (item : gmap string (AttributeValue attrs)) : option (DdbKey * DdbChange attrs) :=
  (fun key => (key.1, key.2, fingerprint_of attrs item, Upsert attrs key.1 key.2 item)) <$> extract_key attrs item.
Definition deletion_of (key : string * string) : DdbKey * DdbChange attrs :=
  (key.1, key.2, deleted_fingerprint, DeleteItem attrs key.1 key.2).
Definition live_keys (items : list (gmap string (AttributeValue attrs))) : gset (string * string) :=
  list_to_set (omap (extract_key attrs) items).

Lemma discover_items_offers now items s current n :
  fold_left (discover_item attrs now) items (s, current, n) =
  let '(s', n') := fold_left (offer now) (omap upsert_of items) (s, n) in
  (s', live_keys items ∪ current, n').
Proof.
  revert s current n. unfold live_keys. induction items as [|item items IH]; intros s current n; simpl.
  { by rewrite union_empty_l_L. }
  pose proof (eq_refl (upsert_of item)) as Eu. unfold upsert_of in Eu at 2.
  destruct (extract_key attrs item) as [[pk sk]|]; rewrite Eu; simpl; [|apply IH].
  change (offer now (s, n) _) with
    (let '(new, s') := discover (pk, sk, fingerprint_of attrs item) (Upsert attrs pk sk item) now s in
     (s', if new then n + 1 else n)).
  destruct (discover (pk, sk, fingerprint_of attrs item) (Upsert attrs pk sk item) now s) as [new s'].
  rewrite IH. destruct (fold_left _ _ _) as [s'' n'']. f_equal. f_equal. set_solver.
Qed.

Lemma discover_vanished_offers now keys acc :
  fold_left (discover_vanished attrs now) keys acc = fold_left (offer now) (map deletion_of keys) acc.
Proof.
  revert acc. induction keys as [|[pk sk] keys IH]; intros [s n]; simpl; [done|]. rewrite IH. f_equal.
Qed.

(** What a queued change says of the listing. *)
Definition change_found (p : DdbPoller attrs) (items : list (gmap string (AttributeValue attrs)))
    (d : Discovered DdbKey (DdbChange attrs)) : Prop :=
  match disc_event d with
  | Upsert _ pk sk item =>
      item ∈ items /\ extract_key attrs item = Some (pk, sk) /\ disc_key d = (pk, sk, fingerprint_of attrs item)
  | DeleteItem _ pk sk =>
      (pk, sk) ∈ known_live_keys attrs p ∖ live_keys items /\ disc_key d = (pk, sk, deleted_fingerprint)
  end.

(** When the source answers a scan page by page, discovery terminates with as much fuel as pages.
    It leaves the keys of the scan as the live ones and appends to the queue, in one batch dated by the
    clock and counted by the result, only items of the scan and deletions of keys that vanished from
    it; afterwards every item's content and every vanished key is known to the scheduler: released
    before, or waiting. *)
Lemma ddb_discover_complete (p : DdbPoller attrs) fuel w now w1 pages w' :
  clock_now w = (now, w1) -> Listing scan None w1 pages w' -> (length pages <= fuel)%nat ->
  exists new p', ddb_discover attrs clock_now scan fuel p w = Some (Ok (len new), p', w') /\
    known_live_keys attrs p' = live_keys (concat pages) /\
    pending (scheduler attrs p') = pending (scheduler attrs p) ++ new /\
    applied (scheduler attrs p') = applied (scheduler attrs p) /\
    Forall (fun d => disc_at d = now /\ change_found p (concat pages) d) new /\
    (forall item pk sk, item ∈ concat pages -> extract_key attrs item = Some (pk, sk) ->
      registered (scheduler attrs p') (pk, sk, fingerprint_of attrs item)) /\
    (forall pk sk, (pk, sk) ∈ known_live_keys attrs p ∖ live_keys (concat pages) ->
      registered (scheduler attrs p') (pk, sk, deleted_fingerprint)).
Proof.
  intros Hc HL Hf. unfold ddb_discover. rewrite Hc, (paged_listing _ _ _ _ _ _ _ _ HL Hf).
  rewrite fold_left_concat, discover_items_offers. set (items := concat pages).
  pose proof (offer_all_offered now (omap upsert_of items) (scheduler attrs p, 0)) as H1.
  destruct (fold_left (offer now) _ _) as [s1 n1]. rewrite union_empty_r_L, discover_vanished_offers.
  set (gone := elements _).
  pose proof (offer_all_offered now (map deletion_of gone) (s1, n1)) as H2.
  destruct (fold_left (offer now) _ _) as [s2 n2].
  destruct (offered_trans _ _ _ _ _ _ H1 H2) as (_ & Ha & (new & Hn & Hcnt & Hnew) & Hr). simpl in *.
  exists new. eexists. split; [by rewrite Hcnt, Z.add_0_l|]. simpl. split_and!; try done.
  - eapply Forall_impl; [exact Hnew|]. intros d [Hat Hin]. split; [done|]. unfold change_found.
    apply elem_of_app in Hin as [Hin|Hin].
    + apply list_elem_of_omap in Hin as (item & Hi & Hu). unfold upsert_of in Hu.
      destruct (extract_key attrs item) as [[pk sk]|] eqn:Ek; [|done]. injection Hu as <- <-. done.
    + apply list_elem_of_fmap in Hin as ([pk sk] & [= -> ->] & Hg). split; [|done].
      by apply elem_of_elements in Hg.
  - intros item pk sk Hi Hk. apply Hr. right. rewrite map_app. apply elem_of_app. left.
    apply list_elem_of_fmap. exists (pk, sk, fingerprint_of attrs item, Upsert attrs pk sk item).
    split; [done|]. apply list_elem_of_omap. exists item. split; [done|]. unfold upsert_of. by rewrite Hk.
  - intros pk sk Hg. apply Hr. right. rewrite map_app. apply elem_of_app. right.
    apply list_elem_of_fmap. exists (deletion_of (pk, sk)). split; [done|].
    apply list_elem_of_fmap_2. by apply elem_of_elements.
Qed.
End DdbDiscover.

(** Buckets. *)
Section S3Discover.
Context {W : Type} (clock_now : W -> Z * W).
Context (list_object_versions : option VersionMarker -> M W string (VersionPage * option VersionMarker)).

(** What a version or a delete marker is offered as, and the offers of a page. *)
Definition version_of (is_delete_marker : bool) (v : option string * option string) : option (S3Key * S3VersionEvent) :=
  match v with
  | (Some key, Some id) => Some (key, id, MkS3VersionEvent key id is_delete_marker)
  | _ => None
  end.
Definition page_offers (page : VersionPage) : list (S3Key * S3VersionEvent) :=
  omap (version_of false) (versions page) ++ omap (version_of true) (delete_markers page).

Lemma discover_versions_offers now is_delete_marker vs acc :
  fold_left (discover_version now is_delete_marker) vs acc = fold_left (offer now) (omap (version_of is_delete_marker) vs) acc.
Proof.
  revert acc. induction vs as [|[[key|] [id|]] vs IH]; intros [s n]; simpl; try apply IH; done.
Qed.

Lemma discover_pages_offers now pages acc :
  fold_left (discover_page now) pages acc = fold_left (offer now) (concat (map page_offers pages)) acc.
Proof.
  revert acc. induction pages as [|page pages IH]; intros acc; simpl; [done|].
  rewrite IH, fold_left_app. f_equal. unfold discover_page, page_offers.
  by rewrite fold_left_app, !discover_versions_offers.
Qed.

(** The listing of a bucket likewise: every version and delete marker is released or waiting
    afterwards, and only those are queued. *)
Lemma s3_discover_complete (p : S3Poller) fuel w now w1 pages w' :
  clock_now w = (now, w1) -> Listing list_object_versions None w1 pages w' -> (length pages <= fuel)%nat ->
  exists new p', s3_discover clock_now list_object_versions fuel p w = Some (Ok (len new), p', w') /\
    pending (s3_scheduler p') = pending (s3_scheduler p) ++ new /\
    applied (s3_scheduler p') = applied (s3_scheduler p) /\
    Forall (fun d => disc_at d = now /\ (disc_key d, disc_event d) ∈ concat (map page_offers pages)) new /\
    forall k, registered (s3_scheduler p') k <->
      registered (s3_scheduler p) k \/ k ∈ map fst (concat (map page_offers pages)).
Proof.
  intros Hc HL Hf. unfold s3_discover. rewrite Hc, (paged_listing _ _ _ _ _ _ _ _ HL Hf), discover_pages_offers.
  pose proof (offer_all_offered now (concat (map page_offers pages)) (s3_scheduler p, 0)) as H1.
  destruct (fold_left (offer now) _ _) as [s1 n1].
  destruct H1 as (_ & Ha & (new & Hn & Hcnt & Hnew) & Hr). simpl in *.
  exists new. eexists. split; [by rewrite Hcnt, Z.add_0_l|]. by split_and!.
Qed.
End S3Discover.

(** ** One pass of writes *)

(** What DynamoDB documents for a conditional write: a target is a table of items by key, a write
    whose condition fails changes nothing, and the condition compares the number stored under the
    attribute it names. [n_value] is read back as the number it was made from. *)
Class LwwTarget (attrs : Attributes) {T : Type} (send : WriteRequest attrs -> M T WriteError unit) : Type := {
  stored : T -> gmap (string * string) (gmap string (AttributeValue attrs));
  as_n_value : forall n, as_n attrs (n_value attrs n) = Some n;
  blocked (t : T) (key : string * string) (name : string) (n : Z) : Prop :=
    exists item v m, stored t !! key = Some item /\ item !! name = Some v /\ as_n attrs v = Some m /\ n <= m;
  send_put : forall t item key name n,
    extract_key attrs item = Some key ->
    send (MkWriteRequest attrs (PutItem attrs item) LWW_CONDITION name (n_value attrs n)) t =
      (Err ConditionalCheckFailed, t) /\ blocked t key name n \/
    exists t', send (MkWriteRequest attrs (PutItem attrs item) LWW_CONDITION name (n_value attrs n)) t = (Ok tt, t') /\
      ~ blocked t key name n /\ stored t' = <[key := item]> (stored t);
  send_delete : forall t pk sk name n,
    send (MkWriteRequest attrs (DeleteKey attrs pk sk) LWW_CONDITION name (n_value attrs n)) t =
      (Err ConditionalCheckFailed, t) /\ blocked t (pk, sk) name n \/
    exists t', send (MkWriteRequest attrs (DeleteKey attrs pk sk) LWW_CONDITION name (n_value attrs n)) t = (Ok tt, t') /\
      ~ blocked t (pk, sk) name n /\ stored t' = delete (pk, sk) (stored t)
}.

Section Lww.
Context (attrs : Attributes) {T : Type} (send : WriteRequest attrs -> M T WriteError unit)
  {target : LwwTarget attrs send}.
Implicit Types before due after : list (Discovered DdbKey (DdbChange attrs)).

(** The key a change is about; an [Upsert] carries an item with that key. *)
Definition change_key (c : DdbChange attrs) : string * string :=
  match c with Upsert _ pk sk _ | DeleteItem _ pk sk => (pk, sk) end.
Definition change_ok (c : DdbChange attrs) : Prop :=
  match c with Upsert _ pk sk item => extract_key attrs item = Some (pk, sk) | _ => True end.

(** The timestamp leaves the key alone. *)
Lemma extract_key_stamped item v : extract_key attrs (<[TS_ATTR := v]> item) = extract_key attrs item.
Proof. unfold extract_key. by rewrite !lookup_insert_ne by done. Qed.

(** The target holds a version of the key stamped at [now] or later. *)
Definition stamped (now : Z) (t : T) (key : string * string) : Prop := blocked t key TS_ATTR (ts_millis now).

(** One change, on a target that answers as documented. *)
Lemma apply_one_spec c now t :
  change_ok c ->
  ddb_apply_one attrs send now c t = (Ok false, t) /\ stamped now t (change_key c) \/
  exists t', ddb_apply_one attrs send now c t = (Ok true, t') /\ ~ stamped now t (change_key c) /\
    stored t' = match c with
                | Upsert _ _ _ item => <[change_key c := <[TS_ATTR := ts_attr_value attrs now]> item]> (stored t)
                | DeleteItem _ _ _ => delete (change_key c) (stored t)
                end.
Proof.
  unfold ddb_apply_one, stamped, ts_attr_value. destruct c as [pk sk item|pk sk]; simpl; intros Hc.
  - rewrite <- (extract_key_stamped item (n_value attrs (ts_millis now))) in Hc.
    destruct (send_put t _ (pk, sk) TS_ATTR (ts_millis now) Hc) as [[-> ?]|(t' & -> & ? & ?)]; [by left|].
    right. by exists t'.
  - destruct (send_delete t pk sk TS_ATTR (ts_millis now)) as [[-> ?]|(t' & -> & ? & ?)]; [by left|].
    right. by exists t'.
Qed.

Lemma stamped_insert now t key item :
  stored t !! key = Some (<[TS_ATTR := ts_attr_value attrs now]> item) -> stamped now t key.
Proof.
  intros Hs. eexists _, _, _. split_and!; [exact Hs|apply lookup_insert_eq|apply as_n_value|done].
Qed.

(** Once a key is stamped, the rest of the pass cannot change it. *)
Lemma apply_all_stamped now due summary t key :
  Forall (fun d => change_ok (disc_event d)) due -> stamped now t key ->
  stored (apply_all (ddb_apply_one attrs send now) due summary t).2 !! key = stored t !! key.
Proof.
  intros Hok. revert summary t. induction Hok as [|d due Hd Hok IH]; intros summary t Ht; simpl; [done|].
  destruct (apply_one_spec (disc_event d) now t Hd) as [[-> _]|(t' & -> & Hn & Hs)]; [by apply IH|].
  assert (change_key (disc_event d) <> key) as Hk by (by intros <-).
  assert (stored t' !! key = stored t !! key) as Hl.
  { rewrite Hs. destruct (disc_event d); [by rewrite lookup_insert_ne|by rewrite lookup_delete_ne]. }
  rewrite IH; [done|]. destruct Ht as (item & v & m & ? & Hr). exists item, v, m. by rewrite Hl.
Qed.

Lemma apply_all_app now due after summary t :
  apply_all (ddb_apply_one attrs send now) (due ++ after) summary t =
  let '(summary', t') := apply_all (ddb_apply_one attrs send now) due summary t in apply_all (ddb_apply_one attrs send now) after summary' t'.
Proof.
  revert summary t. induction due as [|d due IH]; intros summary t; simpl; [done|].
  destruct (ddb_apply_one _ _ _ _ _). by rewrite IH.
Qed.

(** One pass stamps every write with the same instant, and the condition asks for a strictly later
    one: of the versions of a key that a pass applies in discovery order, the first that is written
    stays, and neither a later version nor the deletion that follows it reaches the target. *)
Lemma burst_keeps_first now pk sk item d before after summary t :
  let t1 := (apply_all (ddb_apply_one attrs send now) before summary t).2 in
  disc_event d = Upsert attrs pk sk item ->
  Forall (fun d => change_ok (disc_event d)) (d :: after) ->
  ~ stamped now t1 (pk, sk) ->
  stored (apply_all (ddb_apply_one attrs send now) (before ++ d :: after) summary t).2 !! (pk, sk) =
    Some (<[TS_ATTR := ts_attr_value attrs now]> item).
Proof.
  intros t1 Hd Hok Hn. rewrite apply_all_app. subst t1.
  destruct (apply_all (ddb_apply_one attrs send now) before summary t) as [summary1 t1]. simpl in *.
  apply Forall_cons in Hok as [Hc Hok].
  destruct (apply_one_spec (disc_event d) now t1 Hc) as [[_ Hs]|(t' & -> & _ & Hs)].
  { by rewrite Hd in Hs. }
  rewrite Hd in Hs. simpl in Hs.
  assert (stored t' !! (pk, sk) = Some (<[TS_ATTR := ts_attr_value attrs now]> item)) as Hl
    by (by rewrite Hs, lookup_insert_eq).
  rewrite apply_all_stamped; [done|done|]. by eapply stamped_insert.
Qed.

End Lww.

(** ** What a pass counts and forgets *)

Lemma apply_all_attempted {W K E} (apply_one : E -> M W ReplicatorError bool) (due : list (Discovered K E)) summary w :
  attempted (apply_all apply_one due summary w).1 = attempted summary + len due.
Proof.
  revert summary w. induction due as [|d due IH]; intros summary w; simpl.
  { unfold len. simpl. lia. }
  destruct (apply_one _ _) as [[[|]|] w']; rewrite IH; unfold attempted, len; simpl; lia.
Qed.

Lemma drained_not_rediscovered {K E} `{Countable K} now (s s' : LagScheduler K E) due d event at_ :
  drain_due now s = (due, s') -> d ∈ due -> discover (disc_key d) event at_ s' = (false, s').
Proof.
  intros Hd Hin. destruct (drain_due_spec _ _ _ _ Hd) as (_ & _ & Ha & _). unfold discover.
  rewrite bool_decide_true; [done|]. rewrite Ha. apply elem_of_union_l, elem_of_list_to_set.
  by apply (list_elem_of_fmap_2 disc_key).
Qed.

(** Whatever the target answered, the keys of a pass are marked as applied: no later pass offers
    them again, and discovering them again is a no-op. *)
Lemma s3_apply_due_never_retries {W} clock_now (get_object : _ -> _ -> M W string SourceObject)
    get_object_retention get_object_legal_hold put_object delete_object p w now w' d event at_ :
  clock_now w = (now, w') -> d ∈ (drain_due now (s3_scheduler p)).1 ->
  let '(summary, p', _) :=
    s3_apply_due clock_now get_object get_object_retention get_object_legal_hold put_object delete_object p w in
  attempted summary = len (drain_due now (s3_scheduler p)).1 /\
  discover (disc_key d) event at_ (s3_scheduler p') = (false, s3_scheduler p').
Proof.
  unfold s3_apply_due. intros -> Hd. destruct (drain_due now (s3_scheduler p)) as [due s] eqn:Ed.
  match goal with |- context [apply_all ?f ?l ?a ?x] => pose proof (apply_all_attempted f l a x) as Hc;
    destruct (apply_all f l a x) as [summary w''] end.
  split; [exact Hc|]. by eapply drained_not_rediscovered.
Qed.

Lemma ddb_apply_due_never_retries (attrs : Attributes) {W} clock_now (send : WriteRequest attrs -> M W WriteError unit)
    p w now w' d event at_ :
  clock_now w = (now, w') -> d ∈ (drain_due now (scheduler attrs p)).1 ->
  let '(summary, p', _) := ddb_apply_due attrs clock_now send p w in
  attempted summary = len (drain_due now (scheduler attrs p)).1 /\
  discover (disc_key d) event at_ (scheduler attrs p') = (false, scheduler attrs p').
Proof.
  unfold ddb_apply_due. intros -> Hd. destruct (drain_due now (scheduler attrs p)) as [due s] eqn:Ed.
  match goal with |- context [apply_all ?f ?l ?a ?x] => pose proof (apply_all_attempted f l a x) as Hc;
    destruct (apply_all f l a x) as [summary w''] end.
  split; [exact Hc|]. by eapply drained_not_rediscovered.
Qed.

(** ** A target in memory *)

Definition toy_attrs : Attributes := {|
  AttributeValue := string + Z;
  as_s v := match v with inl s => Some s | inr _ => None end;
  as_n v := match v with inr n => Some n | inl _ => None end;
  s_value := inl;
  n_value := inr;
  fingerprint_of item := match item !! "v" with Some (inl s) => s | _ => "" end
|}.

Definition toy_blocked (t : gmap (string * string) (gmap string (string + Z))) key name (n : Z) : bool :=
  match t !! key with
  | Some item => match item !! name with Some (inr m) => n <=? m | _ => false end
  | None => false
  end.

Definition toy_send (r : WriteRequest toy_attrs) :
    M (gmap (string * string) (gmap string (string + Z))) WriteError unit := fun t =>
  let n := default 0 (as_n toy_attrs (ts_value _ r)) in
  match action _ r with
  | PutItem _ item =>
      match extract_key toy_attrs item with
      | Some key =>
          if toy_blocked t key (ts_name _ r) n then (Err ConditionalCheckFailed, t)
          else (Ok tt, <[key := item]> t)
      | None => (Err (ServiceFailure "key"), t)
      end
  | DeleteKey _ pk sk =>
      if toy_blocked t (pk, sk) (ts_name _ r) n then (Err ConditionalCheckFailed, t)
      else (Ok tt, delete (pk, sk) t)
  end.

Lemma toy_blocked_spec t key name n :
  toy_blocked t key name n = true <->
  exists item v m, t !! key = Some item /\ item !! name = Some v /\ as_n toy_attrs v = Some m /\ n <= m.
Proof.
  unfold toy_blocked. destruct (t !! key) as [item|]; [|naive_solver].
  destruct (item !! name) as [[s|m]|] eqn:Ev; [naive_solver| |naive_solver].
  rewrite Z.leb_le. naive_solver.
Qed.

#[export] Program Instance toy_target : LwwTarget toy_attrs toy_send := {| stored t := t |}.
Next Obligation. done. Qed.
Next Obligation.
  intros t item key name n Hk. unfold toy_send. simpl. rewrite Hk.
  destruct (toy_blocked t key name n) eqn:Eb.
  - left. by rewrite <- toy_blocked_spec.
  - right. eexists. split_and!; [done| |done]. rewrite <- toy_blocked_spec. by rewrite Eb.
Qed.
Next Obligation.
  intros t pk sk name n. unfold toy_send. simpl. destruct (toy_blocked t (pk, sk) name n) eqn:Eb.
  - left. by rewrite <- toy_blocked_spec.
  - right. eexists. split_and!; [done| |done]. rewrite <- toy_blocked_spec. by rewrite Eb.
Qed.

(** Two versions discovered during a stall, then the catch-up burst: the target keeps the older one,
    and scanning the source again offers nothing more. *)
Definition toy_item (v : string) : gmap string (string + Z) :=
  list_to_map [(PK_ATTR, inl "p"); (SK_ATTR, inl "s"); ("v", inl v)].

Definition toy_poll (now : Z) (items : list (gmap string (string + Z))) (p : DdbPoller toy_attrs) : DdbPoller toy_attrs :=
  match ddb_discover toy_attrs (fun w => (now, w)) (fun _ w => (Ok (items, None), w)) 1 p tt with
  | Some (_, p', _) => p'
  | None => p
  end.

Example burst_example :
  let p := toy_poll 2 [toy_item "new"] (toy_poll 1 [toy_item "old"] (DdbPoller_new toy_attrs Stalled)) in
  let p := ddb_set_lag_policy toy_attrs immediate p in
  let '(summary, p', t) := ddb_apply_due toy_attrs (fun w => (5000000, w)) toy_send p ∅ in
  summary = MkApplySummary 1 1 0 /\
  t !! ("p", "s") ≫= (fun item => item !! "v") = Some (inl "old") /\
  pending (scheduler _ (toy_poll 6000000 [toy_item "new"] p')) = [].
Proof. vm_compute. auto. Qed.

Example discover_example :
  exists (new : list (Discovered DdbKey (DdbChange toy_attrs))) p', ddb_discover toy_attrs (fun w => (1, w)) (fun _ w => (Ok ([toy_item "a"], None), w)) 1
      (DdbPoller_new toy_attrs immediate) tt = Some (Ok (len new), p', tt) /\
    registered (scheduler toy_attrs p') ("p", "s", "a").
Proof.
  destruct (ddb_discover_complete toy_attrs (fun w => (1, w)) (fun _ w => (Ok ([toy_item "a"], None), w))
    (DdbPoller_new toy_attrs immediate) 1 tt 1 tt [[toy_item "a"]] tt) as (new & p' & He & _ & _ & _ & _ & Hr & _).
  - reflexivity.
  - apply listing_last. reflexivity.
  - simpl. lia.
  - exists new, p'. split; [exact He|]. apply (Hr (toy_item "a") "p" "s"); [|reflexivity].
    simpl. by apply list_elem_of_singleton.
Qed.

(** S3 lists the versions of a key newest first. Two versions found by one poll are written in that
    order, and the target's current version is the older one. *)
Example version_order_example :
  let page := MkVersionPage [(Some "k", Some "2-newer"); (Some "k", Some "1-older")]%string [] in
  let get _ id (w : list (string * list byte)) := (Ok (MkSourceObject None (Ok (String.list_byte_of_string id))), w) in
  let none {A} _ _ (w : list (string * list byte)) := (@Err A string "none", w) in
  let put o (w : list (string * list byte)) := (Ok tt, w ++ [(put_key o, put_body o)]) in
  let del _ (w : list (string * list byte)) := (Ok tt, w) in
  match s3_discover (fun w => (0, w)) (fun _ w => (Ok (page, None), w)) 1 (S3Poller_new immediate) [] with
  | Some (_, p, w) =>
      (s3_apply_due (fun w => (0, w)) get none none put del p w).2 =
        [("k", String.list_byte_of_string "2-newer"); ("k", String.list_byte_of_string "1-older")]
  | None => False
  end.
Proof. reflexivity. Qed.
