(* ===== verification/ReplicatorLink.v ===== *)
(** * Replication links: [crates/dev-replicator/src/{config,control,link}.rs]

    A link's configuration, its control endpoint and its poll cycle. The channel a lag policy reaches
    the link by is tokio's; the SDK clients are those of the pollers.

    A posted lag policy is in force from the next cycle and published; a paused or stalled link
    writes nothing; what a configuration that is accepted satisfies. *)

From stdpp Require Import gmap.
From S2P Require Import Prelude Format Time ParseInt Replicator ReplicatorFacts.

Local Open Scope mtc_scope.
Local Open Scope Z_scope.

(** [Duration::from_millis]. *)
Definition from_millis (ms : Z) : Z := ms * nanos_per_milli.

(** ** Configuration ([config.rs]) *)

(** [EndpointConfig], [LinkConfig]. *)
Record EndpointConfig : Type := MkEndpointConfig { endpoint_url : string; region : string }.
Record LinkConfig (SocketAddr : Type) : Type := MkLinkConfig {
  cfg_link_name : string;
  source : EndpointConfig;
  target : EndpointConfig;
  s3_bucket : option string;
  ddb_table : option string;
  cfg_poll_interval : Z;
  initial_lag : LagPolicy;
  control_addr : SocketAddr
}.

(** [ConfigError]. *)
Inductive ConfigError : Type :=
| MissingEnv (var : string)
| InvalidValue (var value reason : string)
| NoResourceConfigured.

Definition DEFAULT_REGION : string := "us-east-1".
Definition DEFAULT_POLL_INTERVAL_MS : Z := 500.
Definition DEFAULT_CONTROL_ADDR : string := "127.0.0.1:9300".

(** [parse_u64], [parse_bool]. *)
Definition parse_u64 (var raw : string) : result Z ConfigError :=
  map_err (fun e => InvalidValue var raw (int_error_text e)) (parse_uint 64 raw).
Definition parse_bool (var raw : string) : result bool ConfigError :=
  let s := to_ascii_lowercase raw in
  if decide (s = "1" \/ s = "true" \/ s = "yes")%string then Ok true
  else if decide (s = "0" \/ s = "false" \/ s = "no" \/ s = "")%string then Ok false
  else Err (InvalidValue var raw "expected 1/true/yes or 0/false/no").

(** [LinkConfig::from_env_lookup], over the parser of socket addresses with its error's text. *)
Section Config.
Context {SocketAddr : Type} (parse_socket_addr : string -> result SocketAddr string).

Definition from_env_lookup (lookup : string -> option string) : result (LinkConfig SocketAddr) ConfigError :=
  let required var := ok_or (lookup var) (MissingEnv var) in
  let optional := lookup in
  let? link_name := required "REPL_LINK_NAME" in
  let? source_url := required "REPL_SOURCE_ENDPOINT_URL" in
  let source := MkEndpointConfig source_url (default DEFAULT_REGION (optional "REPL_SOURCE_REGION")) in
  let? target_url := required "REPL_TARGET_ENDPOINT_URL" in
  let target := MkEndpointConfig target_url (default DEFAULT_REGION (optional "REPL_TARGET_REGION")) in
  let s3_bucket := optional "REPL_S3_BUCKET" in
  let ddb_table := optional "REPL_DDB_TABLE" in
  if (bool_decide (s3_bucket = None) && bool_decide (ddb_table = None))%bool then Err NoResourceConfigured else
  let? poll_interval_ms := match optional "REPL_POLL_INTERVAL_MS" with
                           | Some raw => parse_u64 "REPL_POLL_INTERVAL_MS" raw
                           | None => Ok DEFAULT_POLL_INTERVAL_MS
                           end in
  let? stalled := match optional "REPL_STALL" with
                  | Some raw => parse_bool "REPL_STALL" raw
                  | None => Ok false
                  end in
  let? initial_lag := if stalled : bool then Ok Stalled
                      else let? lag_ms := match optional "REPL_LAG_MS" with
                                          | Some raw => parse_u64 "REPL_LAG_MS" raw
                                          | None => Ok 0
                                          end in
                           Ok (Fixed (from_millis lag_ms)) in
  let control_addr_raw := default DEFAULT_CONTROL_ADDR (optional "REPL_CONTROL_ADDR") in
  let? control_addr := map_err (InvalidValue "REPL_CONTROL_ADDR" control_addr_raw)
                         (parse_socket_addr control_addr_raw) in
  Ok (MkLinkConfig SocketAddr link_name source target s3_bucket ddb_table
        (from_millis poll_interval_ms) initial_lag control_addr).
End Config.

(** ** Control endpoint ([control.rs]) *)

(** [LagPolicyView] and the two conversions. *)
Inductive LagPolicyView : Type := ViewFixed (ms : Z) | ViewStalled.
Definition view_of_policy (p : LagPolicy) : LagPolicyView :=
  match p with
  | Fixed d => ViewFixed (default u64_max (try_from_uint 64 (as_millis d)))
  | Stalled => ViewStalled
  end.
Definition policy_of_view (v : LagPolicyView) : LagPolicy :=
  match v with ViewFixed ms => Fixed (from_millis ms) | ViewStalled => Stalled end.

(** [ResourceStatus]: the age is kept as the duration that is published in seconds. *)
Record ResourceStatus : Type := MkResourceStatus {
  st_pending : Z;
  st_applied : Z;
  st_oldest_pending_age : option Z
}.
Definition ResourceStatus_default : ResourceStatus := MkResourceStatus 0 0 None.

(** [LinkStatus], [LinkStatus::initial]. *)
Record LinkStatus : Type := MkLinkStatus {
  link_name : string;
  st_paused : bool;
  lag : LagPolicyView;
  st_s3 : option ResourceStatus;
  st_ddb : option ResourceStatus
}.
Definition LinkStatus_initial (name : string) (lag : LagPolicy) (has_s3 has_ddb : bool) : LinkStatus :=
  MkLinkStatus name false (view_of_policy lag)
    (if has_s3 then Some ResourceStatus_default else None)
    (if has_ddb then Some ResourceStatus_default else None).

(** tokio's [watch] channel, seen by one receiver: the latest value, and whether it was sent since
    the receiver last looked. *)
Class Watch (C : Type) : Type := {
  watch_channel : LagPolicy -> C;
  watch_send : LagPolicy -> C -> C;
  has_changed : C -> bool;
  borrow_and_update : C -> LagPolicy * C;
  watch_latest : C -> LagPolicy;
  channel_spec p : watch_latest (watch_channel p) = p /\ has_changed (watch_channel p) = false;
  send_spec p c : watch_latest (watch_send p c) = p /\ has_changed (watch_send p c) = true;
  borrow_spec c : let '(p, c') := borrow_and_update c in
    p = watch_latest c /\ watch_latest c' = p /\ has_changed c' = false
}.

(** [ControlHandle] with the receiver's end, and the status its handlers share with the link. *)
Record Control (C : Type) : Type := MkControl { lag_channel : C; is_paused : bool; shared_status : LinkStatus }.
Arguments MkControl {C}.
Arguments lag_channel {C}.
Arguments is_paused {C}.
Arguments shared_status {C}.

Section Link.
Context {C : Type} `{Watch C}.

(** The handlers. *)
Definition get_status (c : Control C) : LinkStatus := shared_status c.
Definition post_lag (view : LagPolicyView) (c : Control C) : LagPolicyView * Control C :=
  let policy := policy_of_view view in
  (view_of_policy policy, MkControl (watch_send policy (lag_channel c)) (is_paused c) (shared_status c)).
Definition post_pause (c : Control C) : Control C := MkControl (lag_channel c) true (shared_status c).
Definition post_resume (c : Control C) : Control C := MkControl (lag_channel c) false (shared_status c).

(** ** The poll cycle ([link.rs]) *)

(** The clients of a link's two pollers, and its clock. *)
Record Clients (attrs : Attributes) (W : Type) : Type := MkClients {
  clock_now : W -> Z * W;
  list_object_versions : option VersionMarker -> M W string (VersionPage * option VersionMarker);
  get_object : string -> string -> M W string SourceObject;
  get_object_retention : string -> string -> M W string (option ObjectRetention);
  get_object_legal_hold : string -> string -> M W string (option (option string));
  put_object : PutObject -> M W string unit;
  delete_object : string -> M W string unit;
  scan : option (gmap string (AttributeValue attrs)) ->
    M W string (list (gmap string (AttributeValue attrs)) * option (gmap string (AttributeValue attrs)));
  send : WriteRequest attrs -> M W WriteError unit
}.

Context (attrs : Attributes) {W : Type} (cl : Clients attrs W).

(** [Link]'s pollers. *)
Record Link : Type := MkLink { s3 : option S3Poller; ddb : option (DdbPoller attrs) }.

(** [Link::new]. *)
Definition Link_new (name : string) (initial_lag : LagPolicy) (s3 : option S3Poller)
    (ddb : option (DdbPoller attrs)) : Link * Control C :=
  (MkLink s3 ddb,
   MkControl (watch_channel initial_lag) false
     (LinkStatus_initial name initial_lag (bool_decide (is_Some s3)) (bool_decide (is_Some ddb)))).

(** [run_s3_cycle], [run_ddb_cycle]: a failed discovery is logged and what is due is applied all the
    same. [None] is a listing that is still running. *)
Definition run_s3_cycle (fuel : nat) (l : Link) (w : W) : option (Link * W) :=
  match s3 l with
  | None => Some (l, w)
  | Some p =>
      '(_, p, w) ← s3_discover (clock_now _ _ cl) (list_object_versions _ _ cl) fuel p w;
      let '(_, p, w) := s3_apply_due (clock_now _ _ cl) (get_object _ _ cl) (get_object_retention _ _ cl)
        (get_object_legal_hold _ _ cl) (put_object _ _ cl) (delete_object _ _ cl) p w in
      Some (MkLink (Some p) (ddb l), w)
  end.
Definition run_ddb_cycle (fuel : nat) (l : Link) (w : W) : option (Link * W) :=
  match ddb l with
  | None => Some (l, w)
  | Some p =>
      '(_, p, w) ← ddb_discover attrs (clock_now _ _ cl) (scan _ _ cl) fuel p w;
      let '(_, p, w) := ddb_apply_due attrs (clock_now _ _ cl) (send _ _ cl) p w in
      Some (MkLink (s3 l) (Some p), w)
  end.

(** What [publish_status] tells of a scheduler at an instant. *)
Definition resource_status {K E} `{Countable K} (now : Z) (s : LagScheduler K E) : ResourceStatus :=
  MkResourceStatus (pending_len s) (applied_len s) (oldest_pending_age now s).

(** [publish_status]. *)
Definition publish_status (paused : bool) (l : Link) (st : LinkStatus) (w : W) : LinkStatus * W :=
  let active_lag := match s3 l with
                    | Some p => s3_lag_policy p
                    | None => match ddb l with Some p => ddb_lag_policy attrs p | None => immediate end
                    end in
  let '(st_s3', w) := match s3 l with
                      | Some p => let '(now, w) := clock_now _ _ cl w in (Some (resource_status now (s3_scheduler p)), w)
                      | None => (st_s3 st, w)
                      end in
  let '(st_ddb', w) := match ddb l with
                       | Some p => let '(now, w) := clock_now _ _ cl w in (Some (resource_status now (scheduler attrs p)), w)
                       | None => (st_ddb st, w)
                       end in
  (MkLinkStatus (link_name st) paused (view_of_policy active_lag) st_s3' st_ddb', w).

(** The first step of a cycle: a changed policy reaches both pollers. *)
Definition pick_up_lag (l : Link) (c : Control C) : Link * Control C :=
  if has_changed (lag_channel c) then
    let '(policy, ch) := borrow_and_update (lag_channel c) in
    (MkLink (s3_set_lag_policy policy <$> s3 l) (ddb_set_lag_policy attrs policy <$> ddb l),
     MkControl ch (is_paused c) (shared_status c))
  else (l, c).

(** [run_one_cycle]. *)
Definition run_one_cycle (fuel : nat) (l : Link) (c : Control C) (w : W) : option (Link * Control C * W) :=
  let '(l, c) := pick_up_lag l c in
  let paused := is_paused c in
  '(l, w) ← (if paused then Some (l, w)
             else '(l, w) ← run_s3_cycle fuel l w; run_ddb_cycle fuel l w);
  let '(st, w) := publish_status paused l (shared_status c) w in
  Some (l, MkControl (lag_channel c) (is_paused c) st, w).

(** [router]: its requests, and what its handlers answer (a bare status is 200). *)
Inductive LinkRequest : Type := GetLinkHealthz | GetLinkStatus | SetLag (view : LagPolicyView) | SetPaused | SetResumed.
Inductive LinkReply : Type := StatusCodeOk | JsonStatus (st : LinkStatus) | JsonLag (view : LagPolicyView).
Definition link_router (r : LinkRequest) (c : Control C) : LinkReply * Control C :=
  match r with
  | GetLinkHealthz => (StatusCodeOk, c)
  | GetLinkStatus => (JsonStatus (get_status c), c)
  | SetLag view => let '(v, c) := post_lag view c in (JsonLag v, c)
  | SetPaused => (StatusCodeOk, post_pause c)
  | SetResumed => (StatusCodeOk, post_resume c)
  end.

(** [Link::run]: what its [select!] sees, in order, with the requests served between. The channel of the
    shutdown reports a new value, or that its sender is gone. The flag tells whether the loop is over. *)
Inductive LinkEvent : Type :=
| Requested (r : LinkRequest)
| ShutdownChanged (value : option bool)
| PollElapsed.
Fixpoint link_run (fuel : nat) (events : list LinkEvent) (l : Link) (c : Control C) (w : W)
    : option (bool * Link * Control C * W) :=
  match events with
  | [] => Some (false, l, c, w)
  | Requested r :: events => link_run fuel events l (link_router r c).2 w
  | ShutdownChanged (Some false) :: events => link_run fuel events l c w
  | ShutdownChanged _ :: _ => Some (true, l, c, w)
  | PollElapsed :: events => '(l, c, w) ← run_one_cycle fuel l c w; link_run fuel events l c w
  end.
End Link.

(** ** Configuration *)

(** What an accepted configuration satisfies: the required variables are its fields, something is
    replicated, the intervals are whole numbers of milliseconds of a [u64], and a true [REPL_STALL]
    overrides [REPL_LAG_MS], which is then not even read. *)
Lemma from_env_ok {SocketAddr} (parse : string -> result SocketAddr string) lookup cfg :
  from_env_lookup parse lookup = Ok cfg ->
  lookup "REPL_LINK_NAME" = Some (cfg_link_name _ cfg) /\
  lookup "REPL_SOURCE_ENDPOINT_URL" = Some (endpoint_url (source _ cfg)) /\
  lookup "REPL_TARGET_ENDPOINT_URL" = Some (endpoint_url (target _ cfg)) /\
  (is_Some (s3_bucket _ cfg) \/ is_Some (ddb_table _ cfg)) /\
  (exists ms, in_u64 ms /\ cfg_poll_interval _ cfg = from_millis ms) /\
  (initial_lag _ cfg = Stalled <-> exists raw, lookup "REPL_STALL" = Some raw /\
     to_ascii_lowercase raw ∈ ["1"; "true"; "yes"]%string) /\
  (forall lag, initial_lag _ cfg = Fixed lag -> exists ms, in_u64 ms /\ lag = from_millis ms).
Proof.
  unfold from_env_lookup.
  destruct (lookup "REPL_LINK_NAME") as [name|]; [|done]. simpl.
  destruct (lookup "REPL_SOURCE_ENDPOINT_URL") as [src|]; [|done]. simpl.
  destruct (lookup "REPL_TARGET_ENDPOINT_URL") as [tgt|]; [|done]. simpl.
  destruct (_ && _)%bool eqn:Er; [done|].
  destruct (match lookup "REPL_POLL_INTERVAL_MS" with Some _ => _ | None => _ end) as [ms|] eqn:Ep; [|done].
  destruct (match lookup "REPL_STALL" with Some _ => _ | None => _ end) as [stalled|] eqn:Es; [|done].
  assert (forall var raw n, parse_u64 var raw = Ok n -> in_u64 n) as Hu.
  { intros var raw n. unfold parse_u64. destruct (parse_uint 64 raw) as [m|] eqn:Em; [|done].
    intros [= <-]. by apply (parse_uint_bound 64 raw). }
  assert (in_u64 ms) as Hms.
  { destruct (lookup "REPL_POLL_INTERVAL_MS"); [by eapply Hu|]. injection Ep as <-.
    unfold DEFAULT_POLL_INTERVAL_MS, in_uint. lia. }
  assert (stalled = true <-> exists raw, lookup "REPL_STALL" = Some raw /\
    to_ascii_lowercase raw ∈ ["1"; "true"; "yes"]%string) as Hst.
  { destruct (lookup "REPL_STALL") as [raw|]; [|injection Es as <-; naive_solver].
    unfold parse_bool in Es. setoid_rewrite elem_of_cons. setoid_rewrite elem_of_cons.
    setoid_rewrite list_elem_of_singleton.
    destruct (decide _) as [Hy|Hy] in Es; [injection Es as <-; naive_solver|].
    destruct (decide _) in Es; [injection Es as <-|done]. naive_solver. }
  destruct (if stalled then _ else _) as [lag|] eqn:El; [|done].
  destruct (map_err _ _) as [addr|]; [|done]. intros [= <-]. simpl. split_and!; try done.
  - destruct (lookup "REPL_S3_BUCKET"), (lookup "REPL_DDB_TABLE"); eauto; done.
  - by exists ms.
  - rewrite <- Hst. destruct stalled; [by injection El as <-|]. split; [|done]. intros ->.
    by destruct (match lookup "REPL_LAG_MS" with Some _ => _ | None => _ end).
  - intros d ->. destruct stalled; [done|].
    destruct (match lookup "REPL_LAG_MS" with Some _ => _ | None => _ end) as [lag|] eqn:Ea; [|done].
    injection El as <-. exists lag. split; [|done].
    destruct (lookup "REPL_LAG_MS"); [by eapply Hu|]. injection Ea as <-. unfold in_uint. lia.
Qed.

(** A view survives the policy it makes; a policy loses what is below a millisecond. *)
Definition view_wf (v : LagPolicyView) : Prop := match v with ViewFixed ms => in_u64 ms | ViewStalled => True end.

Lemma view_policy_view v : view_wf v -> view_of_policy (policy_of_view v) = v.
Proof.
  destruct v as [ms|]; [|done]. unfold view_wf, in_uint. intros Hms. simpl.
  unfold from_millis, as_millis. rewrite Z.div_mul by done. unfold try_from_uint.
  destruct (Z.leb_spec 0 ms), (Z.ltb_spec ms (2 ^ 64)); (lia || done).
Qed.

(** ** What no discovery changes *)

Lemma paged_inv {W Marker Page Acc} (P : Acc -> Prop) (fetch : option Marker -> M W string (Page * option Marker))
    (step : Acc -> Page -> Acc) fuel marker acc w r acc' w' :
  (forall a p, P a -> P (step a p)) -> P acc ->
  paged fetch step fuel marker acc w = Some (r, acc', w') -> P acc'.
Proof.
  intros Hs. revert marker acc w. induction fuel as [|fuel IH]; intros marker acc w Ha; simpl; [done|].
  destruct (fetch marker w) as [[[page [m|]]|e] w1]; [by apply IH, Hs| |]; intros [= <- <- <-]; [by apply Hs|done].
Qed.

Lemma fold_left_inv {A B} (P : A -> Prop) (f : A -> B -> A) l a :
  (forall a b, P a -> P (f a b)) -> P a -> P (fold_left f l a).
Proof. intros Hf. revert a. induction l as [|b l IH]; intros a Ha; simpl; [done|]. by apply IH, Hf. Qed.

Lemma discover_policy {K E} `{Countable K} key (event : E) at_ (s : LagScheduler K E) :
  policy (discover key event at_ s).2 = policy s.
Proof. unfold discover. by repeat case_match. Qed.

Lemma s3_discover_policy {W} clock_now list_versions fuel p (w : W) r p' w' :
  s3_discover clock_now list_versions fuel p w = Some (r, p', w') -> s3_lag_policy p' = s3_lag_policy p.
Proof.
  unfold s3_discover. destruct (clock_now w) as [now w1].
  destruct (paged _ _ _ _ _ _) as [[[r' [s n]] w2]|] eqn:Ep; [|done]. intros [= <- <- <-].
  apply (paged_inv (fun a => policy a.1 = policy (s3_scheduler p))) in Ep; [done| |done].
  intros a page Ha. unfold discover_page.
  assert (forall b a v, policy a.1 = policy (s3_scheduler p) ->
    policy (discover_version now b a v).1 = policy (s3_scheduler p)) as Hv.
  { intros b [s' n'] [[k|] [i|]] Hp; try done. unfold discover_version.
    pose proof (discover_policy (k, i) (MkS3VersionEvent k i b) now s') as Hd.
    destruct (discover (k, i) _ now s'). simpl in *. exact (eq_trans Hd Hp). }
  by do 2 (apply fold_left_inv; [intros ??; apply Hv|]).
Qed.

Lemma ddb_discover_policy attrs {W} clock_now scan fuel p (w : W) r p' w' :
  ddb_discover attrs clock_now scan fuel p w = Some (r, p', w') -> ddb_lag_policy attrs p' = ddb_lag_policy attrs p.
Proof.
  unfold ddb_discover. destruct (clock_now w) as [now w1].
  destruct (paged _ _ _ _ _ _) as [[[r' [[s current] n]] w2]|] eqn:Ep; [|done].
  assert (policy s = policy (scheduler attrs p)) as Hs.
  { apply (paged_inv (fun a => policy a.1.1 = policy (scheduler attrs p))) in Ep; [done| |done].
    intros a items Ha. apply fold_left_inv; [|done]. intros [[s' c'] n'] item Hp. unfold discover_item.
    destruct (extract_key attrs item) as [[pk sk]|]; [|done].
    pose proof (discover_policy (pk, sk, fingerprint_of attrs item) (Upsert attrs pk sk item) now s') as Hd.
    destruct (discover (pk, sk, fingerprint_of attrs item) _ now s'). simpl in *. exact (eq_trans Hd Hp). }
  destruct r'; [|by intros [= <- <- <-]].
  destruct (fold_left _ _ _) as [s2 n2] eqn:Ef. intros [= <- <- <-]. unfold ddb_lag_policy. simpl.
  change s2 with (s2, n2).1. rewrite <- Ef. rewrite <- Hs.
  apply (fold_left_inv (fun a => policy a.1 = policy s)); [|done].
  intros [s' n'] [pk sk] Hp. unfold discover_vanished.
  pose proof (discover_policy (pk, sk, deleted_fingerprint) (DeleteItem attrs pk sk) now s') as Hd.
  destruct (discover (pk, sk, deleted_fingerprint) _ now s'). simpl in *. exact (eq_trans Hd Hp).
Qed.

Lemma drain_due_policy {K E} `{Countable K} now (s : LagScheduler K E) : policy (drain_due now s).2 = policy s.
Proof. destruct (drain_due now s) as [due s'] eqn:Ed. by destruct (drain_due_spec _ _ _ _ Ed). Qed.

Lemma drain_due_stalled {K E} `{Countable K} now (s : LagScheduler K E) :
  policy s = Stalled -> drain_due now s = ([], s).
Proof. unfold drain_due. by intros ->. Qed.

(** ** The cycle *)

Section Cycle.
Context {C : Type} `{Watch C} (attrs : Attributes) {W : Type}.
Implicit Types (cl : Clients attrs W) (l : Link attrs) (c : Control C).

(** The policies of a link's pollers are all [p]. *)
Definition policies_are (p : LagPolicy) l : Prop :=
  (forall q, s3 attrs l = Some q -> s3_lag_policy q = p) /\
  (forall q, ddb attrs l = Some q -> ddb_lag_policy attrs q = p).

Lemma run_s3_cycle_policies cl fuel l w l' w' p :
  run_s3_cycle attrs cl fuel l w = Some (l', w') ->
  ddb attrs l' = ddb attrs l /\ (is_Some (s3 attrs l') <-> is_Some (s3 attrs l)) /\ (policies_are p l -> policies_are p l').
Proof.
  unfold run_s3_cycle. destruct (s3 attrs l) as [q|] eqn:Eq; [|by intros [= <- <-]; rewrite Eq].
  destruct (s3_discover _ _ _ _ _) as [[[r q1] w1]|] eqn:Ed; simpl; [|done].
  apply s3_discover_policy in Ed. unfold s3_apply_due. destruct (clock_now attrs W cl w1) as [now w2].
  pose proof (drain_due_policy now (s3_scheduler q1)) as Hp. destruct (drain_due now _) as [due s'].
  destruct (apply_all _ _ _ _). intros [= <- <-]. simpl. split_and!; [done|done|].
  intros [H1 H2]. split; [|done]. intros ? [= <-]. unfold s3_lag_policy in *. simpl in *. rewrite Hp, Ed. by apply H1.
Qed.

Lemma run_ddb_cycle_policies cl fuel l w l' w' p :
  run_ddb_cycle attrs cl fuel l w = Some (l', w') ->
  s3 attrs l' = s3 attrs l /\ (is_Some (ddb attrs l') <-> is_Some (ddb attrs l)) /\ (policies_are p l -> policies_are p l').
Proof.
  unfold run_ddb_cycle. destruct (ddb attrs l) as [q|] eqn:Eq; [|by intros [= <- <-]; rewrite Eq].
  destruct (ddb_discover _ _ _ _ _ _) as [[[r q1] w1]|] eqn:Ed; simpl; [|done].
  apply ddb_discover_policy in Ed. unfold ddb_apply_due. destruct (clock_now attrs W cl w1) as [now w2].
  pose proof (drain_due_policy now (scheduler attrs q1)) as Hp. destruct (drain_due now _) as [due s'].
  destruct (apply_all _ _ _ _). intros [= <- <-]. simpl. split_and!; [done|done|].
  intros [H1 H2]. split; [done|]. intros ? [= <-]. unfold ddb_lag_policy in *. simpl in *. rewrite Hp, Ed. by apply H2.
Qed.

(** Two sets of clients that agree on the clock and on what is listed at the source. *)
Definition same_source cl cl' : Prop :=
  clock_now _ _ cl = clock_now _ _ cl' /\
  list_object_versions _ _ cl = list_object_versions _ _ cl' /\
  scan _ _ cl = scan _ _ cl'.

Lemma stalled_s3_cycle cl cl' fuel l w :
  same_source cl cl' -> policies_are Stalled l ->
  run_s3_cycle attrs cl fuel l w = run_s3_cycle attrs cl' fuel l w.
Proof.
  intros (Hc & Hl & _) [Hp _]. unfold run_s3_cycle. destruct (s3 attrs l) as [q|]; [|done].
  rewrite <- Hc, <- Hl. destruct (s3_discover _ _ _ _ _) as [[[r q1] w1]|] eqn:Ed; simpl; [|done].
  apply s3_discover_policy in Ed. rewrite (Hp q eq_refl) in Ed. unfold s3_apply_due.
  destruct (clock_now attrs W cl w1) as [now w2]. by rewrite drain_due_stalled.
Qed.

Lemma stalled_ddb_cycle cl cl' fuel l w :
  same_source cl cl' -> policies_are Stalled l ->
  run_ddb_cycle attrs cl fuel l w = run_ddb_cycle attrs cl' fuel l w.
Proof.
  intros (Hc & _ & Hs) [_ Hp]. unfold run_ddb_cycle. destruct (ddb attrs l) as [q|]; [|done].
  rewrite <- Hc, <- Hs. destruct (ddb_discover _ _ _ _ _ _) as [[[r q1] w1]|] eqn:Ed; simpl; [|done].
  apply ddb_discover_policy in Ed. rewrite (Hp q eq_refl) in Ed. unfold ddb_apply_due.
  destruct (clock_now attrs W cl w1) as [now w2]. by rewrite drain_due_stalled.
Qed.

Lemma publish_status_clock cl cl' paused l st w :
  clock_now _ _ cl = clock_now _ _ cl' ->
  publish_status attrs cl paused l st w = publish_status attrs cl' paused l st w.
Proof. unfold publish_status. by intros ->. Qed.

Lemma publish_status_lag cl paused l st w p :
  policies_are p l -> is_Some (s3 attrs l) \/ is_Some (ddb attrs l) ->
  lag (publish_status attrs cl paused l st w).1 = view_of_policy p /\
  st_paused (publish_status attrs cl paused l st w).1 = paused.
Proof.
  intros [H1 H2] Hs. unfold publish_status.
  assert (match s3 attrs l with Some q => s3_lag_policy q
    | None => match ddb attrs l with Some q => ddb_lag_policy attrs q | None => immediate end end = p) as ->.
  { destruct (s3 attrs l) as [q|]; [by apply H1|]. destruct (ddb attrs l) as [q|]; [by apply H2|].
    by destruct Hs as [[? ?]|[? ?]]. }
  repeat case_match; done.
Qed.

(** A cycle of a paused link, or of one whose policy is a stall, makes no call that could write to the
    target or fetch an object: its outcome is the same whatever those calls would do. *)
Lemma partition_writes_nothing cl cl' fuel l c w :
  same_source cl cl' -> is_paused c = true \/ policies_are Stalled (pick_up_lag attrs l c).1 ->
  run_one_cycle attrs cl fuel l c w = run_one_cycle attrs cl' fuel l c w.
Proof.
  intros Hs Hp. unfold run_one_cycle.
  assert (is_paused (pick_up_lag attrs l c).2 = is_paused c) as Hpc.
  { unfold pick_up_lag. case_match; [|done]. by destruct (borrow_and_update _). }
  destruct (pick_up_lag attrs l c) as [l1 c1]. simpl in *. rewrite Hpc.
  destruct (is_paused c) eqn:Eq; simpl; [by rewrite (publish_status_clock cl cl') by apply Hs|].
  destruct Hp as [?|Hp]; [done|]. rewrite <- (stalled_s3_cycle cl cl') by done.
  destruct (run_s3_cycle attrs cl fuel l1 w) as [[l2 w2]|] eqn:E2; simpl; [|done].
  apply (run_s3_cycle_policies _ _ _ _ _ _ Stalled) in E2 as (_ & _ & E2).
  rewrite <- (stalled_ddb_cycle cl cl') by auto.
  destruct (run_ddb_cycle attrs cl fuel l2 w2) as [[l3 w3]|]; simpl; [|done].
  by rewrite (publish_status_clock cl cl') by apply Hs.
Qed.

Lemma run_one_cycle_paused cl fuel l c w l' c' w' :
  run_one_cycle attrs cl fuel l c w = Some (l', c', w') -> is_paused c' = is_paused c.
Proof.
  unfold run_one_cycle, pick_up_lag. destruct (has_changed _); [destruct (borrow_and_update _)|]; simpl;
    (destruct (if is_paused c then _ else _) as [[l2 w2]|]; [|done]); simpl;
    destruct (publish_status _ _ _ _ _ _); by intros [= <- <- <-].
Qed.

(** So a paused link does not write to the target for as long as nobody resumes it: whatever else is
    asked of it, the whole run is the same whatever a write would do, and it ends with the first
    [true] on its shutdown channel. *)
Lemma paused_run_writes_nothing cl cl' fuel events l c w :
  same_source cl cl' -> is_paused c = true -> Requested SetResumed ∉ events ->
  link_run attrs cl fuel events l c w = link_run attrs cl' fuel events l c w.
Proof.
  intros Hs. revert l c w. induction events as [|e events IH]; intros l c w Hp Hn; [done|].
  apply not_elem_of_cons in Hn as [He Hn]. destruct e as [r|[[]|]|]; cbn [link_run]; try done; [|by apply IH|].
  - apply IH; [|done]. by destruct r.
  - rewrite (partition_writes_nothing cl cl') by auto.
    destruct (run_one_cycle attrs cl' fuel l c w) as [[[l1 c1] w1]|] eqn:E; simpl; [|done].
    apply IH; [|done]. by rewrite (run_one_cycle_paused _ _ _ _ _ _ _ _ E).
Qed.

Lemma run_shut_down cl fuel before after l c w v :
  v <> Some false -> Forall (fun e => match e with ShutdownChanged v => v = Some false | _ => True end) before ->
  link_run attrs cl fuel (before ++ ShutdownChanged v :: after) l c w =
  '(_, l, c, w) ← link_run attrs cl fuel before l c w; Some (true, l, c, w).
Proof.
  intros Hv Hb. revert l c w. induction Hb as [|e before He _ IH]; intros l c w; [by destruct v as [[]|]|].
  destruct e as [r|v'|]; cbn [app link_run]; [by apply IH|subst v'; by apply IH|].
  destruct (run_one_cycle attrs cl fuel l c w) as [[[l1 c1] w1]|]; simpl; [by apply IH|done].
Qed.

(** The last posted policy is in force in the next cycle, before anything is replicated, and is the
    one published after it, with the pause flag the cycle saw. *)
Lemma posted_lag_in_force cl fuel l c w view l' c' w' :
  run_one_cycle attrs cl fuel l (post_lag view c).2 w = Some (l', c', w') ->
  policies_are (policy_of_view view) (pick_up_lag attrs l (post_lag view c).2).1 /\
  policies_are (policy_of_view view) l' /\
  (view_wf view -> is_Some (s3 attrs l) \/ is_Some (ddb attrs l) ->
   lag (get_status c') = view /\ st_paused (get_status c') = is_paused c) /\
  has_changed (lag_channel c') = false.
Proof.
  unfold run_one_cycle, post_lag, pick_up_lag. simpl. set (p := policy_of_view view).
  destruct (send_spec p (lag_channel c)) as [Hl ->].
  pose proof (borrow_spec (watch_send p (lag_channel c))) as Hb.
  destruct (borrow_and_update _) as [q ch]. rewrite Hl in Hb. destruct Hb as (-> & _ & Hch). simpl.
  set (l1 := MkLink _ _ _). assert (policies_are p l1) as H1.
  { split; intros q; simpl; intros (? & _ & ->)%fmap_Some; done. }
  assert ((is_Some (s3 attrs l) \/ is_Some (ddb attrs l)) -> is_Some (s3 attrs l1) \/ is_Some (ddb attrs l1)) as HS.
  { unfold l1. simpl. by rewrite !fmap_is_Some. }
  intros Hrun. split; [done|].
  assert (exists l2 w2, policies_are p l2 /\
    (is_Some (s3 attrs l1) \/ is_Some (ddb attrs l1) -> is_Some (s3 attrs l2) \/ is_Some (ddb attrs l2)) /\
    (let '(st, w) := publish_status attrs cl (is_paused c) l2 (shared_status c) w2 in
     Some (l2, MkControl ch (is_paused c) st, w)) = Some (l', c', w')) as (l2 & w2 & H2 & HS2 & Hpub).
  { destruct (is_paused c); simpl in Hrun; [by eexists _, _; split_and!|].
    destruct (run_s3_cycle _ _ _ _ _) as [[l2 w2]|] eqn:E2; simpl in Hrun; [|done].
    apply (run_s3_cycle_policies _ _ _ _ _ _ p) in E2 as (Hd & Hs & E2).
    destruct (run_ddb_cycle _ _ _ _ _) as [[l3 w3]|] eqn:E3; simpl in Hrun; [|done].
    apply (run_ddb_cycle_policies _ _ _ _ _ _ p) in E3 as (Hs' & Hd' & E3).
    eexists _, _. split_and!; [by apply E3, E2| |exact Hrun].
    intros Hx. rewrite Hs', Hs, Hd', Hd. exact Hx. }
  pose proof (publish_status_lag cl (is_paused c) l2 (shared_status c) w2 p H2) as Hpl.
  destruct (publish_status _ _ _ _ _ _) as [st w3]. injection Hpub as <- <- <-. simpl. split_and!; try done.
  intros Hv HS0. destruct (Hpl (HS2 (HS HS0))) as [E1 E2]. simpl in E1, E2. split; [|done]. rewrite E1. by apply view_policy_view.
Qed.
End Cycle.
