(* ===== verification/AwsErrors.v ===== *)
(** * Errors of the AWS backends: [crates/cloud-aws/src/error.rs]

    What the SDKs report, reduced to what the code reads of it, and its classification into
    [CloudError]. The SDK's rendering of its own errors is part of the report. *)

From S2P Require Import Prelude Format KV.

Local Open Scope Z_scope.

(** The service's part of a report: the exceptions the code tells apart, with the codes of a
    cancelled transaction's reasons. *)
Inductive ServiceDetail : Type :=
| ConditionalCheckFailedException
| TransactionCanceledException (reasons : list (option string))
| OtherException.

(** [SdkError]; a service error has its code and the response's HTTP status. *)
Inductive SdkError : Type :=
| ConstructionFailure (text : string)
| TimeoutError
| DispatchFailure (text : string)
| ResponseError
| ServiceError (code : option string) (status : option Z) (detail : ServiceDetail).

Definition one_of (code : string) (codes : list string) : bool := existsb (String.eqb code) codes.

(** [matches!(status, Some(status) if status == 429 || status >= 500)]. *)
Definition retryable_status (status : option Z) : bool :=
  match status with Some s => ((s =? 429) || (500 <=? s))%bool | None => false end.

Definition error_text (service code : string) (status : option Z) : string :=
  match status with
  | None => service +:+ " error " +:+ code
  | Some s => service +:+ " error " +:+ code +:+ " (HTTP " +:+ decimal s +:+ ")"
  end.

(** ** S3 *)

(** [Op]. *)
Inductive Op : Type := Read | CreateOnlyWrite | RetentionGuardedWrite | RetentionExtend.

(** [generic_transport]. *)
Definition generic_transport (code : string) (status : option Z) : CloudError :=
  let retryable := (one_of code ["SlowDown"; "Throttling"; "ThrottlingException"; "RequestTimeout";
                                 "InternalError"; "ServiceUnavailable"; "RequestTimeTooSkewed"]%string
                    || retryable_status status)%bool in
  Transport retryable (OtherReason (error_text "S3" code status)).

(** [classify]. *)
Definition classify (op : Op) (key code : string) (status : option Z) : CloudError :=
  if one_of code ["NoSuchKey"; "NoSuchVersion"; "NotFound"]%string then NotFound key
  else match op with
  | Read =>
      if one_of code ["NoSuchObjectLockConfiguration"; "ObjectLockConfigurationNotFoundError"]%string
      then NotFound key else generic_transport code status
  | CreateOnlyWrite =>
      if one_of code ["PreconditionFailed"; "ConditionalRequestConflict"]%string
      then AlreadyExists key else generic_transport code status
  | RetentionGuardedWrite =>
      if one_of code ["AccessDenied"; "InvalidRequest"; "InvalidArgument"]%string
      then RetentionViolation (OtherReason
             (key +:+ ": blocked by an active Object Lock Compliance retention (S3 " +:+ code +:+ ")"))
      else generic_transport code status
  | RetentionExtend =>
      if one_of code ["AccessDenied"; "InvalidRequest"; "InvalidArgument"]%string
      then RetentionViolation (OtherReason
             (key +:+ ": retention extension rejected -- Compliance mode is forward-only (S3 " +:+ code +:+ ")"))
      else generic_transport code status
  end.

(** [transport_error] and [ddb_transport_error], over the fallback for codes. *)
Definition transport_error (generic : string -> option Z -> CloudError) (err : SdkError) : CloudError :=
  match err with
  | ConstructionFailure text => Transport false (OtherReason ("request construction failed: " +:+ text))
  | TimeoutError => Transport true (OtherReason "request timed out")
  | DispatchFailure text => Transport true (OtherReason ("dispatch failure: " +:+ text))
  | ResponseError => Transport true (OtherReason "malformed response")
  | ServiceError code status _ => generic (default ""%string code) status
  end.

(** [map_error]. *)
Definition map_error (op : Op) (key : string) (err : SdkError) : CloudError :=
  match err with
  | ServiceError code status _ => classify op key (default ""%string code) status
  | _ => transport_error generic_transport err
  end.

(** ** DynamoDB *)

(** [ddb_generic_transport]. *)
Definition ddb_generic_transport (code : string) (status : option Z) : CloudError :=
  let retryable := (one_of code ["ProvisionedThroughputExceededException"; "ThrottlingException";
                                 "RequestLimitExceeded"; "InternalServerError"; "LimitExceededException";
                                 "TransactionInProgressException"]%string
                    || retryable_status status)%bool in
  Transport retryable (OtherReason (error_text "DynamoDB" code status)).

(** [ddb_generic_error]. *)
Definition ddb_generic_error (err : SdkError) : CloudError :=
  match err with
  | ServiceError code status _ => ddb_generic_transport (default ""%string code) status
  | _ => transport_error ddb_generic_transport err
  end.

(** [ddb_is_put_condition_failed], [ddb_is_update_condition_failed]. *)
Definition ddb_is_condition_failed (err : SdkError) : bool :=
  match err with ServiceError _ _ ConditionalCheckFailedException => true | _ => false end.

(** [any_condition_check_failed]. *)
Definition any_condition_check_failed (reasons : list (option string)) : bool :=
  existsb (fun code => bool_decide (code = Some "ConditionalCheckFailed"%string)) reasons.

(** [map_put_item_error]. *)
Definition map_put_item_error (key : string) (err : SdkError) : CloudError :=
  if ddb_is_condition_failed err
  then ConditionFailed (OtherReason (key +:+ ": condition not satisfied"))
  else ddb_generic_error err.

(** [map_transact_write_items_error]. *)
Definition map_transact_write_items_error (err : SdkError) : CloudError :=
  match err with
  | ServiceError _ _ (TransactionCanceledException reasons) =>
      if any_condition_check_failed reasons
      then ConditionFailed (OtherReason "transact: at least one operation's condition did not hold")
      else ddb_generic_error err
  | _ => ddb_generic_error err
  end.

(** ** What the classification keeps apart *)

Lemma ddb_generic_error_transport err : exists b reason, ddb_generic_error err = Transport b reason.
Proof. destruct err; cbn; unfold ddb_generic_transport; eauto. Qed.

(** A failed condition is reported as one, and nothing else is. *)
Lemma map_put_item_error_condition key err :
  (exists reason, map_put_item_error key err = ConditionFailed reason) <->
  exists code status, err = ServiceError code status ConditionalCheckFailedException.
Proof.
  unfold map_put_item_error, ddb_is_condition_failed.
  destruct (ddb_generic_error_transport err) as (b & reason & Hg).
  destruct err as [| | | |code status [|reasons|]]; rewrite ?Hg; naive_solver.
Qed.

Lemma map_transact_error_condition err :
  (exists reason, map_transact_write_items_error err = ConditionFailed reason) <->
  exists code status reasons, err = ServiceError code status (TransactionCanceledException reasons) /\
    Some "ConditionalCheckFailed"%string ∈ reasons.
Proof.
  unfold map_transact_write_items_error.
  destruct (ddb_generic_error_transport err) as (b & reason & Hg).
  destruct err as [| | | |code status [|reasons|]]; rewrite ?Hg; try naive_solver.
  destruct (any_condition_check_failed reasons) eqn:Ea.
  - unfold any_condition_check_failed in Ea. apply existsb_exists in Ea as (c & Hc & He).
    apply bool_decide_eq_true in He. subst c. apply list_elem_of_In in Hc. naive_solver.
  - split; [by intros [? ?]|]. intros (? & ? & ? & [= <- <- <-] & Hin). exfalso.
    unfold any_condition_check_failed in Ea. apply not_true_iff_false in Ea. apply Ea.
    apply existsb_exists. eexists. split; [by apply list_elem_of_In|]. by apply bool_decide_eq_true.
Qed.

Ltac by_codes :=
  repeat match goal with |- context [if one_of ?c ?l then _ else _] => destruct (one_of c l) end.

(** Each outcome of an S3 call comes only from the operations that document it: a violation of
    retention from a guarded write or an extension, an existing object from a create-only write; and
    no S3 report is a failed condition. *)
Lemma map_error_by_op op key err :
  match map_error op key err with
  | NotFound k => k = key
  | AlreadyExists k => k = key /\ op = CreateOnlyWrite
  | RetentionViolation _ => op = RetentionGuardedWrite \/ op = RetentionExtend
  | ConditionFailed _ => False
  | Transport _ _ => True
  end.
Proof.
  destruct err as [| | | |code status detail]; cbn; try done.
  unfold classify, generic_transport. destruct op; by_codes; cbn; auto.
Qed.
