(* ===== verification/DynamoDb.v ===== *)
(** * The DynamoDB backend: [crates/cloud-aws/src/ddb_replicated_kv.rs]

    The key mapping, the value encoding, the construction of expressions with their placeholders, the
    requests and the five operations of [ReplicatedKv]. The SDK client is a parameter: a call is a
    function of a world, the table among other things, that answers and changes.

    An expression is kept as its syntax; the [_text] functions give the text that is sent. *)

From Stdlib Require Import Ascii.
From stdpp Require Import gmap sorting.
From S2P Require Import Prelude Format ParseInt KV KVContract AwsErrors.

Local Open Scope mtc_scope.
Local Open Scope Z_scope.

Definition PK_ATTR : string := "PK".
Definition SK_ATTR : string := "SK".
Definition VALUE_ATTR : string := "value".
Definition NOOP_MARKER_ATTR : string := "_touched".

(** ** Keys *)

(** [str::split_once] at a character. *)
Fixpoint split_once (sep : ascii) (s : string) : option (string * string) :=
  match s with
  | EmptyString => None
  | String c s' =>
      if decide (c = sep) then Some (""%string, s')
      else (fun '(a, b) => (String c a, b)) <$> split_once sep s'
  end.

(** [split_key]. *)
Definition split_key (key : Key) : result (string * string) CloudError :=
  match split_once "/"%char key with
  | Some (pk, sk) =>
      if (negb (String.eqb pk "") && negb (String.eqb sk ""))%bool then Ok (pk, sk)
      else Err (Transport false (OtherReason "key shape"))
  | None => Err (Transport false (OtherReason "key shape"))
  end.

(** [render_key]. *)
Definition render_key (pk sk : string) : Key := (pk +:+ "/" +:+ sk)%string.

(** ** Values *)

(** The SDK's [AttributeValue]: the shapes the code names, and the others. *)
Inductive AttributeValue :=
| ABool (b : bool)
| AN (s : string)
| AS (s : string)
| AB (bs : list byte)
| AM (m : gmap string AttributeValue)
| AOther (debug : string).

Abbreviation Attributes := (gmap string AttributeValue).

(** [encode_value]. *)
Fixpoint encode_value (value : Value) : AttributeValue :=
  match value with
  | VBool b => ABool b
  | VU64 n => AN (decimal n)
  | VString s => AS s
  | VBytes b => AB b
  | VMap m => AM (encode_value <$> m)
  end.

(** [malformed]. *)
Definition malformed (reason : string) : CloudError :=
  Transport false (OtherReason ("malformed stored item: " +:+ reason)).

(** [decode_value]: the loop over a map ends with an error at an entry that does not decode. *)
Fixpoint decode_value (attr : AttributeValue) : result Value CloudError :=
  match attr with
  | ABool b => Ok (VBool b)
  | AN s => match parse_uint 64 s with
            | Ok n => Ok (VU64 n)
            | Err _ => Err (malformed "stored N is not a valid u64")
            end
  | AS s => Ok (VString s)
  | AB b => Ok (VBytes b)
  | AM m =>
      let? out := map_fold (fun k v acc =>
        let? out := acc in
        let? v' := decode_value v in
        Ok (<[k := v']> out)) (Ok ∅) m in
      Ok (VMap out)
  | AOther _ => Err (malformed "unsupported DynamoDB attribute type")
  end.

(** [required_string_attr]. *)
Definition required_string_attr (item : Attributes) (attr : string) : result string CloudError :=
  match item !! attr with
  | Some (AS s) => Ok s
  | Some _ => Err (malformed "attribute is not a String")
  | None => Err (malformed "attribute is missing")
  end.

(** [decode_item_attrs]. *)
Definition decode_item_attrs (key : Key) (attrs : Attributes) : result Item CloudError :=
  let? raw := ok_or (attrs !! VALUE_ATTR) (malformed "item is missing the reserved attribute") in
  let? value := decode_value raw in
  Ok (MkItem key value).

(** [decode_scanned_item]. *)
Definition decode_scanned_item (attrs : Attributes) : result Item CloudError :=
  let? pk := required_string_attr attrs PK_ATTR in
  let? sk := required_string_attr attrs SK_ATTR in
  decode_item_attrs (render_key pk sk) attrs.

(** ** Expressions *)

(** A document path: a top-level attribute, or an entry of the map it holds. *)
Inductive Path :=
| PTop (name : string)
| PSub (name sub : string).

Inductive Clause :=
| AttributeNotExists (name : string)
| AttributeExists (name : string)
| PathEquals (path : Path) (value : string)
| IsNumber (path : Path) (num_type : string).

(** A condition expression: clauses joined by [AND], or the tautology. *)
Inductive ConditionExpression :=
| AllOf (clauses : list Clause)
| Tautology (name : string).

Inductive SetClause :=
| SetTo (path : Path) (value : string)
| SetPlus (path : Path) (delta : string).

(** An update expression: its [SET] and [REMOVE] clauses. *)
Record UpdateText := MkUpdateText { set_clauses : list SetClause; remove_clauses : list Path }.

(** The texts. *)
Definition path_text (p : Path) : string :=
  match p with PTop v => v | PSub v a => v +:+ "." +:+ a end.
Definition clause_text (c : Clause) : string :=
  match c with
  | AttributeNotExists pk => "attribute_not_exists(" +:+ pk +:+ ")"
  | AttributeExists pk => "attribute_exists(" +:+ pk +:+ ")"
  | PathEquals path val => path_text path +:+ " = " +:+ val
  | IsNumber path num_type =>
      "(attribute_exists(" +:+ path_text path +:+ ") AND attribute_type(" +:+ path_text path +:+ ", " +:+ num_type +:+ "))"
  end.
Definition condition_text (e : ConditionExpression) : string :=
  match e with
  | AllOf cs => String.concat " AND " (map clause_text cs)
  | Tautology pk => "attribute_exists(" +:+ pk +:+ ") OR attribute_not_exists(" +:+ pk +:+ ")"
  end.
Definition set_text (s : SetClause) : string :=
  match s with
  | SetTo path val => path_text path +:+ " = " +:+ val
  | SetPlus path delta => path_text path +:+ " = " +:+ path_text path +:+ " + " +:+ delta
  end.
Definition update_text (u : UpdateText) : string :=
  let sets := match set_clauses u with [] => "" | cs => "SET " +:+ String.concat ", " (map set_text cs) end in
  match remove_clauses u with
  | [] => sets
  | cs => sets +:+ (if String.eqb sets "" then "" else " ") +:+ "REMOVE " +:+ String.concat ", " (map path_text cs)
  end%string.

(** [ExprBuilder]; [next] has no bound. *)
Record ExprBuilder := MkExprBuilder {
  names : gmap string string;
  values : gmap string AttributeValue;
  next : Z;
  cached_value_alias : option string
}.
Definition ExprBuilder_default : ExprBuilder := MkExprBuilder ∅ ∅ 0 None.

(** [alias_name], [alias_value], [value_alias], [value_path]. *)
Definition alias_name (name : string) (b : ExprBuilder) : string * ExprBuilder :=
  let placeholder := ("#n" +:+ decimal (next b))%string in
  (placeholder, MkExprBuilder (<[placeholder := name]> (names b)) (values b) (next b + 1) (cached_value_alias b)).
Definition alias_value (value : AttributeValue) (b : ExprBuilder) : string * ExprBuilder :=
  let placeholder := (":v" +:+ decimal (next b))%string in
  (placeholder, MkExprBuilder (names b) (<[placeholder := value]> (values b)) (next b + 1) (cached_value_alias b)).
Definition value_alias (b : ExprBuilder) : string * ExprBuilder :=
  match cached_value_alias b with
  | Some alias => (alias, b)
  | None =>
      let '(alias, b) := alias_name VALUE_ATTR b in
      (alias, MkExprBuilder (names b) (values b) (next b) (Some alias))
  end.
Definition value_path (attribute : string) (b : ExprBuilder) : Path * ExprBuilder :=
  let '(v, b) := value_alias b in
  if String.eqb attribute "" then (PTop v, b)
  else let '(a, b) := alias_name attribute b in (PSub v a, b).

(** What an expression is sent with; [finish]. *)
Record Expr := MkExpr {
  condition : option ConditionExpression;
  expr_names : option (gmap string string);
  expr_values : option (gmap string AttributeValue)
}.
Definition no_expr : Expr := MkExpr None None None.
Definition finish (b : ExprBuilder) : option (gmap string string) * option (gmap string AttributeValue) :=
  (if Nat.eqb (size (names b)) 0 then None else Some (names b),
   if Nat.eqb (size (values b)) 0 then None else Some (values b)).

(** [condition_clause], [conditions_clause]. *)
Definition condition_clause (c : Condition) (b : ExprBuilder) : Clause * ExprBuilder :=
  match c with
  | NotExists => let '(pk, b) := alias_name PK_ATTR b in (AttributeNotExists pk, b)
  | Exists => let '(pk, b) := alias_name PK_ATTR b in (AttributeExists pk, b)
  | AttributeEquals attribute expected =>
      let '(path, b) := value_path attribute b in
      let '(val, b) := alias_value (encode_value expected) b in
      (PathEquals path val, b)
  end.
Fixpoint condition_clauses (conditions : list Condition) (b : ExprBuilder) : list Clause * ExprBuilder :=
  match conditions with
  | [] => ([], b)
  | c :: rest =>
      let '(clause, b) := condition_clause c b in
      let '(clauses, b) := condition_clauses rest b in
      (clause :: clauses, b)
  end.
Definition conditions_clause (conditions : list Condition) (b : ExprBuilder) : option (list Clause) * ExprBuilder :=
  match conditions with
  | [] => (None, b)
  | _ => let '(clauses, b) := condition_clauses conditions b in (Some clauses, b)
  end.

(** [update_clauses]: the body of its loop, with the three lists accumulated, and the whole. *)
Definition Clauses : Type := (list SetClause * list Path * list Clause)%type.
Definition update_clause (acc : Clauses * ExprBuilder) (action : UpdateAction) : Clauses * ExprBuilder :=
  let '((set_clauses, remove_clauses, increment_guards), b) := acc in
  match action with
  | SetAttribute attribute value =>
      let '(path, b) := value_path attribute b in
      let '(val, b) := alias_value (encode_value value) b in
      ((set_clauses ++ [SetTo path val], remove_clauses, increment_guards), b)
  | Increment attribute by_ =>
      let '(path, b) := value_path attribute b in
      let '(delta, b) := alias_value (AN (decimal by_)) b in
      let '(num_type, b) := alias_value (AS "N") b in
      ((set_clauses ++ [SetPlus path delta], remove_clauses, increment_guards ++ [IsNumber path num_type]), b)
  | Remove attribute =>
      let '(path, b) := value_path attribute b in
      ((set_clauses, remove_clauses ++ [path], increment_guards), b)
  end.
Definition update_clauses (expr : UpdateExpression) (b : ExprBuilder) : UpdateText * list Clause * ExprBuilder :=
  let '((set_clauses, remove_clauses, increment_guards), b) := fold_left update_clause expr (([], [], []), b) in
  match set_clauses, remove_clauses with
  | [], [] =>
      let '(marker, b) := alias_name NOOP_MARKER_ATTR b in
      let '(val, b) := alias_value (ABool true) b in
      (MkUpdateText [SetTo (PTop marker) val] [], increment_guards, b)
  | _, _ => (MkUpdateText set_clauses remove_clauses, increment_guards, b)
  end.

(** [update_condition_expression]. *)
Definition update_condition_expression (conditions : list Condition) (increment_guards : list Clause)
    (b : ExprBuilder) : ConditionExpression * ExprBuilder :=
  let '(pk, b) := alias_name PK_ATTR b in
  let '(caller, b) := conditions_clause conditions b in
  (AllOf (AttributeExists pk :: default [] caller ++ increment_guards), b).

(** The condition of a put or a delete: none is sent for no conditions. *)
Definition conditional_expr (conditions : list Condition) : Expr :=
  let '(condition_expr, b) := conditions_clause conditions ExprBuilder_default in
  match condition_expr with
  | Some expr => let '(names, values) := finish b in MkExpr (Some (AllOf expr)) names values
  | None => no_expr
  end.

(** The update and condition of an [atomic_update]-shaped write. *)
Definition update_expr (expr : UpdateExpression) (conditions : list Condition) : UpdateText * Expr :=
  let '(update_expr_str, increment_guards, b) := update_clauses expr ExprBuilder_default in
  let '(condition_expr, b) := update_condition_expression conditions increment_guards b in
  let '(names, values) := finish b in
  (update_expr_str, MkExpr (Some condition_expr) names values).

(** The condition of a [ConditionCheck], which needs one. *)
Definition check_expr (conditions : list Condition) : Expr :=
  let '(condition_expr, b) := conditions_clause conditions ExprBuilder_default in
  let '(condition_expr, b) :=
    match condition_expr with
    | Some expr => (AllOf expr, b)
    | None => let '(pk_alias, b) := alias_name PK_ATTR b in (Tautology pk_alias, b)
    end in
  let '(names, values) := finish b in
  MkExpr (Some condition_expr) names values.

(** ** Requests *)

(** The item a put writes. *)
Definition put_item_attrs (pk sk : string) (value : Value) : Attributes :=
  <[PK_ATTR := AS pk]> (<[SK_ATTR := AS sk]> (<[VALUE_ATTR := encode_value value]> ∅)).

(** [TransactWriteItem]. *)
Inductive TransactItem :=
| TPut (item : Attributes) (expr : Expr)
| TUpdate (pk sk : string) (update : UpdateText) (expr : Expr)
| TDelete (pk sk : string) (expr : Expr)
| TCheck (pk sk : string) (expr : Expr).

(** [build_transact_item]; the SDK's builders fail only for a missing required field. *)
Definition build_transact_item (op : Operation) : result TransactItem CloudError :=
  match op with
  | Put key value conditions =>
      let? k := split_key key in
      Ok (TPut (put_item_attrs k.1 k.2 value) (conditional_expr conditions))
  | Update key expr conditions =>
      let? k := split_key key in
      let '(update, e) := update_expr expr conditions in
      Ok (TUpdate k.1 k.2 update e)
  | Delete key conditions =>
      let? k := split_key key in
      Ok (TDelete k.1 k.2 (conditional_expr conditions))
  | ConditionCheck key conditions =>
      let? k := split_key key in
      Ok (TCheck k.1 k.2 (check_expr conditions))
  end.

(** The loop of [transact]. *)
Fixpoint build_transact_items (ops : list Operation) : result (list TransactItem) CloudError :=
  match ops with
  | [] => Ok []
  | op :: rest =>
      let? item := build_transact_item op in
      let? items := build_transact_items rest in
      Ok (item :: items)
  end.

(** What a query asks of the partition key and the sort key's prefix, with its placeholders. *)
Record KeyCondition := MkKeyCondition {
  pk_alias : string;
  pk_val : string;
  sk_begins_with : option (string * string);
  kc_names : option (gmap string string);
  kc_values : option (gmap string AttributeValue)
}.
Definition key_condition_text (k : KeyCondition) : string :=
  (pk_alias k +:+ " = " +:+ pk_val k +:+
   match sk_begins_with k with
   | Some (sk_alias, sk_val) => " AND begins_with(" +:+ sk_alias +:+ ", " +:+ sk_val +:+ ")"
   | None => ""
   end)%string.
Definition key_condition (pk sk_prefix : string) : KeyCondition :=
  let '(pk_alias, b) := alias_name PK_ATTR ExprBuilder_default in
  let '(pk_val, b) := alias_value (AS pk) b in
  let '(begins, b) :=
    if String.eqb sk_prefix "" then (None, b)
    else let '(sk_alias, b) := alias_name SK_ATTR b in
         let '(sk_val, b) := alias_value (AS sk_prefix) b in
         (Some (sk_alias, sk_val), b) in
  let '(names, values) := finish b in
  MkKeyCondition pk_alias pk_val begins names values.

(** A scan's filter, [begins_with(alias, value)]. *)
Record Filter := MkFilter {
  filter_alias : string;
  filter_val : string;
  filter_names : option (gmap string string);
  filter_values : option (gmap string AttributeValue)
}.
Definition scan_filter (prefix : string) : Filter :=
  let '(pk_alias, b) := alias_name PK_ATTR ExprBuilder_default in
  let '(pk_val, b) := alias_value (AS prefix) b in
  let '(names, values) := finish b in
  MkFilter pk_alias pk_val names values.

(** ** The operations *)

(** The SDK client's calls on one table. Reads of an item and of a partition are consistent. *)
Record Client (W : Type) := MkClient {
  get_item : string -> string -> M W SdkError (option Attributes);
  put_item : Attributes -> Expr -> M W SdkError unit;
  update_item : string -> string -> UpdateText -> Expr -> M W SdkError (option Attributes);
  transact_write_items : list TransactItem -> M W SdkError unit;
  query_page : KeyCondition -> option Attributes -> M W SdkError (list Attributes * option Attributes);
  scan_page : option Filter -> option Attributes -> M W SdkError (list Attributes * option Attributes)
}.
Arguments get_item {W}.
Arguments put_item {W}.
Arguments update_item {W}.
Arguments transact_write_items {W}.
Arguments query_page {W}.
Arguments scan_page {W}.

Section Backend.
Context {W : Type} (client : Client W).

(** [get]. *)
Definition ddb_get (key : Key) : M W CloudError Item :=
  let! k := lift (split_key key) in
  let! output := Prelude.map_error ddb_generic_error (get_item client k.1 k.2) in
  match output with
  | None => throw (NotFound key)
  | Some attrs => lift (decode_item_attrs key attrs)
  end.

(** [put]. *)
Definition ddb_put (key : Key) (value : Value) (conditions : list Condition) : M W CloudError unit :=
  let! k := lift (split_key key) in
  Prelude.map_error (map_put_item_error key)
    (put_item client (put_item_attrs k.1 k.2 value) (conditional_expr conditions)).

(** [atomic_update]: a failed condition is classified by a read. *)
Definition ddb_atomic_update (key : Key) (expr : UpdateExpression) (conditions : list Condition) : M W CloudError Item :=
  let! k := lift (split_key key) in
  let '(update, e) := update_expr expr conditions in
  fun w =>
    match update_item client k.1 k.2 update e w with
    | (Ok None, w') => (Err (malformed "UpdateItem ReturnValues=ALL_NEW returned no attributes"), w')
    | (Ok (Some attrs), w') => (decode_item_attrs key attrs, w')
    | (Err err, w') =>
        if ddb_is_condition_failed err then
          match ddb_get key w' with
          | (Err (NotFound k), w'') => (Err (NotFound k), w'')
          | (Ok _, w'') =>
              (Err (ConditionFailed (OtherReason (key +:+ ": condition or increment precondition not satisfied"))), w'')
          | (Err other, w'') => (Err other, w'')
          end
        else (Err (ddb_generic_error err), w')
    end.

(** [transact]. *)
Definition ddb_transact (ops : list Operation) : M W CloudError unit :=
  let! items := lift (build_transact_items ops) in
  Prelude.map_error map_transact_write_items_error (transact_write_items client items).

(** The decoding of a page's items. *)
Fixpoint decode_items (items : list Attributes) : result (list Item) CloudError :=
  match items with
  | [] => Ok []
  | attrs :: rest =>
      let? item := decode_scanned_item attrs in
      let? items := decode_items rest in
      Ok (item :: items)
  end.

(** The loop of [query_within_partition] and of [scan]; [None] is a loop still running. *)
Fixpoint drain_pages (fetch : option Attributes -> M W SdkError (list Attributes * option Attributes)) (fuel : nat)
    (exclusive_start_key : option Attributes) (out : list Item) (w : W) : option (result (list Item) CloudError * W) :=
  match fuel with
  | O => None
  | S fuel' =>
      match fetch exclusive_start_key w with
      | (Err err, w') => Some (Err (ddb_generic_error err), w')
      | (Ok (items, last_evaluated_key), w') =>
          match decode_items items with
          | Err e => Some (Err e, w')
          | Ok decoded =>
              match last_evaluated_key with
              | None => Some (Ok (out ++ decoded), w')
              | Some key => drain_pages fetch fuel' (Some key) (out ++ decoded) w'
              end
          end
      end
  end.

(** [query_within_partition], [scan]. *)
Definition query_within_partition (fuel : nat) (pk sk_prefix : string) (w : W) :=
  drain_pages (query_page client (key_condition pk sk_prefix)) fuel None [] w.
Definition scan (fuel : nat) (pk_prefix : option string) (w : W) :=
  drain_pages (scan_page client (scan_filter <$> pk_prefix)) fuel None [] w.

(** [query]; [items.sort_by] is a stable sort by the rendered key. *)
Definition item_le (a b : Item) : Prop := String.le (item_key a) (item_key b).
#[local] Instance item_le_dec : RelDecision item_le := fun a b => decide (String.le (item_key a) (item_key b)).
Definition ddb_query (fuel : nat) (prefix : string) (w : W) : option (result (list Item) CloudError * W) :=
  '(items, w) ← match split_once "/"%char prefix with
                | Some (pk, sk_prefix) => query_within_partition fuel pk sk_prefix w
                | None => if String.eqb prefix "" then scan fuel None w else scan fuel (Some prefix) w
                end;
  Some (match items with Ok items => Ok (merge_sort item_le items) | Err e => Err e end, w).

(** The backend's answer to a call of the contract. *)
Definition ddb_call {A} (fuel : nat) (c : Call A) (w : W) : option (result A CloudError * W) :=
  match c in Call A return option (result A CloudError * W) with
  | CGet k => Some (ddb_get k w)
  | CPut k v cs => Some (ddb_put k v cs w)
  | CUpdate k e cs => Some (ddb_atomic_update k e cs w)
  | CTransact ops => Some (ddb_transact ops w)
  | CQuery p => ddb_query fuel p w
  end.
End Backend.
