(* ===== verification/DynamoDbFacts.v ===== *)
(** * The pieces of the DynamoDB backend

    Keys split in one way and render back; every value is decoded from its encoding; the
    placeholders of a request are fresh, defined and used. *)

From Stdlib Require Import Ascii.
From stdpp Require Import gmap.
From S2P Require Import Prelude Format ParseInt KV KVContract AwsErrors DynamoDb.

Local Open Scope mtc_scope.
Local Open Scope Z_scope.

(** ** Keys *)

Lemma split_once_Some sep s a b :
  split_once sep s = Some (a, b) <-> s = (a +:+ String sep b)%string /\ avoids sep a.
Proof.
  revert a. induction s as [|c s IH]; intros a; simpl.
  - split; [done|]. by intros [E _]; destruct a.
  - case_decide as Hc.
    + subst c. split.
      * by intros [= <- <-].
      * intros [E Ha]. destruct a as [|d a]; [by injection E as ->|]. injection E as -> _. by destruct Ha.
    + rewrite fmap_Some. split.
      * intros ([a' b'] & Hs & [= -> ->]). apply IH in Hs as [-> Ha]. done.
      * intros [E Ha]. destruct a as [|d a]; [by injection E as ->|]. injection E as -> E. destruct Ha as [_ Ha].
        exists (a, b). split; [by apply IH|done].
Qed.

(** What a table's key may be: both parts non-empty, no separator in the first. *)
Definition key_ok (k : string * string) : Prop := k.1 <> ""%string /\ k.2 <> ""%string /\ avoids "/"%char k.1.

Lemma split_key_Ok key pk sk : split_key key = Ok (pk, sk) <-> key = render_key pk sk /\ key_ok (pk, sk).
Proof.
  unfold split_key, render_key, key_ok. simpl.
  destruct (split_once "/"%char key) as [[a b]|] eqn:E.
  - apply split_once_Some in E as [-> Ha].
    destruct (String.eqb_spec a ""), (String.eqb_spec b ""); simpl; subst; split; try done.
    + intros (E & ? & ? & Hp). by destruct (split_at_str _ _ _ _ _ Ha Hp E) as [<- _].
    + intros (E & ? & ? & Hp). by destruct (split_at_str _ _ _ _ _ Ha Hp E) as [<- _].
    + intros (E & ? & ? & Hp). by destruct (split_at_str _ _ _ _ _ Ha Hp E) as [_ <-].
    + by intros [= <- <-].
    + intros (E & ? & ? & Hp). by destruct (split_at_str _ _ _ _ _ Ha Hp E) as [-> ->].
  - split; [done|]. intros (-> & _ & _ & Hp). exfalso.
    assert (split_once "/"%char (pk +:+ "/" +:+ sk) = Some (pk, sk)) as E' by (by apply split_once_Some).
    congruence.
Qed.

Lemma split_key_Err key e : split_key key = Err e -> exists reason, e = Transport false reason.
Proof. unfold split_key. destruct (split_once _ _) as [[a b]|]; [destruct (_ && _)%bool|]; naive_solver. Qed.

Lemma render_key_inj k1 k2 : key_ok k1 -> key_ok k2 -> render_key k1.1 k1.2 = render_key k2.1 k2.2 -> k1 = k2.
Proof.
  intros H1 H2 E. destruct k1 as [p1 s1], k2 as [p2 s2].
  assert (split_key (render_key p1 s1) = Ok (p1, s1)) as E1 by (by apply split_key_Ok).
  assert (split_key (render_key p2 s2) = Ok (p2, s2)) as E2 by (by apply split_key_Ok).
  simpl in E. congruence.
Qed.

(** ** Values *)

(** The values of the source's type: every number is a [u64]. *)
Inductive value_wf : Value -> Prop :=
| wf_bool b : value_wf (VBool b)
| wf_u64 n : in_u64 n -> value_wf (VU64 n)
| wf_string s : value_wf (VString s)
| wf_bytes bs : value_wf (VBytes bs)
| wf_map m : (forall k v, m !! k = Some v -> value_wf v) -> value_wf (VMap m).

Fixpoint value_size (v : Value) : nat :=
  match v with VMap m => S (map_fold (fun _ v n => value_size v + n)%nat 0%nat m) | _ => 1 end.

Lemma value_size_entry (m : gmap string Value) k v :
  m !! k = Some v -> (value_size v <= map_fold (fun _ v n => value_size v + n)%nat 0%nat m)%nat.
Proof.
  revert k v. apply (map_fold_weak_ind (fun n m => forall k v, m !! k = Some v -> (value_size v <= n)%nat)).
  - done.
  - intros i x m' n Hi IH k v [[-> ->]|[_ Hk]]%lookup_insert_Some; [lia|]. specialize (IH k v Hk). lia.
Qed.

(** Induction that reaches the entries of a map. *)
Lemma value_ind' (P : Value -> Prop) :
  (forall b, P (VBool b)) -> (forall n, P (VU64 n)) -> (forall s, P (VString s)) -> (forall bs, P (VBytes bs)) ->
  (forall m, (forall k v, m !! k = Some v -> P v) -> P (VMap m)) -> forall v, P v.
Proof.
  intros Hb Hn Hs Hy Hm v. remember (value_size v) as n eqn:E. revert v E.
  induction (lt_wf n) as [n _ IH]. intros [b|z|s|bs|m] ->; [done..|].
  apply Hm. intros k v Hk. eapply IH; [|done]. apply value_size_entry in Hk. simpl. lia.
Qed.

(** Every value is decoded from its encoding. *)
Lemma decode_encode v : value_wf v -> decode_value (encode_value v) = Ok v.
Proof.
  induction v as [b|n|s|bs|m IH] using value_ind'; intros Hw; inversion Hw as [|n' Hn| | |m' Hm]; subst; try done.
  - simpl. by rewrite parse_uint_decimal.
  - simpl. rewrite map_fold_fmap.
    assert (forall k v, m !! k = Some v -> decode_value (encode_value v) = Ok v) as Hd by eauto.
    clear IH Hw Hm.
    enough (map_fold (fun k v acc => let? out := acc in let? v' := decode_value (encode_value v) in
      Ok (<[k := v']> out)) (Ok ∅ : result (gmap string Value) CloudError) m = Ok m) as E.
    { unfold compose. by rewrite E. }
    revert Hd. apply (map_fold_weak_ind (fun r m =>
      (forall k v, m !! k = Some v -> decode_value (encode_value v) = Ok v) -> r = Ok m)); [done|].
    intros i x m' r Hi IH Hd. rewrite IH; [by rewrite (Hd i x (lookup_insert_eq _ _ _))|].
    intros k v Hk. apply (Hd k v). rewrite lookup_insert_ne; [done|]. intros ->. congruence.
Qed.

Lemma encode_inj v1 v2 : value_wf v1 -> value_wf v2 -> encode_value v1 = encode_value v2 -> v1 = v2.
Proof. intros H1 H2 E. apply decode_encode in H1, H2. rewrite E in H1. congruence. Qed.

(** ** Placeholders *)

#[global] Arguments alias_name : simpl never.
#[global] Arguments alias_value : simpl never.
#[global] Arguments value_alias : simpl never.
#[global] Arguments value_path : simpl never.

Definition name_placeholder (i : Z) : string := ("#n" +:+ decimal i)%string.
Definition value_placeholder (i : Z) : string := (":v" +:+ decimal i)%string.

(** A builder's placeholders are numbered below [next]; its cached alias is the value attribute's. *)
Record builder_ok (b : ExprBuilder) : Prop := MkBuilderOk {
  ok_next : 0 <= next b;
  ok_names : forall ph n, names b !! ph = Some n -> exists i, 0 <= i < next b /\ ph = name_placeholder i;
  ok_values : forall ph x, values b !! ph = Some x -> exists i, 0 <= i < next b /\ ph = value_placeholder i;
  ok_alias : forall a, cached_value_alias b = Some a -> names b !! a = Some VALUE_ATTR
}.

(** [b'] is a valid builder that adds to [b]; its new placeholders are among [N] and [V], all of which
    it defines. *)
Record grows (b b' : ExprBuilder) (N V : gset string) : Prop := MkGrows {
  grows_ok : builder_ok b';
  grows_names : names b ⊆ names b';
  grows_values : values b ⊆ values b';
  grows_dom_names : dom (names b') = dom (names b) ∪ N;
  grows_dom_values : dom (values b') = dom (values b) ∪ V
}.

Lemma builder_default_ok : builder_ok ExprBuilder_default.
Proof. split; try done. Qed.

Lemma grows_refl b : builder_ok b -> grows b b ∅ ∅.
Proof. split; set_solver. Qed.

Lemma grows_trans b1 b2 b3 N1 N2 V1 V2 :
  grows b1 b2 N1 V1 -> grows b2 b3 N2 V2 -> grows b1 b3 (N1 ∪ N2) (V1 ∪ V2).
Proof.
  intros [H1 H2 H3 H4 H5] [H1' H2' H3' H4' H5']. split; [done|by etransitivity..| |].
  - rewrite H4', H4. set_solver.
  - rewrite H5', H5. set_solver.
Qed.

Lemma grows_eq b b' N V N' V' : grows b b' N V -> N = N' -> V = V' -> grows b b' N' V'.
Proof. by intros ? -> ->. Qed.

Lemma decimal_placeholder_inj pre i j :
  0 <= i -> 0 <= j -> (pre +:+ decimal i)%string = (pre +:+ decimal j)%string -> i = j.
Proof. intros Hi Hj E. apply app_inv_head_str in E. by apply decimal_inj. Qed.

Lemma alias_name_spec n b ph b' :
  alias_name n b = (ph, b') -> builder_ok b -> grows b b' {[ph]} ∅ /\ names b' !! ph = Some n /\ values b' = values b.
Proof.
  unfold alias_name. intros [= <- <-] [H1 H2 H3 H4]. simpl.
  assert (names b !! name_placeholder (next b) = None) as Hf.
  { destruct (names b !! name_placeholder (next b)) as [m|] eqn:E; [|done].
    apply H2 in E as (i & Hi & E). apply decimal_placeholder_inj in E; lia. }
  split_and!; [|by rewrite lookup_insert_eq|done]. split; simpl.
  - split; simpl; [lia| | |].
    + intros ph m [[<- _]|[_ Hm]]%lookup_insert_Some; [by exists (next b); split; [lia|]|].
      apply H2 in Hm as (i & ? & ->). exists i. split; [lia|done].
    + intros ph x Hx. apply H3 in Hx as (i & ? & ->). exists i. split; [lia|done].
    + intros a Ha. specialize (H4 a Ha). rewrite lookup_insert_ne; [done|]. intros E.
      fold (name_placeholder (next b)) in E. rewrite E in Hf. congruence.
  - by apply insert_subseteq.
  - done.
  - rewrite dom_insert_L. set_solver.
  - set_solver.
Qed.

Lemma alias_value_spec x b ph b' :
  alias_value x b = (ph, b') -> builder_ok b -> grows b b' ∅ {[ph]} /\ values b' !! ph = Some x /\ names b' = names b.
Proof.
  unfold alias_value. intros [= <- <-] [H1 H2 H3 H4]. simpl.
  assert (values b !! value_placeholder (next b) = None) as Hf.
  { destruct (values b !! value_placeholder (next b)) as [m|] eqn:E; [|done].
    apply H3 in E as (i & Hi & E). apply decimal_placeholder_inj in E; lia. }
  split_and!; [|by rewrite lookup_insert_eq|done]. split; simpl.
  - split; simpl; [lia| | |done].
    + intros ph m Hm. apply H2 in Hm as (i & ? & ->). exists i. split; [lia|done].
    + intros ph m [[<- _]|[_ Hm]]%lookup_insert_Some; [by exists (next b); split; [lia|]|].
      apply H3 in Hm as (i & ? & ->). exists i. split; [lia|done].
  - done.
  - by apply insert_subseteq.
  - set_solver.
  - rewrite dom_insert_L. set_solver.
Qed.

Lemma value_alias_spec b ph b' :
  value_alias b = (ph, b') -> builder_ok b ->
  grows b b' {[ph]} ∅ /\ names b' !! ph = Some VALUE_ATTR /\ values b' = values b.
Proof.
  unfold value_alias. intros E Hb. destruct (cached_value_alias b) as [a|] eqn:Ec.
  - injection E as <- <-. pose proof (ok_alias b Hb _ Ec) as Ha. split_and!; [|done|done].
    apply elem_of_dom_2 in Ha. split; [done|done|done|set_solver|set_solver].
  - destruct (alias_name VALUE_ATTR b) as [a b1] eqn:Ea. injection E as <- <-.
    destruct (alias_name_spec _ _ _ _ Ea Hb) as ([[H1 H2 H3 H4] H5 H6 H7 H8] & Hn & Hv). split_and!; [|done|done].
    split; simpl; try done. split; simpl; try done. by intros ? [= <-].
Qed.

(** ** What an expression means

    DynamoDB's documented reading of the syntax, once the placeholders are resolved. A document path
    is a list of attribute names. *)

#[export] Instance attribute_value_eq_dec : EqDecision AttributeValue.
Proof.
  refine (fix go (x y : AttributeValue) : Decision (x = y) :=
    let _ : EqDecision AttributeValue := @go in
    match x, y with
    | ABool a, ABool b => cast_if (decide (a = b))
    | AN a, AN b => cast_if (decide (a = b))
    | AS a, AS b => cast_if (decide (a = b))
    | AB a, AB b => cast_if (decide (a = b))
    | AM a, AM b => cast_if (decide (a = b))
    | AOther a, AOther b => cast_if (decide (a = b))
    | _, _ => right _
    end); clear dependent go; abstract congruence.
Defined.

Definition resolve (ns : gmap string string) (p : Path) : option (list string) :=
  match p with
  | PTop v => n ← ns !! v; Some [n]
  | PSub v a => n ← ns !! v; k ← ns !! a; Some [n; k]
  end.

Definition read_path (item : Attributes) (dp : list string) : option AttributeValue :=
  match dp with
  | [n] => item !! n
  | [n; k] => match item !! n with Some (AM m) => m !! k | _ => None end
  | _ => None
  end.

Definition type_name (x : AttributeValue) : string :=
  match x with ABool _ => "BOOL" | AN _ => "N" | AS _ => "S" | AB _ => "B" | AM _ => "M" | AOther _ => "?" end.

(** A clause on an item; a missing item has no attributes. *)
Definition clause_holds (ns : gmap string string) (vs : gmap string AttributeValue) (item : Attributes) (c : Clause) : bool :=
  match c with
  | AttributeNotExists ph => match ns !! ph with Some n => bool_decide (item !! n = None) | None => false end
  | AttributeExists ph => match ns !! ph with Some n => bool_decide (is_Some (item !! n)) | None => false end
  | PathEquals p v =>
      match resolve ns p, vs !! v with
      | Some dp, Some x => bool_decide (read_path item dp = Some x)
      | _, _ => false
      end
  | IsNumber p t =>
      match resolve ns p, vs !! t with
      | Some dp, Some (AS ty) =>
          match read_path item dp with Some x => String.eqb (type_name x) ty | None => false end
      | _, _ => false
      end
  end.

Definition condition_holds (ns : gmap string string) (vs : gmap string AttributeValue) (item : Attributes)
    (e : ConditionExpression) : bool :=
  match e with
  | AllOf cs => forallb (clause_holds ns vs item) cs
  | Tautology ph => match ns !! ph with Some _ => true | None => false end
  end.

Definition expr_holds (e : Expr) (item : Attributes) : bool :=
  match condition e with
  | None => true
  | Some c => condition_holds (default ∅ (expr_names e)) (default ∅ (expr_values e)) item c
  end.

(** The placeholders an expression mentions. *)
Definition path_names (p : Path) : gset string := match p with PTop v => {[v]} | PSub v a => {[v; a]} end.
Definition clause_names (c : Clause) : gset string :=
  match c with
  | AttributeNotExists ph | AttributeExists ph => {[ph]}
  | PathEquals p _ | IsNumber p _ => path_names p
  end.
Definition clause_values (c : Clause) : gset string :=
  match c with
  | AttributeNotExists _ | AttributeExists _ => ∅
  | PathEquals _ v | IsNumber _ v => {[v]}
  end.
Definition condition_names (e : ConditionExpression) : gset string :=
  match e with AllOf cs => ⋃ (clause_names <$> cs) | Tautology ph => {[ph]} end.
Definition condition_values (e : ConditionExpression) : gset string :=
  match e with AllOf cs => ⋃ (clause_values <$> cs) | Tautology _ => ∅ end.
Definition set_names (s : SetClause) : gset string := match s with SetTo p _ | SetPlus p _ => path_names p end.
Definition set_values (s : SetClause) : gset string := match s with SetTo _ v | SetPlus _ v => {[v]} end.
Definition update_names (u : UpdateText) : gset string :=
  ⋃ (set_names <$> set_clauses u) ∪ ⋃ (path_names <$> remove_clauses u).
Definition update_values (u : UpdateText) : gset string := ⋃ (set_values <$> set_clauses u).

(** ** Conditions *)

(** An item as the backend stores a value: its key, and the value's encoding. *)
Definition item_rep (k : string * string) (v : Value) (item : Attributes) : Prop :=
  item !! PK_ATTR = Some (AS k.1) /\ item !! SK_ATTR = Some (AS k.2) /\
  item !! VALUE_ATTR = Some (encode_value v) /\ value_wf v.
Definition opt_rep (k : string * string) (v : option Value) (item : option Attributes) : Prop :=
  match v, item with
  | Some v, Some item => item_rep k v item
  | None, None => True
  | _, _ => False
  end.

(** The conditions carry values of the source's type. *)
Definition condition_wf (c : Condition) : Prop :=
  match c with AttributeEquals _ v => value_wf v | _ => True end.

Lemma read_value_path k v item attribute :
  opt_rep k v item ->
  read_path (default ∅ item) (if String.eqb attribute "" then [VALUE_ATTR] else [VALUE_ATTR; attribute]) =
  encode_value <$> attribute_value v attribute.
Proof.
  intros Hr. unfold attribute_value. destruct v as [v|], item as [item|]; try done.
  - destruct Hr as (_ & _ & Hv & _). simpl.
    destruct (String.eqb attribute ""); simpl; rewrite Hv; [done|].
    destruct v as [| | | |m]; simpl; try done. by rewrite lookup_fmap.
  - simpl. by destruct (String.eqb attribute "").
Qed.

Lemma attribute_value_wf v a x :
  (forall y, v = Some y -> value_wf y) -> attribute_value v a = Some x -> value_wf x.
Proof.
  intros Hw. unfold attribute_value. destruct v as [v|]; [|done].
  destruct (String.eqb a ""); [by intros [= <-]; apply Hw|].
  destruct v as [| | | |m]; try done. intros Hx. specialize (Hw _ eq_refl). inversion Hw; subst. eauto.
Qed.

Lemma opt_rep_wf k v item y : opt_rep k v item -> v = Some y -> value_wf y.
Proof. intros Hr ->. destruct item; [|done]. by destruct Hr as (_ & _ & _ & ?). Qed.

Lemma value_path_spec a b p b' :
  value_path a b = (p, b') -> builder_ok b ->
  grows b b' (path_names p) ∅ /\
  forall ns, names b' ⊆ ns -> resolve ns p = Some (if String.eqb a "" then [VALUE_ATTR] else [VALUE_ATTR; a]).
Proof.
  unfold value_path. destruct (value_alias b) as [v b1] eqn:Ev. intros E Hb.
  destruct (value_alias_spec _ _ _ Ev Hb) as (G1 & Hn1 & _).
  destruct (String.eqb a ""); [|destruct (alias_name a b1) as [ph b2] eqn:Ea]; injection E as <- <-.
  - split; [done|]. intros ns Hs. simpl. by rewrite (lookup_weaken _ _ _ _ Hn1 Hs).
  - destruct (alias_name_spec _ _ _ _ Ea (grows_ok _ _ _ _ G1)) as (G2 & Hn2 & _). split.
    + eapply grows_eq; [by eapply grows_trans|done|set_solver].
    + intros ns Hs. simpl.
      assert (names b2 !! v = Some VALUE_ATTR) as Hn1' by (eapply lookup_weaken; [exact Hn1|apply (grows_names _ _ _ _ G2)]).
      by rewrite (lookup_weaken _ _ _ _ Hn1' Hs), (lookup_weaken _ _ _ _ Hn2 Hs).
Qed.

Lemma condition_clause_spec c b cl b' :
  condition_clause c b = (cl, b') -> builder_ok b -> condition_wf c ->
  grows b b' (clause_names cl) (clause_values cl) /\
  forall ns vs k v item, names b' ⊆ ns -> values b' ⊆ vs -> opt_rep k v item ->
    clause_holds ns vs (default ∅ item) cl = true <-> holds v c.
Proof.
  assert (forall k v item, opt_rep k v item ->
    (default ∅ item !! PK_ATTR = None <-> v = None) /\ (is_Some (default ∅ item !! PK_ATTR) <-> is_Some v)) as Hpk.
  { intros k [v|] [item|] Hr; try done; simpl.
    - destruct Hr as (-> & _). naive_solver.
    - rewrite lookup_empty. split; [done|]. split; by intros [? ?]. }
  destruct c as [| |a e]; cbn [condition_clause].
  - destruct (alias_name PK_ATTR b) as [ph b1] eqn:Ea. intros [= <- <-] Hb _.
    destruct (alias_name_spec _ _ _ _ Ea Hb) as (G & Hn & _). split; [exact G|].
    intros ns vs k v item Hs _ Hr. simpl. rewrite (lookup_weaken _ _ _ _ Hn Hs), bool_decide_eq_true.
    by apply (Hpk k).
  - destruct (alias_name PK_ATTR b) as [ph b1] eqn:Ea. intros [= <- <-] Hb _.
    destruct (alias_name_spec _ _ _ _ Ea Hb) as (G & Hn & _). split; [exact G|].
    intros ns vs k v item Hs _ Hr. simpl. rewrite (lookup_weaken _ _ _ _ Hn Hs), bool_decide_eq_true.
    by apply (Hpk k).
  - destruct (value_path a b) as [p b1] eqn:Ep. destruct (alias_value (encode_value e) b1) as [x b2] eqn:Ex.
    intros [= <- <-] Hb Hw. destruct (value_path_spec _ _ _ _ Ep Hb) as (G1 & Hp).
    destruct (alias_value_spec _ _ _ _ Ex (grows_ok _ _ _ _ G1)) as (G2 & Hx & Hnn). split.
    { eapply grows_eq; [by eapply grows_trans|simpl; set_solver|simpl; set_solver]. }
    intros ns vs k v item Hs Hv Hr. simpl. rewrite Hnn in Hs. rewrite (Hp ns Hs), (lookup_weaken _ _ _ _ Hx Hv).
    rewrite bool_decide_eq_true, (read_value_path k v item a Hr), fmap_Some. split.
    + intros (y & Hy & He). rewrite Hy. f_equal. symmetry. apply encode_inj; [done| |done].
      eapply attribute_value_wf; [|exact Hy]. intros z. by apply (opt_rep_wf k v item).
    + intros Hy. by exists e.
Qed.

Lemma condition_clauses_spec cs b cls b' :
  condition_clauses cs b = (cls, b') -> builder_ok b -> Forall condition_wf cs ->
  grows b b' (⋃ (clause_names <$> cls)) (⋃ (clause_values <$> cls)) /\
  forall ns vs k v item, names b' ⊆ ns -> values b' ⊆ vs -> opt_rep k v item ->
    forallb (clause_holds ns vs (default ∅ item)) cls = true <-> Forall (holds v) cs.
Proof.
  revert b cls b'. induction cs as [|c cs IH]; intros b cls b'; simpl.
  - intros [= <- <-] Hb _. split; [by apply grows_refl|]. intros. simpl. by rewrite Forall_nil.
  - destruct (condition_clause c b) as [cl b1] eqn:E1. destruct (condition_clauses cs b1) as [cls1 b2] eqn:E2.
    intros [= <- <-] Hb [Hc Hw]%Forall_cons.
    destruct (condition_clause_spec _ _ _ _ E1 Hb Hc) as (G1 & H1).
    destruct (IH _ _ _ E2 (grows_ok _ _ _ _ G1) Hw) as (G2 & H2). split.
    { simpl. by eapply grows_trans. }
    intros ns vs k v item Hs Hv Hr. simpl. rewrite andb_true_iff, Forall_cons.
    rewrite (H1 ns vs k v item), (H2 ns vs k v item); [done|done|done|done| | |done].
    + etransitivity; [apply (grows_names _ _ _ _ G2)|done].
    + etransitivity; [apply (grows_values _ _ _ _ G2)|done].
Qed.

(** ** Updates *)

Definition action_attribute (act : UpdateAction) : string :=
  match act with SetAttribute a _ | Increment a _ | Remove a => a end.
Definition action_wf (act : UpdateAction) : Prop :=
  action_attribute act <> ""%string /\
  match act with SetAttribute _ v => value_wf v | Increment _ n => in_u64 n | Remove _ => True end.

Definition is_set (act : UpdateAction) : bool := match act with Remove _ => false | _ => true end.
Definition is_remove (act : UpdateAction) : bool := match act with Remove _ => true | _ => false end.
Definition is_increment (act : UpdateAction) : bool := match act with Increment _ _ => true | _ => false end.

(** Which clause an action becomes, given what the placeholders stand for. *)
Definition set_means (ns : gmap string string) (vs : gmap string AttributeValue) (s : SetClause) (act : UpdateAction) : Prop :=
  match s, act with
  | SetTo p v, SetAttribute a x => resolve ns p = Some [VALUE_ATTR; a] /\ vs !! v = Some (encode_value x)
  | SetPlus p d, Increment a n => resolve ns p = Some [VALUE_ATTR; a] /\ vs !! d = Some (AN (decimal n))
  | _, _ => False
  end.
Definition remove_means (ns : gmap string string) (p : Path) (act : UpdateAction) : Prop :=
  match act with Remove a => resolve ns p = Some [VALUE_ATTR; a] | _ => False end.
Definition guard_means (ns : gmap string string) (vs : gmap string AttributeValue) (g : Clause) (act : UpdateAction) : Prop :=
  match g, act with
  | IsNumber p t, Increment a _ => resolve ns p = Some [VALUE_ATTR; a] /\ vs !! t = Some (AS "N")
  | _, _ => False
  end.

Lemma resolve_mono ns ns' p dp : ns ⊆ ns' -> resolve ns p = Some dp -> resolve ns' p = Some dp.
Proof.
  intros Hs. destruct p as [v|v a]; simpl.
  - destruct (ns !! v) as [n|] eqn:E; [|done]. by rewrite (lookup_weaken _ _ _ _ E Hs).
  - destruct (ns !! v) as [n|] eqn:E; [|done]. rewrite (lookup_weaken _ _ _ _ E Hs). simpl.
    destruct (ns !! a) as [m|] eqn:E'; [|done]. by rewrite (lookup_weaken _ _ _ _ E' Hs).
Qed.

(** The meaning of all the clauses so far. *)
Record clauses_mean (ns : gmap string string) (vs : gmap string AttributeValue) (acc : Clauses) (done : list UpdateAction) : Prop := {
  mean_sets : Forall2 (set_means ns vs) acc.1.1 (filter is_set done);
  mean_removes : Forall2 (remove_means ns) acc.1.2 (filter is_remove done);
  mean_guards : Forall2 (guard_means ns vs) acc.2 (filter is_increment done)
}.

Lemma clauses_mean_mono ns ns' vs vs' acc done :
  ns ⊆ ns' -> vs ⊆ vs' -> clauses_mean ns vs acc done -> clauses_mean ns' vs' acc done.
Proof.
  intros Hn Hv [H1 H2 H3]. split.
  - eapply Forall2_impl; [exact H1|]. intros [p v|p v] [a x|a n|a]; simpl; try done;
      intros [? ?]; (split; [by eapply resolve_mono|by eapply lookup_weaken]).
  - eapply Forall2_impl; [exact H2|]. intros p [a x|a n|a]; simpl; try done. by apply resolve_mono.
  - eapply Forall2_impl; [exact H3|]. intros [ | | |p v] [a x|a n|a]; simpl; try done;
      intros [? ?]; (split; [by eapply resolve_mono|by eapply lookup_weaken]).
Qed.

Definition clauses_names (acc : Clauses) : gset string :=
  ⋃ (set_names <$> acc.1.1) ∪ ⋃ (path_names <$> acc.1.2) ∪ ⋃ (clause_names <$> acc.2).
Definition clauses_values (acc : Clauses) : gset string :=
  ⋃ (set_values <$> acc.1.1) ∪ ⋃ (clause_values <$> acc.2).

Definition update_inv (b0 : ExprBuilder) (acc : Clauses) (b : ExprBuilder) (done : list UpdateAction) : Prop :=
  grows b0 b (clauses_names acc) (clauses_values acc) /\ clauses_mean (names b) (values b) acc done.

Lemma update_inv_step b0 acc b b' done act acc' N V :
  update_inv b0 acc b done -> grows b b' N V ->
  clauses_names acc' = clauses_names acc ∪ N -> clauses_values acc' = clauses_values acc ∪ V ->
  (clauses_mean (names b') (values b') acc done -> clauses_mean (names b') (values b') acc' (done ++ [act])) ->
  update_inv b0 acc' b' (done ++ [act]).
Proof.
  intros [G Hm] G' HN HV Hm'. split.
  - rewrite HN, HV. by eapply grows_trans.
  - apply Hm'. eapply clauses_mean_mono; [apply (grows_names _ _ _ _ G')|apply (grows_values _ _ _ _ G')|done].
Qed.

Lemma filter_snoc {A} (p : A -> bool) (l : list A) (x : A) :
  filter p (l ++ [x]) = filter p l ++ (if p x then [x] else []).
Proof. rewrite filter_app. f_equal. rewrite filter_cons. destruct (p x); simpl; by rewrite ?decide_True, ?decide_False by done. Qed.

Lemma update_clause_inv b0 acc b done act acc' b' :
  update_clause (acc, b) act = (acc', b') -> action_wf act ->
  update_inv b0 acc b done -> update_inv b0 acc' b' (done ++ [act]).
Proof.
  intros E [Ha _] Hi. assert (builder_ok b) as Hb by apply Hi. destruct acc as [[sets removes] guards].
  assert (String.eqb (action_attribute act) "" = false) as Hne by (by apply String.eqb_neq).
  destruct act as [a x|a n|a]; cbn [update_clause] in E; simpl in Hne;
    destruct (value_path a b) as [p b1] eqn:Ep; destruct (value_path_spec _ _ _ _ Ep Hb) as (G1 & Hp);
    rewrite Hne in Hp.
  - destruct (alias_value (encode_value x) b1) as [v b2] eqn:Ev. injection E as <- <-.
    destruct (alias_value_spec _ _ _ _ Ev (grows_ok _ _ _ _ G1)) as (G2 & Hv & Hn).
    eapply update_inv_step; [exact Hi|by eapply grows_trans| | |].
    + unfold clauses_names. simpl. rewrite fmap_app, union_list_app_L. simpl. set_solver.
    + unfold clauses_values. simpl. rewrite fmap_app, union_list_app_L. simpl. set_solver.
    + intros [H1 H2 H3]. split; simpl; rewrite filter_snoc; simpl; rewrite ?app_nil_r; try done.
      apply Forall2_app; [done|]. repeat constructor; [|done]. apply Hp. by rewrite Hn.
  - destruct (alias_value (AN (decimal n)) b1) as [v b2] eqn:Ev. destruct (alias_value (AS "N") b2) as [t b3] eqn:Et.
    injection E as <- <-.
    destruct (alias_value_spec _ _ _ _ Ev (grows_ok _ _ _ _ G1)) as (G2 & Hv & Hn).
    destruct (alias_value_spec _ _ _ _ Et (grows_ok _ _ _ _ G2)) as (G3 & Ht & Hn').
    assert (values b3 !! v = Some (AN (decimal n))) as Hv' by (eapply lookup_weaken; [exact Hv|apply (grows_values _ _ _ _ G3)]).
    eapply update_inv_step; [exact Hi|eapply grows_trans; [by eapply grows_trans|exact G3]| | |].
    + unfold clauses_names. simpl. rewrite !fmap_app, !union_list_app_L. simpl. set_solver.
    + unfold clauses_values. simpl. rewrite !fmap_app, !union_list_app_L. simpl. set_solver.
    + intros [H1 H2 H3]. split; simpl; rewrite filter_snoc; simpl; rewrite ?app_nil_r; try done.
      * apply Forall2_app; [done|]. repeat constructor; [|done]. apply Hp. by rewrite Hn', Hn.
      * apply Forall2_app; [done|]. repeat constructor; [|done]. apply Hp. by rewrite Hn', Hn.
  - injection E as <- <-. eapply update_inv_step; [exact Hi|exact G1| | |].
    + unfold clauses_names. simpl. rewrite fmap_app, union_list_app_L. simpl. set_solver.
    + unfold clauses_values. simpl. set_solver.
    + intros [H1 H2 H3]. split; simpl; rewrite filter_snoc; simpl; rewrite ?app_nil_r; try done.
      apply Forall2_app; [done|]. repeat constructor. by apply Hp.
Qed.

Lemma update_clauses_fold expr b0 acc b done acc' b' :
  fold_left update_clause expr (acc, b) = (acc', b') -> Forall action_wf expr ->
  update_inv b0 acc b done -> update_inv b0 acc' b' (done ++ expr).
Proof.
  revert acc b done. induction expr as [|act expr IH]; intros acc b done; cbn [fold_left].
  - intros [= <- <-] _. by rewrite app_nil_r.
  - intros E [Ha Hw]%Forall_cons Hi. destruct (update_clause (acc, b) act) as [acc1 b1] eqn:E1.
    replace (done ++ act :: expr) with ((done ++ [act]) ++ expr) by (by rewrite <- app_assoc).
    eapply IH; [exact E|done|]. by eapply update_clause_inv.
Qed.

(** ** What a request's expressions mean *)

(** What DynamoDB checks of an expression before evaluating it: every placeholder mentioned is
    defined, every definition is used, and no map is sent empty. *)
Definition expr_valid (u : option UpdateText) (e : Expr) : Prop :=
  dom (default ∅ (expr_names e)) =
    from_option condition_names ∅ (condition e) ∪ from_option update_names ∅ u /\
  dom (default ∅ (expr_values e)) =
    from_option condition_values ∅ (condition e) ∪ from_option update_values ∅ u /\
  expr_names e <> Some ∅ /\ expr_values e <> Some ∅.

Lemma finish_spec b ns vs :
  finish b = (ns, vs) -> default ∅ ns = names b /\ default ∅ vs = values b /\ ns <> Some ∅ /\ vs <> Some ∅.
Proof.
  unfold finish. intros [= <- <-].
  destruct (Nat.eqb_spec (size (names b)) 0) as [En|En], (Nat.eqb_spec (size (values b)) 0) as [Ev|Ev];
    rewrite map_size_empty_iff in En; rewrite map_size_empty_iff in Ev; simpl; split_and!; congruence.
Qed.

Lemma conditional_expr_spec cs :
  Forall condition_wf cs ->
  expr_valid None (conditional_expr cs) /\
  forall k v item, opt_rep k v item -> expr_holds (conditional_expr cs) (default ∅ item) = true <-> Forall (holds v) cs.
Proof.
  intros Hw. unfold conditional_expr, conditions_clause. destruct cs as [|c cs].
  { split; [by split_and!|]. intros. unfold expr_holds. simpl. by rewrite Forall_nil. }
  destruct (condition_clauses (c :: cs) _) as [cls b] eqn:E. destruct (finish b) as [ns vs] eqn:Ef.
  destruct (condition_clauses_spec _ _ _ _ E builder_default_ok Hw) as ([_ _ _ Hn Hv] & Hh).
  destruct (finish_spec _ _ _ Ef) as (En & Ev & ? & ?). split.
  - unfold expr_valid. simpl. rewrite En, Ev, Hn, Hv. split_and!; try done; set_solver.
  - intros k v item Hr. unfold expr_holds. simpl. rewrite En, Ev. by apply (Hh _ _ k).
Qed.

Lemma check_expr_spec cs :
  Forall condition_wf cs ->
  expr_valid None (check_expr cs) /\
  forall k v item, opt_rep k v item -> expr_holds (check_expr cs) (default ∅ item) = true <-> Forall (holds v) cs.
Proof.
  intros Hw. destruct cs as [|c cs].
  { unfold check_expr, conditions_clause. destruct (alias_name PK_ATTR _) as [ph b] eqn:Ea.
    destruct (alias_name_spec _ _ _ _ Ea builder_default_ok) as ([_ _ _ Hn Hv] & Hph & _).
    destruct (finish b) as [ns vs] eqn:Ef. destruct (finish_spec _ _ _ Ef) as (En & Ev & ? & ?). split.
    - unfold expr_valid. simpl. rewrite En, Ev, Hn, Hv. split_and!; try done; set_solver.
    - intros k v item _. unfold expr_holds. simpl. rewrite En, Hph. by rewrite Forall_nil. }
  pose proof (conditional_expr_spec (c :: cs) Hw) as Hc. unfold conditional_expr, conditions_clause in Hc.
  unfold check_expr, conditions_clause.
  by destruct (condition_clauses (c :: cs) _) as [cls b].
Qed.

(** The effect of an update on an item: every right-hand side and path is read from the item as it
    was; a path into what is not a map, an operand that is not a number and a sum of more than 38
    digits are refused. *)
Definition ddb_number (x : AttributeValue) : option Z :=
  match x with
  | AN s => match parse_uint 127 s with Ok n => Some n | Err _ => None end
  | _ => None
  end.
Definition set_value (ns : gmap string string) (vs : gmap string AttributeValue) (item : Attributes) (s : SetClause) :
    option (list string * AttributeValue) :=
  match s with
  | SetTo p v => dp ← resolve ns p; x ← vs !! v; Some (dp, x)
  | SetPlus p d =>
      dp ← resolve ns p;
      a ← read_path item dp ≫= ddb_number;
      b ← vs !! d ≫= ddb_number;
      if a + b <? 10 ^ 38 then Some (dp, AN (decimal (a + b))) else None
  end.
Definition write_path (item : Attributes) (w : list string * AttributeValue) : option Attributes :=
  match w.1 with
  | [n] => Some (<[n := w.2]> item)
  | [n; k] => match item !! n with Some (AM m) => Some (<[n := AM (<[k := w.2]> m)]> item) | _ => None end
  | _ => None
  end.
Definition remove_path (item : Attributes) (dp : list string) : option Attributes :=
  match dp with
  | [n] => Some (delete n item)
  | [n; k] => match item !! n with Some (AM m) => Some (<[n := AM (delete k m)]> item) | _ => None end
  | _ => None
  end.
Definition apply_update (ns : gmap string string) (vs : gmap string AttributeValue) (u : UpdateText) (item : Attributes) :
    option Attributes :=
  sets ← mapM (set_value ns vs item) (set_clauses u);
  removes ← mapM (resolve ns) (remove_clauses u);
  item ← foldl (fun o w => o ≫= fun it => write_path it w) (Some item) sets;
  foldl (fun o dp => o ≫= fun it => remove_path it dp) (Some item) removes.

(** The paths an update writes; none may be equal to another or lead into it. *)
Definition update_paths (ns : gmap string string) (u : UpdateText) : list (option (list string)) :=
  map (fun s => resolve ns (match s with SetTo p _ | SetPlus p _ => p end)) (set_clauses u) ++
  map (resolve ns) (remove_clauses u).
Definition paths_disjoint (ps : list (option (list string))) : Prop :=
  forall i j p q, i <> j -> ps !! i = Some (Some p) -> ps !! j = Some (Some q) -> ~ p `prefix_of` q.

(** ** The effect of the backend's updates *)

(** What the actions set, reading the map as it was, and what they remove. *)
Definition set_entry (m : gmap string Value) (act : UpdateAction) : option (string * Value) :=
  match act with
  | SetAttribute a x => Some (a, x)
  | Increment a n => match m !! a with Some (VU64 c) => Some (a, VU64 (c + n)) | _ => None end
  | Remove _ => None
  end.
Definition removed (act : UpdateAction) : option string :=
  match act with Remove a => Some a | _ => None end.
Definition updated_map (m : gmap string Value) (expr : UpdateExpression) : gmap string Value :=
  foldl (fun m a => delete a m) (foldl (fun m e => <[e.1 := e.2]> m) m (omap (set_entry m) expr)) (omap removed expr).

(** Every increment finds a number and does not overflow. *)
Definition increments_ok (m : gmap string Value) (expr : UpdateExpression) : Prop :=
  forall a n, Increment a n ∈ expr -> exists c, m !! a = Some (VU64 c) /\ c + n < 2 ^ 64.

Lemma foldl_insert_skip (a : string) (l : list (string * Value)) (m : gmap string Value) :
  a ∉ l.*1 -> foldl (fun m e => <[e.1 := e.2]> m) m l !! a = m !! a.
Proof.
  revert m. induction l as [|[b x] l IH]; intros m Ha; simpl; [done|].
  rewrite IH by set_solver. rewrite lookup_insert_ne; [done|]. set_solver.
Qed.

Lemma foldl_delete_skip (a : string) (l : list string) (m : gmap string Value) :
  a ∉ l -> foldl (fun m a => delete a m) m l !! a = m !! a.
Proof.
  revert m. induction l as [|b l IH]; intros m Ha; simpl; [done|].
  rewrite IH by set_solver. rewrite lookup_delete_ne; [done|]. set_solver.
Qed.

Lemma entries_attributes m (expr : list UpdateAction) (a : string) : a ∈ (omap (set_entry m) expr).*1 -> a ∈ action_attribute <$> expr.
Proof.
  intros ([b x] & -> & (act & Hact & He)%list_elem_of_omap)%list_elem_of_fmap.
  apply list_elem_of_fmap. exists act. split; [|done].
  destruct act as [c y|c n|c]; simpl in He; by repeat case_match; simplify_eq/=.
Qed.

Lemma removed_attributes (expr : list UpdateAction) (a : string) : a ∈ omap removed expr -> a ∈ action_attribute <$> expr.
Proof.
  intros (act & Hact & He)%list_elem_of_omap. apply list_elem_of_fmap. exists act. split; [|done].
  destruct act; simpl in He; by simplify_eq/=.
Qed.

Lemma attr_after_skip a v (l r : list UpdateAction) : a ∉ action_attribute <$> l -> attr_after a v (l ++ r) = attr_after a v r.
Proof.
  induction l as [|act l IH]; [done|]. intros Ha. simpl.
  destruct act as [b x|b n|b]; simpl in Ha; (rewrite decide_False by set_solver); apply IH; set_solver.
Qed.

(** Applied one attribute at a time, as the contract has it, the actions give that map. *)
Lemma updates_updated_map m expr :
  NoDup (action_attribute <$> expr) -> increments_ok m expr -> updates (VMap m) expr (VMap (updated_map m expr)).
Proof.
  intros Hd Hi. exists m, (updated_map m expr). split_and!; [done|done|]. intros a.
  destruct (decide (a ∈ action_attribute <$> expr)) as [Hin|Hout].
  - apply list_elem_of_fmap in Hin as (act & -> & Hin). apply list_elem_of_split in Hin as (l1 & l2 & ->).
    rewrite fmap_app, fmap_cons in Hd. apply NoDup_app in Hd as (_ & Hd1 & Hd2).
    apply NoDup_cons in Hd2 as [Hd2 _].
    assert (action_attribute act ∉ action_attribute <$> l1) as Hl1 by (intros H'; apply (Hd1 _ H'); left).
    rewrite attr_after_skip by done.
    assert (forall v, attr_after (action_attribute act) v l2 = Some v) as Hl2.
    { intros v. by rewrite <- (app_nil_r l2), attr_after_skip. }
    unfold updated_map. rewrite !omap_app, !foldl_app.
    pose proof (entries_attributes m l1 (action_attribute act)) as He1.
    pose proof (entries_attributes m l2 (action_attribute act)) as He2.
    pose proof (removed_attributes l1 (action_attribute act)) as Hr1.
    pose proof (removed_attributes l2 (action_attribute act)) as Hr2.
    destruct act as [a x|a n|a]; simpl in *.
    + rewrite decide_True by done. rewrite Hl2. do 2 rewrite foldl_delete_skip by auto.
      rewrite foldl_insert_skip by auto. by rewrite lookup_insert_eq.
    + destruct (Hi a n) as (c & Hc & Hlt); [set_solver|]. rewrite Hc. simpl.
      rewrite decide_True by done. rewrite decide_True by done. rewrite Hl2.
      do 2 rewrite foldl_delete_skip by auto. rewrite foldl_insert_skip by auto. by rewrite lookup_insert_eq.
    + rewrite decide_True by done. rewrite Hl2. rewrite foldl_delete_skip by auto. by rewrite lookup_delete_eq.
  - rewrite <- (app_nil_r expr) at 1. rewrite attr_after_skip by done. simpl. unfold updated_map.
    rewrite foldl_delete_skip by (intros ?%removed_attributes; done).
    by rewrite foldl_insert_skip by (intros ?%entries_attributes; done).
Qed.
