(* ===== verification/DynamoDbRefines.v ===== *)
(** * What DynamoDB makes of the backend's requests

    The effect of the update expressions the backend builds, what DynamoDB documents of its calls as
    laws of a server, and how a table represents the items of the store. *)

From Stdlib Require Import Ascii.
From stdpp Require Import gmap sorting.
From S2P Require Import Prelude Format ParseInt KV KVContract AwsErrors DynamoDb DynamoDbFacts.

Local Open Scope mtc_scope.
Local Open Scope Z_scope.

(** ** The effect of an update *)

Lemma filter_bool_cons {A} (p : A -> bool) (x : A) (l : list A) :
  filter p (x :: l) = if p x then x :: filter p l else filter p l.
Proof. rewrite filter_cons. destruct (p x); [by rewrite decide_True|by rewrite decide_False by (simpl; tauto)]. Qed.

Lemma omap_filter_set m (expr : list UpdateAction) : omap (set_entry m) (filter is_set expr) = omap (set_entry m) expr.
Proof.
  induction expr as [|act expr IH]; [done|]. rewrite filter_bool_cons.
  destruct act; csimpl; by rewrite IH.
Qed.

Lemma omap_filter_remove (expr : list UpdateAction) : omap removed (filter is_remove expr) = omap removed expr.
Proof.
  induction expr as [|act expr IH]; [done|]. rewrite filter_bool_cons.
  destruct act; csimpl; by rewrite IH.
Qed.

Definition encode_entry (e : string * Value) : list string * AttributeValue := ([VALUE_ATTR; e.1], encode_value e.2).

Lemma u64_number n : in_u64 n -> ddb_number (AN (decimal n)) = Some n.
Proof. unfold in_uint. intros Hn. simpl. by rewrite parse_uint_decimal by lia. Qed.

(** The right-hand sides of the set clauses. *)
Lemma set_values_spec ns vs k m item sets acts :
  item_rep k (VMap m) item -> Forall2 (set_means ns vs) sets acts -> Forall action_wf acts -> increments_ok m acts ->
  mapM (set_value ns vs item) sets = Some (encode_entry <$> omap (set_entry m) acts).
Proof.
  intros Hr H2 Hw. induction H2 as [|s act sets acts Hs H2 IH]; intros Hi; [done|].
  apply Forall_cons in Hw as [[_ Ha] Hw].
  assert (increments_ok m acts) as Hi' by (intros a n Hin; apply (Hi a n); by right).
  specialize (IH Hw Hi'). simpl. rewrite IH.
  destruct s as [p v|p d], act as [a x|a n|a]; try done; destruct Hs as [Hp Hv]; simpl; rewrite Hp; simpl.
  - by rewrite Hv.
  - destruct (Hi a n) as (c & Hc & Hlt); [by left|].
    destruct Hr as (_ & _ & Hval & Hwf). rewrite Hval. simpl. rewrite lookup_fmap, Hc. simpl.
    assert (in_u64 c) as Hcw by (inversion Hwf as [| | | |m' Hm]; subst; specialize (Hm _ _ Hc); by inversion Hm).
    pose proof (u64_number c Hcw) as E1. pose proof (u64_number n Ha) as E2. simpl in E1. rewrite E1, Hv. simpl in *.
    rewrite E2. simpl. destruct (Z.ltb_spec (c + n) (10 ^ 38)); [done|lia].
Qed.

Lemma item_rep_write k m item a x :
  item_rep k (VMap m) item -> value_wf x ->
  exists item', write_path item (encode_entry (a, x)) = Some item' /\ item_rep k (VMap (<[a := x]> m)) item'.
Proof.
  intros (H1 & H2 & H3 & H4) Hx. unfold write_path. simpl. rewrite H3. simpl. eexists. split; [done|].
  split_and!; rewrite ?lookup_insert_ne by done; try done.
  - by rewrite lookup_insert_eq, <- fmap_insert.
  - constructor. inversion H4 as [| | | |m' Hm]; subst. intros b y [[<- <-]|[_ Hy]]%lookup_insert_Some; eauto.
Qed.

Lemma item_rep_remove k m item a :
  item_rep k (VMap m) item ->
  exists item', remove_path item [VALUE_ATTR; a] = Some item' /\ item_rep k (VMap (delete a m)) item'.
Proof.
  intros (H1 & H2 & H3 & H4). unfold remove_path. rewrite H3. simpl. eexists. split; [done|].
  split_and!; rewrite ?lookup_insert_ne by done; try done.
  - by rewrite lookup_insert_eq, <- fmap_delete.
  - constructor. inversion H4 as [| | | |m' Hm]; subst. intros b y [_ Hy]%lookup_delete_Some; eauto.
Qed.

Lemma writes_spec k m item (es : list (string * Value)) :
  item_rep k (VMap m) item -> Forall (fun e => value_wf e.2) es ->
  exists item', foldl (fun o w => o ≫= fun it => write_path it w) (Some item) (encode_entry <$> es) = Some item' /\
    item_rep k (VMap (foldl (fun m e => <[e.1 := e.2]> m) m es)) item'.
Proof.
  revert m item. induction es as [|[a x] es IH]; intros m item Hr Hw; [by exists item|].
  apply Forall_cons in Hw as [Hx Hw]. destruct (item_rep_write k m item a x Hr Hx) as (item1 & E1 & H1).
  rewrite fmap_cons. cbn [foldl mbind option_bind]. rewrite E1. by apply IH.
Qed.

Lemma removes_spec k m item (dels : list string) :
  item_rep k (VMap m) item ->
  exists item', foldl (fun o dp => o ≫= fun it => remove_path it dp) (Some item) ((fun a => [VALUE_ATTR; a]) <$> dels) = Some item' /\
    item_rep k (VMap (foldl (fun m a => delete a m) m dels)) item'.
Proof.
  revert m item. induction dels as [|a dels IH]; intros m item Hr; [by exists item|].
  destruct (item_rep_remove k m item a Hr) as (item1 & E1 & H1).
  rewrite fmap_cons. cbn [foldl mbind option_bind]. rewrite E1. by apply IH.
Qed.

Lemma set_entries_wf k m item expr :
  item_rep k (VMap m) item -> Forall action_wf expr -> increments_ok m expr ->
  Forall (fun e => value_wf e.2) (omap (set_entry m) expr).
Proof.
  intros (_ & _ & _ & Hm) Hw Hi. apply Forall_forall. intros [a x] (act & Hact & He)%list_elem_of_omap.
  rewrite Forall_forall in Hw. destruct (Hw act Hact) as [_ Ha].
  destruct act as [b y|b n|b]; simpl in He; [by simplify_eq| |done].
  destruct (Hi b n Hact) as (c & Hc & Hlt). rewrite Hc in He. simplify_eq/=. constructor.
  inversion Hm as [| | | |m' Hm']; subst. specialize (Hm' _ _ Hc). inversion Hm'; subst.
  unfold in_uint in *. lia.
Qed.

(** The clauses the backend builds, on a stored map, have the effect of the contract's update. *)
Lemma apply_clauses_spec ns vs acc (expr : list UpdateAction) k m item :
  clauses_mean ns vs acc expr -> Forall action_wf expr -> increments_ok m expr -> item_rep k (VMap m) item ->
  exists item', apply_update ns vs (MkUpdateText acc.1.1 acc.1.2) item = Some item' /\
    item_rep k (VMap (updated_map m expr)) item'.
Proof.
  intros [H1 H2 _] Hw Hi Hr. unfold apply_update. cbn [set_clauses remove_clauses].
  rewrite (set_values_spec ns vs k m item _ _ Hr H1).
  2: { rewrite Forall_forall in *. intros x [_ Hx]%list_elem_of_filter. by apply Hw. }
  2: { intros a n [_ Hin]%list_elem_of_filter. by apply Hi. }
  rewrite omap_filter_set. cbn [mbind option_bind].
  assert (mapM (resolve ns) acc.1.2 = Some ((fun a => [VALUE_ATTR; a]) <$> omap removed expr)) as ->.
  { rewrite <- omap_filter_remove. clear -H2. induction H2 as [|p act ps acts Hp H2 IH]; [done|].
    destruct act as [a x|a n|a]; try done. simpl in *. by rewrite Hp, IH. }
  cbn [mbind option_bind].
  destruct (writes_spec k m item (omap (set_entry m) expr) Hr) as (item1 & -> & Hr1); [by eapply set_entries_wf|].
  cbn [mbind option_bind]. by apply removes_spec.
Qed.

(** On what is not a map, any clause is refused. *)
Lemma apply_clauses_not_map ns vs acc (expr : list UpdateAction) k v item :
  clauses_mean ns vs acc expr -> expr <> [] -> (forall m, v <> VMap m) -> item_rep k v item ->
  apply_update ns vs (MkUpdateText acc.1.1 acc.1.2) item = None.
Proof.
  intros [H1 H2 _] Hne Hm (_ & _ & Hv & _). unfold apply_update. cbn [set_clauses remove_clauses].
  assert (forall a, read_path item [VALUE_ATTR; a] = None) as Hread.
  { intros a. simpl. rewrite Hv. destruct v; try done. by destruct (Hm m). }
  assert (forall l, foldl (fun o w => o ≫= fun it => write_path it w) None l = None) as HnW by (by induction l).
  assert (forall l, foldl (fun o dp => o ≫= fun it => remove_path it dp) None l = None) as HnR by (by induction l).
  destruct (mapM (set_value ns vs item) acc.1.1) as [sets|] eqn:Es; [|done]. cbn [mbind option_bind].
  destruct (mapM (resolve ns) acc.1.2) as [dps|] eqn:Ed; [|done]. cbn [mbind option_bind].
  destruct (filter is_set expr) as [|act acts] eqn:Ef.
  - apply Forall2_nil_inv_r in H1. rewrite H1 in Es. injection Es as <-. cbn [foldl].
    assert (filter is_remove expr <> []) as Hr.
    { destruct expr as [|act expr]; [done|]. rewrite filter_bool_cons in *. by destruct act. }
    destruct (filter is_remove expr) as [|act acts]; [done|].
    inversion H2 as [|p ? ps ? Hp H2' E1]; subst. rewrite <- E1 in Ed.
    destruct act as [a x|a n|a]; try done. simpl in Hp, Ed. rewrite Hp in Ed. simpl in Ed.
    destruct (mapM (resolve ns) ps); [|done]. injection Ed as <-. simpl.
    rewrite Hv. destruct v; try (simpl; apply HnR). by destruct (Hm m).
  - inversion H1 as [|s ? ss ? Hs H1' E1]; subst. rewrite <- E1 in Es. simpl in Es.
    destruct s as [p x|p d], act as [a y|a n|a]; try done; destruct Hs as [Hp Hx]; simpl in Es; rewrite Hp in Es; simpl in Es.
    + rewrite Hx in Es. simpl in Es. destruct (mapM _ ss); [|done]. injection Es as <-. simpl.
      unfold write_path at 2. simpl. rewrite Hv. destruct v; try (simpl; by rewrite HnW). by destruct (Hm m).
    + simpl in Hread. by rewrite Hread in Es.
Qed.

(** ** What an update request means *)

Definition increments_numeric (v : option Value) (expr : UpdateExpression) : Prop :=
  forall a n, Increment a n ∈ expr -> exists c, attribute_value v a = Some (VU64 c).

Lemma guards_spec ns vs k v item guards (acts : list UpdateAction) :
  Forall2 (guard_means ns vs) guards acts -> Forall action_wf acts -> Forall is_increment acts -> opt_rep k v item ->
  forallb (clause_holds ns vs (default ∅ item)) guards = true <-> increments_numeric v acts.
Proof.
  intros H2 Hw Hinc Hr. induction H2 as [|g act gs acts Hg H2 IH].
  { split; [|done]. intros _ a n Hin. by apply not_elem_of_nil in Hin. }
  apply Forall_cons in Hw as [[Hne _] Hw]. apply Forall_cons in Hinc as [Hi Hinc]. cbn [forallb].
  rewrite andb_true_iff, (IH Hw Hinc). destruct g as [| | |p t], act as [a x|a n|a]; try done.
  destruct Hg as [Hp Ht]. cbn [clause_holds]. rewrite Hp, Ht.
  pose proof (read_value_path k v item a Hr) as Hread. simpl in Hne.
  rewrite (proj2 (String.eqb_neq a "")) in Hread by done. rewrite Hread. split.
  - intros [Hn Hrest] b m [[= -> ->]|Hin]%elem_of_cons; [|by eapply Hrest].
    destruct (attribute_value v a) as [[| | | |]|]; simpl in Hn; try done. by eexists.
  - intros Hall. split; [|by intros b m Hin; eapply Hall; right].
    destruct (Hall a n) as (c & ->); [by left|]. done.
Qed.

Lemma update_condition_spec cs guards b cond b' :
  update_condition_expression cs guards b = (cond, b') -> builder_ok b -> Forall condition_wf cs ->
  exists ph cls, cond = AllOf (AttributeExists ph :: cls ++ guards) /\
    grows b b' ({[ph]} ∪ ⋃ (clause_names <$> cls)) (⋃ (clause_values <$> cls)) /\
    forall ns vs k v item, names b' ⊆ ns -> values b' ⊆ vs -> opt_rep k v item ->
      (clause_holds ns vs (default ∅ item) (AttributeExists ph) = true <-> is_Some v) /\
      (forallb (clause_holds ns vs (default ∅ item)) cls = true <-> Forall (holds v) cs).
Proof.
  unfold update_condition_expression. destruct (alias_name PK_ATTR b) as [ph b1] eqn:Ea.
  destruct (conditions_clause cs b1) as [caller b2] eqn:Ec. intros [= <- <-] Hb Hw.
  destruct (alias_name_spec _ _ _ _ Ea Hb) as (G1 & Hph & _).
  assert (condition_clauses cs b1 = (default [] caller, b2)) as Ec'.
  { unfold conditions_clause in Ec. destruct cs as [|c cs]; [by injection Ec as <- <-|].
    destruct (condition_clauses (c :: cs) b1). by injection Ec as <- <-. }
  destruct (condition_clauses_spec _ _ _ _ Ec' (grows_ok _ _ _ _ G1) Hw) as (G2 & H2).
  exists ph, (default [] caller). split_and!; [done| |].
  - eapply grows_eq; [by eapply grows_trans|done|set_solver].
  - intros ns vs k v item Hn Hv Hr. split; [|by apply (H2 ns vs k)].
    assert (ns !! ph = Some PK_ATTR) as Hp.
    { eapply lookup_weaken; [|exact Hn]. eapply lookup_weaken; [exact Hph|apply (grows_names _ _ _ _ G2)]. }
    simpl. rewrite Hp, bool_decide_eq_true.
    destruct v as [v|], item as [item|]; try done; simpl; [destruct Hr as (-> & _); by split|].
    rewrite lookup_empty. split; by intros [? ?].
Qed.

(** The update and its clauses: those of the actions, or the marker for none. *)
Lemma update_clauses_spec (expr : list UpdateAction) u guards b :
  update_clauses expr ExprBuilder_default = (u, guards, b) -> Forall action_wf expr ->
  grows ExprBuilder_default b (update_names u ∪ ⋃ (clause_names <$> guards)) (update_values u ∪ ⋃ (clause_values <$> guards)) /\
  Forall2 (guard_means (names b) (values b)) guards (filter is_increment expr) /\
  (expr <> [] -> clauses_mean (names b) (values b) (set_clauses u, remove_clauses u, guards) expr) /\
  (expr = [] -> exists ph v, u = MkUpdateText [SetTo (PTop ph) v] [] /\
     names b !! ph = Some NOOP_MARKER_ATTR /\ values b !! v = Some (ABool true)).
Proof.
  unfold update_clauses. destruct (fold_left update_clause expr _) as [[[sets removes] gs] b1] eqn:Ef.
  intros E Hw.
  assert (update_inv ExprBuilder_default ([], [], []) ExprBuilder_default []) as H0.
  { split; [|by split]. eapply grows_eq; [apply grows_refl, builder_default_ok|done|done]. }
  pose proof (update_clauses_fold expr _ _ _ _ _ _ Ef Hw H0) as [G Hm]. cbn [app] in Hm.
  assert (sets = [] -> removes = [] -> expr = []) as Hnil.
  { intros -> ->. destruct Hm as [H1 H2 _]. simpl in *. destruct expr as [|act expr]; [done|].
    rewrite filter_bool_cons in H1, H2. destruct act; simpl in *; inversion H1; inversion H2. }
  assert (expr = [] -> sets = [] /\ removes = [] /\ gs = []) as Hnil'.
  { intros ->. destruct Hm as [H1 H2 H3]. simpl in *.
    split_and!; by eapply Forall2_nil_inv_r. }
  destruct (decide (expr = [])) as [He|He].
  - destruct (Hnil' He) as (-> & -> & ->). destruct (alias_name NOOP_MARKER_ATTR b1) as [ph b2] eqn:Ea.
    destruct (alias_value (ABool true) b2) as [v b3] eqn:Ev. injection E as <- <- <-.
    destruct (alias_name_spec _ _ _ _ Ea (grows_ok _ _ _ _ G)) as (G2 & Hph & _).
    destruct (alias_value_spec _ _ _ _ Ev (grows_ok _ _ _ _ G2)) as (G3 & Hv & Hnn).
    split_and!; [| |by intros|].
    + eapply grows_eq; [eapply grows_trans; [exact G|by eapply grows_trans]|..];
        unfold clauses_names, clauses_values, update_names, update_values; simpl; set_solver.
    + subst expr. constructor.
    + intros _. exists ph, v. by rewrite Hnn.
  - assert (u = MkUpdateText sets removes /\ guards = gs /\ b = b1) as (-> & -> & ->).
    { destruct sets, removes; try (by injection E as <- <- <-). by destruct He, Hnil. }
    split_and!; [|by apply Hm|done|done].
    eapply grows_eq; [exact G|..]; unfold clauses_names, clauses_values, update_names, update_values; simpl; set_solver.
Qed.

Lemma update_expr_spec (expr : list UpdateAction) cs u e :
  update_expr expr cs = (u, e) -> Forall action_wf expr -> Forall condition_wf cs ->
  let ns := default ∅ (expr_names e) in
  let vs := default ∅ (expr_values e) in
  expr_valid (Some u) e /\
  (forall k v item, opt_rep k v item -> expr_holds e (default ∅ item) = true <->
     is_Some v /\ Forall (holds v) cs /\ increments_numeric v expr) /\
  (expr <> [] -> exists guards, clauses_mean ns vs (set_clauses u, remove_clauses u, guards) expr) /\
  (expr = [] -> exists ph v, u = MkUpdateText [SetTo (PTop ph) v] [] /\
     ns !! ph = Some NOOP_MARKER_ATTR /\ vs !! v = Some (ABool true)).
Proof.
  unfold update_expr. destruct (update_clauses expr _) as [[u0 guards] b1] eqn:Eu.
  destruct (update_condition_expression cs guards b1) as [cond b2] eqn:Ec. destruct (finish b2) as [ns vs] eqn:Ef.
  intros [= <- <-] Hw Hcs. cbn [expr_names expr_values].
  destruct (update_clauses_spec _ _ _ _ Eu Hw) as (G1 & Hg & Hne & Hnil).
  destruct (update_condition_spec _ _ _ _ _ Ec (grows_ok _ _ _ _ G1) Hcs) as (ph & cls & -> & G2 & Hh).
  destruct (finish_spec _ _ _ Ef) as (En & Ev & Hn0 & Hv0). rewrite En, Ev.
  destruct (grows_trans _ _ _ _ _ _ _ G1 G2) as [_ _ _ HN HV].
  pose proof (grows_names _ _ _ _ G2) as Hsn. pose proof (grows_values _ _ _ _ G2) as Hsv. split_and!.
  - unfold expr_valid. cbn [expr_names expr_values condition from_option condition_names condition_values].
    rewrite En, Ev, HN, HV. simpl. rewrite !fmap_app, !union_list_app_L. split_and!; [set_solver|set_solver|done|done].
  - intros k v item Hr. destruct (Hh (names b2) (values b2) k v item) as [H1 H2]; [done..|].
    unfold expr_holds. cbn [condition expr_names expr_values condition_holds]. rewrite En, Ev.
    cbn [forallb]. rewrite forallb_app, !andb_true_iff, H1, H2.
    rewrite (guards_spec _ _ k v item guards (filter is_increment expr)); [| | | |done].
    + unfold increments_numeric. setoid_rewrite list_elem_of_filter. naive_solver.
    + eapply Forall2_impl; [exact Hg|]. intros [| | |p t] [a x|a n|a]; simpl; try done.
      intros [? ?]; (split; [by eapply resolve_mono|by eapply lookup_weaken]).
    + rewrite Forall_forall in *. intros x [_ Hx]%list_elem_of_filter. by apply Hw.
    + rewrite Forall_forall. by intros x [Hx _]%list_elem_of_filter.
  - intros He. exists guards. eapply clauses_mean_mono; [exact Hsn|exact Hsv|by apply Hne].
  - intros He. destruct (Hnil He) as (p & x & -> & Hp & Hx). exists p, x.
    split_and!; [done|by eapply lookup_weaken|by eapply lookup_weaken].
Qed.

(** The paths of the clauses are distinct entries of the value, so none leads into another. *)
Lemma update_paths_disjoint ns vs u guards (expr : list UpdateAction) :
  clauses_mean ns vs (set_clauses u, remove_clauses u, guards) expr -> NoDup (action_attribute <$> expr) ->
  paths_disjoint (update_paths ns u).
Proof.
  intros [H1 H2 _] Hd.
  assert (update_paths ns u = (fun act => Some [VALUE_ATTR; action_attribute act]) <$>
    (filter is_set expr ++ filter is_remove expr)) as ->.
  { unfold update_paths. rewrite fmap_app. simpl in H1, H2. f_equal.
    - induction H1 as [|s act ss acts Hs _ IH]; [done|]. simpl. f_equal; [|exact IH].
      destruct s, act; try done; apply Hs.
    - induction H2 as [|p act ps acts Hp _ IH]; [done|]. simpl. f_equal; [|exact IH]. by destruct act. }
  assert (filter is_set expr ++ filter is_remove expr ≡ₚ expr) as HP.
  { clear. induction expr as [|act expr IH]; [done|]. rewrite !filter_bool_cons.
    destruct act; simpl; rewrite <- ?Permutation_middle; by f_equiv. }
  assert (NoDup (action_attribute <$> (filter is_set expr ++ filter is_remove expr))) as Hd' by (by rewrite HP).
  intros i j p q Hij Hi Hj Hpre. rewrite list_lookup_fmap in Hi, Hj.
  destruct ((filter is_set expr ++ filter is_remove expr) !! i) as [x|] eqn:Ei; [|done].
  destruct ((filter is_set expr ++ filter is_remove expr) !! j) as [y|] eqn:Ej; [|done].
  simplify_eq/=. apply Hij. eapply NoDup_lookup; [exact Hd'| |]; rewrite list_lookup_fmap; rewrite ?Ei, ?Ej; [done|].
  simpl. f_equal. apply prefix_cons_inv_2, prefix_cons_inv_1 in Hpre. done.
Qed.

(** ** What DynamoDB documents *)

Abbreviation Table := (gmap (string * string) Attributes).

(** A conditional call: it takes effect when its condition holds and its effect is defined; a failed
    condition is reported as such and changes nothing; any other error may also hide the effect. *)
Inductive served {A : Type} (t : Table) (condition_error : SdkError -> bool) (cond : bool) (effect : option (A * Table)) :
    result A SdkError -> Table -> Prop :=
| served_done a t' : cond = true -> effect = Some (a, t') -> served t condition_error cond effect (Ok a) t'
| served_refused e : cond = false -> condition_error e = true -> served t condition_error cond effect (Err e) t
| served_failed e : condition_error e = false -> served t condition_error cond effect (Err e) t
| served_unreported e a t' :
    cond = true -> effect = Some (a, t') -> condition_error e = false -> served t condition_error cond effect (Err e) t'.

Definition nonempty (k : string * string) : Prop := k.1 <> ""%string /\ k.2 <> ""%string.

(** The key of an item, and the item an update starts from where there is none. *)
Definition attrs_key (item : Attributes) : option (string * string) :=
  match item !! PK_ATTR, item !! SK_ATTR with
  | Some (AS pk), Some (AS sk) => Some (pk, sk)
  | _, _ => None
  end.
Definition key_attrs (k : string * string) : Attributes := <[PK_ATTR := AS k.1]> (<[SK_ATTR := AS k.2]> ∅).

Definition update_effect (k : string * string) (u : UpdateText) (e : Expr) (t : Table) : option Attributes :=
  apply_update (default ∅ (expr_names e)) (default ∅ (expr_values e)) u (default (key_attrs k) (t !! k)).

(** The operations of a transaction: the key, the condition, the effect of each on the table before. *)
Definition transact_key (i : TransactItem) : option (string * string) :=
  match i with
  | TPut item _ => attrs_key item
  | TUpdate pk sk _ _ | TDelete pk sk _ | TCheck pk sk _ => Some (pk, sk)
  end.
Definition transact_expr (i : TransactItem) : Expr :=
  match i with TPut _ e | TUpdate _ _ _ e | TDelete _ _ e | TCheck _ _ e => e end.
Definition transact_valid (i : TransactItem) : Prop :=
  from_option nonempty False (transact_key i) /\
  match i with
  | TUpdate _ _ u e => expr_valid (Some u) e /\ paths_disjoint (update_paths (default ∅ (expr_names e)) u)
  | TCheck _ _ e => expr_valid None e /\ is_Some (condition e)
  | TPut _ e | TDelete _ _ e => expr_valid None e
  end.
Definition transact_holds (t : Table) (i : TransactItem) : bool :=
  expr_holds (transact_expr i) (default ∅ (transact_key i ≫= fun k => t !! k)).
Definition transact_effect (t0 : Table) (t : option Table) (i : TransactItem) : option Table :=
  t ← t;
  match i with
  | TPut item _ => k ← attrs_key item; Some (<[k := item]> t)
  | TUpdate pk sk u e => item ← update_effect (pk, sk) u e t0; Some (<[(pk, sk) := item]> t)
  | TDelete pk sk _ => Some (delete (pk, sk) t)
  | TCheck _ _ _ => Some t
  end.
Definition transact_error (e : SdkError) : bool :=
  match e with ServiceError _ _ (TransactionCanceledException reasons) => any_condition_check_failed reasons | _ => false end.

(** A listing read to its end or to an error. *)
Inductive Pages {W : Type} (fetch : option Attributes -> M W SdkError (list Attributes * option Attributes)) :
    option Attributes -> W -> list (list Attributes) -> option SdkError -> W -> Prop :=
| pages_error marker w e w' : fetch marker w = (Err e, w') -> Pages fetch marker w [] (Some e) w'
| pages_last marker w page w' : fetch marker w = (Ok (page, None), w') -> Pages fetch marker w [page] None w'
| pages_next marker w page next w' pages r w'' :
    fetch marker w = (Ok (page, Some next), w') -> Pages fetch (Some next) w' pages r w'' ->
    Pages fetch marker w (page :: pages) r w''.

(** What a key condition selects: a partition, and a prefix of the sort key. *)
Definition selects (kc : KeyCondition) (pk sk_prefix : string) : Prop :=
  default ∅ (kc_names kc) !! pk_alias kc = Some PK_ATTR /\
  default ∅ (kc_values kc) !! pk_val kc = Some (AS pk) /\
  kc_names kc <> Some ∅ /\ kc_values kc <> Some ∅ /\
  match sk_begins_with kc with
  | None => sk_prefix = ""%string /\
      dom (default ∅ (kc_names kc)) = {[pk_alias kc]} /\ dom (default ∅ (kc_values kc)) = {[pk_val kc]}
  | Some (a, v) =>
      default ∅ (kc_names kc) !! a = Some SK_ATTR /\ default ∅ (kc_values kc) !! v = Some (AS sk_prefix) /\
      dom (default ∅ (kc_names kc)) = {[pk_alias kc; a]} /\ dom (default ∅ (kc_values kc)) = {[pk_val kc; v]}
  end.

Definition in_partition (pk sk_prefix : string) (t : Table) : list Attributes :=
  map snd (filter (fun e : string * string * Attributes =>
    e.1.1 = pk /\ String.prefix sk_prefix e.1.2 = true) (map_to_list t)).

(** The laws, on requests that pass the service's validation. *)
Class DynamoDbServer {W : Type} (client : Client W) (table : W -> Table) : Prop := {
  get_item_law pk sk w : nonempty (pk, sk) ->
    table (get_item client pk sk w).2 = table w /\
    ((get_item client pk sk w).1 = Ok (table w !! (pk, sk)) \/ exists e, (get_item client pk sk w).1 = Err e);
  put_item_law item e w k : attrs_key item = Some k -> nonempty k -> expr_valid None e ->
    served (table w) ddb_is_condition_failed (expr_holds e (default ∅ (table w !! k)))
      (Some (tt, <[k := item]> (table w))) (put_item client item e w).1 (table (put_item client item e w).2);
  update_item_law pk sk u e w : nonempty (pk, sk) -> expr_valid (Some u) e ->
    paths_disjoint (update_paths (default ∅ (expr_names e)) u) ->
    served (table w) ddb_is_condition_failed (expr_holds e (default ∅ (table w !! (pk, sk))))
      (item ← update_effect (pk, sk) u e (table w); Some (Some item, <[(pk, sk) := item]> (table w)))
      (update_item client pk sk u e w).1 (table (update_item client pk sk u e w).2);
  transact_law items w : items <> [] -> (length items <= 100)%nat -> Forall transact_valid items ->
    NoDup (omap transact_key items) ->
    served (table w) transact_error (forallb (transact_holds (table w)) items)
      (t' ← foldl (transact_effect (table w)) (Some (table w)) items; Some (tt, t'))
      (transact_write_items client items w).1 (table (transact_write_items client items w).2);
  query_law kc pk sk_prefix w : selects kc pk sk_prefix -> pk <> ""%string ->
    exists pages r w', Pages (query_page client kc) None w pages r w' /\ table w' = table w /\
      (forall item, item ∈ concat pages -> item ∈ in_partition pk sk_prefix (table w)) /\
      (r = None -> concat pages ≡ₚ in_partition pk sk_prefix (table w))
}.

(** ** The table and the items it stands for *)

Record table_rep (t : Table) (items : gmap string Value) : Prop := {
  rep_key k item : t !! k = Some item -> key_ok k;
  rep_item k : key_ok k -> opt_rep k (items !! render_key k.1 k.2) (t !! k);
  rep_render key v : items !! key = Some v -> exists k, key_ok k /\ key = render_key k.1 k.2
}.

Lemma rep_empty : table_rep ∅ ∅.
Proof. split; [done|intros k _; rewrite !lookup_empty; exact I|done]. Qed.

Lemma rep_insert t items k v item :
  table_rep t items -> key_ok k -> item_rep k v item ->
  table_rep (<[k := item]> t) (<[render_key k.1 k.2 := v]> items).
Proof.
  intros [H1 H2 H3] Hk Hr. split.
  - intros k' item' [[<- _]|[_ Hl]]%lookup_insert_Some; [done|by eapply H1].
  - intros k' Hk'. destruct (decide (k = k')) as [<-|Hne]; [rewrite !lookup_insert_eq; exact Hr|].
    rewrite !lookup_insert_ne; [by apply H2|done|]. intros E. by apply Hne, render_key_inj.
  - intros key v' [[<- _]|[_ Hl]]%lookup_insert_Some; [by exists k|by eapply H3].
Qed.

Lemma rep_delete t items k :
  table_rep t items -> key_ok k -> table_rep (delete k t) (delete (render_key k.1 k.2) items).
Proof.
  intros [H1 H2 H3] Hk. split.
  - intros k' item' [_ Hl]%lookup_delete_Some. by eapply H1.
  - intros k' Hk'. destruct (decide (k = k')) as [<-|Hne]; [rewrite !lookup_delete_eq; exact I|].
    rewrite !lookup_delete_ne; [by apply H2|done|]. intros E. by apply Hne, render_key_inj.
  - intros key v' [_ Hl]%lookup_delete_Some. by eapply H3.
Qed.

Lemma put_item_rep pk sk v : value_wf v -> item_rep (pk, sk) v (put_item_attrs pk sk v) /\ attrs_key (put_item_attrs pk sk v) = Some (pk, sk).
Proof. intros Hv. unfold put_item_attrs, item_rep, attrs_key. split; [split_and!|]; try done. Qed.

Lemma key_ok_nonempty k : key_ok k -> nonempty k.
Proof. by intros (? & ? & _). Qed.

Lemma decode_item_rep k v item key : item_rep k v item -> decode_item_attrs key item = Ok (MkItem key v).
Proof. intros (_ & _ & Hv & Hw). unfold decode_item_attrs. rewrite Hv. simpl. by rewrite decode_encode. Qed.

Lemma decode_scanned_rep k v item : item_rep k v item -> decode_scanned_item item = Ok (MkItem (render_key k.1 k.2) v).
Proof.
  intros Hr. pose proof (decode_item_rep _ _ _ (render_key k.1 k.2) Hr) as Hd. destruct Hr as (Hp & Hs & _).
  unfold decode_scanned_item, required_string_attr. by rewrite Hp, Hs.
Qed.
