(* ===== verification/DynamoDbContract.v ===== *)
(** * The DynamoDB backend keeps the contract of [ReplicatedKv]

    Over any server with DynamoDB's documented laws, on a table that represents the items, every
    supported call is answered the way the contract allows, with what a remote backend may do
    besides. *)

From Stdlib Require Import Ascii.
From stdpp Require Import gmap sorting.
From S2P Require Import Prelude Format BTree KV KVContract AwsErrors DynamoDb DynamoDbFacts DynamoDbRefines.

Local Open Scope mtc_scope.
Local Open Scope Z_scope.

(** ** The calls the backend supports *)

(** An update names its attributes, each once; on a stored map no increment overflows (the backend
    documents that it does not check this); an update of no actions meets a map. *)
Definition update_supported (v : option Value) (expr : list UpdateAction) : Prop :=
  Forall action_wf expr /\ NoDup (action_attribute <$> expr) /\
  match v with
  | Some (VMap m) => forall a n c, Increment a n ∈ expr -> m !! a = Some (VU64 c) -> c + n < 2 ^ 64
  | Some _ => expr <> []
  | None => True
  end.

Definition op_supported (items : gmap string Value) (op : Operation) : Prop :=
  match op with
  | Put _ v cs => value_wf v /\ Forall condition_wf cs
  | Update k expr cs => update_supported (items !! k) expr /\ Forall condition_wf cs
  | Delete _ cs | ConditionCheck _ cs => Forall condition_wf cs
  end.

(** DynamoDB's transactions have 1 to 100 operations on distinct items; its query needs a partition. *)
Definition supported (items : gmap string Value) {A} (c : Call A) : Prop :=
  match c with
  | CGet _ => True
  | CPut _ v cs => value_wf v /\ Forall condition_wf cs
  | CUpdate k expr cs => update_supported (items !! k) expr /\ Forall condition_wf cs
  | CTransact ops =>
      ops <> [] /\ (length ops <= 100)%nat /\ NoDup (op_key <$> ops) /\ Forall (op_supported items) ops
  | CQuery p => exists pk sk_prefix, split_once "/"%char p = Some (pk, sk_prefix) /\ pk <> ""%string
  end.

(** ** Updates *)

Lemma updates_numeric v (expr : list UpdateAction) v' :
  NoDup (action_attribute <$> expr) -> Forall action_wf expr -> updates v expr v' -> increments_numeric (Some v) expr.
Proof.
  intros Hd Hw (m & m' & -> & -> & Hu) a n Hin. unfold attribute_value.
  assert (a <> ""%string) as Hne by (rewrite Forall_forall in Hw; by destruct (Hw _ Hin)).
  rewrite (proj2 (String.eqb_neq a "") Hne).
  specialize (Hu a). apply list_elem_of_split in Hin as (l1 & l2 & ->).
  rewrite fmap_app, fmap_cons in Hd. apply NoDup_app in Hd as (_ & Hd & _).
  rewrite attr_after_skip in Hu by (intros H'; apply (Hd _ H'); left). simpl in Hu.
  rewrite decide_True in Hu by done. destruct (m !! a) as [[| | | |]|]; try done. by eexists.
Qed.

Section Update.
Context (t : gmap (string * string) Attributes) (items : gmap string Value) (Hrep : table_rep t items).
Context (k : string * string) (Hk : key_ok k) (expr : list UpdateAction) (cs : list Condition).
Context (Hs : update_supported (items !! render_key k.1 k.2) expr) (Hcs : Forall condition_wf cs).

(** What the contract says of the update. *)
Definition update_enabled : Prop :=
  exists v v', items !! render_key k.1 k.2 = Some v /\ Forall (holds (Some v)) cs /\ updates v expr v'.

Lemma update_request_valid u e :
  update_expr expr cs = (u, e) -> expr_valid (Some u) e /\ paths_disjoint (update_paths (default ∅ (expr_names e)) u).
Proof.
  intros E. destruct Hs as (Hw & Hd & _). destruct (update_expr_spec _ _ _ _ E Hw Hcs) as (Hv & _ & Hne & Hnil).
  split; [done|]. destruct (decide (expr = [])) as [He|He].
  - destruct (Hnil He) as (ph & x & -> & Hph & Hx). intros i j p q Hij Hi Hj.
    unfold update_paths in Hi, Hj. simpl in Hi, Hj.
    destruct i as [|i], j as [|j]; simpl in Hi, Hj; try done; by rewrite ?lookup_nil in Hi, Hj.
  - destruct (Hne He) as (guards & Hm). by eapply update_paths_disjoint.
Qed.

Lemma update_request_refused u e :
  update_expr expr cs = (u, e) -> expr_holds e (default ∅ (t !! k)) = false -> ~ update_enabled.
Proof.
  intros E Hf (v & v' & Hv & Hh & Hu). destruct Hs as (Hw & Hd & _).
  destruct (update_expr_spec _ _ _ _ E Hw Hcs) as (_ & Hc & _).
  pose proof (rep_item _ _ Hrep k Hk) as Hr. apply not_true_iff_false in Hf. apply Hf.
  rewrite (Hc k _ _ Hr), Hv. split_and!; [done|done|]. by eapply updates_numeric.
Qed.

Lemma update_request_effect u e item :
  update_expr expr cs = (u, e) -> expr_holds e (default ∅ (t !! k)) = true -> update_effect k u e t = Some item ->
  exists v v', items !! render_key k.1 k.2 = Some v /\ Forall (holds (Some v)) cs /\ updates v expr v' /\ item_rep k v' item.
Proof.
  intros E Ht He. destruct Hs as (Hw & Hd & Hov). destruct (update_expr_spec _ _ _ _ E Hw Hcs) as (_ & Hc & Hne & Hnil).
  pose proof (rep_item _ _ Hrep k Hk) as Hr. apply (Hc k _ _ Hr) in Ht as (Hsome & Hh & Hn).
  destruct (items !! render_key k.1 k.2) as [v|]; [|by destruct Hsome].
  unfold update_effect in He. destruct (t !! k) as [item0|]; [|done]. simpl in He, Hr.
  destruct (decide (expr = [])) as [Hexpr|Hexpr].
  - destruct (Hnil Hexpr) as (ph & x & -> & Hph & Hx). rewrite Hexpr in *.
    unfold apply_update in He. simpl in He. rewrite Hph, Hx in He. simpl in He. injection He as <-.
    destruct v as [| | | |m]; try done. exists (VMap m), (VMap m). split_and!; [done|done|by exists m, m|].
    destruct Hr as (H1 & H2 & H3 & H4). split_and!; rewrite ?lookup_insert_ne by done; done.
  - destruct (Hne Hexpr) as (guards & Hm). destruct u as [sets removes].
    destruct v as [b|n|s|bs|m].
    1-4: exfalso; pose proof (fun Hv => apply_clauses_not_map _ _ (sets, removes, guards) expr k _ item0 Hm Hexpr Hv Hr) as Hno;
      simpl in Hno; rewrite Hno in He; [done|by intros].
    assert (increments_ok m expr) as Hi.
    { intros a n Hin. destruct (Hn a n Hin) as (c & Hc'). unfold attribute_value in Hc'.
      assert (a <> ""%string) as Ha by (rewrite Forall_forall in Hw; by destruct (Hw _ Hin)).
      rewrite (proj2 (String.eqb_neq a "") Ha) in Hc'. exists c. split; [done|]. by eapply Hov. }
    destruct (apply_clauses_spec _ _ (sets, removes, guards) expr k m item0 Hm Hw Hi Hr) as (item' & E' & Hr').
    simpl in E'. rewrite E' in He. injection He as <-.
    exists (VMap m), (VMap (updated_map m expr)). split_and!; [done|done| |done]. by apply updates_updated_map.
Qed.
End Update.

(** ** The calls *)

Definition render_key' (k : string * string) : Key := render_key k.1 k.2.

(** The contract of an update, by what is stored. *)
Lemma applied_update (items : gmap string Value) key expr cs o r items' :
  items !! key = o ->
  applied items (CUpdate key expr cs) r items' =
  match o with
  | None => r = Err (NotFound key) /\ items' = items
  | Some v =>
      (Forall (holds (Some v)) cs /\ exists v', updates v expr v' /\ r = Ok (MkItem key v') /\ items' = <[key := v']> items) \/
      (~ (Forall (holds (Some v)) cs /\ exists v', updates v expr v') /\ refused r /\ items' = items)
  end.
Proof. by intros <-. Qed.

Lemma served_cases {A : Type} (t t' : gmap (string * string) Attributes) condition_error cond (effect : option (A * _)) r :
  served t condition_error cond effect r t' ->
  (exists a, r = Ok a /\ cond = true /\ effect = Some (a, t')) \/
  (exists e, r = Err e /\ condition_error e = true /\ cond = false /\ t' = t) \/
  (exists e, r = Err e /\ condition_error e = false /\ (t' = t \/ cond = true /\ exists a, effect = Some (a, t'))).
Proof. destruct 1; naive_solver. Qed.

(** ** Prefixes of keys *)

Lemma prefix_str p s : String.prefix p s = true <-> exists r, s = (p +:+ r)%string.
Proof.
  revert s. induction p as [|c p IH]; intros s; simpl.
  - split; [by exists s|by destruct s].
  - destruct s as [|d s]; simpl; [split; [done|by intros [? ?]]|].
    destruct (ascii_dec c d) as [->|Hne].
    + rewrite IH. split; intros [r Hr]; exists r; [by rewrite Hr|by injection Hr].
    + split; [done|]. by intros [r [= ? _]].
Qed.

(** A prefix with a separator selects a partition and a prefix of the sort key. *)
Lemma prefix_render pk sk_prefix k :
  avoids "/"%char pk -> key_ok k ->
  String.prefix (render_key pk sk_prefix) (render_key k.1 k.2) = true <->
  k.1 = pk /\ String.prefix sk_prefix k.2 = true.
Proof.
  intros Hp (_ & _ & Hk). unfold render_key. rewrite !prefix_str. split.
  - intros [r Hr]. rewrite str_app_assoc in Hr.
    destruct (split_at_str _ _ _ (k.2) (sk_prefix +:+ r) Hk Hp Hr) as [-> ->]. eauto.
  - intros [-> [r ->]]. exists r. by rewrite str_app_assoc.
Qed.

Lemma key_condition_selects pk sk_prefix : selects (key_condition pk sk_prefix) pk sk_prefix.
Proof.
  unfold key_condition. destruct (alias_name PK_ATTR _) as [a b1] eqn:Ea.
  destruct (alias_value (AS pk) b1) as [v b2] eqn:Ev.
  destruct (alias_name_spec _ _ _ _ Ea builder_default_ok) as (G1 & Ha & _).
  destruct (alias_value_spec _ _ _ _ Ev (grows_ok _ _ _ _ G1)) as (G2 & Hv & Hn2).
  pose proof (grows_trans _ _ _ _ _ _ _ G1 G2) as G12. destruct (String.eqb_spec sk_prefix "") as [->|Hne].
  - destruct (finish b2) as [ns vs] eqn:Ef. destruct (finish_spec _ _ _ Ef) as (En & Ev' & H1 & H2).
    destruct G12 as [_ _ _ D1 D2]. unfold selects. simpl. rewrite En, Ev', Hn2, Ha, Hv. rewrite <- Hn2, D1, D2.
    split_and!; try done; set_solver.
  - destruct (alias_name SK_ATTR b2) as [a' b3] eqn:Ea'. destruct (alias_value (AS sk_prefix) b3) as [v' b4] eqn:Ev'.
    destruct (alias_name_spec _ _ _ _ Ea' (grows_ok _ _ _ _ G2)) as (G3 & Ha' & Hv3).
    destruct (alias_value_spec _ _ _ _ Ev' (grows_ok _ _ _ _ G3)) as (G4 & Hv' & Hn4).
    destruct (finish b4) as [ns vs] eqn:Ef. destruct (finish_spec _ _ _ Ef) as (En & Ev4 & H1 & H2).
    pose proof (grows_trans _ _ _ _ _ _ _ G3 G4) as G34. pose proof (grows_trans _ _ _ _ _ _ _ G12 G34) as [_ _ _ D1 D2].
    assert (names b4 !! a = Some PK_ATTR) as Ha4.
    { rewrite Hn4. eapply lookup_weaken; [|apply (grows_names _ _ _ _ G3)]. by rewrite Hn2. }
    assert (values b4 !! v = Some (AS pk)) as Hv4 by (eapply lookup_weaken; [exact Hv|apply (grows_values _ _ _ _ G34)]).
    assert (names b4 !! a' = Some SK_ATTR) as Ha4' by (by rewrite Hn4).
    unfold selects. simpl. rewrite En, Ev4. split_and!; try done; [rewrite D1|rewrite D2]; set_solver.
Qed.

(** ** Listings *)

#[export] Instance item_le_total : Total item_le.
Proof. intros a b. unfold item_le. apply (total String.le). Qed.
#[export] Instance item_le_trans : Transitive item_le.
Proof. intros a b c. unfold item_le. by etrans. Qed.

Lemma sorted_items (l : list Item) : NoDup (item_key <$> l) -> StronglySorted item_le l -> StronglySorted key_lt l.
Proof. apply (sorted_strictly item_key). Qed.

(** The item a table's entry stands for. *)
Definition decoded (attrs : Attributes) : Item :=
  match decode_scanned_item attrs with Ok it => it | Err _ => MkItem "" (VBool false) end.

Lemma decode_items_ok (page : list Attributes) :
  (forall attrs, attrs ∈ page -> decode_scanned_item attrs = Ok (decoded attrs)) ->
  decode_items page = Ok (decoded <$> page).
Proof.
  induction page as [|attrs page IH]; intros Hp; [done|]. cbn [decode_items].
  rewrite (Hp attrs) by left. rewrite IH; [done|]. intros a Ha. apply Hp. by right.
Qed.

Lemma drain_pages_spec {W : Type} fetch marker (w : W) pages r w' fuel out :
  Pages fetch marker w pages r w' ->
  (forall attrs, attrs ∈ concat pages -> decode_scanned_item attrs = Ok (decoded attrs)) ->
  (length pages < fuel)%nat ->
  drain_pages fetch fuel marker out w =
  Some (match r with None => Ok (out ++ (decoded <$> concat pages)) | Some e => Err (ddb_generic_error e) end, w').
Proof.
  intros HP. revert fuel out.
  induction HP as [marker w e w' Hf|marker w page w' Hf|marker w page next w' pages r w'' Hf HP IH];
    intros [|fuel] out Hd Hl; try (simpl in Hl; lia); cbn [drain_pages]; rewrite Hf; [done| |];
    (rewrite decode_items_ok; [|intros a Ha; apply Hd; cbn [concat]; apply elem_of_app; by left]).
  - cbn [concat]. by rewrite app_nil_r.
  - rewrite IH; [|intros a Ha; apply Hd; cbn [concat]; apply elem_of_app; by right|simpl in Hl; lia].
    cbn [concat]. by rewrite fmap_app, app_assoc.
Qed.

Lemma in_partition_elem pk sk_prefix t items attrs :
  table_rep t items -> attrs ∈ in_partition pk sk_prefix t ->
  exists k v, key_ok k /\ k.1 = pk /\ String.prefix sk_prefix k.2 = true /\ t !! k = Some attrs /\ item_rep k v attrs /\
    items !! render_key k.1 k.2 = Some v.
Proof.
  intros Hr ([k a] & -> & [Hm Hin]%list_elem_of_filter)%list_elem_of_fmap. simpl in *.
  apply elem_of_map_to_list in Hin. pose proof (rep_key _ _ Hr _ _ Hin) as Hk.
  pose proof (rep_item _ _ Hr _ Hk) as Ho. rewrite Hin in Ho.
  destruct (items !! render_key k.1 k.2) as [v|] eqn:Ev; [|done]. exists k, v. naive_solver.
Qed.

(** The decoded partition: the items under the prefix, each key once. *)
Lemma decoded_partition pk sk_prefix t items :
  table_rep t items -> avoids "/"%char pk ->
  NoDup (item_key <$> (decoded <$> in_partition pk sk_prefix t)) /\
  forall it, it ∈ decoded <$> in_partition pk sk_prefix t <->
    items !! item_key it = Some (item_value it) /\ String.prefix (render_key pk sk_prefix) (item_key it) = true.
Proof.
  intros Hr Hp.
  assert (forall k attrs, t !! k = Some attrs -> exists v, decoded attrs = MkItem (render_key k.1 k.2) v /\
    items !! render_key k.1 k.2 = Some v /\ key_ok k) as Hdec.
  { intros k attrs Hk. pose proof (rep_key _ _ Hr _ _ Hk) as Hok. pose proof (rep_item _ _ Hr _ Hok) as Ho.
    rewrite Hk in Ho. destruct (items !! render_key k.1 k.2) as [v|] eqn:Ev; [|done]. exists v.
    unfold decoded. by rewrite (decode_scanned_rep k v attrs Ho). }
  split.
  - unfold in_partition. rewrite <- !list_fmap_compose. apply NoDup_fmap_2_strong.
    + intros [k1 a1] [k2 a2] [_ H1]%list_elem_of_filter [_ H2]%list_elem_of_filter E.
      apply elem_of_map_to_list in H1, H2. simpl in E.
      destruct (Hdec _ _ H1) as (v1 & E1 & _ & K1), (Hdec _ _ H2) as (v2 & E2 & _ & K2).
      rewrite E1, E2 in E. simpl in E. apply render_key_inj in E; [|done..]. subst k2. congruence.
    + apply NoDup_filter, NoDup_map_to_list.
  - intros it. rewrite list_elem_of_fmap. split.
    + intros (attrs & -> & Ha). destruct (in_partition_elem _ _ _ _ _ Hr Ha) as (k & v & Hk & <- & Hpre & Hl & _ & _).
      destruct (Hdec _ _ Hl) as (v' & -> & Hv & _). simpl. split; [done|]. by apply prefix_render.
    + intros [Hl Hpre]. destruct (rep_render _ _ Hr _ _ Hl) as (k & Hk & Ek).
      rewrite Ek in Hl, Hpre. apply prefix_render in Hpre as [Hk1 Hk2]; [|done..].
      pose proof (rep_item _ _ Hr _ Hk) as Ho. rewrite Hl in Ho.
      destruct (t !! k) as [attrs|] eqn:Et; [|done]. exists attrs. destruct (Hdec _ _ Et) as (v & -> & Hv & _). split.
      * destruct it as [key v']. simpl in *. congruence.
      * apply list_elem_of_fmap. exists (k, attrs). split; [done|]. apply list_elem_of_filter.
        split; [done|]. by apply elem_of_map_to_list.
Qed.

Section Server.
Context {W : Type} (client : Client W) (table : W -> gmap (string * string) Attributes).
Context `{!DynamoDbServer client table}.

(** The outcome of a call, in the terms of the contract. *)
Definition keeps (items : gmap string Value) {A} (c : Call A) (r : result A CloudError) (w' : W) : Prop :=
  exists items', table_rep (table w') items' /\ kv_step items c r items'.

Lemma keeps_lost items {A} (c : Call A) b reason w' :
  table_rep (table w') items -> keeps items c (Err (Transport b reason)) w'.
Proof. intros Hr. exists items. split; [done|]. apply kv_request_lost. Qed.

Lemma keeps_unreported items {A} (c : Call A) b reason w' r items' :
  table_rep (table w') items' -> applied items c r items' -> keeps items c (Err (Transport b reason)) w'.
Proof. intros Hr Ha. exists items'. split; [done|]. by eapply kv_response_lost. Qed.

Lemma keeps_answered items {A} (c : Call A) r w' items' :
  table_rep (table w') items' -> applied items c r items' -> keeps items c r w'.
Proof. intros Hr Ha. exists items'. split; [done|]. by apply kv_answered. Qed.

Lemma keeps_generic items {A} (c : Call A) err w' :
  table_rep (table w') items -> keeps items c (Err (ddb_generic_error err)) w'.
Proof. destruct (ddb_generic_error_transport err) as (b & reason & ->). apply keeps_lost. Qed.

Lemma keeps_generic_unreported items {A} (c : Call A) err w' r items' :
  table_rep (table w') items' -> applied items c r items' -> keeps items c (Err (ddb_generic_error err)) w'.
Proof. destruct (ddb_generic_error_transport err) as (b & reason & ->). apply keeps_unreported. Qed.

Lemma get_outcome items key w :
  table_rep (table w) items ->
  table (ddb_get client key w).2 = table w /\
  ((ddb_get client key w).1 = match items !! key with Some v => Ok (MkItem key v) | None => Err (NotFound key) end \/
   exists b reason, (ddb_get client key w).1 = Err (Transport b reason)).
Proof.
  intros Hr. unfold ddb_get, bind, lift, Prelude.map_error, throw.
  destruct (split_key key) as [[pk sk]|e] eqn:Ek; simpl.
  - apply split_key_Ok in Ek as [-> Hk].
    destruct (get_item_law pk sk w (key_ok_nonempty _ Hk)) as (Ht & Ha).
    destruct (get_item client pk sk w) as [r w']. simpl in Ht, Ha.
    destruct Ha as [->|[e ->]]; simpl.
    + pose proof (rep_item _ _ Hr _ Hk) as Hi. simpl in Hi.
      destruct (table w !! (pk, sk)) as [attrs|], (items !! render_key pk sk) as [v|]; simpl in *; try done.
      * split; [done|]. left. by eapply decode_item_rep.
      * split; [done|]. by left.
    + split; [done|]. right. destruct (ddb_generic_error_transport e) as (b & reason & ->). eauto.
  - split; [done|]. right. destruct (split_key_Err _ _ Ek) as (reason & ->). eauto.
Qed.

Lemma put_keeps items key v cs w :
  table_rep (table w) items -> value_wf v -> Forall condition_wf cs ->
  keeps items (CPut key v cs) (ddb_put client key v cs w).1 (ddb_put client key v cs w).2.
Proof.
  intros Hr Hv Hcs. unfold ddb_put, bind, lift, Prelude.map_error.
  destruct (split_key key) as [[pk sk]|e] eqn:Ek; simpl.
  2: { destruct (split_key_Err _ _ Ek) as (reason & ->). by apply keeps_lost. }
  apply split_key_Ok in Ek as [-> Hk]. destruct (put_item_rep pk sk v Hv) as [Hi Hak].
  destruct (conditional_expr_spec cs Hcs) as [Hvalid Hc].
  specialize (Hc (pk, sk) (items !! render_key pk sk) (table w !! (pk, sk)) (rep_item _ _ Hr (pk, sk) Hk)).
  pose proof (put_item_law _ (conditional_expr cs) w (pk, sk) Hak (key_ok_nonempty _ Hk) Hvalid) as Hs.
  destruct (put_item client _ _ w) as [r w']. simpl in Hs.
  pose proof (rep_insert _ _ (pk, sk) v _ Hr Hk Hi) as Hr'. simpl in Hr'.
  assert (applied items (CPut (render_key pk sk) v cs) (Ok tt) (<[render_key pk sk := v]> items)
    <-> Forall (holds (items !! render_key pk sk)) cs) as Happ.
  { simpl. unfold refused. naive_solver. }
  apply served_cases in Hs as [(a & -> & Ht & He)|[(e & -> & He & Hf & Et)|(e & -> & He & Hs)]]; simpl.
  - destruct a. injection He as He. eapply keeps_answered; [by rewrite <- He|]. by apply Happ, Hc.
  - unfold map_put_item_error. rewrite He. eapply keeps_answered; [by rewrite Et|]. simpl. right.
    split_and!; [|unfold refused; eauto|done]. rewrite <- Hc. by rewrite Hf.
  - unfold map_put_item_error. rewrite He. destruct Hs as [Et|(Ht & a & Heff)].
    + apply keeps_generic. by rewrite Et.
    + injection Heff as _ Heff. eapply keeps_generic_unreported; [by rewrite <- Heff|]. by apply Happ, Hc.
Qed.

Lemma update_keeps items key (expr : list UpdateAction) cs w :
  table_rep (table w) items -> update_supported (items !! key) expr -> Forall condition_wf cs ->
  keeps items (CUpdate key expr cs) (ddb_atomic_update client key expr cs w).1 (ddb_atomic_update client key expr cs w).2.
Proof.
  intros Hr Hsup Hcs. unfold ddb_atomic_update, bind, lift.
  destruct (split_key key) as [[pk sk]|e] eqn:Ek; simpl.
  2: { destruct (split_key_Err _ _ Ek) as (reason & ->). by apply keeps_lost. }
  pose proof Ek as [-> Hk]%split_key_Ok. destruct (update_expr expr cs) as [u e] eqn:Eu.
  destruct (update_request_valid _ (pk, sk) expr cs Hsup Hcs u e Eu) as [Hvalid Hdisj].
  pose proof (update_request_refused _ _ Hr (pk, sk) Hk expr cs Hsup Hcs u e Eu) as Hrefused.
  pose proof (fun item => update_request_effect _ _ Hr (pk, sk) Hk expr cs Hsup Hcs u e item Eu) as Heffect.
  pose proof (update_item_law pk sk u e w (key_ok_nonempty _ Hk) Hvalid Hdisj) as Hs.
  destruct (update_item client pk sk u e w) as [r w1]. simpl in Hs, Hrefused, Heffect.
  assert (forall item, expr_holds e (default ∅ (table w !! (pk, sk))) = true ->
    update_effect (pk, sk) u e (table w) = Some item ->
    exists v', item_rep (pk, sk) v' item /\ table_rep (<[(pk, sk) := item]> (table w)) (<[render_key pk sk := v']> items) /\
      applied items (CUpdate (render_key pk sk) expr cs) (Ok (MkItem (render_key pk sk) v')) (<[render_key pk sk := v']> items))
    as Happ.
  { intros item Ht He. destruct (Heffect item Ht He) as (v & v' & Hv & Hh & Hu & Hi). exists v'.
    split_and!; [done|by apply (rep_insert _ _ (pk, sk))|]. rewrite (applied_update _ _ _ _ _ _ _ Hv). left. eauto. }
  apply served_cases in Hs as [(a & -> & Ht & He)|[(err & -> & He & Hf & Et)|(err & -> & He & Hs)]]; simpl.
  - destruct (update_effect (pk, sk) u e (table w)) as [item|]; [|done]. injection He as <- He.
    destruct (Happ item Ht eq_refl) as (v' & Hi & Hr' & Ha). rewrite (decode_item_rep _ _ _ _ Hi). cbn [fst snd].
    eapply keeps_answered; [by rewrite <- He|exact Ha].
  - rewrite He. assert (table_rep (table w1) items) as Hr1 by (by rewrite Et).
    destruct (get_outcome items (render_key pk sk) w1 Hr1) as [Hg Ho].
    destruct (ddb_get client (render_key pk sk) w1) as [rg w2]. simpl in Hg, Ho.
    specialize (Hrefused Hf). unfold update_enabled in Hrefused. simpl in Hrefused.
    assert (table_rep (table w2) items) as Hr2 by (by rewrite Hg). destruct Ho as [->|(b & reason & ->)].
    + destruct (items !! render_key pk sk) as [v|] eqn:Ev; simpl;
        (eapply keeps_answered; [exact Hr2|]); rewrite (applied_update _ _ _ _ _ _ _ Ev); [|done]. right. split_and!; [|unfold refused; eauto|done]. intros (Hh & v' & Hu). apply Hrefused. by exists v, v'.
    + by apply keeps_lost.
  - rewrite He. cbn [fst snd]. destruct Hs as [Et|(Ht & a & Heff)].
    + apply keeps_generic. by rewrite Et.
    + destruct (update_effect (pk, sk) u e (table w)) as [item|]; [|done]. injection Heff as _ Heff.
      destruct (Happ item Ht eq_refl) as (v' & Hi & Hr' & Ha).
      eapply keeps_generic_unreported; [by rewrite <- Heff|exact Ha].
Qed.

(** ** Transactions *)

(** One operation of a transaction, as a request. *)
Lemma transact_item_spec t items op it :
  build_transact_item op = Ok it -> op_supported items op -> table_rep t items ->
  exists k, transact_key it = Some k /\ key_ok k /\ op_key op = render_key k.1 k.2 /\ transact_valid it /\
    (transact_holds t it = false -> ~ op_enabled items op) /\
    forall tc ic tc', transact_holds t it = true -> table_rep tc ic -> transact_effect t (Some tc) it = Some tc' ->
      exists w, op_enabled items op /\ op_writes items op w /\ table_rep tc' (perform ic w).
Proof.
  intros Eb Hsup Hr. destruct op as [key v cs|key expr cs|key cs|key cs]; cbn [build_transact_item] in Eb;
    destruct (split_key key) as [[pk sk]|] eqn:Ek; try done; apply split_key_Ok in Ek as [-> Hk];
    pose proof (rep_item _ _ Hr _ Hk) as Hopt; cbn [fst snd] in *.
  - injection Eb as <-. destruct Hsup as [Hv Hcs]. destruct (put_item_rep pk sk v Hv) as [Hi Hak].
    destruct (conditional_expr_spec cs Hcs) as [Hvalid Hc]. specialize (Hc _ _ _ Hopt).
    exists (pk, sk). unfold transact_valid, transact_holds. cbn [transact_key transact_expr].
    rewrite Hak. cbn [from_option mbind option_bind]. split_and!; [done|done|done|by apply key_ok_nonempty|done| |].
    + intros Hf Hen. apply Hc in Hen. congruence.
    + intros tc ic tc' Ht Htc. cbn [transact_effect mbind option_bind]. rewrite Hak. intros [= <-].
      exists (Some (render_key pk sk, Some v)). split_and!; [by apply Hc|done|]. by apply (rep_insert _ _ (pk, sk)).
  - destruct (update_expr expr cs) as [u e] eqn:Eu. injection Eb as <-. destruct Hsup as [Hsup Hcs].
    destruct (update_request_valid _ (pk, sk) expr cs Hsup Hcs u e Eu) as [Hvalid Hdisj].
    pose proof (update_request_refused _ _ Hr (pk, sk) Hk expr cs Hsup Hcs u e Eu) as Hrefused.
    pose proof (fun item => update_request_effect _ _ Hr (pk, sk) Hk expr cs Hsup Hcs u e item Eu) as Heffect.
    exists (pk, sk). unfold transact_valid, transact_holds. cbn [transact_key transact_expr from_option mbind option_bind].
    split_and!; [done|done|done|by apply key_ok_nonempty|done|done| |].
    + intros Hf (Hh & v & v' & Hv & Hu). apply (Hrefused Hf). exists v, v'. simpl. rewrite Hv in Hh. done.
    + intros tc ic tc' Ht Htc. cbn [transact_effect mbind option_bind].
      destruct (update_effect (pk, sk) u e t) as [item|]; [|done]. intros [= <-].
      destruct (Heffect item Ht eq_refl) as (v & v' & Hv & Hh & Hu & Hi). simpl in Hv.
      exists (Some (render_key pk sk, Some v')). split_and!.
      * assert (Forall (holds (items !! render_key pk sk)) cs) as Hh' by (by rewrite Hv).
        split; [exact Hh'|]. by exists v, v'.
      * cbn [op_writes]. eauto.
      * by apply (rep_insert _ _ (pk, sk)).
  - injection Eb as <-. destruct (conditional_expr_spec cs Hsup) as [Hvalid Hc]. specialize (Hc _ _ _ Hopt).
    exists (pk, sk). unfold transact_valid, transact_holds. cbn [transact_key transact_expr from_option mbind option_bind].
    split_and!; [done|done|done|by apply key_ok_nonempty|done| |].
    + intros Hf Hen. apply Hc in Hen. congruence.
    + intros tc ic tc' Ht Htc [= <-]. exists (Some (render_key pk sk, None)).
      split_and!; [by apply Hc|done|]. by apply (rep_delete _ _ (pk, sk)).
  - injection Eb as <-. destruct (check_expr_spec cs Hsup) as [Hvalid Hc]. specialize (Hc _ _ _ Hopt).
    exists (pk, sk). unfold transact_valid, transact_holds. cbn [transact_key transact_expr from_option mbind option_bind].
    split_and!; [done|done|done|by apply key_ok_nonempty|done| | |].
    + unfold check_expr. destruct (conditions_clause cs _) as [[cl|] b]; [|destruct (alias_name _ _)]; destruct (finish _); simpl; eauto.
    + intros Hf Hen. apply Hc in Hen. congruence.
    + intros tc ic tc' Ht Htc [= <-]. exists None. split_and!; [by apply Hc|done|done].
Qed.

Lemma build_items_Err ops e : build_transact_items ops = Err e -> exists reason, e = Transport false reason.
Proof.
  induction ops as [|op ops IH]; [done|]. cbn [build_transact_items].
  destruct (build_transact_item op) as [it|e'] eqn:Eb.
  - destruct (build_transact_items ops); [done|]. intros [= <-]. by apply IH.
  - intros [= <-]. destruct op; cbn [build_transact_item] in Eb; destruct (split_key key) as [k|e''] eqn:Ek; simplify_eq/=;
      try (by eapply split_key_Err). by destruct (update_expr _ _).
Qed.

Lemma foldl_effect_None t its : foldl (transact_effect t) None its = None.
Proof. by induction its. Qed.

(** All of them: valid on distinct keys, refused when one is not enabled, and with the effect of the
    contract's writes. *)
Lemma transact_items_spec t items ops its :
  build_transact_items ops = Ok its -> Forall (op_supported items) ops -> table_rep t items ->
  Forall transact_valid its /\ length its = length ops /\
  (render_key' <$> omap transact_key its) = op_key <$> ops /\
  (forallb (transact_holds t) its = false -> ~ Forall (op_enabled items) ops) /\
  forall tc ic tc', forallb (transact_holds t) its = true -> table_rep tc ic ->
    foldl (transact_effect t) (Some tc) its = Some tc' ->
    exists ws, Forall (op_enabled items) ops /\ Forall2 (op_writes items) ops ws /\ table_rep tc' (fold_left perform ws ic).
Proof.
  intros Eb Hsup Hr. revert its Eb. induction Hsup as [|op ops Hop Hsup IH]; intros its; cbn [build_transact_items].
  { intros [= <-]. split_and!; try done. intros tc ic tc' _ Htc [= <-]. exists []. by split_and!. }
  destruct (build_transact_item op) as [it|] eqn:Ei; [|done]. destruct (build_transact_items ops) as [its'|]; [|done].
  intros [= <-]. destruct (IH its' eq_refl) as (Hv & Hl & Hkeys & Hf & Ht).
  destruct (transact_item_spec t items op it Ei Hop Hr) as (k & Hk & Hok & Hrk & Hvi & Hfi & Hti).
  split_and!.
  - by constructor.
  - simpl. by rewrite Hl.
  - csimpl. rewrite Hk. csimpl. by rewrite Hkeys, Hrk.
  - cbn [forallb]. intros [H1|H2]%andb_false_iff [He Hes]%Forall_cons; [by apply Hfi|by apply Hf].
  - cbn [forallb foldl]. intros tc ic tc' [H1 H2]%andb_true_iff Htc Hfold.
    destruct (transact_effect t (Some tc) it) as [tc1|] eqn:E1; [|by rewrite foldl_effect_None in Hfold].
    destruct (Hti tc ic tc1 H1 Htc E1) as (w & Hen & Hw & Hr1).
    destruct (Ht tc1 (perform ic w) tc' H2 Hr1 Hfold) as (ws & Hens & Hws & Hr2).
    exists (w :: ws). split_and!; [by constructor|by constructor|done].
Qed.

Lemma transact_keeps items ops w :
  table_rep (table w) items -> supported items (CTransact ops) ->
  keeps items (CTransact ops) (ddb_transact client ops w).1 (ddb_transact client ops w).2.
Proof.
  intros Hr (Hne & Hlen & Hd & Hsup). unfold ddb_transact, bind, lift, Prelude.map_error.
  destruct (build_transact_items ops) as [its|e] eqn:Eb; simpl.
  2: { destruct (build_items_Err _ _ Eb) as (reason & ->). by apply keeps_lost. }
  destruct (transact_items_spec _ _ _ _ Eb Hsup Hr) as (Hv & Hl & Hkeys & Hf & Ht).
  assert (NoDup (omap transact_key its)) as Hd'.
  { apply (NoDup_fmap_1 render_key'). by rewrite Hkeys. }
  assert (its <> []) as Hne' by (intros ->; by destruct ops).
  pose proof (transact_law its w Hne' ltac:(lia) Hv Hd') as Hs.
  destruct (transact_write_items client its w) as [r w1]. simpl in Hs.
  assert (forall a t', forallb (transact_holds (table w)) its = true ->
    (t' ← foldl (transact_effect (table w)) (Some (table w)) its; Some (tt, t')) = Some (a, t') ->
    exists items', table_rep t' items' /\ applied items (CTransact ops) (Ok a) items') as Happ.
  { intros [] t' Hh He. destruct (foldl _ _ _) as [tc'|] eqn:Ef; [|done]. injection He as <-.
    destruct (Ht _ _ _ Hh Hr Ef) as (ws & Hens & Hws & Hr').
    eexists. split; [exact Hr'|]. simpl. left. eauto. }
  apply served_cases in Hs as [(a & -> & Hh & He)|[(e & -> & He & Hh & Et)|(e & -> & He & Hs)]]; simpl.
  - destruct (Happ _ _ Hh He) as (items' & Hr' & Ha). by eapply keeps_answered.
  - destruct e as [| | | |code status [|reasons|]]; try done. simpl in He. unfold map_transact_write_items_error.
    rewrite He. eapply keeps_answered; [by rewrite Et|]. simpl. right. split_and!; [by apply Hf|unfold refused; eauto|done].
  - assert (map_transact_write_items_error e = ddb_generic_error e) as ->.
    { destruct e as [| | | |code status [|reasons|]]; try done. simpl in He. unfold map_transact_write_items_error.
      by rewrite He. }
    destruct Hs as [Et|(Hh & a & Heff)]; [apply keeps_generic; by rewrite Et|].
    destruct (Happ _ _ Hh Heff) as (items' & Hr' & Ha). by eapply keeps_generic_unreported.
Qed.

(** ** Queries *)

Lemma query_keeps items p w :
  table_rep (table w) items -> supported items (CQuery p) ->
  exists n r w', (forall fuel, (n <= fuel)%nat -> ddb_query client fuel p w = Some (r, w')) /\ keeps items (CQuery p) r w'.
Proof.
  intros Hr (pk & sk_prefix & Ep & Hne). pose proof Ep as [-> Hp]%split_once_Some.
  destruct (query_law _ pk sk_prefix w (key_condition_selects pk sk_prefix) Hne) as (pages & r & w' & HP & Ht & Hin & Hall).
  exists (S (length pages)).
  exists match r with None => Ok (merge_sort item_le (decoded <$> concat pages)) | Some e => Err (ddb_generic_error e) end, w'.
  split.
  - intros fuel Hl. unfold ddb_query. rewrite Ep. unfold query_within_partition.
    rewrite (drain_pages_spec _ _ _ _ _ _ _ _ HP); [by destruct r| |lia].
    intros attrs Ha. destruct (in_partition_elem _ _ _ _ _ Hr (Hin _ Ha)) as (k & v & _ & _ & _ & _ & Hi & _).
    unfold decoded. by rewrite (decode_scanned_rep _ _ _ Hi).
  - destruct r as [e|]; [apply keeps_generic; by rewrite Ht|].
    apply (keeps_answered items (CQuery _) _ w' items); [by rewrite Ht|]. simpl. split; [done|].
    eexists. split; [done|]. destruct (decoded_partition pk sk_prefix _ _ Hr Hp) as [Hnd Hmem].
    specialize (Hall eq_refl). split.
    + apply sorted_items; [|apply (StronglySorted_merge_sort _)]. by rewrite merge_sort_Permutation, Hall.
    + intros it. rewrite merge_sort_Permutation, Hall. apply Hmem.
Qed.

(** The backend's answer, call by call. *)
Lemma backend_keeps {A} (c : Call A) items w :
  table_rep (table w) items -> supported items c ->
  exists n r w' items', (forall fuel, (n <= fuel)%nat -> ddb_call client fuel c w = Some (r, w')) /\
    table_rep (table w') items' /\ kv_step items c r items'.
Proof.
  intros Hr Hs.
  assert (exists n r w', (forall fuel, (n <= fuel)%nat -> ddb_call client fuel c w = Some (r, w')) /\ keeps items c r w')
    as (n & r & w' & Hf & items' & H1 & H2); [|by exists n, r, w', items'].
  destruct c as [key|key v cs|key expr cs|ops|p]; simpl.
  - exists 0%nat, (ddb_get client key w).1, (ddb_get client key w).2. split; [by intros; destruct (ddb_get _ _ _)|].
    destruct (get_outcome items key w Hr) as [Ht Ho]. destruct (ddb_get client key w) as [r w1]. simpl in *.
    destruct Ho as [->|(b & reason & ->)]; [|apply keeps_lost; by rewrite Ht].
    apply (keeps_answered items (CGet key) _ w1 items); [by rewrite Ht|]. by split.
  - exists 0%nat, (ddb_put client key v cs w).1, (ddb_put client key v cs w).2.
    split; [by intros; destruct (ddb_put _ _ _ _ _)|]. by apply put_keeps; [|apply Hs..].
  - exists 0%nat, (ddb_atomic_update client key expr cs w).1, (ddb_atomic_update client key expr cs w).2.
    split; [by intros; destruct (ddb_atomic_update _ _ _ _ _)|]. by apply update_keeps; [|apply Hs..].
  - exists 0%nat, (ddb_transact client ops w).1, (ddb_transact client ops w).2.
    split; [by intros; destruct (ddb_transact _ _ _)|]. by apply transact_keeps.
  - by apply query_keeps.
Qed.

(** C15. Over any server with DynamoDB's documented laws whose table represents the items, every
    supported call of the backend returns (a query with fuel for its pages), leaves a table that
    represents items again, and its answer and those items are what the contract allows: the
    operation took place atomically and its result is the contract's, conditions, updates,
    transactions and query order included, or the call fails in transport, having taken place or not.
    A failed condition is always told apart from a missing item and from a failure in transport. *)
Theorem ddb_keeps_contract {A} (c : Call A) items w :
  table_rep (table w) items -> supported items c ->
  exists n r w' items', (forall fuel, (n <= fuel)%nat -> ddb_call client fuel c w = Some (r, w')) /\
    table_rep (table w') items' /\ kv_step items c r items'.
Proof. apply backend_keeps. Qed.
End Server.

(** ** A server in memory *)

Definition condition_failed : SdkError :=
  ServiceError (Some "ConditionalCheckFailedException"%string) (Some 400) ConditionalCheckFailedException.
Definition validation_error : SdkError := ServiceError (Some "ValidationException"%string) (Some 400) OtherException.
Definition transaction_cancelled : SdkError :=
  ServiceError (Some "TransactionCanceledException"%string) (Some 400)
    (TransactionCanceledException [Some "ConditionalCheckFailed"%string]).

Definition toy_answer {A : Type} (error : SdkError) (cond : bool) (effect : option (A * gmap (string * string) Attributes))
    (t : gmap (string * string) Attributes) : result A SdkError * gmap (string * string) Attributes :=
  if cond then match effect with Some (a, t') => (Ok a, t') | None => (Err validation_error, t) end
  else (Err error, t).

Definition toy_query (kc : KeyCondition) (t : gmap (string * string) Attributes) : list Attributes :=
  match default ∅ (kc_values kc) !! pk_val kc with
  | Some (AS pk) =>
      let sk_prefix := match sk_begins_with kc with
                       | Some (_, v) => match default ∅ (kc_values kc) !! v with Some (AS s) => s | _ => ""%string end
                       | None => ""%string
                       end in
      in_partition pk sk_prefix t
  | _ => []
  end.

Definition toy_client : Client (gmap (string * string) Attributes) := {|
  get_item pk sk t := (Ok (t !! (pk, sk)), t);
  put_item item e t :=
    match attrs_key item with
    | Some k => toy_answer condition_failed (expr_holds e (default ∅ (t !! k))) (Some (tt, <[k := item]> t)) t
    | None => (Err validation_error, t)
    end;
  update_item pk sk u e t :=
    toy_answer condition_failed (expr_holds e (default ∅ (t !! (pk, sk))))
      (item ← update_effect (pk, sk) u e t; Some (Some item, <[(pk, sk) := item]> t)) t;
  transact_write_items items t :=
    toy_answer transaction_cancelled (forallb (transact_holds t) items)
      (t' ← foldl (transact_effect t) (Some t) items; Some (tt, t')) t;
  query_page kc _ t := (Ok (toy_query kc t, None), t);
  scan_page _ _ t := (Ok (map snd (map_to_list t), None), t)
|}.

Lemma toy_answer_served {A : Type} (error : SdkError) (condition_error : SdkError -> bool) (cond : bool) (effect : option (A * gmap (string * string) Attributes)) t :
  condition_error error = true -> condition_error validation_error = false ->
  served t condition_error cond effect (toy_answer error cond effect t).1 (toy_answer error cond effect t).2.
Proof.
  intros He Hv. unfold toy_answer. destruct cond; [|by constructor].
  destruct effect as [[a t']|] eqn:E; simpl; [by econstructor|by constructor].
Qed.

#[export] Instance toy_server : DynamoDbServer toy_client (fun t => t).
Proof.
  split; simpl.
  - intros pk sk w _. split; [done|by left].
  - intros item e w k -> _ _. by apply toy_answer_served.
  - intros. by apply toy_answer_served.
  - intros. by apply toy_answer_served.
  - intros kc pk sk_prefix w Hs Hne.
    assert (toy_query kc w = in_partition pk sk_prefix w) as E.
    { unfold toy_query. destruct Hs as (_ & -> & _ & _ & Hb). destruct (sk_begins_with kc) as [[a v]|].
      - by destruct Hb as (_ & -> & _).
      - by destruct Hb as (-> & _). }
    exists [toy_query kc w], None, w. split_and!; [by apply pages_last|done| |]; simpl; rewrite app_nil_r, E; [done|by intros].
Qed.

Definition toy_value : Value := VMap {["epoch"%string := VU64 7; "n"%string := VU64 0]}.
Definition toy_table : gmap (string * string) Attributes :=
  {[("log#1", "lease")%string := put_item_attrs "log#1" "lease" toy_value]}.
Definition toy_update : list UpdateAction := [SetAttribute "holder" (VString "b"); Increment "n" 1].

Example toy_update_runs :
  match ddb_atomic_update toy_client "log#1/lease" toy_update [AttributeEquals "epoch" (VU64 7)] toy_table with
  | (Ok it, t) => item_value it = VMap {["epoch"%string := VU64 7; "n"%string := VU64 1; "holder"%string := VString "b"]}
  | _ => False
  end.
Proof. vm_compute. reflexivity. Qed.

Lemma toy_table_rep : table_rep toy_table {["log#1/lease"%string := toy_value]}.
Proof.
  unfold toy_table. rewrite <- !insert_empty. apply (rep_insert _ _ ("log#1", "lease")%string).
  - apply rep_empty.
  - by split_and!.
  - apply put_item_rep. unfold toy_value. constructor. intros k v Hk.
    apply lookup_insert_Some in Hk as [[_ <-]|[_ Hk]]; [by constructor|].
    apply lookup_singleton_Some in Hk as [_ <-]. by constructor.
Qed.

Lemma ddb_keeps_contract_witness :
  exists n r w' items',
    ddb_call toy_client n (CUpdate "log#1/lease" toy_update [AttributeEquals "epoch" (VU64 7)]) toy_table = Some (r, w') /\
    kv_step {["log#1/lease"%string := toy_value]}
      (CUpdate "log#1/lease" toy_update [AttributeEquals "epoch" (VU64 7)]) r items'.
Proof.
  destruct (ddb_keeps_contract toy_client (fun t => t)
    (CUpdate "log#1/lease" toy_update [AttributeEquals "epoch" (VU64 7)]) {["log#1/lease"%string := toy_value]} toy_table
    toy_table_rep) as (n & r & w' & items' & Hf & _ & Hk).
  - split; [|by repeat constructor]. split_and!.
    + repeat constructor; simpl; done.
    + apply NoDup_cons. split; [|apply NoDup_singleton]. simpl. intros Hin%list_elem_of_singleton. done.
    + change (forall a n c, Increment a n ∈ toy_update ->
        ({["epoch" := VU64 7; "n" := VU64 0]} : gmap string Value) !! a = Some (VU64 c) -> c + n < 2 ^ 64).
      unfold toy_update. intros a m c Hin Hl. rewrite !elem_of_cons in Hin.
      destruct Hin as [[=]|[[= -> ->]|[]%not_elem_of_nil]]. vm_compute in Hl. injection Hl as <-. lia.
  - exists n, r, w', items'. split; [by apply Hf|exact Hk].
Defined.

(** Outside the supported calls the backend and the in-memory one part: an update of no actions on a
    value that is not a map succeeds here and is refused there, and the empty attribute of an update
    names the whole value here and an entry of the map there. *)
Example empty_update_on_scalar :
  let t := {[("a", "b")%string := put_item_attrs "a" "b" (VU64 1)]} in
  (exists it t', ddb_atomic_update toy_client "a/b" [] [] t = (Ok it, t')) /\
  (exists reason, (KV.atomic_update "a/b" [] [] {["a/b"%string := VU64 1]}).1 = Err (ConditionFailed reason)).
Proof. split; [do 2 eexists|eexists]; vm_compute; reflexivity. Qed.

Example empty_attribute_update :
  let expr := [SetAttribute "" (VU64 2)] in
  let value (r : result Item CloudError) := match r with Ok it => Some (item_value it) | Err _ => None end in
  value (ddb_atomic_update toy_client "log#1/lease" expr [] toy_table).1 = Some (VU64 2) /\
  exists m, value (KV.atomic_update "log#1/lease" expr [] {["log#1/lease"%string := toy_value]}).1 = Some (VMap m) /\
    m !! "" = Some (VU64 2) /\ m !! "epoch" = Some (VU64 7).
Proof. split; [vm_compute; reflexivity|]. eexists. split_and!; vm_compute; reflexivity. Qed.
