(* ===== verification/LeaseDynamoDb.v ===== *)
(** * The lease over DynamoDB

    The coordinator's programs run call by call against the DynamoDB backend, interleaved with each
    other and with the backend's other users: every call they make is one the backend supports, so the
    lease's safety, which was proved against the contract of the store, holds of the composition. *)

From stdpp Require Import gmap.
From S2P Require Import Prelude Types KV KVContract Lease LeaseFacts AwsErrors DynamoDb DynamoDbFacts DynamoDbRefines DynamoDbContract.

Local Open Scope mtc_scope.
Local Open Scope Z_scope.

(** ** Calls that are supported whatever is stored *)

Definition call_static {A} (c : Call A) : Prop :=
  match c with
  | CGet _ => True
  | CPut _ v cs => value_wf v /\ Forall condition_wf cs
  | CUpdate _ expr cs =>
      Forall action_wf expr /\ NoDup (action_attribute <$> expr) /\ expr <> [] /\
      Forall (fun act => is_increment act = false) expr /\ Forall condition_wf cs
  | CTransact _ | CQuery _ => False
  end.

Lemma call_static_supported items {A} (c : Call A) : call_static c -> supported items c.
Proof.
  destruct c as [k|k v cs|k expr cs|ops|p]; simpl; try done.
  intros (Hw & Hd & Hne & Hi & Hcs). split; [|done]. split_and!; [done|done|].
  destruct (items !! k) as [[| | | |m]|]; try done. intros a n c Hin.
  rewrite Forall_forall in Hi. by specialize (Hi _ Hin).
Qed.

(** An item in an answer has a value of the source's type. *)
Definition answer_ok {A} (c : Call A) : result A CloudError -> Prop :=
  match c in Call A return result A CloudError -> Prop with
  | CGet _ | CUpdate _ _ _ => fun r => forall it, r = Ok it -> value_wf (item_value it)
  | _ => fun _ => True
  end.

Definition values_wf (items : gmap string Value) : Prop := forall k v, items !! k = Some v -> value_wf v.

Lemma table_rep_values_wf t items : table_rep t items -> values_wf items.
Proof.
  intros Hr k v Hk. destruct (rep_render _ _ Hr _ _ Hk) as (k' & Hok & ->).
  pose proof (rep_item _ _ Hr _ Hok) as Ho. by eapply opt_rep_wf.
Qed.

Lemma kv_step_answer_ok (items items' : gmap string Value) {A} (c : Call A) r :
  values_wf items -> values_wf items' -> kv_step items c r items' -> answer_ok c r.
Proof.
  intros H1 H2 Hs. destruct c as [k|k v cs|k expr cs|ops|p]; try done; simpl; intros it ->.
  - assert (applied items (CGet k) (Ok it) items') as [_ Hr] by (by inversion Hs).
    assert (forall o, items !! k = o -> match o with Some v => Ok (MkItem k v) | None => Err (NotFound k) end = Ok it ->
      value_wf (item_value it)) as Hg; [|by eapply Hg].
    intros [v|] Ev E; [|done]. injection E as <-. exact (H1 k v Ev).
  - assert (applied items (CUpdate k expr cs) (Ok it) items') as Ha by (by inversion Hs).
    rewrite (applied_update _ _ _ _ _ _ _ eq_refl) in Ha. destruct (items !! k) as [v|]; [|by destruct Ha].
    destruct Ha as [(_ & v' & _ & [= ->] & ->)|(_ & [? ?] & _)]; [|done].
    apply (H2 k). by rewrite lookup_insert_eq.
Qed.

(** ** The coordinator's programs make such calls *)

Fixpoint prog_ok {A} (p : Prog A) : Prop :=
  match p with
  | Done _ => True
  | Now f => forall t, prog_ok (f t)
  | Invoke c f => call_static c /\ forall r, answer_ok c r -> prog_ok (f r)
  end.

Definition request_ok (req : Request) : Prop := match req with Renew e => in_u64 e | _ => True end.

Lemma encode_lease_wf region holder epoch x : in_u64 epoch -> in_u64 x -> value_wf (encode_lease region holder epoch x).
Proof.
  intros He Hx. constructor. intros k v Hk. apply elem_of_list_to_map_2 in Hk.
  rewrite !elem_of_cons in Hk. destruct Hk as [E|[E|[E|[E|[]%not_elem_of_nil]]]]; injection E as _ ->; by constructor.
Qed.

Lemma decode_lease_epoch it l : value_wf (item_value it) -> decode_lease it = Ok l -> in_u64 (lease_epoch l).
Proof.
  unfold decode_lease. intros Hw. destruct (item_value it) as [| | | |m]; try done.
  destruct (require_string m ATTR_REGION); [|done]. destruct (require_string m ATTR_HOLDER_ID); [|done].
  destruct (require_u64 m ATTR_EPOCH) as [e|] eqn:Ee; [|done]. destruct (require_u64 m ATTR_EXPIRES_AT); [|done].
  destruct (ok_or _ _); [|done]. intros [= <-]. apply require_u64_Ok in Ee.
  inversion Hw as [| | | |m' Hm]; subst. specialize (Hm _ _ Ee). by inversion Hm.
Qed.

Lemma set_wf a v : a <> ""%string -> value_wf v -> action_wf (SetAttribute a v).
Proof. by split. Qed.

Lemma epoch_condition_wf e : in_u64 e -> condition_wf (epoch_condition e).
Proof. intros He. by constructor. Qed.

Lemma claim_current_ok co current : in_u64 (lease_epoch current) -> prog_ok (claim_current co current).
Proof.
  intros He t. cbv beta zeta. destruct (negb (takeover_eligible_millis _ _ _)); [done|]. destruct (checked_next (lease_epoch current)) as [e'|] eqn:En; [|done].
  assert (in_u64 e').
  { unfold checked_next, checked_add in En. destruct (Z.ltb_spec (lease_epoch current + 1) (2 ^ 64)); [|done].
    injection En as <-. unfold in_uint in *. lia. }
  pose proof (expiry_at_range t) as Hx. unfold expiry_at in Hx. rewrite <- ttl_millis in Hx.
  split; [|done]. cbn [call_static]. split_and!.
  - unfold claim_expr, update_set, update_new. cbn [app].
    repeat (apply Forall_cons; split; [apply set_wf; [done|by constructor]|]). by apply Forall_nil.
  - unfold claim_expr, update_set, update_new. simpl. repeat (apply NoDup_cons; split; [set_solver|]). by apply NoDup_nil.
  - done.
  - repeat constructor.
  - apply Forall_singleton. by apply epoch_condition_wf.
Qed.

Lemma program_ok co req : request_ok req -> prog_ok (program co req).
Proof.
  destruct req as [| |e|]; intros Hreq; cbn [program].
  - by split.
  - intros t. pose proof (expiry_at_range t) as Hx. unfold expiry_at in Hx. rewrite <- ttl_millis in Hx.
    split; [|done]. split; [|by repeat constructor]. apply encode_lease_wf; [done|exact Hx].
  - intros t. pose proof (expiry_at_range t) as Hx. unfold expiry_at in Hx. rewrite <- ttl_millis in Hx.
    split; [|done]. cbn [call_static]. split_and!.
    + apply Forall_singleton, set_wf; [done|by constructor].
    + apply NoDup_singleton.
    + done.
    + repeat constructor.
    + apply Forall_cons. split; [by constructor|]. apply Forall_singleton. by apply epoch_condition_wf.
  - split; [done|]. intros r Hr. cbn. destruct r as [it|[]]; try done.
    destruct (decode_lease it) as [l|] eqn:El; [|done]. apply claim_current_ok.
    eapply decode_lease_epoch; [|exact El]. by apply Hr.
Qed.

(** ** Many coordinators on one table *)

Section System.
Context {W : Type} (client : Client W) (table : W -> gmap (string * string) Attributes).
Context `{!DynamoDbServer client table}.

(** The world of the server, and every operation ever started, in order. *)
Record DdbWorld : Type := MkDdbWorld { dw_server : W; dw_tasks : list Task }.

(** One step: an operation starts, reads a clock or makes its next call on the backend; or another
    client makes a supported call that leaves the lease item alone. *)
Inductive ddb_step (k : Key) : DdbWorld -> DdbWorld -> Prop :=
| dstep_start w tasks co req :
    co_key co = k -> request_ok req ->
    ddb_step k (MkDdbWorld w tasks) (MkDdbWorld w (tasks ++ [MkTask co req (program co req)]))
| dstep_now w tasks i co req f t :
    tasks !! i = Some (MkTask co req (Now f)) ->
    ddb_step k (MkDdbWorld w tasks) (MkDdbWorld w (<[i := MkTask co req (f t)]> tasks))
| dstep_call w tasks i co req B (c : Call B) f fuel r w' :
    tasks !! i = Some (MkTask co req (Invoke c f)) ->
    ddb_call client fuel c w = Some (r, w') ->
    ddb_step k (MkDdbWorld w tasks) (MkDdbWorld w' (<[i := MkTask co req (f r)]> tasks))
| dstep_other w tasks B (c : Call B) fuel r w' :
    (forall items, table_rep (table w) items -> supported items c) ->
    ddb_call client fuel c w = Some (r, w') ->
    (forall items items', table_rep (table w) items -> table_rep (table w') items' -> items' !! k = items !! k) ->
    ddb_step k (MkDdbWorld w tasks) (MkDdbWorld w' tasks).

(** More fuel changes no answer. *)
Lemma drain_pages_mono fetch fuel fuel' marker out (w : W) x :
  (fuel <= fuel')%nat -> drain_pages fetch fuel marker out w = Some x -> drain_pages fetch fuel' marker out w = Some x.
Proof.
  revert fuel' marker out w. induction fuel as [|fuel IH]; intros [|fuel'] marker out w Hl; try done; [lia|].
  cbn [drain_pages]. destruct (fetch marker w) as [[[page [next|]]|e] w']; try done.
  destruct (decode_items page); [|done]. apply IH. lia.
Qed.

Lemma ddb_call_mono {B} fuel fuel' (c : Call B) w x :
  (fuel <= fuel')%nat -> ddb_call client fuel c w = Some x -> ddb_call client fuel' c w = Some x.
Proof.
  intros Hl. destruct c as [| | | |p]; try done. unfold ddb_call, ddb_query, query_within_partition, scan. intros Hq.
  destruct (split_once _ _) as [[pk sk]|]; [|destruct (String.eqb p "")];
    match goal with |- context [drain_pages ?f fuel' None [] w] =>
      destruct (drain_pages f fuel None [] w) as [y|] eqn:E; [|done]; by rewrite (drain_pages_mono _ _ _ _ _ _ _ Hl E) end.
Qed.

(** Whatever a call answered with some fuel is what the contract allows. *)
Lemma ddb_call_kv_step {B} fuel (c : Call B) items w r w' :
  table_rep (table w) items -> supported items c -> ddb_call client fuel c w = Some (r, w') ->
  exists items', table_rep (table w') items' /\ kv_step items c r items'.
Proof.
  intros Hr Hs Hc. destruct (backend_keeps client table c items w Hr Hs) as (n & r' & w1 & items' & Hn & Hr' & Hk).
  pose proof (Hn (n + fuel)%nat ltac:(lia)) as H1.
  pose proof (ddb_call_mono fuel (n + fuel) c w (r, w') ltac:(lia) Hc) as H2. rewrite H1 in H2.
  injection H2 as <- <-. by exists items'.
Qed.

(** The simulation: the system's state is one of the store's contract, reached the same way. *)
Inductive simulated (k : Key) (d : DdbWorld) : Prop :=
| MkSimulated (items : Items) (past : list Items) :
    table_rep (table (dw_server d)) items -> inv k (MkWorld items past (dw_tasks d)) ->
    Forall (fun t => prog_ok (task_rest t)) (dw_tasks d) -> simulated k d.

Lemma simulated_step k d d' : simulated k d -> ddb_step k d d' -> simulated k d'.
Proof.
  intros [items past Hr Hi Ht] Hs. destruct Hs as [w tasks co req Hk Hq|w tasks i co req f t Hl|
    w tasks i co req B c f fuel r w' Hl Hc|w tasks B c fuel r w' Hsup Hc Hk]; simpl in *.
  - apply (MkSimulated _ _ items past); [done| |].
    + eapply inv_step; [exact Hi|by apply step_start].
    + apply Forall_app. split; [done|]. apply Forall_singleton. by apply program_ok.
  - apply (MkSimulated _ _ items past); [done| |].
    + eapply inv_step; [exact Hi|by apply step_now].
    + apply Forall_insert; [done|]. rewrite Forall_lookup in Ht. by apply (Ht _ _ Hl).
  - pose proof Ht as Ht'. rewrite Forall_lookup in Ht'. destruct (Ht' _ _ Hl) as [Hst Hf]. simpl in Hf.
    destruct (ddb_call_kv_step fuel c items w r w' Hr (call_static_supported items c Hst) Hc) as (items' & Hr' & Hkv).
    apply (MkSimulated _ _ items' (items :: past)); [done| |].
    + eapply inv_step; [exact Hi|by eapply step_call].
    + apply Forall_insert; [done|]. simpl. apply Hf.
      apply (kv_step_answer_ok items items'); [by eapply table_rep_values_wf|by eapply table_rep_values_wf|exact Hkv].
  - destruct (ddb_call_kv_step fuel c items w r w' Hr (Hsup items Hr) Hc) as (items' & Hr' & Hkv).
    apply (MkSimulated _ _ items' (items :: past)); [done| |done].
    eapply inv_step; [exact Hi|]. eapply step_other; [exact Hkv|]. by apply Hk.
Qed.

(** C9. The lease over DynamoDB: any coordinators of a lease, whose programs run call by call through
    the backend on a server with DynamoDB's documented laws, interleaved with each other and with
    other clients of the backend that leave the lease item alone, with unsynchronised clocks and with
    calls that fail in transport after or before they took effect: no two acquisitions or takeovers
    ever return the same epoch. *)
Theorem lease_on_dynamodb k w items tasks' w' :
  table_rep (table w) items -> items !! k = None -> rtc (ddb_step k) (MkDdbWorld w []) (MkDdbWorld w' tasks') ->
  NoDup (lease_epoch <$> omap granted tasks').
Proof.
  intros Hr Hk Hs.
  assert (simulated k (MkDdbWorld w [])) as H0.
  { apply (MkSimulated _ _ items []); [done| |by constructor]. apply inv_initial. by constructor. }
  assert (simulated k (MkDdbWorld w' tasks')) as [items' past _ Hi _].
  { revert H0. generalize dependent (MkDdbWorld w' tasks'). generalize (MkDdbWorld w []). intros d0 d.
    induction 1 as [|d1 d2 d3 H12 _ IH]; [done|]. intros Hd. apply IH. by eapply simulated_step. }
  exact (inv_grants _ _ Hi).
Qed.
End System.

(** A region acquires on the server in memory. *)
Lemma lease_on_dynamodb_witness :
  exists w' tasks', rtc (ddb_step toy_client (fun t => t) demo_key) (MkDdbWorld ∅ []) (MkDdbWorld w' tasks') /\
    omap granted tasks' <> [] /\ NoDup (lease_epoch <$> omap granted tasks').
Proof.
  assert (exists w' tasks', rtc (ddb_step toy_client (fun t => t) demo_key) (MkDdbWorld ∅ []) (MkDdbWorld w' tasks') /\
    omap granted tasks' <> []) as (w' & tasks' & Hs & Hg).
  { do 2 eexists. split.
    - eapply rtc_l; [apply dstep_start with (co := region_a) (req := Acquire); done|].
      eapply rtc_l; [eapply dstep_now with (i := 0%nat) (t := 0); reflexivity|].
      eapply rtc_l; [eapply dstep_call with (i := 0%nat) (fuel := 0%nat); reflexivity|]. apply rtc_refl.
    - vm_compute. done. }
  exists w', tasks'. split; [exact Hs|]. split; [exact Hg|].
  exact (lease_on_dynamodb toy_client (fun t => t) demo_key ∅ ∅ tasks' w' rep_empty eq_refl Hs).
Defined.
