(* ===== verification/S3.v ===== *)
(** * The S3 backend: [crates/cloud-aws/src/s3_object_store.rs] and [s3_object_lock.rs]

    The operations of [ObjectStore] and [ObjectLock] over the SDK's calls. An operation that makes
    several calls can be overtaken between them, so an operation is a program: a tree of calls with
    what follows each answer. *)

From stdpp Require Import sorting.
From S2P Require Import Prelude KV AwsErrors ObjectStore ObjectStoreFacts.

Local Open Scope mtc_scope.
Local Open Scope Z_scope.

(** ** The SDK's calls, with what the code sets and reads of them

    A [DateTime] of the SDK is an instant in nanoseconds since [UNIX_EPOCH], as a [SystemTime] is. *)

Record PutObjectRequest : Type := MkPutObjectRequest {
  po_bucket : string;
  po_key : string;
  po_body : list byte;
  po_if_none_match : option string;
  (** [ObjectLockMode::Compliance] until the date given. *)
  po_compliance_until : option Z
}.
Record HeadOutput : Type := MkHeadOutput {
  ho_content_length : option Z;
  ho_last_modified : option Z;
  ho_version_id : option string
}.
Record ListedObject : Type := MkListedObject {
  lo_key : option string;
  lo_size : option Z;
  lo_last_modified : option Z
}.
Record ListOutput : Type := MkListOutput {
  ls_contents : list ListedObject;
  ls_is_truncated : option bool;
  ls_next_continuation_token : option string
}.

(** A call, by what it answers. The body of [GetObject] is collected from a stream that can fail,
    with the failure's text; [GetObjectRetention] answers a retention that can lack, with a date that
    can lack; [PutObjectRetention] is in the mode [Compliance]. *)
Inductive S3Call : Type -> Type :=
| PutObjectCall (req : PutObjectRequest) : S3Call unit
| GetObjectCall (bucket key : string) : S3Call (result (list byte) string)
| HeadObjectCall (bucket key : string) : S3Call HeadOutput
| ListObjectsV2Call (bucket prefix : string) (continuation_token : option string) : S3Call ListOutput
| DeleteObjectCall (bucket key : string) (version_id : option string) : S3Call unit
| GetObjectRetentionCall (bucket key : string) : S3Call (option (option Z))
| PutObjectRetentionCall (bucket key : string) (retain_until_date : Z) : S3Call unit.

(** ** Programs over the calls *)

Inductive S3Prog (A : Type) : Type :=
| Done (a : A)
| Send {B : Type} (c : S3Call B) (k : result B SdkError -> S3Prog A).
Arguments Done {A} a.
Arguments Send {A B} c k.

(** A program after another, and the [?] operator between them. *)
Fixpoint then_ {A B} (p : S3Prog A) (k : A -> S3Prog B) : S3Prog B :=
  match p with
  | Done a => k a
  | Send c k' => Send c (fun r => then_ (k' r) k)
  end.
Definition then_ok {A B E} (p : S3Prog (result A E)) (k : A -> S3Prog (result B E)) : S3Prog (result B E) :=
  then_ p (fun r => match r with Ok a => k a | Err e => Done (Err e) end).

(** [send().await] followed by [map_err] and [?]. *)
Definition send {A B E} (c : S3Call A) (on_error : SdkError -> E) (k : A -> S3Prog (result B E)) :
    S3Prog (result B E) :=
  Send c (fun r => match r with Ok a => k a | Err err => Done (Err (on_error err)) end).

(** A program alone against a client: the client answers each call and changes the world. *)
Definition S3Client (W : Type) : Type := forall B, S3Call B -> W -> result B SdkError * W.
Fixpoint run_prog {W A} (client : S3Client W) (p : S3Prog A) (w : W) : A * W :=
  match p with
  | Done a => (a, w)
  | Send c k => let '(r, w') := client _ c w in run_prog client (k r) w'
  end.

(** ** [S3ObjectStore] *)

(** [non_negative_u64]. *)
Definition non_negative_u64 (value : option Z) : Z := default 0 (value ≫= try_from_uint 64).

Section S3ObjectStore.
(** The bucket of the configuration, and [SystemTime::try_from] of a [DateTime]. *)
Context (bucket : string) (system_time : Z -> option Z).

(** [system_time_or_epoch]. *)
Definition system_time_or_epoch (value : option Z) : Z := default 0 (value ≫= system_time).

(** [put_request]. *)
Definition put_request (key : string) (data : list byte) (opts : PutOptions) : PutObjectRequest :=
  match mode opts with
  | IfNotExists => MkPutObjectRequest bucket key data (Some "*"%string) None
  | Overwrite => MkPutObjectRequest bucket key data None None
  end.

(** [current_retention]. *)
Definition current_retention (key : string) : S3Prog (result (option Z) CloudError) :=
  Send (GetObjectRetentionCall bucket key) (fun r =>
    match r with
    | Ok output => Done (Ok (output ≫= fun retain_until_date => retain_until_date))
    | Err err =>
        match map_error Read key err with
        | NotFound _ => Done (Ok None)
        | other => Done (Err other)
        end
    end).

(** [put]. *)
Definition s3_put (key : string) (data : list byte) (opts : PutOptions) : S3Prog (result unit CloudError) :=
  match mode opts with
  | IfNotExists =>
      send (PutObjectCall (put_request key data opts)) (map_error CreateOnlyWrite key) (fun _ => Done (Ok tt))
  | Overwrite =>
      then_ok (current_retention key) (fun retention =>
        match retention with
        | Some _ =>
            Done (Err (RetentionViolation (OtherReason
              (key +:+ ": carries Object Lock retention; PutMode::Overwrite never targets append-only log content"))))
        | None =>
            send (PutObjectCall (put_request key data opts)) (map_error RetentionGuardedWrite key)
              (fun _ => Done (Ok tt))
        end)
  end.

(** [get]. *)
Definition s3_get (key : string) : S3Prog (result (list byte) CloudError) :=
  send (GetObjectCall bucket key) (map_error Read key) (fun body =>
    match body with
    | Ok bytes => Done (Ok bytes)
    | Err err => Done (Err (Transport true (OtherReason ("failed to read response body: " +:+ err))))
    end).

(** [head]. *)
Definition s3_head (key : string) : S3Prog (result ObjectMetadata CloudError) :=
  send (HeadObjectCall bucket key) (map_error Read key) (fun output =>
    Done (Ok (MkObjectMetadata (non_negative_u64 (ho_content_length output))
                               (system_time_or_epoch (ho_last_modified output))))).

(** One page of a listing: the objects without a key are skipped. *)
Definition listed_info (object : ListedObject) : option ObjectInfo :=
  key ← lo_key object;
  Some (MkObjectInfo key (non_negative_u64 (lo_size object)) (system_time_or_epoch (lo_last_modified object))).

(** The loop of [list]; [None] when the fuel runs out. *)
Fixpoint list_loop (fuel : nat) (prefix : string) (token : option string) (listed : list ObjectInfo) :
    S3Prog (result (option (list ObjectInfo)) CloudError) :=
  match fuel with
  | O => Done (Ok None)
  | S fuel =>
      send (ListObjectsV2Call bucket prefix token) (map_error Read prefix) (fun output =>
        let listed := listed ++ omap listed_info (ls_contents output) in
        if decide (ls_is_truncated output = Some true)
        then list_loop fuel prefix (ls_next_continuation_token output) listed
        else Done (Ok (Some listed)))
  end.

Definition info_le (a b : ObjectInfo) : Prop := String.le (oi_key a) (oi_key b).
#[export] Instance info_le_dec : RelDecision info_le := fun a b => decide (String.le (oi_key a) (oi_key b)).

(** [list]. *)
Definition s3_list (fuel : nat) (prefix : string) : S3Prog (result (option (list ObjectInfo)) CloudError) :=
  then_ok (list_loop fuel prefix None []) (fun listed => Done (Ok (merge_sort info_le <$> listed))).

(** [delete]. *)
Definition s3_delete (key : string) : S3Prog (result unit CloudError) :=
  send (HeadObjectCall bucket key) (map_error Read key) (fun head =>
    send (DeleteObjectCall bucket key (ho_version_id head)) (map_error RetentionGuardedWrite key)
      (fun _ => Done (Ok tt))).

(** ** [ObjectLock] *)

(** [put_with_retention]. *)
Definition s3_put_with_retention (key : string) (data : list byte) (retain_until : Z) :
    S3Prog (result unit CloudError) :=
  send (PutObjectCall (MkPutObjectRequest bucket key data (Some "*"%string) (Some retain_until)))
    (map_error CreateOnlyWrite key) (fun _ => Done (Ok tt)).

(** [retention_conversion_error]; the detail is the conversion's error. *)
Definition retention_conversion_error (key : string) : CloudError :=
  Transport false (OtherReason (key +:+ ": invalid Object Lock retain-until date from S3")).

(** [extend_retention]. *)
Definition s3_extend_retention (key : string) (new_retain_until : Z) : S3Prog (result unit CloudError) :=
  then_ok (current_retention key) (fun current =>
    match current with
    | None => Done (Err (NotFound key))
    | Some current =>
        match system_time current with
        | None => Done (Err (retention_conversion_error key))
        | Some current_std =>
            if new_retain_until <=? current_std
            then Done (Err (RetentionViolation (RetentionForwardOnly key current_std new_retain_until)))
            else send (PutObjectRetentionCall bucket key new_retain_until) (map_error RetentionExtend key)
                   (fun _ => Done (Ok tt))
        end
    end).

(** [get_retention]. *)
Definition s3_get_retention (key : string) : S3Prog (result Z CloudError) :=
  then_ok (current_retention key) (fun retain_until =>
    match retain_until with
    | None => Done (Err (NotFound key))
    | Some retain_until =>
        match system_time retain_until with
        | None => Done (Err (retention_conversion_error key))
        | Some t => Done (Ok t)
        end
    end).

(** A call of the two traits; a listing is [None] when its fuel runs out. *)
Definition s3_program (fuel : nat) {A} (c : StoreCall A) : S3Prog (option (result A CloudError)) :=
  match c in StoreCall A return S3Prog (option (result A CloudError)) with
  | CallPut key bytes opts => then_ (s3_put key bytes opts) (fun r => Done (Some r))
  | CallGet key => then_ (s3_get key) (fun r => Done (Some r))
  | CallHead key => then_ (s3_head key) (fun r => Done (Some r))
  | CallList prefix =>
      then_ (s3_list fuel prefix) (fun r =>
        Done match r with Ok (Some infos) => Some (Ok infos) | Ok None => None | Err e => Some (Err e) end)
  | CallDelete key => then_ (s3_delete key) (fun r => Done (Some r))
  | CallPutWithRetention key bytes until => then_ (s3_put_with_retention key bytes until) (fun r => Done (Some r))
  | CallExtendRetention key until => then_ (s3_extend_retention key until) (fun r => Done (Some r))
  | CallGetRetention key => then_ (s3_get_retention key) (fun r => Done (Some r))
  end.
End S3ObjectStore.
