(* ===== verification/S3Server.v ===== *)
(** * What the S3 service promises

    A bucket with versioning and Object Lock, as documented by the service and in
    [crates/cloud-aws/src/lib.rs]: what each call does to the versions of the keys, when it is
    refused and with which code, as laws of a client. A call is judged at an instant between the
    times before and after it; one that ends in a fault may or may not have had its effect. *)

From stdpp Require Import gmap sorting.
From S2P Require Import Prelude Time KV AwsErrors ObjectStore ObjectStoreFacts S3.

Local Open Scope mtc_scope.
Local Open Scope Z_scope.

(** ** The versions of a bucket *)

(** A version of an object, with the end of its compliance retention. *)
Record Version : Type := MkVersion {
  ver_id : string;
  ver_data : list byte;
  ver_modified : Z;
  ver_until : option Z
}.

(** The versions of each key, the current one first. *)
Abbreviation Bucket := (gmap string (list Version)).
Definition versions (b : gmap string (list Version)) (key : string) : list Version := default [] (b !! key).
Definition current (b : gmap string (list Version)) (key : string) : option Version := head (versions b key).
Definition locked (t : Z) (v : Version) : Prop := exists until, ver_until v = Some until /\ t < until.

(** Retention dates are kept to the second. *)
Definition whole_seconds (d : Z) : Z := d / nanos_per_sec * nanos_per_sec.

Definition push (key : string) (v : Version) (b : gmap string (list Version)) : gmap string (list Version) :=
  <[key := v :: versions b key]> b.
Definition remove_version (key id : string) (b : gmap string (list Version)) : gmap string (list Version) :=
  <[key := filter (fun v => ver_id v <> id) (versions b key)]> b.
Definition listed (b : gmap string (list Version)) (prefix : string) (object : ListedObject) : Prop :=
  exists key v, current b key = Some v /\ String.prefix prefix key = true /\
    object = MkListedObject (Some key) (Some (len (ver_data v))) (Some (ver_modified v)).

(** ** The calls *)

(** What a call that is performed at [t] answers and leaves. An unversioned deletion is not described. *)
Definition s3_effect {B} (t : Z) (c : S3Call B) (b : gmap string (list Version)) :
    B -> gmap string (list Version) -> Prop :=
  match c in S3Call B return B -> gmap string (list Version) -> Prop with
  | PutObjectCall req => fun _ b' =>
      (po_if_none_match req = Some "*"%string -> current b (po_key req) = None) /\
      (forall until, po_compliance_until req = Some until -> t < whole_seconds until) /\
      exists v, ver_data v = po_body req /\ ver_until v = whole_seconds <$> po_compliance_until req /\
        b' = push (po_key req) v b
  | GetObjectCall _ key => fun body b' =>
      b' = b /\ exists v, current b key = Some v /\ (body = Ok (ver_data v) \/ exists text, body = Err text)
  | HeadObjectCall _ key => fun output b' =>
      b' = b /\ exists v, current b key = Some v /\
        output = MkHeadOutput (Some (len (ver_data v))) (Some (ver_modified v)) (Some (ver_id v))
  | ListObjectsV2Call _ prefix _ => fun output b' => b' = b /\ Forall (listed b prefix) (ls_contents output)
  | DeleteObjectCall _ key (Some id) => fun _ b' =>
      (forall v, v ∈ versions b key -> ver_id v = id -> ~ locked t v) /\ b' = remove_version key id b
  | DeleteObjectCall _ key None => fun _ b' => True
  | GetObjectRetentionCall _ key => fun output b' =>
      b' = b /\ exists v, current b key = Some v /\ output ≫= (fun date => date) = ver_until v
  | PutObjectRetentionCall _ key date => fun _ b' =>
      exists v rest, versions b key = v :: rest /\ t < whole_seconds date /\
        (locked t v -> exists until, ver_until v = Some until /\ until <= whole_seconds date) /\
        b' = <[key := MkVersion (ver_id v) (ver_data v) (ver_modified v) (Some (whole_seconds date)) :: rest]> b
  end.

(** When a call is refused at [t], and the code it is refused with. *)
Definition s3_refuses {B} (t : Z) (c : S3Call B) (b : gmap string (list Version)) (code : string) : Prop :=
  match c with
  | PutObjectCall req =>
      (code = "PreconditionFailed"%string /\ po_if_none_match req = Some "*"%string /\
       is_Some (current b (po_key req))) \/
      (code = "InvalidArgument"%string /\
       exists until, po_compliance_until req = Some until /\ whole_seconds until <= t)
  | GetObjectCall _ key => code = "NoSuchKey"%string /\ current b key = None
  | HeadObjectCall _ key => code = "NotFound"%string /\ current b key = None
  | ListObjectsV2Call _ _ _ => False
  | DeleteObjectCall _ key id =>
      code = "AccessDenied"%string /\ exists v, v ∈ versions b key /\ Some (ver_id v) = id /\ locked t v
  | GetObjectRetentionCall _ key =>
      (code = "NoSuchKey"%string /\ current b key = None) \/
      (code = "NoSuchObjectLockConfiguration"%string /\ exists v, current b key = Some v /\ ver_until v = None)
  | PutObjectRetentionCall _ key date =>
      (code = "NoSuchKey"%string /\ current b key = None) \/
      (code = "AccessDenied"%string /\ exists v until, current b key = Some v /\ ver_until v = Some until /\
         t < until /\ whole_seconds date < until) \/
      (code = "InvalidArgument"%string /\ whole_seconds date <= t)
  end.

(** An error that is no refusal: whatever the operation, it is classified as transport. *)
Definition fault (e : SdkError) : Prop :=
  forall op key, exists retryable reason, map_error op key e = Transport retryable reason.

Definition on_bucket {B} (bucket : string) (c : S3Call B) : Prop :=
  match c with
  | PutObjectCall req => po_bucket req = bucket
  | GetObjectCall b _ | HeadObjectCall b _ | ListObjectsV2Call b _ _ | DeleteObjectCall b _ _
  | GetObjectRetentionCall b _ | PutObjectRetentionCall b _ _ => b = bucket
  end.

(** The answer to a call at [t]. *)
Definition s3_answered {B} (t : Z) (c : S3Call B) (b : gmap string (list Version)) (r : result B SdkError)
    (b' : gmap string (list Version)) : Prop :=
  match r with
  | Ok a => s3_effect t c b a b'
  | Err e =>
      (exists code status detail, e = ServiceError (Some code) status detail /\ s3_refuses t c b code /\ b' = b) \/
      (fault e /\ (b' = b \/ exists a, s3_effect t c b a b'))
  end.

(** A listing read to its end or to an error, by the tokens given. *)
Inductive Listing {W} (client : S3Client W) (bucket prefix : string) :
    option string -> W -> list (list ListedObject) -> option SdkError -> W -> Prop :=
| listing_error token w e w' :
    client _ (ListObjectsV2Call bucket prefix token) w = (Err e, w') ->
    Listing client bucket prefix token w [] (Some e) w'
| listing_last token w output w' :
    client _ (ListObjectsV2Call bucket prefix token) w = (Ok output, w') -> ls_is_truncated output <> Some true ->
    Listing client bucket prefix token w [ls_contents output] None w'
| listing_next token w output w' pages r w'' :
    client _ (ListObjectsV2Call bucket prefix token) w = (Ok output, w') -> ls_is_truncated output = Some true ->
    Listing client bucket prefix (ls_next_continuation_token output) w' pages r w'' ->
    Listing client bucket prefix token w (ls_contents output :: pages) r w''.

(** A version as the service keeps it: its dates are instants, its size is an [i64]. *)
Definition version_wf (system_time : Z -> option Z) (v : Version) : Prop :=
  system_time (ver_modified v) = Some (ver_modified v) /\ len (ver_data v) < 2 ^ 63 /\
  forall until, ver_until v = Some until -> system_time until = Some until.

(** The laws of the service on one bucket, whose versions and clock are read from the world. Alone, a
    listing is of the current versions, each once, and ends. *)
Class S3Server {W} (client : S3Client W) (bucket : string) (system_time : Z -> option Z)
    (view : W -> gmap string (list Version)) (time : W -> Z) : Prop := {
  call_law {B} (c : S3Call B) w : on_bucket bucket c ->
    exists t, time w <= t <= time (client _ c w).2 /\
      s3_answered t c (view w) (client _ c w).1 (view (client _ c w).2);
  time_law {B} (c : S3Call B) w : time w <= time (client _ c w).2;
  list_law prefix w : exists pages r w',
    Listing client bucket prefix None w pages r w' /\
    (r = None -> NoDup (lo_key <$> concat pages) /\
                 forall object, listed (view w) prefix object -> object ∈ concat pages);
  view_law w key v : v ∈ versions (view w) key -> version_wf system_time v;
  ids_law w key : NoDup (ver_id <$> versions (view w) key)
}.

(** ** The objects a bucket stands for *)

Definition stored (v : Version) : StoredObject := MkStoredObject (ver_data v) (ver_modified v) (ver_until v).
Definition objects_of (b : gmap string (list Version)) : gmap string StoredObject :=
  omap (fun vs => stored <$> head vs) b.

Lemma objects_of_lookup b key : objects_of b !! key = stored <$> current b key.
Proof. unfold objects_of, current, versions. rewrite lookup_omap. by destruct (b !! key). Qed.

Lemma objects_of_none b key : objects_of b !! key = None <-> current b key = None.
Proof. rewrite objects_of_lookup. by destruct (current b key). Qed.

Lemma objects_of_insert b key v rest :
  objects_of (<[key := v :: rest]> b) = <[key := stored v]> (objects_of b).
Proof. unfold objects_of. by rewrite (omap_insert_Some _ _ _ _ (stored v)). Qed.

Lemma objects_of_insert_nil b key : objects_of (<[key := []]> b) = delete key (objects_of b).
Proof. unfold objects_of. by rewrite omap_insert_None. Qed.

Lemma versions_current b key v : current b key = Some v -> exists rest, versions b key = v :: rest.
Proof. unfold current. destruct (versions b key) as [|v' rest]; [done|]. intros [= ->]. by exists rest. Qed.

Lemma current_elem b key v : current b key = Some v -> v ∈ versions b key.
Proof. intros [rest ->]%versions_current. left. Qed.

Lemma versions_insert b key vs : versions (<[key := vs]> b) key = vs.
Proof. unfold versions. by rewrite lookup_insert_eq. Qed.

Lemma versions_insert_ne b key key' vs : key' <> key -> versions (<[key' := vs]> b) key = versions b key.
Proof. intros. unfold versions. by rewrite lookup_insert_ne. Qed.

(** A whole number of seconds is kept as it is, and no date moves later. *)
Lemma whole_seconds_le d : whole_seconds d <= d.
Proof.
  unfold whole_seconds. assert (0 < nanos_per_sec) by (unfold nanos_per_sec; lia).
  pose proof (Z.mul_div_le d nanos_per_sec ltac:(done)). lia.
Qed.
Lemma whole_seconds_id d : (nanos_per_sec | d) -> whole_seconds d = d.
Proof. intros [k ->]. unfold whole_seconds. rewrite Z.div_mul; [done|unfold nanos_per_sec; lia]. Qed.
