(* ===== verification/S3Facts.v ===== *)
(** * The S3 backend keeps the object store's contract

    Over any service with the laws of [S3Server.v], each operation of the backend, run alone, is
    answered as the traits document, faults apart, for the objects that the current versions stand
    for. *)

From stdpp Require Import gmap sorting.
From S2P Require Import Prelude Time BTree KV AwsErrors ObjectStore ObjectStoreFacts S3 S3Server.

Local Open Scope mtc_scope.
Local Open Scope Z_scope.

(** ** Errors *)

Lemma classify_guarded key code status : code = "AccessDenied"%string \/ code = "InvalidArgument"%string ->
  exists reason, classify RetentionGuardedWrite key code status = RetentionViolation reason.
Proof. intros [-> | ->]; by eexists. Qed.
Lemma classify_extend key code status : code = "AccessDenied"%string \/ code = "InvalidArgument"%string ->
  exists reason, classify RetentionExtend key code status = RetentionViolation reason.
Proof. intros [-> | ->]; by eexists. Qed.
(** ** The contract of the backend *)

(** What this backend refuses besides: an overwrite of an object that ever had a retention, which the
    traits leave to the backend, and an extension that ends in the past, which they do not
    ([S3Contract.past_extension]). *)
Definition backend_refusal {A} (t : Z) (c : StoreCall A) (m : gmap string StoredObject) : Prop :=
  match c with
  | CallPut key _ opts => mode opts = Overwrite /\ is_Some (m !! key ≫= retain_until)
  | CallExtendRetention key until => is_Some (m !! key ≫= retain_until) /\ until <= t
  | _ => False
  end.

(** The contract, a fault that may or may not have had its effect, or one of these. *)
Definition s3_contract {A} (t : Z) (c : StoreCall A) (m : gmap string StoredObject) (r : result A CloudError)
    (m' : gmap string StoredObject) : Prop :=
  contract t c m r m' \/
  (exists retryable reason, r = Err (Transport retryable reason) /\
     (m' = m \/ exists a, performed t c m a m')) \/
  (m' = m /\ backend_refusal t c m /\ exists reason, r = Err (RetentionViolation reason)).

(** The calls: dates in whole seconds, which is what the service keeps; and a deletion of a key that
    has no older version, which would come back. *)
Definition s3_supported {A} (b : gmap string (list Version)) (c : StoreCall A) : Prop :=
  match c with
  | CallDelete key => (length (versions b key) <= 1)%nat
  | CallPutWithRetention _ _ until | CallExtendRetention _ until => (nanos_per_sec | until)
  | _ => True
  end.

Section Contract.
Context {W : Type} (client : S3Client W) (bucket : string) (system_time : Z -> option Z).
Context (view : W -> gmap string (list Version)) (time : W -> Z).
Context `{!S3Server client bucket system_time view time}.

(** An operation that ran from [w] to [w'], at some instant in between. *)
Definition s3_kept {A} (c : StoreCall A) (w : W) (r : result A CloudError) (w' : W) : Prop :=
  exists t, time w <= t <= time w' /\ s3_contract t c (objects_of (view w)) r (objects_of (view w')).

Lemma kept_fault {A} (c : StoreCall A) w w' e op key t :
  time w <= t <= time w' -> fault e ->
  (objects_of (view w') = objects_of (view w) \/ exists a, performed t c (objects_of (view w)) a (objects_of (view w'))) ->
  s3_kept c w (Err (map_error op key e)) w'.
Proof.
  intros Ht Hf Hm. exists t. split; [done|]. right. left.
  destruct (Hf op key) as (b & reason & ->). by exists b, reason.
Qed.

Lemma kept_later {A} (c : StoreCall A) w w1 r w' :
  view w1 = view w -> time w <= time w1 -> s3_kept c w1 r w' -> s3_kept c w r w'.
Proof. intros Hv Ht (t & Hb & Hc). exists t. rewrite Hv in Hc. split; [lia|done]. Qed.

Lemma kept_done {A} (c : StoreCall A) w w' a t :
  time w <= t <= time w' -> performed t c (objects_of (view w)) a (objects_of (view w')) -> s3_kept c w (Ok a) w'.
Proof. intros Ht Hp. exists t. split; [done|]. by left. Qed.

Lemma kept_refused {A} (c : StoreCall A) w w' e t :
  time w <= t <= time w' -> view w' = view w -> refusal t c (objects_of (view w)) e -> s3_kept c w (Err e) w'.
Proof. intros Ht Hv Hp. exists t. split; [done|]. left. by rewrite Hv. Qed.

Lemma kept_transport {A} (c : StoreCall A) w w' retryable reason :
  time w <= time w' -> view w' = view w -> s3_kept c w (Err (Transport retryable reason)) w'.
Proof. intros Ht Hv. exists (time w). split; [lia|]. right. left. rewrite Hv. eauto. Qed.

(** A call the operation ends with: judged by what the service does of it. *)
Lemma send_kept {A B} (sc : StoreCall A) (c : S3Call B) op key (k : B -> result A CloudError) w :
  on_bucket bucket c ->
  (forall t w' a, time w <= t <= time w' -> s3_effect t c (view w) a (view w') -> s3_kept sc w (k a) w') ->
  (forall t w' a, s3_effect t c (view w) a (view w') ->
     objects_of (view w') = objects_of (view w) \/
     exists x, performed t sc (objects_of (view w)) x (objects_of (view w'))) ->
  (forall t w' code status, time w <= t <= time w' -> view w' = view w -> s3_refuses t c (view w) code ->
     s3_kept sc w (Err (classify op key code status)) w') ->
  let '(r, w') := run_prog client (send c (map_error op key) (fun a => Done (k a))) w in s3_kept sc w r w'.
Proof.
  intros Hb Hok Hfault Href. unfold send. cbn [run_prog].
  destruct (call_law c w Hb) as (t & Ht & H). destruct (client B c w) as [[a|e] w']; cbn in *.
  - by eapply Hok.
  - destruct H as [(code & status & d & -> & Hr & Hv)|[Hf Hv]].
    + by eapply (Href _ _ _ status).
    + eapply kept_fault; [done..|]. destruct Hv as [Hv|[a Hv]]; [left; by rewrite Hv|by eapply Hfault].
Qed.

(** The retention read before an overwrite or an extension, which changes nothing. *)
Lemma current_retention_run key w :
  let '(r, w') := run_prog client (current_retention bucket key) w in
  view w' = view w /\ time w <= time w' /\
  ((r = Ok (objects_of (view w) !! key ≫= retain_until)) \/
   exists retryable reason, r = Err (Transport retryable reason)).
Proof.
  unfold current_retention. cbn [run_prog].
  destruct (call_law (GetObjectRetentionCall bucket key) w) as (t & Ht & H); [done|].
  rewrite objects_of_lookup. destruct (client _ _ w) as [[o|e] w']; cbn in *.
  - destruct H as (Hv & v & Hc & Ho). split; [done|]. split; [lia|]. left. by rewrite Hc, Ho.
  - destruct H as [(code & status & d & -> & Hr & Hv)|[Hf Hv]]; cbn [AwsErrors.map_error].
    + destruct Hr as [[-> Hc]|[-> (v & Hc & Hu)]]; cbn; (split; [done|]); (split; [lia|]); left; rewrite Hc; cbn;
        [done|by rewrite Hu].
    + destruct (Hf Read key) as (b & reason & ->). cbn. split; [by destruct Hv as [Hv|(? & ? & ?)]|].
      split; [lia|]. right. eauto.
Qed.

Lemma run_then {A B} (p : S3Prog A) (k : A -> S3Prog B) w :
  run_prog client (then_ p k) w = let '(a, w') := run_prog client p w in run_prog client (k a) w'.
Proof.
  revert w. induction p as [a|C c k' IH]; intros w; cbn [then_ run_prog]; [done|].
  destruct (client C c w) as [r w']. apply IH.
Qed.

(** ** Reads *)

Lemma s3_get_kept key w :
  let '(r, w') := run_prog client (s3_get bucket key) w in s3_kept (CallGet key) w r w'.
Proof.
  assert (run_prog client (s3_get bucket key) w =
    run_prog client (send (GetObjectCall bucket key) (map_error Read key) (fun body =>
      Done (match body with Ok bytes => Ok bytes | Err err =>
        Err (Transport true (OtherReason ("failed to read response body: " +:+ err))) end))) w) as ->.
  { unfold s3_get, send. cbn [run_prog]. by destruct (client _ _ w) as [[[?|?]|?] ?]. }
  apply (send_kept (CallGet key)); [done| | |].
  - intros t w' a Ht (Hv & v & Hc & [-> | [text ->]]); [|apply kept_transport; [lia|done]].
    eapply kept_done; [done|]. rewrite Hv. split; [done|]. exists (stored v). by rewrite objects_of_lookup, Hc.
  - intros t w' a (Hv & _). left. by rewrite Hv.
  - intros t w' code status Ht Hv [-> Hc]. eapply kept_refused; [done..|]. split; [by apply objects_of_none|done].
Qed.

Lemma size_of v w key : v ∈ versions (view w) key -> non_negative_u64 (Some (len (ver_data v))) = size_bytes (ver_data v).
Proof.
  intros Hv. pose proof (view_law _ _ _ Hv) as (_ & Hl & _). unfold non_negative_u64, size_bytes, try_from_uint. cbn.
  pose proof (Zle_0_nat (length (ver_data v))). unfold len in *.
  rewrite (proj2 (Z.leb_le _ _)), (proj2 (Z.ltb_lt _ _)) by lia. done.
Qed.

Lemma s3_head_kept key w :
  let '(r, w') := run_prog client (s3_head bucket system_time key) w in s3_kept (CallHead key) w r w'.
Proof.
  apply (send_kept (CallHead key) (HeadObjectCall bucket key) Read key
    (fun output => Ok (MkObjectMetadata (non_negative_u64 (ho_content_length output))
       (system_time_or_epoch system_time (ho_last_modified output))))); [done| | |].
  - intros t w' a Ht (Hv & v & Hc & ->). eapply kept_done; [done|]. rewrite Hv. split; [done|].
    exists (stored v). rewrite objects_of_lookup, Hc. split; [done|]. apply current_elem in Hc.
    pose proof (view_law _ _ _ Hc) as (Hm & _ & _).
    apply f_equal2; [exact (size_of _ _ _ Hc)|]. unfold system_time_or_epoch. cbn. by rewrite Hm.
  - intros t w' a (Hv & _). left. by rewrite Hv.
  - intros t w' code status Ht Hv [-> Hc]. eapply kept_refused; [done..|]. split; [by apply objects_of_none|done].
Qed.
(** ** Writes *)

(** The write an operation ends with, after calls that changed nothing. *)
Lemma write_kept (sc : StoreCall unit) (c : S3Call unit) op key w w1 :
  view w1 = view w -> time w <= time w1 -> on_bucket bucket c ->
  (forall t w' a, s3_effect t c (view w1) a (view w') ->
     performed t sc (objects_of (view w1)) tt (objects_of (view w'))) ->
  (forall t w' code status, time w1 <= t <= time w' -> view w' = view w1 -> s3_refuses t c (view w1) code ->
     s3_kept sc w1 (Err (classify op key code status)) w') ->
  let '(r, w') := run_prog client (send c (map_error op key) (fun _ => Done (Ok tt))) w1 in s3_kept sc w r w'.
Proof.
  intros Hv Ht Hb Hdone Href.
  assert (let '(r, w') := run_prog client (send c (map_error op key) (fun _ => Done (Ok tt))) w1 in
          s3_kept sc w1 r w') as H.
  { apply (send_kept sc c op key (fun _ => Ok tt)); [done| | |done].
    - intros t w' a Ht' He. eapply kept_done; [done|]. by eapply Hdone.
    - intros t w' a He. right. exists tt. by eapply Hdone. }
  destruct (run_prog client _ w1) as [r w']. by apply (kept_later _ w w1).
Qed.

Lemma pushed t req w w' (u : unit) :
  s3_effect t (PutObjectCall req) (view w) u (view w') ->
  exists modified, objects_of (view w') =
    <[po_key req := MkStoredObject (po_body req) modified (whole_seconds <$> po_compliance_until req)]> (objects_of (view w)).
Proof.
  intros (_ & _ & v & Hd & Hu & ->). exists (ver_modified v). unfold push. rewrite objects_of_insert.
  unfold stored. by rewrite Hd, Hu.
Qed.

Lemma s3_put_create_kept key bytes w :
  let '(r, w') := run_prog client (s3_put bucket key bytes if_not_exists) w in
  s3_kept (CallPut key bytes if_not_exists) w r w'.
Proof.
  assert (forall t w' a, s3_effect t (PutObjectCall (put_request bucket key bytes if_not_exists)) (view w) a (view w') ->
    performed t (CallPut key bytes if_not_exists) (objects_of (view w)) tt (objects_of (view w'))) as Hdone.
  { intros t w' a He. pose proof (pushed _ _ _ _ _ He) as [m Hm]. destruct He as (Hfree & _).
    cbn in *. specialize (Hfree eq_refl). apply objects_of_none in Hfree.
    split_and!; [done|by rewrite Hfree|by exists m]. }
  apply (write_kept (CallPut key bytes if_not_exists)); [done|lia|done|exact Hdone|].
  intros t w' code status Ht Hv [(-> & _ & Hc)|(-> & u & Hu & _)]; [|done].
    eapply kept_refused; [done..|]. left. cbn in *. split_and!; [done| |done].
    rewrite objects_of_lookup. by apply fmap_is_Some.
Qed.

Lemma s3_put_overwrite_kept key bytes w :
  let '(r, w') := run_prog client (s3_put bucket key bytes overwrite) w in
  s3_kept (CallPut key bytes overwrite) w r w'.
Proof.
  unfold s3_put. cbn [mode overwrite]. unfold then_ok. rewrite run_then.
  pose proof (current_retention_run key w) as Hr. destruct (run_prog client (current_retention bucket key) w) as [r w1].
  destruct Hr as (Hv & Ht & [->|(b & reason & ->)]); [|by apply kept_transport].
  destruct (objects_of (view w) !! key ≫= retain_until) as [u|] eqn:Eu.
  - exists (time w). split; [lia|]. right. right. split; [by rewrite Hv|]. split; [|by eexists].
    split; [done|]. by rewrite Eu.
  - assert (forall t w' a, s3_effect t (PutObjectCall (put_request bucket key bytes overwrite)) (view w1) a (view w') ->
      performed t (CallPut key bytes overwrite) (objects_of (view w1)) tt (objects_of (view w'))) as Hdone.
    { intros t w' a He. pose proof (pushed _ _ _ _ _ He) as [m Hm]. split_and!; [done| |by exists m].
      intros o Ho (u & Hu & _). rewrite Hv in Ho. rewrite Ho in Eu. cbn in Eu. congruence. }
    apply (write_kept (CallPut key bytes overwrite)); [done..|exact Hdone|].
    intros t w2 code status Ht' Hv' [(_ & Hn & _)|(_ & u & Hu & _)]; done.
Qed.

Lemma s3_put_with_retention_kept key bytes until w :
  (nanos_per_sec | until) ->
  let '(r, w') := run_prog client (s3_put_with_retention bucket key bytes until) w in
  s3_kept (CallPutWithRetention key bytes until) w r w'.
Proof.
  intros Hw.
  assert (forall t w' a,
    s3_effect t (PutObjectCall (MkPutObjectRequest bucket key bytes (Some "*"%string) (Some until))) (view w) a (view w') ->
    performed t (CallPutWithRetention key bytes until) (objects_of (view w)) tt (objects_of (view w'))) as Hdone.
  { intros t w' a He. pose proof (pushed _ _ _ _ _ He) as [m Hm]. destruct He as (Hfree & _).
    cbn in *. rewrite (whole_seconds_id _ Hw) in Hm. split; [by apply objects_of_none, Hfree|by exists m]. }
  apply (write_kept (CallPutWithRetention key bytes until)); [done|lia|done|exact Hdone|].
  intros t w' code status Ht Hv [(-> & _ & Hc)|(-> & _)]; [|by apply kept_transport; [lia|]].
    eapply kept_refused; [done..|]. split; [|done]. rewrite objects_of_lookup. by apply fmap_is_Some.
Qed.

Lemma s3_delete_kept key w :
  (length (versions (view w) key) <= 1)%nat ->
  let '(r, w') := run_prog client (s3_delete bucket key) w in s3_kept (CallDelete key) w r w'.
Proof.
  intros Hl. unfold s3_delete, send at 1. cbn [run_prog].
  destruct (call_law (HeadObjectCall bucket key) w) as (t & Ht & H); [done|].
  destruct (client _ _ w) as [[out|e] w1]; cbn in *.
  2: { destruct H as [(code & status & d & -> & [-> Hc] & Hv)|[Hf Hv]].
       - eapply kept_refused; [done..|]. left. split; [by apply objects_of_none|done].
       - eapply kept_fault; [done..|]. left. by destruct Hv as [-> | (? & -> & _)]. }
  destruct H as (Hv & v & Hc & ->). cbn [ho_version_id].
  destruct (versions_current _ _ _ Hc) as [[|v2 rest] Hvs]; [|rewrite Hvs in Hl; cbn in Hl; lia].
  assert (versions (view w1) key = [v]) as Hvs1 by (by rewrite Hv).
  assert (objects_of (view w1) !! key = Some (stored v)) as Ho by (by rewrite Hv, objects_of_lookup, Hc).
  assert (forall t' w' a, s3_effect t' (DeleteObjectCall bucket key (Some (ver_id v))) (view w1) a (view w') ->
    performed t' (CallDelete key) (objects_of (view w1)) tt (objects_of (view w'))) as Hdone.
  { intros t' w' a [Hnl Hv']. split.
    - rewrite Hv'. unfold remove_version. rewrite Hvs1, filter_cons_False by (by intros []).
      rewrite filter_nil. apply objects_of_insert_nil.
    - exists (stored v). split; [done|]. intros (u & Hu & Hlt). eapply (Hnl v); [rewrite Hvs1; left|done|].
      by exists u. }
  apply (write_kept (CallDelete key) (DeleteObjectCall bucket key (Some (ver_id v)))); [done|lia|done|exact Hdone|].
  intros t' w2 code status Ht' Hv' (-> & v' & Hin & [= Hid] & u & Hu & Hlt).
  destruct (classify_guarded key "AccessDenied" status) as [reason ->]; [by left|].
  eapply kept_refused; [done..|]. right. split; [|by eexists]. exists (stored v). split; [done|].
  rewrite Hvs1 in Hin. apply list_elem_of_singleton in Hin as ->. by exists u.
Qed.

(** ** Retention *)

Lemma retention_known w key until :
  objects_of (view w) !! key ≫= retain_until = Some until ->
  system_time until = Some until /\ exists v, current (view w) key = Some v /\ ver_until v = Some until.
Proof.
  rewrite objects_of_lookup. destruct (current (view w) key) as [v|] eqn:Hc; [|done]. cbn. intros Hu.
  split; [|by exists v]. apply current_elem in Hc. by apply (view_law _ _ _ Hc).
Qed.

Lemma s3_get_retention_kept key w :
  let '(r, w') := run_prog client (s3_get_retention bucket system_time key) w in s3_kept (CallGetRetention key) w r w'.
Proof.
  unfold s3_get_retention, then_ok. rewrite run_then.
  pose proof (current_retention_run key w) as Hr. destruct (run_prog client (current_retention bucket key) w) as [r w1].
  destruct Hr as (Hv & Ht & [->|(b & reason & ->)]); [|by apply kept_transport].
  destruct (objects_of (view w) !! key ≫= retain_until) as [u|] eqn:Eu.
  - destruct (retention_known _ _ _ Eu) as (Hs & _). rewrite Hs. cbn. eapply (kept_done _ _ _ _ (time w)); [lia|].
    rewrite Hv. split; [done|]. apply bind_Some in Eu as (o & ? & ?). by exists o.
  - cbn. eapply (kept_refused _ _ _ _ (time w)); [lia|done|]. by split.
Qed.

Lemma s3_extend_retention_kept key until w :
  (nanos_per_sec | until) ->
  let '(r, w') := run_prog client (s3_extend_retention bucket system_time key until) w in
  s3_kept (CallExtendRetention key until) w r w'.
Proof.
  intros Hw. unfold s3_extend_retention, then_ok. rewrite run_then.
  pose proof (current_retention_run key w) as Hr. destruct (run_prog client (current_retention bucket key) w) as [r w1].
  destruct Hr as (Hv & Ht & [->|(b & reason & ->)]); [|by apply kept_transport].
  destruct (objects_of (view w) !! key ≫= retain_until) as [u|] eqn:Eu.
  2: { cbn. eapply (kept_refused _ _ _ _ (time w)); [lia|done|]. by left. }
  destruct (retention_known _ _ _ Eu) as (Hs & v & Hc & Hu). rewrite Hs.
  destruct (Z.leb_spec until u) as [Hle|Hgt].
  { cbn. eapply (kept_refused _ _ _ _ (time w)); [lia|done|]. right. split; [by exists u|by eexists]. }
  destruct (versions_current _ _ _ Hc) as [rest Hvs]. rewrite <- Hv in Hvs, Hc.
  assert (objects_of (view w1) !! key = Some (stored v)) as Ho by (by rewrite objects_of_lookup, Hc).
  assert (forall t' w' a, s3_effect t' (PutObjectRetentionCall bucket key until) (view w1) a (view w') ->
    performed t' (CallExtendRetention key until) (objects_of (view w1)) tt (objects_of (view w'))) as Hdone.
  { intros t' w' a (v' & rest' & E & _ & _ & Hv'). rewrite Hvs in E. injection E as <- <-.
    exists (stored v), u. split_and!; [done..|]. rewrite Hv', (whole_seconds_id _ Hw). by rewrite objects_of_insert. }
  apply (write_kept (CallExtendRetention key until)); [done..|exact Hdone|].
  intros t' w2 code status Ht' Hv' [[-> Hn]|[(-> & v' & u' & Hc' & Hu' & _ & Hlt)|[-> Hlt]]].
  - congruence.
  - rewrite (whole_seconds_id _ Hw) in Hlt. assert (u' = u) by congruence. lia.
  - destruct (classify_extend key "InvalidArgument" status) as [reason ->]; [by right|].
    exists t'. split; [done|]. right. right. rewrite Hv'. split; [done|]. split; [|by eexists].
    cbn. rewrite Ho. cbn. rewrite Hu. split; [done|]. by rewrite (whole_seconds_id _ Hw) in Hlt.
Qed.

(** An extension of a window to an instant that is later, and over when the call is made, is
    refused, or fails in transport; it has no effect. *)
Lemma past_extension_refused key current until w :
  (nanos_per_sec | until) -> objects_of (view w) !! key ≫= retain_until = Some current -> current < until <= time w ->
  let '(r, w') := run_prog client (s3_extend_retention bucket system_time key until) w in
  view w' = view w /\ exists e, r = Err e /\
    ((exists reason, e = RetentionViolation reason) \/ exists retryable reason, e = Transport retryable reason).
Proof.
  intros Hw Eu [Hlt Hp]. unfold s3_extend_retention, then_ok. rewrite run_then.
  pose proof (current_retention_run key w) as Hr. destruct (run_prog client (current_retention bucket key) w) as [r w1].
  destruct Hr as (Hv & Ht & [->|(b & reason & ->)]); [|split; [done|]; eexists; split; [done|]; right; eauto].
  rewrite Eu. destruct (retention_known _ _ _ Eu) as (Hs & v & Hc & Hu). rewrite Hs.
  destruct (Z.leb_spec until current) as [Hle|_]; [lia|]. unfold send. cbn [run_prog].
  destruct (call_law (PutObjectRetentionCall bucket key until) w1) as (t & Ht' & H); [done|].
  destruct (client _ _ w1) as [[a|e] w2]; cbn in H, Ht' |- *.
  { destruct H as (? & ? & _ & Hnow & _). rewrite (whole_seconds_id _ Hw) in Hnow. lia. }
  destruct H as [(code & status & d & -> & Hr & Hv')|[Hf Hv']]; cbn [AwsErrors.map_error].
  - split; [congruence|]. eexists. split; [done|]. left. apply classify_extend.
    destruct Hr as [[-> Hn]|[[-> _]|[-> _]]]; [congruence|by left|by right].
  - destruct (Hf RetentionExtend key) as (b & reason & E). split.
    + destruct Hv' as [->|(? & ? & ? & _ & Hnow & _)]; [done|]. rewrite (whole_seconds_id _ Hw) in Hnow. lia.
    + eexists. split; [done|]. right. eauto.
Qed.

(** ** Listings *)

Lemma listing_facts prefix token w pages r w' :
  Listing client bucket prefix token w pages r w' ->
  view w' = view w /\ time w <= time w' /\ Forall (listed (view w) prefix) (concat pages) /\
  forall e, r = Some e -> fault e.
Proof.
  assert (forall token w r w', client _ (ListObjectsV2Call bucket prefix token) w = (r, w') ->
    view w' = view w /\ time w <= time w' /\
    match r with Ok output => Forall (listed (view w) prefix) (ls_contents output) | Err e => fault e end) as Hcall.
  { intros token' w0 r0 w1 E. destruct (call_law (ListObjectsV2Call bucket prefix token') w0) as (t & Ht & H); [done|].
    rewrite E in Ht, H. cbn in Ht, H. destruct r0 as [output|e].
    - destruct H as [Hv Hl]. split_and!; [done|lia|done].
    - destruct H as [(? & ? & ? & _ & [] & _)|[Hf Hv]].
      split_and!; [by destruct Hv as [Hv|(? & Hv & _)]|lia|done]. }
  induction 1 as [token w e w' E|token w output w' E Et|token w output w1 pages r w' E Et HL IH];
    destruct (Hcall _ _ _ _ E) as (Hv & Ht & Hf).
  - split_and!; [done..|constructor|by intros ? [= <-]].
  - split_and!; [done..| |done]. cbn. by rewrite app_nil_r.
  - destruct IH as (Hv' & Ht' & Hl & He). split_and!; [congruence|lia| |done].
    cbn. apply Forall_app. split; [done|]. by rewrite <- Hv.
Qed.

Lemma list_loop_run prefix token w pages r w' :
  Listing client bucket prefix token w pages r w' ->
  forall fuel acc, (length pages < fuel)%nat ->
  run_prog client (list_loop bucket system_time fuel prefix token acc) w =
  (match r with
   | None => Ok (Some (acc ++ omap (listed_info system_time) (concat pages)))
   | Some e => Err (map_error Read prefix e)
   end, w').
Proof.
  induction 1 as [token w e w' E|token w output w' E Et|token w output w1 pages r w' E Et HL IH];
    intros [|fuel] acc Hf; try (cbn in Hf; lia); cbn [list_loop]; unfold send; cbn [run_prog]; rewrite E; cbn [run_prog].
  - done.
  - rewrite decide_False by done. cbn. by rewrite app_nil_r.
  - rewrite decide_True by done. rewrite IH by (cbn in Hf; lia). destruct r; [done|].
    cbn [concat]. by rewrite omap_app, app_assoc.
Qed.

Lemma listed_info_spec w prefix object :
  listed (view w) prefix object ->
  exists key v, current (view w) key = Some v /\ String.prefix prefix key = true /\ lo_key object = Some key /\
    listed_info system_time object = Some (info key (stored v)).
Proof.
  intros (key & v & Hc & Hp & ->). exists key, v. split_and!; [done..|].
  pose proof (current_elem _ _ _ Hc) as Hin. pose proof (view_law _ _ _ Hin) as (Hm & _ & _).
  change (Some (MkObjectInfo key (non_negative_u64 (Some (len (ver_data v))))
    (system_time_or_epoch system_time (Some (ver_modified v)))) = Some (info key (stored v))).
  rewrite (size_of _ _ _ Hin). unfold system_time_or_epoch. cbn. by rewrite Hm.
Qed.

Lemma listed_keys w prefix objects :
  Forall (listed (view w) prefix) objects ->
  Some <$> (oi_key <$> omap (listed_info system_time) objects) = lo_key <$> objects.
Proof.
  induction 1 as [|object objects Ho _ IH]; [done|].
  destruct (listed_info_spec _ _ _ Ho) as (key & v & _ & _ & Hk & Hi). csimpl. rewrite Hi. csimpl. by rewrite IH, Hk.
Qed.

#[local] Instance info_le_total : Total info_le.
Proof. intros a b. unfold info_le. apply (total String.le). Qed.
#[local] Instance info_le_trans : Transitive info_le.
Proof. intros a b c. unfold info_le. by etrans. Qed.

Lemma s3_list_kept prefix w :
  exists n, forall fuel, (n <= fuel)%nat ->
  let '(r, w') := run_prog client (s3_program bucket system_time fuel (CallList prefix)) w in
  exists a, r = Some a /\ s3_kept (CallList prefix) w a w'.
Proof.
  destruct (list_law prefix w) as (pages & r & w' & HL & Hall). exists (S (length pages)). intros fuel Hf.
  cbn [s3_program]. unfold s3_list, then_ok. rewrite !run_then.
  rewrite (list_loop_run _ _ _ _ _ _ HL) by lia. destruct (listing_facts _ _ _ _ _ _ HL) as (Hv & Ht & Hl & He).
  destruct r as [e|]; cbn.
  - eexists. split; [done|]. destruct (He e eq_refl Read prefix) as (b & reason & ->). by apply kept_transport.
  - eexists. split; [done|]. apply (kept_done _ _ _ _ (time w)); [lia|]. rewrite Hv. split; [done|].
    destruct (Hall eq_refl) as [Hnd Hc]. split.
    + apply (sorted_strictly oi_key); [|apply (StronglySorted_merge_sort _)]. rewrite merge_sort_Permutation.
      rewrite <- (listed_keys _ _ _ Hl) in Hnd. by apply NoDup_fmap_1 in Hnd.
    + intros i. rewrite merge_sort_Permutation, list_elem_of_omap. split.
      * intros (object & Hin & Hi). rewrite Forall_forall in Hl.
        destruct (listed_info_spec _ _ _ (Hl _ Hin)) as (key & v & Hcur & Hp & _ & Hi').
        rewrite Hi in Hi'. injection Hi' as ->. exists (stored v). cbn. by rewrite objects_of_lookup, Hcur.
      * intros (o & Ho & Hp & Hi). rewrite objects_of_lookup in Ho.
        destruct (current (view w) (oi_key i)) as [v|] eqn:Hcur; [|done]. injection Ho as <-.
        eexists. assert (listed (view w) prefix _) as HL' by (exists (oi_key i), v; split_and!; [done..|reflexivity]).
        split; [exact (Hc _ HL')|]. destruct (listed_info_spec _ _ _ HL') as (key & v' & Hcur' & _ & Hk & ->).
        injection Hk as <-. rewrite Hi. f_equal. congruence.
Qed.

(** ** Every call *)

Lemma program_kept {A} (c : StoreCall A) (p : S3Prog (result A CloudError)) w :
  (let '(r, w') := run_prog client p w in s3_kept c w r w') ->
  let '(r, w') := run_prog client (then_ p (fun r => Done (Some r))) w in
  exists a, r = Some a /\ s3_kept c w a w'.
Proof. intros H. rewrite run_then. destruct (run_prog client p w) as [r w']. cbn. by exists r. Qed.

Lemma s3_call_kept {A} (c : StoreCall A) w :
  s3_supported (view w) c ->
  exists n, forall fuel, (n <= fuel)%nat ->
  let '(r, w') := run_prog client (s3_program bucket system_time fuel c) w in
  exists a, r = Some a /\ s3_kept c w a w'.
Proof.
  intros Hs. destruct c as [key bytes [[]]|key|key|prefix|key|key bytes until|key until|key];
    try (exists 0%nat; intros fuel _; apply program_kept).
  - apply s3_put_create_kept.
  - apply s3_put_overwrite_kept.
  - apply s3_get_kept.
  - apply s3_head_kept.
  - apply s3_list_kept.
  - by apply s3_delete_kept.
  - by apply s3_put_with_retention_kept.
  - by apply s3_extend_retention_kept.
  - apply s3_get_retention_kept.
Qed.
End Contract.
