(* ===== verification/S3Worm.v ===== *)
(** * Retention under concurrency

    The backend's operations interleave at their calls. An object written with retention stays the
    current version of its key, with its bytes, until its retention ends, whatever operations run
    beside and after, except one: an overwrite of the same key that has already read that there is no
    retention. *)

From stdpp Require Import gmap relations.
From S2P Require Import Prelude Time KV AwsErrors ObjectStore ObjectStoreFacts S3 S3Server.

Local Open Scope mtc_scope.
Local Open Scope Z_scope.

(** ** Tasks *)

Inductive S3Task : Type :=
| S3Running {A : Type} (p : S3Prog A).

(** A client submits an operation, or a running one makes its next call. *)
Inductive s3_step {W} (client : S3Client W) (bucket : string) (system_time : Z -> option Z) :
    list S3Task * W -> list S3Task * W -> Prop :=
| s3_submit fuel A (c : StoreCall A) ts w :
    s3_step client bucket system_time (ts, w) (ts ++ [S3Running (s3_program bucket system_time fuel c)], w)
| s3_call i A B (c : S3Call B) (k : result B SdkError -> S3Prog A) ts w :
    ts !! i = Some (S3Running (Send c k)) ->
    s3_step client bucket system_time (ts, w) (<[i := S3Running (k (client _ c w).1)]> ts, (client _ c w).2).

(** ** What a running operation can do to a retained key *)

Section Key.
Context (bucket key : string).

(** The call replaces no version of the key, and deletes versions only by their identifier. *)
Definition harmless_call {B} (c : S3Call B) : Prop :=
  match c with
  | PutObjectCall req => po_key req = key -> po_if_none_match req = Some "*"%string
  | DeleteObjectCall _ _ id => is_Some id
  | _ => True
  end.

(** What a call can be answered while the key is retained. *)
Definition retained_answer {B} (c : S3Call B) : result B SdkError -> Prop :=
  match c in S3Call B return result B SdkError -> Prop with
  | GetObjectRetentionCall _ k => fun r =>
      k = key -> match r with Ok output => is_Some (output ≫= fun date => date) | Err e => fault e end
  | HeadObjectCall _ k => fun r => match r with Ok output => is_Some (ho_version_id output) | Err _ => True end
  | _ => fun _ => True
  end.

(** As long as the key is retained, the program only makes harmless calls to the bucket. *)
Fixpoint harmless {A} (p : S3Prog A) : Prop :=
  match p with
  | Done _ => True
  | Send c k => on_bucket bucket c /\ harmless_call c /\ forall r, retained_answer c r -> harmless (k r)
  end.
Definition harmless_task (task : S3Task) : Prop := let '@S3Running A p := task in harmless p.

Lemma harmless_then {A B} (p : S3Prog A) (k : A -> S3Prog B) :
  harmless p -> (forall a, harmless (k a)) -> harmless (then_ p k).
Proof.
  intros Hp Hk. induction p as [a|C c k' IH]; cbn [then_]; [apply Hk|].
  destruct Hp as (Hb & Hc & Hr). split_and!; [done..|]. intros r Ha. apply IH, Hr, Ha.
Qed.

Lemma harmless_then_ok {A B E} (p : S3Prog (result A E)) (k : A -> S3Prog (result B E)) :
  harmless p -> (forall a, harmless (k a)) -> harmless (then_ok p k).
Proof. intros Hp Hk. apply harmless_then; [done|]. intros [a|e]; [apply Hk|done]. Qed.

Lemma harmless_send {A B E} (c : S3Call A) (f : SdkError -> E) (k : A -> S3Prog (result B E)) :
  on_bucket bucket c -> harmless_call c -> (forall a, retained_answer c (Ok a) -> harmless (k a)) ->
  harmless (send c f k).
Proof. intros Hb Hc Hk. split_and!; [done..|]. intros [a|e] Ha; [by apply Hk|done]. Qed.

Lemma harmless_current_retention k : harmless (current_retention bucket k).
Proof. split_and!; [done..|]. intros [o|e] _; [done|]. by destruct (map_error Read k e). Qed.

(** The only program that is not harmless by its calls alone is an overwrite of the key: it asks for
    the retention first. *)
Lemma harmless_overwrite k bytes : harmless (s3_put bucket k bytes overwrite).
Proof.
  unfold s3_put. cbn [mode overwrite]. unfold then_ok, current_retention. cbn [then_].
  split_and!; [done..|]. intros [o|e] Ha; cbn [then_].
  - destruct (o ≫= (fun d => d)) as [u|] eqn:Eo; cbn [then_]; [done|].
    apply harmless_send; [done| |done]. cbn. intros ->. specialize (Ha eq_refl). cbn in Ha.
    rewrite Eo in Ha. by destruct Ha.
  - cbn in Ha. destruct (decide (k = key)) as [Hk|Hk].
    + destruct (Ha Hk Read k) as (b & reason & ->). done.
    + destruct (map_error Read k e); cbn [then_]; try done. apply harmless_send; [done| |done]. intros Hk'. by destruct Hk.
Qed.

Lemma harmless_list_loop system_time fuel prefix : forall token acc,
  harmless (list_loop bucket system_time fuel prefix token acc).
Proof.
  induction fuel as [|fuel IH]; intros token acc; cbn [list_loop]; [done|].
  apply harmless_send; [done..|]. intros output _. case_decide; [apply IH|done].
Qed.

Lemma harmless_program system_time fuel {A} (c : StoreCall A) : harmless (s3_program bucket system_time fuel c).
Proof.
  destruct c as [k bytes [[]]|k|k|prefix|k|k bytes until|k until|k]; cbn [s3_program];
    apply harmless_then; try done.
  - by apply harmless_send.
  - apply harmless_overwrite.
  - apply harmless_send; [done..|]. by intros [bytes|text] _.
  - by apply harmless_send.
  - apply harmless_then_ok; [apply harmless_list_loop|done].
  - apply harmless_send; [done..|]. intros head Ha. by apply harmless_send.
  - by apply harmless_send.
  - apply harmless_then_ok; [apply harmless_current_retention|]. intros [u|]; [|done].
    destruct (system_time u); [|done]. case_match; [done|]. by apply harmless_send.
  - apply harmless_then_ok; [apply harmless_current_retention|]. intros [u|]; [|done]. by destruct (system_time u).
Qed.

(** ** The retained version *)

(** The key's current version has these bytes, and a retention that ends no earlier. *)
Definition holds_until (bytes : list byte) (until : Z) (b : gmap string (list Version)) : Prop :=
  exists v rest until', versions b key = v :: rest /\ ver_data v = bytes /\
    ver_until v = Some until' /\ until <= until'.

Lemma effect_keeps {B} t (c : S3Call B) b a b' bytes until :
  harmless_call c -> t < until -> holds_until bytes until b -> s3_effect t c b a b' -> holds_until bytes until b'.
Proof.
  intros Hc Ht (v & rest & u & Hv & Hd & Hu & Hle) He.
  assert (current b key = Some v) as Hcur by (unfold current; by rewrite Hv).
  assert (forall k vs, k <> key -> holds_until bytes until (<[k := vs]> b)) as Hother.
  { intros k vs Hne. exists v, rest, u. by rewrite versions_insert_ne. }
  assert (holds_until bytes until b) as Hsame by (by exists v, rest, u).
  destruct c as [req|bk k|bk k|bk p token|bk k [id|]|bk k|bk k date]; cbn in He.
  - destruct He as (Hfree & _ & v' & _ & _ & ->). apply Hother. intros Hk. specialize (Hfree (Hc Hk)). congruence.
  - by destruct He as [-> _].
  - by destruct He as [-> _].
  - by destruct He as [-> _].
  - destruct He as (Hnl & ->). destruct (decide (k = key)) as [->|Hne]; [|by apply Hother].
    exists v, (filter (fun v => ver_id v <> id) rest), u. unfold remove_version. rewrite versions_insert, Hv.
    rewrite filter_cons_True; [done|]. intros Hid. eapply (Hnl v); [rewrite Hv; left|done|]. exists u. split; [done|lia].
  - by destruct Hc.
  - by destruct He as [-> _].
  - destruct He as (v' & rest' & Hv' & _ & Hext & ->). destruct (decide (k = key)) as [->|Hne]; [|by apply Hother].
    rewrite Hv in Hv'. injection Hv' as <- <-. destruct Hext as (u' & Hu' & Hle'); [exists u; split; [done|lia]|].
    eexists _, rest, (whole_seconds date). rewrite versions_insert. split_and!; [done..|]. assert (u' = u) by congruence. lia.
Qed.
End Key.

(** ** Interleaved operations *)

Section Interleaved.
Context {W : Type} (client : S3Client W) (bucket : string) (system_time : Z -> option Z).
Context (view : W -> gmap string (list Version)) (time : W -> Z).
Context `{!S3Server client bucket system_time view time}.

Lemma call_keeps key {B} (c : S3Call B) w bytes until :
  on_bucket bucket c -> harmless_call key c -> time (client _ c w).2 < until -> holds_until key bytes until (view w) ->
  holds_until key bytes until (view (client _ c w).2) /\ retained_answer key c (client _ c w).1.
Proof.
  intros Hb Hc Ht Hh. destruct (call_law c w Hb) as (t & Htt & H).
  assert (retained_answer key c (client _ c w).1) as Ha.
  { destruct Hh as (v & rest & u & Hv & _ & Hu & _).
    assert (current (view w) key = Some v) as Hcur by (unfold current; by rewrite Hv).
    destruct c as [req|bk k|bk k|bk p token|bk k [id|]|bk k|bk k date]; cbn; try done.
    - destruct (client _ _ w) as [[out|e] w']; cbn in *; [|done]. destruct H as (_ & v' & _ & ->). by eexists.
    - intros ->. destruct (client _ _ w) as [[o|e] w']; cbn in *.
      + destruct H as (_ & v' & Hv' & ->). assert (v' = v) as -> by congruence. by rewrite Hu.
      + destruct H as [(code & st & d & -> & [[_ Hn]|(_ & v' & Hv' & Hn)] & _)|[Hf _]]; [congruence..|done]. }
  split; [|done]. destruct (client _ c w) as [[a|e] w']; cbn in *.
  - eapply effect_keeps; [done| |done..]. lia.
  - destruct H as [(_ & _ & _ & _ & _ & ->)|[_ [->|[a He]]]]; [done..|]. eapply effect_keeps; [done| |done..]. lia.
Qed.

Lemma step_keeps key bytes until cfg cfg' :
  s3_step client bucket system_time cfg cfg' -> time cfg'.2 < until ->
  Forall (harmless_task bucket key) cfg.1 -> holds_until key bytes until (view cfg.2) ->
  Forall (harmless_task bucket key) cfg'.1 /\ holds_until key bytes until (view cfg'.2).
Proof.
  intros Hs Ht Hf Hh. destruct Hs as [fuel A c ts w|i A B c k ts w Hi]; cbn in *.
  - split; [|done]. apply Forall_app. split; [done|]. constructor; [apply harmless_program|done].
  - pose proof (proj1 (Forall_lookup _ _) Hf _ _ Hi) as (Hb & Hc & Hk). cbn in Hk.
    destruct (call_keeps key c w bytes until Hb Hc Ht Hh) as [Hh' Ha]. split; [|done].
    apply Forall_insert; [done|]. by apply Hk.
Qed.

Lemma step_time cfg cfg' : s3_step client bucket system_time cfg cfg' -> time cfg.2 <= time cfg'.2.
Proof. intros [fuel A c ts w|i A B c k ts w Hi]; cbn; [done|apply time_law]. Qed.

Lemma steps_keep key bytes until cfg cfg' :
  rtc (s3_step client bucket system_time) cfg cfg' -> time cfg'.2 < until ->
  Forall (harmless_task bucket key) cfg.1 -> holds_until key bytes until (view cfg.2) ->
  Forall (harmless_task bucket key) cfg'.1 /\ holds_until key bytes until (view cfg'.2).
Proof.
  intros Hr Ht. revert cfg Hr. apply (rtc_ind_l (fun cfg => Forall (harmless_task bucket key) cfg.1 ->
    holds_until key bytes until (view cfg.2) ->
    Forall (harmless_task bucket key) cfg'.1 /\ holds_until key bytes until (view cfg'.2))); [done|].
  intros cfg1 cfg2 Hs Hr IH Hf Hh.
  assert (time cfg2.2 <= time cfg'.2) as Hle.
  { clear -Hr S3Server0. induction Hr as [|x y z Hxy _ IH]; [done|]. etrans; [by apply step_time|done]. }
  destruct (step_keeps key bytes until _ _ Hs) as [Hf' Hh']; [lia|done..|]. by apply IH.
Qed.

Lemma run_prog_time {A} (p : S3Prog A) w : time w <= time (run_prog client p w).2.
Proof.
  revert w. induction p as [a|B c k IH]; intros w; cbn [run_prog]; [done|].
  pose proof (time_law c w) as Ht. destruct (client B c w) as [r w']. cbn in Ht. etrans; [done|apply IH].
Qed.

(** An operation with retention that was reported done. *)
Lemma retained_put key bytes until w w' :
  (nanos_per_sec | until) ->
  run_prog client (s3_put_with_retention bucket key bytes until) w = (Ok tt, w') ->
  holds_until key bytes until (view w').
Proof.
  intros Hu. unfold s3_put_with_retention, send. cbn [run_prog].
  destruct (call_law (PutObjectCall (MkPutObjectRequest bucket key bytes (Some "*"%string) (Some until))) w eq_refl)
    as (t & _ & H).
  destruct (client _ _ w) as [[[]|e] w1]; cbn [run_prog fst snd] in *; [intros [= <-]|done].
  destruct H as (_ & _ & v & Hd & Hv & ->). cbn in *. exists v, (versions (view w) key), until.
  unfold push. rewrite versions_insert. by rewrite Hv, whole_seconds_id.
Qed.

(** What a deletion of a retained key is answered, alone: it names the current version. *)
Lemma retained_delete key bytes until w :
  holds_until key bytes until (view w) ->
  let '(r, w') := run_prog client (s3_delete bucket key) w in time w' < until ->
  exists e, r = Err e /\ ((exists reason, e = RetentionViolation reason) \/ exists b reason, e = Transport b reason).
Proof.
  intros Hh. destruct Hh as (v & rest & u & Hv & Hd & Hu & Hle).
  assert (current (view w) key = Some v) as Hcur by (unfold current; by rewrite Hv).
  unfold s3_delete, send at 1. cbn [run_prog].
  destruct (call_law (HeadObjectCall bucket key) w eq_refl) as (t & Ht & H).
  destruct (client _ _ w) as [[out|e] w1]; cbn [run_prog fst snd] in *.
  2: { intros _. eexists. split; [done|]. destruct H as [(code & st & d & -> & [_ Hn] & _)|[Hf _]]; [congruence|].
       right. apply Hf. }
  destruct H as (Hv1 & v' & Hc' & ->). assert (v' = v) as -> by congruence. unfold send. cbn [run_prog ho_version_id].
  destruct (call_law (DeleteObjectCall bucket key (Some (ver_id v))) w1 eq_refl) as (t2 & Ht2 & H2).
  destruct (client _ _ w1) as [[a|e] w2]; cbn [run_prog fst snd] in *; intros Hlt.
  - destruct H2 as [Hnl _]. exfalso. eapply (Hnl v); [rewrite Hv1, Hv; left|done|]. exists u. split; [done|lia].
  - eexists. split; [done|]. destruct H2 as [(code & st & d & -> & [-> _] & _)|[Hf _]].
    + left. by eexists.
    + right. apply Hf.
Qed.
End Interleaved.
