(* ===== verification/S3Sample.v ===== *)
(** * A bucket that can be run

    A service that keeps the laws of [S3Server.v], to run the backend on: versions are numbered, a
    call takes a nanosecond, listings have one page. *)

From stdpp Require Import gmap.
From S2P Require Import Prelude Format Time KV AwsErrors ObjectStore ObjectStoreFacts S3 S3Server.

Local Open Scope mtc_scope.
Local Open Scope Z_scope.

Record BucketState : Type := MkBucketState {
  st_versions : gmap string (list Version);
  st_now : Z;
  st_next : nat
}.

(** The [n]-th identifier. *)
Definition version_name (n : nat) : string := zeros n.

Definition refuse {B} (code : string) (status : Z) (s : BucketState) : result B SdkError * BucketState :=
  (Err (ServiceError (Some code) (Some status) OtherException), s).
Definition is_locked (t : Z) (v : Version) : bool :=
  match ver_until v with Some until => t <? until | None => false end.

Definition listed_object (entry : string * list Version) : option ListedObject :=
  v ← head entry.2; Some (MkListedObject (Some entry.1) (Some (len (ver_data v))) (Some (ver_modified v))).

(** A call, in the state of the bucket. *)
Definition sample_answer {B} (c : S3Call B) (s : BucketState) : result B SdkError * BucketState :=
  let b := st_versions s in
  let t := st_now s in
  let keep v := MkBucketState v (st_now s) (st_next s) in
  match c in S3Call B return result B SdkError * BucketState with
  | PutObjectCall req =>
      if bool_decide (po_if_none_match req = Some "*"%string /\ is_Some (current b (po_key req)))
      then refuse "PreconditionFailed" 412 s
      else if match po_compliance_until req with Some until => whole_seconds until <=? t | None => false end
      then refuse "InvalidArgument" 400 s
      else if 2 ^ 63 <=? len (po_body req) then refuse "EntityTooLarge" 400 s
      else (Ok tt, MkBucketState
              (push (po_key req)
                 (MkVersion (version_name (st_next s)) (po_body req) t (whole_seconds <$> po_compliance_until req)) b)
              t (S (st_next s)))
  | GetObjectCall _ key =>
      match current b key with Some v => (Ok (Ok (ver_data v)), s) | None => refuse "NoSuchKey" 404 s end
  | HeadObjectCall _ key =>
      match current b key with
      | Some v => (Ok (MkHeadOutput (Some (len (ver_data v))) (Some (ver_modified v)) (Some (ver_id v))), s)
      | None => refuse "NotFound" 404 s
      end
  | ListObjectsV2Call _ prefix _ =>
      (Ok (MkListOutput (omap listed_object
             (filter (fun entry => String.prefix prefix entry.1 = true) (map_to_list b))) (Some false) None), s)
  | DeleteObjectCall _ key (Some id) =>
      if existsb (fun v => bool_decide (ver_id v = id) && is_locked t v)%bool (versions b key)
      then refuse "AccessDenied" 403 s
      else (Ok tt, keep (remove_version key id b))
  | DeleteObjectCall _ key None => (Ok tt, s)
  | GetObjectRetentionCall _ key =>
      match current b key with
      | Some v => match ver_until v with
                  | Some until => (Ok (Some (Some until)), s)
                  | None => refuse "NoSuchObjectLockConfiguration" 404 s
                  end
      | None => refuse "NoSuchKey" 404 s
      end
  | PutObjectRetentionCall _ key date =>
      match versions b key with
      | v :: rest =>
          if whole_seconds date <=? t then refuse "InvalidArgument" 400 s
          else if (is_locked t v && (whole_seconds date <? default 0 (ver_until v)))%bool then refuse "AccessDenied" 403 s
          else (Ok tt, keep (<[key := MkVersion (ver_id v) (ver_data v) (ver_modified v) (Some (whole_seconds date)) :: rest]> b))
      | [] => refuse "NoSuchKey" 404 s
      end
  end.

(** ** What every state satisfies *)

Definition stack_wf (next : nat) (vs : list Version) : Prop :=
  NoDup (ver_id <$> vs) /\
  Forall (fun v => len (ver_data v) < 2 ^ 63 /\ exists n, (n < next)%nat /\ ver_id v = version_name n) vs.
Definition state_wf (s : BucketState) : Prop := forall key, stack_wf (st_next s) (versions (st_versions s) key).

Lemma version_name_inj n n' : version_name n = version_name n' -> n = n'.
Proof. intros H. unfold version_name in H. by rewrite <- (length_zeros n), H, length_zeros. Qed.

Lemma stack_wf_push next vs data modified until :
  stack_wf next vs -> len data < 2 ^ 63 -> stack_wf (S next) (MkVersion (version_name next) data modified until :: vs).
Proof.
  intros [Hnd Hf] Hl. split.
  - csimpl. apply NoDup_cons. split; [|done]. intros (v & Hv & Hin)%list_elem_of_fmap.
    rewrite Forall_forall in Hf. destruct (Hf _ Hin) as (_ & n & Hn & Hid). rewrite Hid in Hv.
    apply version_name_inj in Hv. lia.
  - constructor; [split; [done|]; exists next; split; [lia|done]|].
    eapply Forall_impl; [done|]. intros v (? & n & ? & ?). split; [done|]. exists n. split; [lia|done].
Qed.

Lemma stack_wf_later next vs : stack_wf next vs -> stack_wf (S next) vs.
Proof.
  intros [Hnd Hf]. split; [done|]. eapply Forall_impl; [done|].
  intros v (? & n & ? & ?). split; [done|]. exists n. split; [lia|done].
Qed.

Lemma stack_wf_filter next vs (P : Version -> Prop) `{forall v, Decision (P v)} :
  stack_wf next vs -> stack_wf next (filter P vs).
Proof.
  intros [Hnd Hf]. split; [|rewrite Forall_forall in *; intros v [_ Hv]%list_elem_of_filter; by apply Hf].
  eapply sublist_NoDup; [done|]. apply fmap_sublist, sublist_filter.
Qed.

Lemma state_wf_insert s key vs now next' :
  state_wf s -> stack_wf next' vs -> (next' = st_next s \/ next' = S (st_next s)) ->
  state_wf (MkBucketState (<[key := vs]> (st_versions s)) now next').
Proof.
  intros Hs Hv Hn k. cbn. destruct (decide (key = k)) as [<-|Hne]; [by rewrite versions_insert|].
  rewrite versions_insert_ne by done. destruct Hn as [-> | ->]; [apply Hs|apply stack_wf_later, Hs].
Qed.

Lemma sample_answer_wf {B} (c : S3Call B) s : state_wf s -> state_wf (sample_answer c s).2.
Proof.
  intros Hs. destruct c as [req|bk k|bk k|bk p token|bk k [id|]|bk k|bk k date]; cbn; try done.
  - case_bool_decide; [done|]. case_match; [done|]. destruct (Z.leb_spec (2 ^ 63) (len (po_body req))) as [|Hl]; [done|].
    apply state_wf_insert; [done|by apply stack_wf_push|by right].
  - by case_match.
  - by case_match.
  - case_match; [done|]. apply state_wf_insert; [done|by apply stack_wf_filter|by left].
  - by repeat case_match.
  - pose proof (Hs k) as Hk. destruct (versions (st_versions s) k) as [|v rest]; [done|].
    case_match; [done|]. case_match; [done|]. apply state_wf_insert; [done| |by left].
    destruct Hk as [Hnd [Hv Hf]%Forall_cons]. split; [done|]. by constructor.
Qed.

(** ** The world *)

Definition SampleWorld : Type := { s : BucketState | state_wf s }.
Definition sample_tick (s : BucketState) : BucketState := MkBucketState (st_versions s) (st_now s + 1) (st_next s).
Definition sample_view (w : SampleWorld) : gmap string (list Version) := st_versions (proj1_sig w).
Definition sample_time (w : SampleWorld) : Z := st_now (proj1_sig w).
Definition sample_client : S3Client SampleWorld := fun B c w =>
  ((sample_answer c (proj1_sig w)).1,
   exist state_wf (sample_tick (sample_answer c (proj1_sig w)).2) (sample_answer_wf c (proj1_sig w) (proj2_sig w))).
Lemma sample_empty_wf now : state_wf (MkBucketState ∅ now 0).
Proof. intros key. unfold versions. cbn. rewrite lookup_empty. split; constructor. Qed.
(** An empty bucket, at an instant. *)
Definition sample_empty (now : Z) : SampleWorld := exist _ (MkBucketState ∅ now 0) (sample_empty_wf now).

(** ** The laws *)

Lemma sample_now {B} (c : S3Call B) s : st_now (sample_answer c s).2 = st_now s.
Proof. destruct c as [req|bk k|bk k|bk p token|bk k [id|]|bk k|bk k date]; cbn; by repeat case_match. Qed.

Lemma is_locked_spec t v : is_locked t v = true <-> locked t v.
Proof.
  unfold is_locked, locked. destruct (ver_until v) as [u|]; [|naive_solver].
  rewrite Z.ltb_lt. naive_solver.
Qed.

Lemma refused_answer {B} t (c : S3Call B) code status (s : BucketState) :
  s3_refuses t c (st_versions s) code ->
  s3_answered t c (st_versions s) (@refuse B code status s).1 (st_versions (@refuse B code status s).2).
Proof. intros H. left. by eexists _, _, _. Qed.

Lemma too_large_fault : fault (ServiceError (Some "EntityTooLarge"%string) (Some 400) OtherException).
Proof. intros [] key; by eexists _, _. Qed.

Lemma listed_objects b prefix object :
  object ∈ omap listed_object (filter (fun entry => String.prefix prefix entry.1 = true) (map_to_list b)) <->
  listed b prefix object.
Proof.
  rewrite list_elem_of_omap. unfold listed, listed_object, current, versions. split.
  - intros ([key vs] & [Hp Hin]%list_elem_of_filter & Ho). apply elem_of_map_to_list in Hin. cbn in *.
    exists key. rewrite Hin. destruct vs as [|v rest]; [done|]. injection Ho as <-. by exists v.
  - intros (key & v & Hv & Hp & ->). destruct (b !! key) as [vs|] eqn:Ek; [|done].
    exists (key, vs). split; [apply list_elem_of_filter; split; [done|by apply elem_of_map_to_list]|].
    cbn in *. by rewrite Hv.
Qed.

Lemma listed_objects_keys (l : list (string * list Version)) :
  NoDup l.*1 -> NoDup (lo_key <$> omap listed_object l).
Proof.
  induction l as [|[key vs] l IH]; csimpl; [constructor|]. intros [Hk Hnd]%NoDup_cons.
  unfold listed_object at 1. cbn. destruct vs as [|v rest]; cbn; [by apply IH|]. apply NoDup_cons. split; [|by apply IH].
  intros (object & Ho & ([key' vs'] & Hin & Hl)%list_elem_of_omap)%list_elem_of_fmap. apply Hk.
  unfold listed_object in Hl. cbn in Hl. destruct vs' as [|v' rest']; [done|]. injection Hl as <-. cbn in Ho.
  injection Ho as ->. apply list_elem_of_fmap. by exists (key', v' :: rest').
Qed.

Lemma sample_answered {B} (c : S3Call B) s :
  s3_answered (st_now s) c (st_versions s) (sample_answer c s).1 (st_versions (sample_answer c s).2).
Proof.
  destruct c as [req|bk k|bk k|bk p token|bk k [id|]|bk k|bk k date]; cbn [sample_answer].
  - case_bool_decide as Hd; [apply refused_answer; left; by destruct Hd|].
    destruct (match po_compliance_until req with Some u => whole_seconds u <=? st_now s | None => false end) eqn:Eu.
    { apply refused_answer. right. split; [done|]. destruct (po_compliance_until req) as [u|]; [|done].
      exists u. split; [done|]. by apply Z.leb_le. }
    destruct (2 ^ 63 <=? len (po_body req)); [right; split; [apply too_large_fault|by left]|].
    cbn. split_and!.
    + intros Hn. destruct (current (st_versions s) (po_key req)) eqn:Ec; [|done]. destruct Hd. by split.
    + intros u Hu. rewrite Hu in Eu. by apply Z.leb_gt.
    + eexists. split_and!; [| |reflexivity]; done.
  - destruct (current (st_versions s) k) as [v|] eqn:Ec; [|by apply refused_answer].
    split; [done|]. exists v. split; [done|]. by left.
  - destruct (current (st_versions s) k) as [v|] eqn:Ec; [|by apply refused_answer]. split; [done|]. by exists v.
  - split; [done|]. apply Forall_forall. intros object Ho. by apply listed_objects.
  - destruct (existsb _ _) eqn:Ex.
    + apply refused_answer. split; [done|]. apply existsb_exists in Ex as (v & Hin & [Hid Hl]%andb_true_iff).
      apply bool_decide_eq_true in Hid. apply is_locked_spec in Hl. exists v. split_and!; [by apply list_elem_of_In| |done].
      by f_equal.
    + split; [|done]. intros v Hin Hid Hl. apply not_true_iff_false in Ex. apply Ex, existsb_exists.
      exists v. split; [by apply list_elem_of_In|]. apply andb_true_iff. split; [by apply bool_decide_eq_true|].
      by apply is_locked_spec.
  - done.
  - destruct (current (st_versions s) k) as [v|] eqn:Ec; [|apply refused_answer; by left].
    destruct (ver_until v) as [u|] eqn:Eu; [|apply refused_answer; right; split; [done|]; by exists v].
    split; [done|]. exists v. split; [done|]. by rewrite Eu.
  - unfold current. destruct (versions (st_versions s) k) as [|v rest] eqn:Ev.
    { apply refused_answer. left. split; [done|]. unfold current. by rewrite Ev. }
    destruct (Z.leb_spec (whole_seconds date) (st_now s)); [apply refused_answer; right; by right|].
    destruct (is_locked (st_now s) v && _)%bool eqn:El.
    + apply andb_true_iff in El as [(u & Hu & Hl)%is_locked_spec Hlt%Z.ltb_lt]. rewrite Hu in Hlt.
      apply refused_answer. right. left. split; [done|]. exists v, u. split_and!; try done. unfold current. by rewrite Ev.
    + exists v, rest. split_and!; [done..| |done]. intros (u & Hu & Hl). exists u. split; [done|].
      apply andb_false_iff in El as [El|El%Z.ltb_ge]; [|by rewrite Hu in El].
      exfalso. apply not_true_iff_false in El. apply El, is_locked_spec. by exists u.
Qed.

#[export] Instance sample_server bucket : S3Server sample_client bucket Some sample_view sample_time.
Proof.
  split.
  - intros B c w _. exists (sample_time w). split; [unfold sample_time; cbn; rewrite sample_now; lia|]. apply sample_answered.
  - intros B c w. unfold sample_time. cbn. rewrite sample_now. lia.
  - intros prefix w. eexists [_], None, _. split; [by eapply listing_last|]. intros _. split.
    + cbn [concat ls_contents]. rewrite app_nil_r. apply listed_objects_keys.
      eapply sublist_NoDup; [|apply fmap_sublist, sublist_filter]. apply NoDup_fst_map_to_list.
    + intros object Ho. cbn [concat ls_contents]. rewrite app_nil_r. by apply listed_objects.
  - intros w key v Hin. split_and!; [done| |done]. destruct (proj2_sig w key) as [_ Hf].
    rewrite Forall_forall in Hf. by apply Hf.
  - intros w key. apply (proj2_sig w key).
Qed.
