(* ===== verification/S3Contract.v ===== *)
(** * What the S3 backend guarantees

    The contract of [ObjectStore] and [ObjectLock] for operations run alone, retention under
    concurrency, and two runs that show where their conditions come from. *)

From stdpp Require Import gmap relations.
From S2P Require Import Prelude Time KV AwsErrors ObjectStore ObjectStoreFacts S3 S3Server S3Facts S3Worm S3Sample.

Local Open Scope mtc_scope.
Local Open Scope Z_scope.

(** ** Operations on a retained key *)

(** What an operation on a key that holds [bytes] until [until] is answered: reads see them, and a
    write of any kind is refused. *)
Definition worm_answer (key : string) (bytes : list byte) (until : Z) {A} (c : StoreCall A) : result A CloudError -> Prop :=
  match c in StoreCall A return result A CloudError -> Prop with
  | CallPut k _ (MkPutOptions IfNotExists) | CallPutWithRetention k _ _ => fun r => k = key -> r = Err (AlreadyExists key)
  | CallPut k _ (MkPutOptions Overwrite) | CallDelete k => fun r =>
      k = key -> exists reason, r = Err (RetentionViolation reason)
  | CallGet k => fun r => k = key -> r = Ok bytes
  | CallHead k => fun r => k = key -> exists modified, r = Ok (MkObjectMetadata (size_bytes bytes) modified)
  | CallGetRetention k => fun r => k = key -> exists u, r = Ok u /\ until <= u
  | CallExtendRetention k u => fun r => k = key -> u < until -> exists reason, r = Err (RetentionViolation reason)
  | CallList _ => fun _ => True
  end.

(** The dates of a call are in whole seconds. *)
Definition whole_dates {A} (c : StoreCall A) : Prop :=
  match c with CallPutWithRetention _ _ until | CallExtendRetention _ until => (nanos_per_sec | until) | _ => True end.

Section Worm.
Context {W : Type} (client : S3Client W) (bucket : string) (system_time : Z -> option Z).
Context (view : W -> gmap string (list Version)) (time : W -> Z).
Context `{!S3Server client bucket system_time view time}.

(** What the contract says of a retained object. *)
Lemma contract_worm {A} t (c : StoreCall A) m r m' key bytes until modified u :
  s3_contract t c m r m' -> m !! key = Some (MkStoredObject bytes modified (Some u)) -> t < until -> until <= u ->
  worm_answer key bytes until c r \/ exists retryable reason, r = Err (Transport retryable reason).
Proof.
  intros Hc Hm Ht Hu. destruct Hc as [Hc|[(b & reason & -> & _)|(_ & Hb & reason & ->)]]; [|by right; eauto|].
  2: { left. destruct c as [k bs [[]]|k|k|p|k|k bs v|k v|k]; try done; cbn; intros; try by eexists. by destruct Hb. }
  left. assert (retained t (MkStoredObject bytes modified (Some u))) as Hr by (exists u; split; [done|lia]).
  destruct c as [k bs [[]]|k|k|p|k|k bs v|k v|k]; cbn; try (intros ->); destruct r as [a|e]; cbn in Hc; rewrite ?Hm in Hc;
    try done.
  - destruct Hc as (Hn & _). by specialize (Hn eq_refl).
  - by destruct Hc as (_ & [(_ & _ & ->)|(? & _)]).
  - destruct Hc as (_ & Hn & _). by destruct (Hn _ eq_refl).
  - destruct Hc as (_ & [(? & _)|(_ & _ & reason & ->)]); [done|by eexists].
  - by destruct Hc as (_ & o & [= <-] & ->).
  - by destruct Hc as (_ & ? & _).
  - destruct Hc as (_ & o & [= <-] & ->). by eexists.
  - by destruct Hc as (_ & ? & _).
  - by destruct Hc as (_ & o & [= <-] & Hn).
  - destruct Hc as (_ & [[? _]|(_ & reason & ->)]); [done|by eexists].
  - by destruct Hc as (? & _).
  - by destruct Hc as (_ & _ & ->).
  - intros Hv. destruct Hc as (o & cur & [= <-] & [= <-] & Hlt & _). lia.
  - intros Hv. destruct Hc as (_ & [[? _]|(_ & reason & ->)]); [done|by eexists].
  - destruct Hc as (_ & o & [= <-] & [= <-]). by exists u.
  - by destruct Hc as (_ & ? & _).
Qed.

Lemma holds_worm_supported {A} (c : StoreCall A) key bytes until w :
  holds_until key bytes until (view w) -> s3_supported (view w) c ->
  exists n, forall fuel, (n <= fuel)%nat ->
  let '(r, w') := run_prog client (s3_program bucket system_time fuel c) w in
  time w' < until ->
  exists a, r = Some a /\ (worm_answer key bytes until c a \/ exists retryable reason, a = Err (Transport retryable reason)).
Proof.
  intros Hh Hs. destruct (s3_call_kept client bucket system_time view time c w Hs) as [n Hn]. exists n. intros fuel Hf.
  specialize (Hn fuel Hf). destruct (run_prog client _ w) as [r w']. intros Hlt.
  destruct Hn as (a & -> & t & Ht & Hc). exists a. split; [done|].
  destruct Hh as (v & rest & u & Hv & <- & Hu & Hle).
  eapply (contract_worm t c _ _ _ _ _ _ (ver_modified v)); [done| |lia|done].
  rewrite objects_of_lookup. unfold current. rewrite Hv. cbn. unfold stored. by rewrite Hu.
Qed.

Lemma holds_worm {A} (c : StoreCall A) key bytes until w :
  holds_until key bytes until (view w) -> whole_dates c ->
  exists n, forall fuel, (n <= fuel)%nat ->
  let '(r, w') := run_prog client (s3_program bucket system_time fuel c) w in
  time w' < until ->
  exists a, r = Some a /\ (worm_answer key bytes until c a \/ exists retryable reason, a = Err (Transport retryable reason)).
Proof.
  intros Hh Hd. destruct c as [k bs opts|k|k|p|k|k bs u|k u|k]; try by apply holds_worm_supported.
  exists 0%nat. intros fuel _. cbn [s3_program]. rewrite run_then. destruct (decide (k = key)) as [->|Hne].
  - pose proof (retained_delete client bucket system_time view time key bytes until w Hh) as H.
    destruct (run_prog client (s3_delete bucket key) w) as [r w']. cbn [run_prog]. intros Hlt.
    destruct (H Hlt) as (e & -> & [[reason ->]|(b & reason & ->)]); eexists; (split; [done|]).
    + left. by eexists.
    + right. by eexists _, _.
  - destruct (run_prog client (s3_delete bucket k) w) as [r w']. cbn [run_prog]. intros _.
    exists r. split; [done|]. left. cbn. by intros Hk.
Qed.
End Worm.

(** ** The properties *)

(** An extension of a retention window to a later instant that is over at [t]: the traits have it
    done, the service does not take it. *)
Definition past_extension {A} (t : Z) (c : StoreCall A) (m : gmap string StoredObject) : Prop :=
  match c with
  | CallExtendRetention key until =>
      exists current, m !! key ≫= retain_until = Some current /\ current < until <= t
  | _ => False
  end.

(** What the traits document: the contract, a transport failure with the effect of the call or
    none, and what they leave to the backend, whether it takes or refuses the overwrite of an object that
    ever had a retention. *)
Definition s3_documented {A} (t : Z) (c : StoreCall A) (m : gmap string StoredObject) (r : result A CloudError)
    (m' : gmap string StoredObject) : Prop :=
  contract t c m r m' \/
  (exists retryable reason, r = Err (Transport retryable reason) /\ (m' = m \/ exists a, performed t c m a m')) \/
  match c with
  | CallPut key _ opts =>
      mode opts = Overwrite /\ is_Some (m !! key ≫= retain_until) /\ m' = m /\
      exists reason, r = Err (RetentionViolation reason)
  | _ => False
  end.

Lemma contract_documented {A} t (c : StoreCall A) m r m' :
  s3_contract t c m r m' -> ~ past_extension t c m -> s3_documented t c m r m'.
Proof.
  intros [Hc|[Hf|(-> & Hb & reason & ->)]] Hp; [by left|by right; left|]. destruct c; try done.
  - right. right. destruct Hb as [? ?]. split_and!; eauto.
  - left. destruct Hb as [[current Hc] Hle]. split; [done|]. right. split; [|eauto]. exists current.
    split; [done|]. destruct (Z.le_gt_cases until current) as [|Hgt]; [done|]. destruct Hp. exists current. split; [done|lia].
Qed.

(** C16. The S3 backend keeps what the two traits document, over any service with the documented
    behaviour of a bucket with versioning and Object Lock. Every supported call, but an extension of a
    window to a later instant that is over before the call is, ends and is answered as
    documented at an instant during the call: its answer and what it leaves of the objects, which are those
    the current versions stand for, are what the contract says of that instant; or it reports a
    transport failure, with its effect or none; or it refuses, changing nothing, an overwrite of an object
    that ever had a retention, which the traits leave to the backend. *)
Theorem s3_keeps_contract {W} (client : S3Client W) (bucket : string) (system_time : Z -> option Z)
    (view : W -> gmap string (list Version)) (time : W -> Z) {A} (c : StoreCall A) (w : W) :
  S3Server client bucket system_time view time -> s3_supported (view w) c ->
  exists n, forall fuel, (n <= fuel)%nat ->
  let '(r, w') := run_prog client (s3_program bucket system_time fuel c) w in
  exists a, r = Some a /\
    (~ past_extension (time w') c (objects_of (view w)) ->
     exists t, time w <= t <= time w' /\ s3_documented t c (objects_of (view w)) a (objects_of (view w'))).
Proof.
  intros HS Hs. destruct (s3_call_kept client bucket system_time view time c w Hs) as [n Hn].
  exists n. intros fuel Hf. specialize (Hn fuel Hf). destruct (run_prog client _ w) as [r w'].
  destruct Hn as (a & -> & t & Ht & Hc). exists a. split; [done|]. intros Hp. exists t. split; [done|].
  apply contract_documented; [done|]. intros Hpt. apply Hp. destruct c; try done.
  destruct Hpt as (current & ? & ?). exists current. split; [done|lia].
Qed.

(** C12. Write once, read many, on S3 and under concurrency: once a write with retention has been
    reported done, then whatever operations of the backend run interleaved at their calls, those in
    progress included unless one is an overwrite of the key that has already found no retention, as long
    as the retention has not ended: every read of the key answers the bytes written and a retention
    that is no shorter, every creation is told the object exists, and every overwrite and deletion is
    refused with a retention violation, transport failures apart. *)
Theorem s3_retention_worm {W} (client : S3Client W) (bucket : string) (system_time : Z -> option Z)
    (view : W -> gmap string (list Version)) (time : W -> Z)
    (key : string) (bytes : list byte) (until : Z) (w0 w w' : W) (ts ts' : list S3Task) :
  S3Server client bucket system_time view time -> (nanos_per_sec | until) ->
  run_prog client (s3_put_with_retention bucket key bytes until) w0 = (Ok tt, w) ->
  Forall (harmless_task bucket key) ts ->
  rtc (s3_step client bucket system_time) (ts, w) (ts', w') ->
  forall A (c : StoreCall A), whole_dates c ->
  exists n, forall fuel, (n <= fuel)%nat ->
  let '(r, w'') := run_prog client (s3_program bucket system_time fuel c) w' in
  time w'' < until ->
  exists a, r = Some a /\ (worm_answer key bytes until c a \/ exists retryable reason, a = Err (Transport retryable reason)).
Proof.
  intros HS Hu Hput Hts Hr A c Hd.
  destruct (decide (time w' < until)) as [Hlt|Hge].
  - apply (holds_worm client bucket system_time view time); [|done].
    eapply (steps_keep client bucket system_time view time key bytes until _ _ Hr); [done..|].
    by eapply (retained_put client bucket system_time view time).
  - exists 0%nat. intros fuel _. pose proof (run_prog_time client bucket system_time view time
      (s3_program bucket system_time fuel c) w') as Ht.
    destruct (run_prog client _ w') as [r w'']. cbn in Ht. intros. lia.
Qed.

(** ** Runs of the sample bucket *)

Definition sample_object_key : string := "log/0".
Definition sample_put : SampleWorld :=
  (run_prog sample_client (s3_put_with_retention "b" sample_object_key [x01] (3600 * nanos_per_sec)) (sample_empty 0)).2.

(** A retained object is extended to an instant ahead. *)
Definition sample_extend : StoreCall unit := CallExtendRetention sample_object_key (7200 * nanos_per_sec).
Definition extended : option (result unit CloudError) * SampleWorld :=
  run_prog sample_client (s3_program "b" Some 0 sample_extend) sample_put.
Lemma s3_keeps_contract_witness :
  extended.1 = Some (Ok tt) /\ exists t, sample_time sample_put <= t <= sample_time extended.2 /\
    s3_documented t sample_extend (objects_of (sample_view sample_put)) (Ok tt) (objects_of (sample_view extended.2)).
Proof.
  destruct (s3_keeps_contract sample_client "b" Some sample_view sample_time sample_extend sample_put) as [n Hn];
    [apply sample_server|exists 7200; reflexivity|].
  specialize (Hn n (le_n n)). change (run_prog _ _ _) with extended in Hn. rewrite (surjective_pairing extended) in Hn.
  assert (extended.1 = Some (Ok tt)) as E by (vm_compute; reflexivity).
  assert (sample_time extended.2 < 7200 * nanos_per_sec) as Hlt by (vm_compute; reflexivity).
  split; [exact E|]. rewrite E in Hn. destruct Hn as (a & [= <-] & Hd). apply Hd.
  intros (current & _ & _ & Hle). exact (Zlt_not_le _ _ Hlt Hle).
Defined.

(** An extension into the past is refused by the service, and the window stays. *)
Definition late_put : SampleWorld :=
  (run_prog sample_client (s3_put_with_retention "b" sample_object_key [x01] (9000 * nanos_per_sec))
     (sample_empty (8000 * nanos_per_sec))).2.
Definition ended : SampleWorld := exist state_wf (MkBucketState (sample_view late_put) (9500 * nanos_per_sec) 1) (proj2_sig late_put).
Example sample_past_extension :
  let run := run_prog sample_client
               (s3_program "b" Some 0 (CallExtendRetention sample_object_key (9200 * nanos_per_sec))) ended in
  (exists reason, run.1 = Some (Err (RetentionViolation reason))) /\ sample_view run.2 = sample_view ended.
Proof. split; [eexists|]; vm_compute; reflexivity. Qed.

(** An overwrite submitted after the write is interleaved to its end, then the key is read. *)
Definition sample_overwrite : list S3Task := [S3Running (s3_program "b" Some 1 (CallPut sample_object_key [x02] overwrite))].
Definition retention_answer (w : SampleWorld) : result (option (option Z)) SdkError * SampleWorld :=
  sample_client _ (GetObjectRetentionCall "b" sample_object_key) w.

Lemma sample_steps :
  exists ts', rtc (s3_step sample_client "b" Some) ([], sample_put) (ts', (retention_answer sample_put).2).
Proof.
  eexists. eapply rtc_l; [apply (s3_submit _ _ _ 1 unit (CallPut sample_object_key [x02] overwrite))|].
  eapply rtc_l; [|apply rtc_refl]. apply (s3_call _ _ _ 0). reflexivity.
Qed.

Lemma s3_retention_worm_witness :
  exists n, forall fuel, (n <= fuel)%nat ->
  let '(r, w'') := run_prog sample_client (s3_program "b" Some fuel (CallGet sample_object_key)) (retention_answer sample_put).2 in
  sample_time w'' < 3600 * nanos_per_sec ->
  exists a, r = Some a /\ (worm_answer sample_object_key [x01] (3600 * nanos_per_sec) (CallGet sample_object_key) a \/
                          exists retryable reason, a = Err (Transport retryable reason)).
Proof.
  destruct sample_steps as [ts' Hs].
  apply (s3_retention_worm sample_client "b" Some sample_view sample_time sample_object_key [x01] (3600 * nanos_per_sec)
    (sample_empty 0) sample_put (retention_answer sample_put).2 [] ts').
  - apply sample_server.
  - exists 3600. reflexivity.
  - reflexivity.
  - constructor.
  - exact Hs.
  - exact I.
Defined.

(** ** Where the conditions come from *)

(** The answer of a program, alone. *)
Definition answer {A} (p : S3Prog A) (w : SampleWorld) : A := (run_prog sample_client p w).1.
Definition after {A} (p : S3Prog A) (w : SampleWorld) : SampleWorld := (run_prog sample_client p w).2.

(** A deletion after an overwrite is reported done, and the bytes written first are back. *)
Example delete_uncovers_older_version :
  let w := after (s3_put "b" "k" [x02] overwrite) (after (s3_put "b" "k" [x01] if_not_exists) (sample_empty 0)) in
  answer (s3_delete "b" "k") w = Ok tt /\ answer (s3_get "b" "k") (after (s3_delete "b" "k") w) = Ok [x01].
Proof. split; vm_compute; reflexivity. Qed.

(** An overwrite that has read that there is no retention, and is overtaken by a write with retention,
    replaces what is retained. *)
Example overwrite_overtaken :
  exists k w1, s3_put "b" sample_object_key [x02] overwrite = Send (GetObjectRetentionCall "b" sample_object_key) k /\
    w1 = (retention_answer (sample_empty 0)).2 /\
    let p := k (retention_answer (sample_empty 0)).1 in
    let put := s3_put_with_retention "b" sample_object_key [x01] (3600 * nanos_per_sec) in
    answer put w1 = Ok tt /\ answer p (after put w1) = Ok tt /\
    answer (s3_get "b" sample_object_key) (after p (after put w1)) = Ok [x02].
Proof. eexists _, _. split; [reflexivity|]. split; [reflexivity|]. cbv zeta. split_and!; vm_compute; reflexivity. Qed.
