(* ===== verification/F64.v ===== *)
(** * Binary64 floating point: what the source uses of [f64]

    A [f64] is a [spec_float] of the Standard Library at 53 bits of precision. The operations are
    IEEE 754's, with rounding; on integers of magnitude below [2^53] they are exact. *)

From Stdlib Require Import SpecFloat.
From S2P Require Import Prelude.

Local Open Scope Z_scope.

Abbreviation f64 := spec_float.
Definition f64_prec : Z := 53.
Definition f64_emax : Z := 1024.

(** [0.0], [n as f64], [x - y]. *)
Definition f64_zero : f64 := S754_zero false.
Definition f64_of_int (n : Z) : f64 := binary_normalize f64_prec f64_emax n 0 false.
Definition f64_sub (x y : f64) : f64 := SFsub f64_prec f64_emax x y.

(** [f64::max]: the other operand when one is no number. *)
Definition f64_max (x y : f64) : f64 :=
  match SFcompare x y with
  | Some Lt => y
  | Some _ => x
  | None => match x with S754_nan => y | _ => x end
  end.

(** The integer [x] is, when it is one ([x.is_finite() && x.fract() == 0.0], [x as i64] in range). *)
Definition f64_int (x : f64) : option Z :=
  match x with
  | S754_zero _ => Some 0
  | S754_finite s m e =>
      if 0 <=? e then Some (cond_Zopp s (Z.pos m * 2 ^ e))
      else if Z.pos m mod 2 ^ (- e) =? 0 then Some (cond_Zopp s (Z.pos m / 2 ^ (- e)))
      else None
  | _ => None
  end.
Definition f64_is_finite (x : f64) : bool :=
  match x with S754_zero _ | S754_finite _ _ _ => true | _ => false end.

(** ** Exactness on integers *)

Lemma digits2_bounds p : 2 ^ (Z.pos (digits2_pos p) - 1) <= Z.pos p < 2 ^ Z.pos (digits2_pos p).
Proof.
  induction p as [p IH|p IH|]; cbn [digits2_pos]; [| |done];
    rewrite Pos2Z.inj_succ; (replace (Z.succ (Z.pos (digits2_pos p)) - 1) with (Z.succ (Z.pos (digits2_pos p) - 1)) by lia);
    rewrite !Z.pow_succ_r by lia; lia.
Qed.

Lemma digits2_unique p d : 0 < d -> 2 ^ (d - 1) <= Z.pos p < 2 ^ d -> Z.pos (digits2_pos p) = d.
Proof.
  intros Hd Hb. pose proof (digits2_bounds p) as Hp.
  assert (d - 1 < Z.pos (digits2_pos p)) by (apply (Z.pow_lt_mono_r_iff 2); lia).
  assert (Z.pos (digits2_pos p) - 1 < d) by (apply (Z.pow_lt_mono_r_iff 2); lia). lia.
Qed.

Lemma digits2_shift m p k : 0 <= k -> Z.pos m = Z.pos p * 2 ^ k -> Z.pos (digits2_pos m) = Z.pos (digits2_pos p) + k.
Proof.
  intros Hk Hm. apply digits2_unique; [lia|]. rewrite Hm. pose proof (digits2_bounds p) as Hp.
  replace (Z.pos (digits2_pos p) + k - 1) with (Z.pos (digits2_pos p) - 1 + k) by lia.
  rewrite !Z.pow_add_r by lia. assert (0 < 2 ^ k) by lia. nia.
Qed.

Lemma shift_left m d : Z.pos (Pos.iter xO m d) = Z.pos m * 2 ^ Z.pos d.
Proof.
  induction d as [|d IH] using Pos.peano_ind; [cbn; lia|].
  rewrite Pos.iter_succ, Pos2Z.inj_succ, Z.pow_succ_r by lia. rewrite Pos2Z.inj_xO. lia.
Qed.

Lemma shl_align_value m e e' : let '(m', e'') := shl_align m e e' in
  e'' = Z.min e e' /\ Z.pos m' = Z.pos m * 2 ^ (e - e'').
Proof.
  unfold shl_align. destruct (e' - e) as [|d|d] eqn:Ed.
  - split; [lia|]. rewrite Z.sub_diag. lia.
  - split; [lia|]. rewrite Z.sub_diag. lia.
  - split; [lia|]. rewrite shift_left. replace (e - e') with (Z.pos d) by lia. done.
Qed.

(** Shifting out zero bits is exact. *)
Lemma shr_1_exact m : Z.even m = true -> shr_1 (Build_shr_record m false false) = Build_shr_record (m / 2) false false.
Proof.
  destruct m as [|[p|p|]|[p|p|]]; try done; intros _; cbn [shr_1 orb]; f_equal;
    [change (Z.pos p~0) with (2 * Z.pos p)|change (Z.neg p~0) with (2 * Z.neg p)];
    by rewrite Z.mul_comm, Z.div_mul.
Qed.

Lemma iter_pos_comm {A} (f : A -> A) n : forall x, SpecFloat.iter_pos f n (f x) = f (SpecFloat.iter_pos f n x).
Proof. induction n as [n IH|n IH|]; intros x; cbn [SpecFloat.iter_pos]; by rewrite ?IH. Qed.

Lemma iter_pos_succ {A} (f : A -> A) n : forall x,
  SpecFloat.iter_pos f (Pos.succ n) x = SpecFloat.iter_pos f n (f x).
Proof.
  induction n as [n IH|n IH|]; intros x; cbn [SpecFloat.iter_pos]; [|done|done].
  change (Pos.succ n~1) with (Pos.succ n)~0%positive. cbn [SpecFloat.iter_pos]. rewrite !IH. by rewrite !iter_pos_comm.
Qed.

Lemma shr_exact m n : 0 <= n -> (2 ^ n | m) -> forall e,
  shr (Build_shr_record m false false) e n = (Build_shr_record (m / 2 ^ n) false false, e + n).
Proof.
  intros Hn [k Hk] e. destruct n as [|n|n]; [|cbn [shr]; f_equal|lia].
  { cbn [shr]. by rewrite Z.pow_0_r, Z.div_1_r, Z.add_0_r. }
  rewrite Hk, Z.div_mul by lia. clear Hn e. revert m Hk. induction n as [|n IH] using Pos.peano_ind; intros m ->.
  - cbn [SpecFloat.iter_pos]. rewrite shr_1_exact by (by rewrite Z.even_mul, orb_true_r).
    f_equal. change (2 ^ 1) with 2. apply Z.div_mul. lia.
  - rewrite iter_pos_succ, Pos2Z.inj_succ, Z.pow_succ_r by lia.
    rewrite shr_1_exact by (by rewrite !Z.even_mul, orb_true_r).
    rewrite <- (IH (k * 2 ^ Z.pos n) eq_refl). do 2 f_equal.
    replace (k * (2 * 2 ^ Z.pos n)) with (k * 2 ^ Z.pos n * 2) by lia. apply Z.div_mul. lia.
Qed.

(** [z] at the exponent [e] is the integer [n]. *)
Definition scaled (z e n : Z) : Prop := if 0 <=? e then n = z * 2 ^ e else z = n * 2 ^ (- e).

Lemma scaled_align z e n e' : e' <= e -> scaled z e n -> scaled (z * 2 ^ (e - e')) e' n.
Proof.
  assert (forall a b c, 0 <= a -> 0 <= b -> a + b = c -> 2 ^ c = 2 ^ a * 2 ^ b) as Hp.
  { intros a b c Ha Hb <-. by apply Z.pow_add_r. }
  unfold scaled. intros He. destruct (Z.leb_spec 0 e), (Z.leb_spec 0 e'); try lia; intros ->.
  - rewrite (Hp (e - e') e' e) by lia. lia.
  - rewrite (Hp e (- e') (e - e')) by lia. lia.
  - rewrite (Hp (- e) (e - e') (- e')) by lia. lia.
Qed.

Lemma scaled_sub z z' e n n' : scaled z e n -> scaled z' e n' -> scaled (z - z') e (n - n').
Proof. unfold scaled. destruct (0 <=? e); intros -> ->; lia. Qed.

Lemma scaled_opp s z e n : scaled z e n -> scaled (cond_Zopp s z) e (cond_Zopp s n).
Proof. unfold scaled. destruct s, (0 <=? e); cbn; intros ->; lia. Qed.

Lemma scaled_zero e n : scaled 0 e n -> n = 0.
Proof.
  unfold scaled. destruct (Z.leb_spec 0 e); [lia|]. intros Hn.
  symmetry in Hn. apply Z.mul_eq_0 in Hn as [|Hn]; [done|]. apply Z.pow_eq_0 in Hn; lia.
Qed.

(** The digits of the integer are those of the mantissa and the exponent. *)
Lemma scaled_digits m e p : scaled (Z.pos m) e (Z.pos p) -> Z.pos (digits2_pos m) + e = Z.pos (digits2_pos p).
Proof.
  unfold scaled. destruct (Z.leb_spec 0 e) as [He|He]; intros H.
  - rewrite (digits2_shift p m e) by done. lia.
  - rewrite (digits2_shift m p (- e)) by (done || lia). lia.
Qed.

(** Rounding an integer of 53 bits or less only normalizes its mantissa. *)
Lemma binary_round_exact s m e p :
  scaled (Z.pos m) e (Z.pos p) -> Z.pos (digits2_pos p) <= 53 ->
  exists m', binary_round f64_prec f64_emax s m e = S754_finite s m' (Z.pos (digits2_pos p) - 53) /\
    scaled (Z.pos m') (Z.pos (digits2_pos p) - 53) (Z.pos p).
Proof.
  intros Hs Hd. set (d := Z.pos (digits2_pos p)) in *. assert (1 <= d) by (unfold d; lia).
  assert (fexp f64_prec f64_emax d = d - 53) as Hf.
  { unfold fexp, emin, f64_prec, f64_emax. lia. }
  unfold binary_round. rewrite (scaled_digits _ _ _ Hs). fold d. rewrite Hf.
  pose proof (shl_align_value m e (d - 53)) as Ha. destruct (shl_align m e (d - 53)) as [mz ez].
  destruct Ha as [Hez Hmz]. assert (scaled (Z.pos mz) ez (Z.pos p)) as Hsz.
  { rewrite Hmz. apply scaled_align; [lia|done]. }
  unfold binary_round_aux, shr_fexp, shr_record_of_loc, Zdigits2.
  rewrite (scaled_digits _ _ _ Hsz). fold d. rewrite Hf.
  assert (Z.pos mz = Z.pos p * 2 ^ (53 - d) * 2 ^ (d - 53 - ez)) as Hmz'.
  { rewrite <- Z.mul_assoc, <- Z.pow_add_r by lia. replace (53 - d + (d - 53 - ez)) with (- ez) by lia.
    unfold scaled in Hsz. destruct (Z.leb_spec 0 ez); [|done]. replace ez with 0 in * by lia. lia. }
  rewrite shr_exact by (try lia; by eexists). rewrite Hmz', Z.div_mul by lia.
  cbn [shr_m loc_of_shr_record round_nearest_even]. replace (ez + (d - 53 - ez)) with (d - 53) by lia.
  assert (exists m', Z.pos m' = Z.pos p * 2 ^ (53 - d)) as [m' Hm'].
  { exists (Z.to_pos (Z.pos p * 2 ^ (53 - d))). apply Z2Pos.id. lia. }
  rewrite <- Hm'. rewrite (digits2_shift m' p (53 - d)) by (done || lia). fold d.
  replace (d + (53 - d) + (d - 53)) with d by lia. rewrite Hf.
  rewrite shr_exact by (try lia; rewrite Z.sub_diag; apply Z.divide_1_l).
  rewrite Z.sub_diag, Z.pow_0_r, Z.div_1_r. cbn [shr_m].
  rewrite (proj2 (Z.leb_le _ _)) by (unfold f64_emax, f64_prec; lia). exists m'. rewrite Z.add_0_r. split; [done|].
  unfold scaled. destruct (Z.leb_spec 0 (d - 53)).
  - replace (d - 53) with 0 by lia. replace (53 - d) with 0 in Hm' by lia. lia.
  - by replace (- (d - 53)) with (53 - d) by lia.
Qed.

Lemma f64_int_finite s m e n : scaled (Z.pos m) e n -> f64_int (S754_finite s m e) = Some (cond_Zopp s n).
Proof.
  unfold scaled, f64_int. destruct (Z.leb_spec 0 e) as [|He]; [by intros ->|]. intros ->.
  rewrite Z.mod_mul, Z.div_mul by lia. done.
Qed.

Lemma f64_int_scaled s m e n : f64_int (S754_finite s m e) = Some n -> scaled (cond_Zopp s (Z.pos m)) e n.
Proof.
  unfold f64_int. intros H. assert (exists n', n = cond_Zopp s n' /\ scaled (Z.pos m) e n') as (n' & -> & Hn').
  { unfold scaled. destruct (Z.leb_spec 0 e).
    - injection H as <-. by eexists.
    - destruct (Z.eqb_spec (Z.pos m mod 2 ^ (- e)) 0) as [E|]; [|done]. injection H as <-. eexists. split; [done|].
      rewrite (Z_div_mod_eq_full (Z.pos m) (2 ^ (- e))) at 1. lia. }
  by apply scaled_opp.
Qed.

Lemma binary_normalize_int z e n b :
  scaled z e n -> Z.abs n < 2 ^ 53 -> f64_int (binary_normalize f64_prec f64_emax z e b) = Some n.
Proof.
  intros Hs Hn.
  assert (forall m p, scaled (Z.pos m) e (Z.pos p) -> Z.pos p < 2 ^ 53 -> forall s,
    f64_int (binary_round f64_prec f64_emax s m e) = Some (cond_Zopp s (Z.pos p))) as Hpos.
  { intros m p Hmp Hp s. destruct (binary_round_exact s m e p) as (m' & -> & Hm'); [done| |by apply f64_int_finite].
    pose proof (digits2_bounds p). assert (Z.pos (digits2_pos p) - 1 < 53); [|lia].
    apply (Z.pow_lt_mono_r_iff 2); lia. }
  assert (0 < 2 ^ Z.abs e) by lia.
  destruct z as [|m|m]; cbn [binary_normalize].
  - by rewrite (scaled_zero _ _ Hs).
  - destruct n as [|p|p]; [exfalso|by apply (Hpos m p) with (s := false)|exfalso];
      unfold scaled in Hs; destruct (0 <=? e) eqn:He; nia.
  - apply (scaled_opp true) in Hs. cbn in Hs. destruct n as [|p|p]; [exfalso|exfalso|by apply (Hpos m p) with (s := true)];
      unfold scaled in Hs; destruct (0 <=? e) eqn:He; cbn in Hs; nia.
Qed.

(** [n as f64] is [n], and the difference of two integers is their difference, below [2^53]. *)
Lemma f64_of_int_exact n : Z.abs n < 2 ^ 53 -> f64_int (f64_of_int n) = Some n.
Proof. intros Hn. apply binary_normalize_int; [|done]. unfold scaled. cbn. lia. Qed.

Lemma f64_sub_exact x y a b :
  f64_int x = Some a -> f64_int y = Some b -> Z.abs (a - b) < 2 ^ 53 -> f64_int (f64_sub x y) = Some (a - b).
Proof.
  intros Hx Hy Hab. unfold f64_sub.
  destruct x as [sx| | |sx mx ex], y as [sy| | |sy my ey]; try done; cbn [SFsub].
  - injection Hx as <-. injection Hy as <-. by destruct sx, sy.
  - injection Hx as <-. apply f64_int_scaled in Hy. apply (scaled_opp sy) in Hy.
    rewrite (f64_int_finite _ _ _ (cond_Zopp sy b)) by (destruct sy; cbn in *; done || (by rewrite <- Pos2Z.opp_neg)).
    destruct sy; cbn; f_equal; lia.
  - injection Hy as <-. by rewrite Z.sub_0_r.
  - apply f64_int_scaled in Hx, Hy. apply binary_normalize_int; [|done].
    pose proof (shl_align_value mx ex (Z.min ex ey)) as H1. pose proof (shl_align_value my ey (Z.min ex ey)) as H2.
    destruct (shl_align mx ex _) as [m1 e1], (shl_align my ey _) as [m2 e2]. destruct H1 as [He1 H1], H2 as [He2 H2].
    cbn [fst]. apply scaled_sub.
    + replace (cond_Zopp sx (Z.pos m1)) with (cond_Zopp sx (Z.pos mx) * 2 ^ (ex - Z.min ex ey)).
      * apply scaled_align; [lia|done].
      * rewrite H1. replace e1 with (Z.min ex ey) by lia. destruct sx; cbn; lia.
    + replace (cond_Zopp sy (Z.pos m2)) with (cond_Zopp sy (Z.pos my) * 2 ^ (ey - Z.min ex ey)).
      * apply scaled_align; [lia|done].
      * rewrite H2. replace e2 with (Z.min ex ey) by lia. destruct sy; cbn; lia.
Qed.

(** The sign of an integer decides its comparison with zero. *)
Lemma f64_max_zero x n : f64_int x = Some n -> f64_int (f64_max x f64_zero) = Some (Z.max n 0).
Proof.
  intros Hx. unfold f64_max, f64_zero. destruct x as [s| | |s m e]; try done.
  - injection Hx as <-. cbn. done.
  - cbn [SFcompare]. pose proof (f64_int_scaled _ _ _ _ Hx) as Hs. unfold scaled in Hs.
    assert (0 < 2 ^ Z.abs e) by lia. destruct s; cbn [cond_Zopp] in Hs.
    + cbn. f_equal. destruct (0 <=? e) eqn:He; nia.
    + change (f64_int (S754_finite false m e) = Some (Z.max n 0)). rewrite Hx. f_equal. destruct (0 <=? e) eqn:He; nia.
Qed.
