(* ===== verification/Metrics.v ===== *)
(** * Metrics: [crates/metrics/src/names.rs] and [registry.rs]

    The metric set, the registry with its typed handles, and the buffers of raw observations that the
    EMF exporter empties. The [prometheus] crate is a parameter: a world that holds its registry and
    the values of its collectors, and what is done to it.

    The specification table is consistent; over a registry that refuses a name it already has and takes
    any other, the metric set registers completely exactly when none of its names is taken; and every
    histogram keeps a buffer of its own. *)

From Stdlib Require Import Ascii.
From stdpp Require Import gmap.
From S2P Require Import Prelude Types F64.

Local Open Scope mtc_scope.
Local Open Scope Z_scope.

(** ** Names *)

(** [InstrumentKind]. *)
Inductive InstrumentKind : Type := KindHistogram | KindCounter | KindGauge.
(** [MetricSpec]. *)
Record MetricSpec : Type := MkMetricSpec {
  ms_name : string;
  ms_kind : InstrumentKind;
  ms_labels : list string;
  ms_unit : string;
  ms_help : string
}.

Local Open Scope string_scope.
Definition ISSUANCE_LATENCY_SECONDS : string := "issuance_latency_seconds".
Definition BATCH_COMMIT_LATENCY_SECONDS : string := "batch_commit_latency_seconds".
Definition HSM_SIGNING_LATENCY_SECONDS : string := "hsm_signing_latency_seconds".
Definition LEASE_RENEWALS_TOTAL : string := "lease_renewals_total".
Definition LEASE_RENEWALS_FAILED_TOTAL : string := "lease_renewals_failed_total".
Definition EPOCH_ADVANCES_TOTAL : string := "epoch_advances_total".
Definition BATCHES_COMMITTED_TOTAL : string := "batches_committed_total".
Definition BATCHES_ABANDONED_TOTAL : string := "batches_abandoned_total".
Definition ENTRIES_BY_SOURCE_TOTAL : string := "entries_by_source_total".
Definition TILE_CACHE_HITS_TOTAL : string := "tile_cache_hits_total".
Definition TILE_CACHE_MISSES_TOTAL : string := "tile_cache_misses_total".
Definition CRR_REPLICATION_LAG_SECONDS : string := "crr_replication_lag_seconds".
Definition DDB_REPLICATION_LAG_SECONDS : string := "ddb_replication_lag_seconds".
Definition LABEL_SOURCE_TYPE : string := "source_type".

Definition SPEC_METRICS : list MetricSpec := [
  MkMetricSpec ISSUANCE_LATENCY_SECONDS KindHistogram [] "Seconds" "End-to-end certificate issuance latency in seconds.";
  MkMetricSpec BATCH_COMMIT_LATENCY_SECONDS KindHistogram [] "Seconds" "Batch commit latency in seconds.";
  MkMetricSpec HSM_SIGNING_LATENCY_SECONDS KindHistogram [] "Seconds" "HSM signing latency in seconds.";
  MkMetricSpec LEASE_RENEWALS_TOTAL KindCounter [] "Count" "Total lease renewals.";
  MkMetricSpec LEASE_RENEWALS_FAILED_TOTAL KindCounter [] "Count" "Total failed lease renewals.";
  MkMetricSpec EPOCH_ADVANCES_TOTAL KindCounter [] "Count" "Total epoch advances.";
  MkMetricSpec BATCHES_COMMITTED_TOTAL KindCounter [] "Count" "Total batches committed to the log.";
  MkMetricSpec BATCHES_ABANDONED_TOTAL KindCounter [] "Count" "Total batches abandoned before commit.";
  MkMetricSpec ENTRIES_BY_SOURCE_TOTAL KindCounter [LABEL_SOURCE_TYPE] "Count"
    "Total log entries ingested, labeled by source type.";
  MkMetricSpec TILE_CACHE_HITS_TOTAL KindCounter [] "Count" "Total tile cache hits.";
  MkMetricSpec TILE_CACHE_MISSES_TOTAL KindCounter [] "Count" "Total tile cache misses.";
  MkMetricSpec CRR_REPLICATION_LAG_SECONDS KindGauge [] "Seconds" "S3 cross-region replication lag in seconds.";
  MkMetricSpec DDB_REPLICATION_LAG_SECONDS KindGauge [] "Seconds" "DynamoDB global-table replication lag in seconds."
].
Definition ALL_METRIC_NAMES : list string := [
  ISSUANCE_LATENCY_SECONDS; BATCH_COMMIT_LATENCY_SECONDS; HSM_SIGNING_LATENCY_SECONDS; LEASE_RENEWALS_TOTAL;
  LEASE_RENEWALS_FAILED_TOTAL; EPOCH_ADVANCES_TOTAL; BATCHES_COMMITTED_TOTAL; BATCHES_ABANDONED_TOTAL;
  ENTRIES_BY_SOURCE_TOTAL; TILE_CACHE_HITS_TOTAL; TILE_CACHE_MISSES_TOTAL; CRR_REPLICATION_LAG_SECONDS;
  DDB_REPLICATION_LAG_SECONDS
].
Local Close Scope string_scope.

(** [spec_for]. *)
Definition spec_for (name : string) : option MetricSpec := find (fun spec => String.eqb (ms_name spec) name) SPEC_METRICS.

(** ** The [prometheus] crate *)

(** What [gather] lists. *)
Inductive MetricType : Type := COUNTER | GAUGE | SUMMARY | UNTYPED | HISTOGRAM.
Record Metric : Type := MkMetric {
  mt_label : list (string * string);
  mt_counter : f64;
  mt_gauge : f64
}.
Record MetricFamily : Type := MkMetricFamily {
  mf_name : string;
  mf_type : MetricType;
  mf_metric : list Metric
}.

(** Its registry and its collectors, which live in a world: [new_...] can refuse the options, and
    [register] a collector; the text is an error's. A labelled counter has a counter per value. *)
Record Prometheus (W : Type) : Type := MkPrometheus {
  IntCounter : Type;
  IntCounterVec : Type;
  PromGauge : Type;
  PromHistogram : Type;
  new_int_counter : string -> string -> M W string IntCounter;
  new_int_counter_vec : string -> string -> list string -> M W string IntCounterVec;
  new_gauge : string -> string -> M W string PromGauge;
  new_histogram : string -> string -> list f64 -> M W string PromHistogram;
  register : IntCounter + IntCounterVec + PromGauge + PromHistogram -> M W string unit;
  counter_inc_by : IntCounter -> Z -> W -> W;
  counter_get : IntCounter -> W -> Z;
  with_label_values : IntCounterVec -> list string -> W -> IntCounter * W;
  gauge_set : PromGauge -> f64 -> W -> W;
  gauge_get : PromGauge -> W -> f64;
  histogram_observe : PromHistogram -> f64 -> W -> W;
  gather : W -> list MetricFamily;
  text_encode : list MetricFamily -> result (list byte) string
}.
Arguments IntCounter {W} _.
Arguments IntCounterVec {W} _.
Arguments PromGauge {W} _.
Arguments PromHistogram {W} _.
Arguments new_int_counter {W} _.
Arguments new_int_counter_vec {W} _.
Arguments new_gauge {W} _.
Arguments new_histogram {W} _.
Arguments register {W} _.
Arguments counter_inc_by {W} _.
Arguments counter_get {W} _.
Arguments with_label_values {W} _.
Arguments gauge_set {W} _.
Arguments gauge_get {W} _.
Arguments histogram_observe {W} _.
Arguments gather {W} _.
Arguments text_encode {W} _.

(** ** The registry *)

(** [MetricsError]; an I/O error is its text. *)
Inductive MetricsError : Type :=
| Registration (text : string)
| Encode (text : string)
| Emf (text : string)
| Io (text : string).

(** [DEFAULT_LATENCY_BUCKETS], with the nearest binary fractions. *)
Definition DEFAULT_LATENCY_BUCKETS : list f64 :=
  (fun '(n, d) => SpecFloat.SFdiv f64_prec f64_emax (f64_of_int n) (f64_of_int d)) <$>
  [(5, 1000); (1, 100); (25, 1000); (5, 100); (1, 10); (25, 100); (5, 10); (1, 1); (25, 10); (5, 1); (10, 1); (30, 1); (60, 1)].

(** [MAX_RAW_OBSERVATIONS]. *)
Definition MAX_RAW_OBSERVATIONS : Z := 100.

(** [RawObservations::record] and [drain], on the buffer behind its mutex. *)
Definition record (value : f64) (values : list f64) : list f64 :=
  if len values <? MAX_RAW_OBSERVATIONS then values ++ [value] else values.
Definition drain (values : list f64) : list f64 * list f64 := (values, []).

(** [MetricsRegistry] and the world it lives in: the buffers are shared, each at an address; their map
    is by the name of the histogram. *)
Record MetricsWorld (W : Type) : Type := MkMetricsWorld {
  inner : W;
  raw_histograms : gmap string nat;
  raw_buffers : list (list f64)
}.
Arguments MkMetricsWorld {W}.
Arguments inner {W} _.
Arguments raw_histograms {W} _.
Arguments raw_buffers {W} _.

Section MetricsRegistry.
Context {W : Type} (prom : Prometheus W).

Abbreviation MetricsM := (M (MetricsWorld W) MetricsError).

(** A call of the library, whose error is a failed registration ([registration_error]). *)
Definition prom_call {A} (m : M W string A) : MetricsM A := fun s =>
  let '(r, w) := m (inner s) in
  (map_err Registration r, MkMetricsWorld w (raw_histograms s) (raw_buffers s)).
Definition prom_effect (f : W -> W) (s : MetricsWorld W) : MetricsWorld W :=
  MkMetricsWorld (f (inner s)) (raw_histograms s) (raw_buffers s).

(** The handles: [Counter], [LabeledCounter], [Gauge], [Histogram]. *)
Record Counter : Type := MkCounter { counter_inner : IntCounter prom }.
Record LabeledCounter : Type := MkLabeledCounter { labeled_inner : IntCounterVec prom }.
Record Gauge : Type := MkGauge { gauge_inner : PromGauge prom }.
Record Histogram : Type := MkHistogram { histogram_inner : PromHistogram prom; histogram_raw : nat }.

(** [counter], [labeled_counter], [gauge]. *)
Definition registry_counter (name help : string) : MetricsM Counter :=
  let! inner := prom_call (new_int_counter prom name help) in
  do! prom_call (register prom (inl (inl (inl inner))));
  ret (MkCounter inner).
Definition registry_labeled_counter (name help label : string) : MetricsM LabeledCounter :=
  let! inner := prom_call (new_int_counter_vec prom name help [label]) in
  do! prom_call (register prom (inl (inl (inr inner))));
  ret (MkLabeledCounter inner).
Definition registry_gauge (name help : string) : MetricsM Gauge :=
  let! inner := prom_call (new_gauge prom name help) in
  do! prom_call (register prom (inl (inr inner)));
  ret (MkGauge inner).

(** [Arc::new(RawObservations::default())] and its insertion under the name. *)
Definition new_raw (name : string) : MetricsM nat := fun s =>
  let raw := length (raw_buffers s) in
  (Ok raw, MkMetricsWorld (inner s) (<[name := raw]> (raw_histograms s)) (raw_buffers s ++ [[]])).

(** [histogram]. *)
Definition registry_histogram (name help : string) (buckets : list f64) : MetricsM Histogram :=
  let! inner := prom_call (new_histogram prom name help buckets) in
  do! prom_call (register prom (inr inner));
  let! raw := new_raw name in
  ret (MkHistogram inner raw).

(** [encode_prometheus_text]. *)
Definition encode_prometheus_text (s : MetricsWorld W) : result (list byte) MetricsError :=
  let? buffer := map_err Encode (text_encode prom (gather prom (inner s))) in
  ok_or (from_utf8 buffer) (Encode "invalid utf-8 sequence").

(** [families]. *)
Definition families (s : MetricsWorld W) : list MetricFamily := gather prom (inner s).

(** [inc], [inc_by], [value] of the handles, [set], [observe]. *)
Definition counter_inc (c : Counter) : MetricsWorld W -> MetricsWorld W :=
  prom_effect (counter_inc_by prom (counter_inner c) 1).
Definition counter_add (c : Counter) (n : Z) : MetricsWorld W -> MetricsWorld W :=
  prom_effect (counter_inc_by prom (counter_inner c) n).
Definition counter_value (c : Counter) (s : MetricsWorld W) : Z := counter_get prom (counter_inner c) (inner s).
Definition labeled_inc_by (c : LabeledCounter) (label_value : string) (n : Z) : MetricsWorld W -> MetricsWorld W :=
  prom_effect (fun w =>
    let '(counter, w) := with_label_values prom (labeled_inner c) [label_value] w in counter_inc_by prom counter n w).
Definition labeled_inc (c : LabeledCounter) (label_value : string) : MetricsWorld W -> MetricsWorld W :=
  labeled_inc_by c label_value 1.
Definition labeled_value (c : LabeledCounter) (label_value : string) (s : MetricsWorld W) : Z * MetricsWorld W :=
  let '(counter, w) := with_label_values prom (labeled_inner c) [label_value] (inner s) in
  (counter_get prom counter w, MkMetricsWorld w (raw_histograms s) (raw_buffers s)).
Definition gauge_update (g : Gauge) (value : f64) : MetricsWorld W -> MetricsWorld W :=
  prom_effect (gauge_set prom (gauge_inner g) value).
Definition gauge_value (g : Gauge) (s : MetricsWorld W) : f64 := gauge_get prom (gauge_inner g) (inner s).
Definition observe (h : Histogram) (value : f64) (s : MetricsWorld W) : MetricsWorld W :=
  MkMetricsWorld (histogram_observe prom (histogram_inner h) value (inner s)) (raw_histograms s)
    (alter (record value) (histogram_raw h) (raw_buffers s)).

(** ** The metric set *)

(** [CaMetrics]. *)
Record CaMetrics : Type := MkCaMetrics {
  issuance_latency_seconds : Histogram;
  batch_commit_latency_seconds : Histogram;
  hsm_signing_latency_seconds : Histogram;
  lease_renewals_total : Counter;
  lease_renewals_failed_total : Counter;
  epoch_advances_total : Counter;
  batches_committed_total : Counter;
  batches_abandoned_total : Counter;
  entries_by_source_total : LabeledCounter;
  tile_cache_hits_total : Counter;
  tile_cache_misses_total : Counter;
  crr_replication_lag_seconds : Gauge;
  ddb_replication_lag_seconds : Gauge
}.

(** [help_for]. *)
Definition help_for (name : string) : string :=
  match spec_for name with Some spec => ms_help spec | None => name end.

(** [CaMetrics::register]. *)
Definition CaMetrics_register : MetricsM CaMetrics :=
  let histogram name := registry_histogram name (help_for name) DEFAULT_LATENCY_BUCKETS in
  let counter name := registry_counter name (help_for name) in
  let gauge name := registry_gauge name (help_for name) in
  let! m1 := histogram ISSUANCE_LATENCY_SECONDS in
  let! m2 := histogram BATCH_COMMIT_LATENCY_SECONDS in
  let! m3 := histogram HSM_SIGNING_LATENCY_SECONDS in
  let! m4 := counter LEASE_RENEWALS_TOTAL in
  let! m5 := counter LEASE_RENEWALS_FAILED_TOTAL in
  let! m6 := counter EPOCH_ADVANCES_TOTAL in
  let! m7 := counter BATCHES_COMMITTED_TOTAL in
  let! m8 := counter BATCHES_ABANDONED_TOTAL in
  let! m9 := registry_labeled_counter ENTRIES_BY_SOURCE_TOTAL (help_for ENTRIES_BY_SOURCE_TOTAL) LABEL_SOURCE_TYPE in
  let! m10 := counter TILE_CACHE_HITS_TOTAL in
  let! m11 := counter TILE_CACHE_MISSES_TOTAL in
  let! m12 := gauge CRR_REPLICATION_LAG_SECONDS in
  let! m13 := gauge DDB_REPLICATION_LAG_SECONDS in
  ret (MkCaMetrics m1 m2 m3 m4 m5 m6 m7 m8 m9 m10 m11 m12 m13).
End MetricsRegistry.

(** ** The table *)

Lemma table_names : ms_name <$> SPEC_METRICS = ALL_METRIC_NAMES /\ NoDup ALL_METRIC_NAMES.
Proof. split; [done|]. refine (bool_decide_unpack _ _). vm_compute. exact I. Qed.

(** [spec_for] finds the row of every name, and only of those. *)
Lemma spec_for_spec name :
  match spec_for name with
  | Some spec => ms_name spec = name /\ spec ∈ SPEC_METRICS
  | None => name ∉ ALL_METRIC_NAMES
  end.
Proof.
  unfold spec_for. destruct (find _ _) as [spec|] eqn:Ef.
  - apply find_some in Ef as [Hin He%String.eqb_eq]. split; [done|by apply list_elem_of_In].
  - destruct table_names as [<- _]. intros (spec & -> & Hin)%list_elem_of_fmap.
    apply list_elem_of_In, (find_none _ _ Ef) in Hin. by rewrite String.eqb_refl in Hin.
Qed.

(** ** What the library promises *)

(** A metric's name: letters, digits, [_] and [:], not starting with a digit. *)
Definition name_char (first : bool) (c : ascii) : bool :=
  let n := Z.of_nat (nat_of_ascii c) in
  ((65 <=? n) && (n <=? 90) || (97 <=? n) && (n <=? 122) || (n =? 95) || (n =? 58)
   || negb first && (48 <=? n) && (n <=? 57))%bool.
Fixpoint name_rest (s : string) : bool :=
  match s with EmptyString => true | String c s => (name_char false c && name_rest s)%bool end.
Definition valid_name (s : string) : bool :=
  match s with EmptyString => false | String c s => (name_char true c && name_rest s)%bool end.

(** Bucket bounds must increase. *)
Fixpoint increasing (l : list f64) : bool :=
  match l with x :: (y :: _) as l' => (SpecFloat.SFltb x y && increasing l')%bool | _ => true end.

(** The names a registry has, and the name of a collector. *)
Class PrometheusLaws {W} (prom : Prometheus W) (names : W -> gset string)
    (collector_name : IntCounter prom + IntCounterVec prom + PromGauge prom + PromHistogram prom -> string) : Prop := {
  counter_law name help w : valid_name name = true -> exists c w', new_int_counter prom name help w = (Ok c, w') /\
    names w' = names w /\ collector_name (inl (inl (inl c))) = name;
  counter_vec_law name help label w : valid_name name = true -> valid_name label = true ->
    exists c w', new_int_counter_vec prom name help [label] w = (Ok c, w') /\
    names w' = names w /\ collector_name (inl (inl (inr c))) = name;
  gauge_law name help w : valid_name name = true -> exists c w', new_gauge prom name help w = (Ok c, w') /\
    names w' = names w /\ collector_name (inl (inr c)) = name;
  histogram_law name help buckets w : valid_name name = true -> increasing buckets = true ->
    exists c w', new_histogram prom name help buckets w = (Ok c, w') /\
    names w' = names w /\ collector_name (inr c) = name;
  register_law c w :
    if decide (collector_name c ∈ names w) then exists text w', register prom c w = (Err text, w') /\ names w' = names w
    else exists w', register prom c w = (Ok tt, w') /\ names w' = {[collector_name c]} ∪ names w
}.

Section Registration.
Context {W : Type} (prom : Prometheus W) (names : W -> gset string).
Context (collector_name : IntCounter prom + IntCounterVec prom + PromGauge prom + PromHistogram prom -> string).
Context `{!PrometheusLaws prom names collector_name}.

(** Each histogram has a buffer, and no other has it. *)
Definition buffers_wf (s : MetricsWorld W) : Prop :=
  (forall name raw, raw_histograms s !! name = Some raw -> is_Some (raw_buffers s !! raw)) /\
  (forall n1 n2 raw, raw_histograms s !! n1 = Some raw -> raw_histograms s !! n2 = Some raw -> n1 = n2).

(** The code registers exactly these names, in this order, or stops at the first that is taken. *)
Definition registers (ns : list string) {A} (m : M (MetricsWorld W) MetricsError A) : Prop := forall s,
  (forall n, n ∈ ns -> n ∉ names (inner s)) /\
    (exists a s', m s = (Ok a, s') /\ names (inner s') = list_to_set ns ∪ names (inner s) /\ (buffers_wf s -> buffers_wf s')) \/
  (exists n text s', n ∈ ns /\ n ∈ names (inner s) /\ m s = (Err (Registration text), s') /\ (buffers_wf s -> buffers_wf s')).

Lemma registers_ret {A} (a : A) : registers [] (ret a).
Proof. intros s. left. split; [by intros n ?%elem_of_nil|]. exists a, s. split_and!; [done| |done]. set_solver. Qed.

Lemma registers_bind {A B} n ns (m : M _ MetricsError A) (k : A -> M _ MetricsError B) :
  n ∉ ns -> registers [n] m -> (forall a, registers ns (k a)) -> registers (n :: ns) (bind m k).
Proof.
  intros Hn Hm Hk s. unfold bind. destruct (Hm s) as [(Hf & a & s1 & -> & Hs1 & Hb1)|(n' & text & s1 & Hn' & Ht & -> & Hb1)].
  - destruct (Hk a s1) as [(Hf2 & b & s2 & -> & Hs2 & Hb2)|(n' & text & s2 & Hn' & Ht & -> & Hb2)].
    + left. split.
      * intros n' [->|Hin]%elem_of_cons; [apply Hf; left|]. intros Hin'. apply (Hf2 n' Hin). rewrite Hs1. set_solver.
      * exists b, s2. split_and!; [done| |tauto]. rewrite Hs2, Hs1. set_solver.
    + right. exists n', text, s2. split_and!; [by right| |done|tauto]. rewrite Hs1 in Ht. set_solver.
  - right. exists n', text, s1. split_and!; [set_solver|done..].
Qed.

(** One collector made and registered. *)
Lemma registers_one {A C} (new : M W string C) (inject : C -> IntCounter prom + IntCounterVec prom + PromGauge prom + PromHistogram prom)
    name (k : C -> M _ MetricsError A) :
  (forall w, exists c w', new w = (Ok c, w') /\ names w' = names w /\ collector_name (inject c) = name) ->
  (forall c s, exists a s', k c s = (Ok a, s') /\ inner s' = inner s /\ (buffers_wf s -> buffers_wf s')) ->
  registers [name] (bind (prom_call new) (fun c => bind (prom_call (register prom (inject c))) (fun _ => k c))).
Proof.
  intros Hnew Hk s. unfold bind, prom_call. destruct (Hnew (inner s)) as (c & w1 & -> & Hw1 & Hc). cbn.
  pose proof (register_law (inject c) w1) as Hr. rewrite Hc, Hw1 in Hr. case_decide as Hin.
  - right. destruct Hr as (text & w2 & -> & _). cbn. eexists name, text, _. split_and!; [left|done|done|done].
  - left. destruct Hr as (w2 & -> & Hw2). cbn. split; [by intros n ->%list_elem_of_singleton|].
    destruct (Hk c (MkMetricsWorld w2 (raw_histograms s) (raw_buffers s))) as (a & s' & -> & Hs' & Hb).
    exists a, s'. split_and!; [done| |done]. rewrite Hs'. cbn. rewrite Hw2. set_solver.
Qed.

Lemma registers_counter name help : valid_name name = true -> registers [name] (registry_counter prom name help).
Proof.
  intros Hv. apply (registers_one _ (fun c => inl (inl (inl c)))); [intros w; by apply counter_law|].
  intros c s. by eexists _, s.
Qed.
Lemma registers_labeled name help label : valid_name name = true -> valid_name label = true ->
  registers [name] (registry_labeled_counter prom name help label).
Proof.
  intros Hv Hl. apply (registers_one _ (fun c => inl (inl (inr c)))); [intros w; by apply counter_vec_law|].
  intros c s. by eexists _, s.
Qed.
Lemma registers_gauge name help : valid_name name = true -> registers [name] (registry_gauge prom name help).
Proof.
  intros Hv. apply (registers_one _ (fun c => inl (inr c))); [intros w; by apply gauge_law|].
  intros c s. by eexists _, s.
Qed.

Lemma new_raw_wf name s : buffers_wf s -> buffers_wf (new_raw name s).2.
Proof.
  intros [Hb Hi]. cbn. split; cbn.
  - intros n raw [[<- <-]|[_ Hl]]%lookup_insert_Some.
    + rewrite lookup_app_r, Nat.sub_diag by done. by eexists.
    + apply lookup_lt_is_Some. rewrite length_app. apply Hb, lookup_lt_is_Some in Hl. lia.
  - assert (forall n, raw_histograms s !! n <> Some (length (raw_buffers s))) as Hfresh.
    { intros n Hl. apply Hb, lookup_lt_is_Some in Hl. lia. }
    intros n1 n2 raw [[<- <-]|[Hn1 H1]]%lookup_insert_Some [[<- E]|[Hn2 H2]]%lookup_insert_Some; try done.
    + by destruct (Hfresh n2).
    + subst. by destruct (Hfresh n1).
    + by eapply Hi.
Qed.

Lemma registers_histogram name help buckets : valid_name name = true -> increasing buckets = true ->
  registers [name] (registry_histogram prom name help buckets).
Proof.
  intros Hv Hi. apply (registers_one _ inr); [intros w; by apply histogram_law|].
  intros c s. eexists _, _. split; [done|]. split; [done|]. apply (new_raw_wf name).
Qed.

(** The metric set registers completely if none of its names is taken, and otherwise stops with a
    registration error at a name that is. *)
Lemma register_metric_set : registers ALL_METRIC_NAMES (CaMetrics_register prom).
Proof.
  unfold CaMetrics_register, ALL_METRIC_NAMES. cbv zeta.
  repeat (apply registers_bind; [vm_compute; set_solver
    |first [by apply registers_counter | by apply registers_gauge | by apply registers_labeled
           |apply registers_histogram; [done|vm_compute; reflexivity]]|intros ?]).
  apply registers_ret.
Qed.

(** So it registers once. *)
Lemma register_metric_set_once s m s' :
  CaMetrics_register prom s = (Ok m, s') ->
  exists text s'', CaMetrics_register prom s' = (Err (Registration text), s'').
Proof.
  intros H. destruct (register_metric_set s) as [(_ & a & s1 & E & Hs & _)|(n & text & s1 & _ & _ & E & _)]; rewrite E in H;
    [|done]. injection H as -> ->.
  destruct (register_metric_set s') as [(Hf & _)|(n & text & s2 & _ & _ & E2 & _)]; [|by eauto].
  exfalso. apply (Hf ISSUANCE_LATENCY_SECONDS); [left|]. rewrite Hs. vm_compute ALL_METRIC_NAMES. set_solver.
Qed.
End Registration.

(** A registry of names, whose collectors are their names, keeps the laws. *)
Definition register_name (name : string) : M (gset string) string unit := fun names =>
  if decide (name ∈ names) then (Err "duplicate metrics collector registration attempted"%string, names)
  else (Ok tt, {[name]} ∪ names).
Definition name_of (c : string + string + string + string) : string :=
  match c with inl (inl (inl n)) | inl (inl (inr n)) | inl (inr n) | inr n => n end.
Definition name_registry : Prometheus (gset string) := {|
  IntCounter := string; IntCounterVec := string; PromGauge := string; PromHistogram := string;
  new_int_counter name _ := ret name; new_int_counter_vec name _ _ := ret name; new_gauge name _ := ret name;
  new_histogram name _ _ := ret name; register c := register_name (name_of c);
  counter_inc_by _ _ w := w; counter_get _ _ := 0; with_label_values c _ w := (c, w);
  gauge_set _ _ w := w; gauge_get _ _ := f64_zero; histogram_observe _ _ w := w;
  gather _ := []; text_encode _ := Ok []
|}.
#[export] Instance name_registry_laws : PrometheusLaws name_registry id name_of.
Proof.
  split; try (intros; eexists _, _; split_and!; done). intros c w. cbn. unfold register_name. unfold id.
  case_decide; eauto.
Qed.

(** On it, the set registers, and not twice. *)
Definition registered (s : MetricsWorld (gset string)) : bool :=
  match (CaMetrics_register name_registry s).1 with Ok _ => true | Err _ => false end.
Example register_run :
  let s := MkMetricsWorld ∅ ∅ [] in
  registered s = true /\ registered (CaMetrics_register name_registry s).2 = false.
Proof. split; vm_compute; reflexivity. Qed.
