(* ===== verification/MetricsAdmin.v ===== *)
(** * Metrics endpoint: [crates/metrics/src/admin.rs]

    The hand-written HTTP responder that serves the Prometheus text: reading the head of a request from
    a connection, its first line, the routes, the response, and the loop that accepts connections. The
    connection is an interface ([TcpStream]: a read that may still be waiting when the time limit
    passes, [write_all], [shutdown]), the registry is the one of [Metrics]. A Rust string is the list
    of its code points, as [String::from_utf8_lossy] makes one of any bytes.

    Reading always ends, holds less than the cap and one chunk, and the answer depends on the request
    line alone, however the network cuts the request. *)

From Stdlib Require Import Ascii.
From stdpp Require Import list relations.
From S2P Require Import Prelude Types Format Metrics.

Local Open Scope mtc_scope.
Local Open Scope Z_scope.

(** ** Text *)

(** [String::from_utf8_lossy]: every maximal ill-formed part becomes U+FFFD. *)
Definition REPLACEMENT : Z := 65533.
Definition low (b : byte) : Z := byte_val b mod 64.

(** The code point at the head of a text, and the bytes after it. *)
Definition decode_char (b0 : byte) (r0 : list byte) : Z * list byte :=
  if in_range 0 127 b0 then (byte_val b0, r0)
  else if in_range 194 223 b0 then
    match r0 with
    | b1 :: r1 => if continuation b1 then (byte_val b0 mod 32 * 64 + low b1, r1) else (REPLACEMENT, r0)
    | [] => (REPLACEMENT, [])
    end
  else if in_range 224 239 b0 then
    match r0 with
    | b1 :: r1 =>
        if negb (second3 b0 b1) then (REPLACEMENT, r0)
        else match r1 with
        | b2 :: r2 =>
            if continuation b2 then (byte_val b0 mod 16 * 4096 + low b1 * 64 + low b2, r2)
            else (REPLACEMENT, r1)
        | [] => (REPLACEMENT, [])
        end
    | [] => (REPLACEMENT, [])
    end
  else if in_range 240 244 b0 then
    match r0 with
    | b1 :: r1 =>
        if negb (second4 b0 b1) then (REPLACEMENT, r0)
        else match r1 with
        | b2 :: r2 =>
            if negb (continuation b2) then (REPLACEMENT, r1)
            else match r2 with
            | b3 :: r3 =>
                if continuation b3
                then (byte_val b0 mod 8 * 262144 + low b1 * 4096 + low b2 * 64 + low b3, r3)
                else (REPLACEMENT, r2)
            | [] => (REPLACEMENT, [])
            end
        | [] => (REPLACEMENT, [])
        end
    | [] => (REPLACEMENT, [])
    end
  else (REPLACEMENT, r0).

Fixpoint lossy_upto (n : nat) (bs : list byte) : list Z :=
  match n, bs with
  | S n, b0 :: r0 => (decode_char b0 r0).1 :: lossy_upto n (decode_char b0 r0).2
  | _, _ => []
  end.
Definition from_utf8_lossy (bs : list byte) : list Z := lossy_upto (length bs) bs.

(** The code points of an ASCII literal. *)
Definition text (s : string) : list Z := byte_val <$> String.list_byte_of_string s.

(** [str::lines().next()]: up to the first line feed, less one carriage return before it. *)
Definition strip_cr (l : list Z) : list Z :=
  match rev l with 13 :: r => rev r | _ => l end.
Fixpoint split_lf (cs : list Z) : list Z * bool :=
  match cs with
  | [] => ([], false)
  | c :: r => if c =? 10 then ([], true) else let '(l, found) := split_lf r in (c :: l, found)
  end.
Definition first_line (cs : list Z) : option (list Z) :=
  match cs with
  | [] => None
  | _ => let '(l, found) := split_lf cs in Some (if found : bool then strip_cr l else l)
  end.

(** [char::is_whitespace] and [str::split_whitespace]. *)
Definition is_whitespace (c : Z) : bool :=
  ((9 <=? c) && (c <=? 13) || (c =? 32) || (c =? 133) || (c =? 160) || (c =? 5760)
   || ((8192 <=? c) && (c <=? 8202)) || (c =? 8232) || (c =? 8233) || (c =? 8239) || (c =? 8287)
   || (c =? 12288))%bool.
Fixpoint words_from (word : list Z) (cs : list Z) : list (list Z) :=
  match cs with
  | [] => match word with [] => [] | _ => [rev word] end
  | c :: r =>
      if is_whitespace c
      then match word with [] => words_from [] r | _ => rev word :: words_from [] r end
      else words_from (c :: word) r
  end.
Definition split_whitespace (cs : list Z) : list (list Z) := words_from [] cs.

(** [target.split('?').next()]. *)
Fixpoint before_query (cs : list Z) : list Z :=
  match cs with
  | [] => []
  | c :: r => if c =? 63 then [] else c :: before_query r
  end.

(** ** Routes *)

Definition DEFAULT_ADMIN_PORT : Z := 9464.
Definition PROMETHEUS_CONTENT_TYPE : string := "text/plain; version=0.0.4; charset=utf-8".
Definition TEXT_CONTENT_TYPE : string := "text/plain; charset=utf-8".
Definition MAX_REQUEST_BYTES : Z := 8 * 1024.
Definition CHUNK_BYTES : Z := 1024.
Definition REQUEST_READ_TIMEOUT_SECS : Z := 10.

Definition newline : string := String "010" EmptyString.
Definition crlf : string := String "013" newline.

(** [Display] of [MetricsError]. *)
Definition MetricsError_display (e : MetricsError) : string :=
  match e with
  | Registration text => "metric registration failed: " +:+ text
  | Encode text => "prometheus text encoding failed: " +:+ text
  | Emf text => "EMF serialization failed: " +:+ text
  | Io text => "metrics I/O error: " +:+ text
  end.

Record Routed : Type := MkRouted { rt_status : Z; rt_content_type : string; rt_body : list byte }.

(** [reason]. *)
Definition reason_phrase (status : Z) : string :=
  if status =? 200 then "OK"
  else if status =? 404 then "Not Found"
  else if status =? 405 then "Method Not Allowed"
  else "Internal Server Error".

(** The head that [write_response] writes. *)
Definition response_head (status : Z) (content_type : string) (body : list byte) : list byte :=
  String.list_byte_of_string
    ("HTTP/1.1 " +:+ decimal status +:+ " " +:+ reason_phrase status +:+ crlf +:+
     "Content-Type: " +:+ content_type +:+ crlf +:+
     "Content-Length: " +:+ decimal (len body) +:+ crlf +:+
     "Connection: close" +:+ crlf +:+ crlf).

(** [header_complete]: some window of four bytes is CR LF CR LF. *)
Definition HEAD_END : list byte := [x0d; x0a; x0d; x0a].
Fixpoint header_complete (buf : list byte) : bool :=
  match buf with
  | [] => false
  | _ :: r => (bool_decide (take 4 buf = HEAD_END) || header_complete r)%bool
  end.

(** ** Connections *)

(** What the code uses of [tokio]'s stream: [None] is a read that the time limit cuts off. *)
Class TcpStream (S E : Type) : Type := {
  stream_read : S -> option (result (list byte) E) * S;
  stream_write_all : S -> list byte -> result unit E * S;
  stream_shutdown : S -> result unit E * S
}.

Section Endpoint.
Context {S E : Type} `{!TcpStream S E}.
Context {W : Type} (prom : Prometheus W).

(** [route]. *)
Definition route_request (request_line : list Z) (registry : MetricsWorld W) : Routed :=
  let parts := split_whitespace request_line in
  let method := default [] (parts !! 0%nat) in
  let target := default [] (parts !! 1%nat) in
  if negb (bool_decide (method = text "GET"))
  then MkRouted 405 TEXT_CONTENT_TYPE (String.list_byte_of_string ("method not allowed" +:+ newline))
  else if bool_decide (before_query target = text "/metrics") then
    match encode_prometheus_text prom registry with
    | Ok body => MkRouted 200 PROMETHEUS_CONTENT_TYPE body
    | Err error => MkRouted 500 TEXT_CONTENT_TYPE
        (String.list_byte_of_string ("failed to encode metrics: " +:+ MetricsError_display error +:+ newline))
    end
  else MkRouted 404 TEXT_CONTENT_TYPE (String.list_byte_of_string ("not found" +:+ newline)).

(** The loop of [read_request_head] (fuel counts the reads), and the whole of it. [None] at the
    outside is fuel that ran out; inside it is the time limit. *)
Fixpoint read_loop (fuel : nat) (buf : list byte) (s : S) : option (option (result (list byte) E) * S) :=
  match fuel with
  | O => None
  | Datatypes.S fuel =>
      if (header_complete buf || (MAX_REQUEST_BYTES <=? len buf))%bool then Some (Some (Ok buf), s)
      else match stream_read s with
      | (None, s) => Some (None, s)
      | (Some (Err e), s) => Some (Some (Err e), s)
      | (Some (Ok []), s) => Some (Some (Ok buf), s)
      | (Some (Ok bs), s) => read_loop fuel (buf ++ bs) s
      end
  end.
Definition READ_FUEL : nat := Z.to_nat (MAX_REQUEST_BYTES + 1).
Definition read_request_head (s : S) : option (option (result (list Z) E) * S) :=
  match read_loop READ_FUEL [] s with
  | None => None
  | Some (Some (Ok buf), s) => Some (Some (Ok (from_utf8_lossy buf)), s)
  | Some (Some (Err e), s) => Some (Some (Err e), s)
  | Some (None, s) => Some (None, s)
  end.

(** [write_response]. *)
Definition write_response (s : S) (r : Routed) : result unit E * S :=
  match stream_write_all s (response_head (rt_status r) (rt_content_type r) (rt_body r)) with
  | (Err e, s) => (Err e, s)
  | (Ok _, s) =>
      match stream_write_all s (rt_body r) with
      | (Err e, s) => (Err e, s)
      | (Ok _, s) => stream_shutdown s
      end
  end.

(** [handle_connection]. *)
Definition handle_connection (s : S) (registry : MetricsWorld W) : option (result unit E * S) :=
  match read_request_head s with
  | None => None
  | Some (None, s) => Some (Ok tt, s)
  | Some (Some (Err e), s) => Some (Err e, s)
  | Some (Some (Ok head), s) =>
      match first_line head with
      | None => Some (Ok tt, s)
      | Some request_line => Some (write_response s (route_request request_line registry))
      end
  end.

(** The loop that [serve_admin] spawns: what its [select!] sees, in order; the connections it hands to
    [handle_connection], and whether it has stopped. *)
Inductive Selected : Type :=
| ShutdownReceived
| Accepted (stream : S)
| AcceptFailed (error : E).

Fixpoint accept_loop (events : list Selected) : list S * bool :=
  match events with
  | [] => ([], false)
  | ShutdownReceived :: _ => ([], true)
  | Accepted stream :: events => let '(served, stopped) := accept_loop events in (stream :: served, stopped)
  | AcceptFailed _ :: events => accept_loop events
  end.

(** [serve_admin] up to the spawn of that loop: the listener, and its address for the handle. *)
Definition serve_admin {Addr Listener} (bind : Addr -> result Listener string)
    (local_addr : Listener -> result Addr string) (addr : Addr) : result (Listener * Addr) MetricsError :=
  let? listener := map_err Io (bind addr) in
  let? local := map_err Io (local_addr listener) in
  Ok (listener, local).

(** ** Reading ends *)

(** The definitions' equation, a read at a time. *)
Lemma read_loop_step fuel buf s :
  header_complete buf = false -> len buf < MAX_REQUEST_BYTES ->
  read_loop (Datatypes.S fuel) buf s =
  match stream_read s with
  | (None, s) => Some (None, s)
  | (Some (Err e), s) => Some (Some (Err e), s)
  | (Some (Ok []), s) => Some (Some (Ok buf), s)
  | (Some (Ok bs), s) => read_loop fuel (buf ++ bs) s
  end.
Proof.
  intros Hh Hl. cbn [read_loop]. rewrite Hh. by replace (MAX_REQUEST_BYTES <=? len buf) with false by lia.
Qed.

Lemma read_loop_stop fuel buf s :
  header_complete buf = true \/ MAX_REQUEST_BYTES <= len buf ->
  read_loop (Datatypes.S fuel) buf s = Some (Some (Ok buf), s).
Proof.
  intros H. cbn [read_loop]. destruct (header_complete buf); [done|].
  by replace (MAX_REQUEST_BYTES <=? len buf) with true by (destruct H; [done|lia]).
Qed.

Lemma stop_or_read buf :
  (header_complete buf = true \/ MAX_REQUEST_BYTES <= len buf)
  \/ (header_complete buf = false /\ len buf < MAX_REQUEST_BYTES).
Proof. destruct (header_complete buf); [auto|]. destruct (Z.lt_ge_cases (len buf) MAX_REQUEST_BYTES); auto. Qed.

(** Every connection is answered, dropped or failed: a read adds a byte, or ends the loop; and what is
    held stays below the cap and one chunk. *)
Lemma read_loop_ends fuel buf s :
  MAX_REQUEST_BYTES - len buf < Z.of_nat fuel -> (0 < fuel)%nat ->
  (forall s bs s', stream_read s = (Some (Ok bs), s') -> len bs <= CHUNK_BYTES) ->
  len buf < MAX_REQUEST_BYTES + CHUNK_BYTES ->
  exists o s', read_loop fuel buf s = Some (o, s') /\
    forall b, o = Some (Ok b) -> len b < MAX_REQUEST_BYTES + CHUNK_BYTES.
Proof.
  intros Hf Hpos Hchunk. revert buf s Hf Hpos. induction fuel as [|fuel IH]; [lia|]. intros buf s Hf _ Hb.
  destruct (stop_or_read buf) as [Hs|[Hh Hl]].
  - rewrite read_loop_stop by done. do 2 eexists. split; [done|]. by intros b [= <-].
  - rewrite read_loop_step by done. destruct (stream_read s) as [[[[|b bs]|e]|] s'] eqn:Er.
    + do 2 eexists. split; [done|]. by intros b [= <-].
    + apply Hchunk in Er. assert (len (buf ++ b :: bs) = len buf + len (b :: bs)) as El
        by (unfold len; rewrite length_app; lia).
      assert (0 < len (b :: bs)) by (unfold len; simpl; lia).
      apply IH; unfold CHUNK_BYTES, MAX_REQUEST_BYTES in *; lia.
    + do 2 eexists. split; [done|]. done.
    + do 2 eexists. split; [done|]. done.
Qed.

(** What a connection delivers, read by read. *)
Inductive delivers : S -> list (list byte) -> Prop :=
| delivers_nothing s : delivers s []
| delivers_chunk s bs s' chunks :
    stream_read s = (Some (Ok bs), s') -> bs <> [] -> delivers s' chunks -> delivers s (bs :: chunks).

(** The stream some reads later. *)
Definition reads : S -> S -> Prop := rtc (fun s s' => exists bs, stream_read s = (Some (Ok bs), s')).

(** The loop stops inside what is delivered, once that completes a head. *)
Lemma read_loop_prefix fuel s chunks buf :
  delivers s chunks -> header_complete (buf ++ mjoin chunks) = true ->
  MAX_REQUEST_BYTES - len buf < Z.of_nat fuel -> (0 < fuel)%nat ->
  exists p s', read_loop fuel buf s = Some (Some (Ok (buf ++ p)), s') /\ reads s s' /\ p `prefix_of` mjoin chunks /\
    (header_complete (buf ++ p) = true \/ MAX_REQUEST_BYTES <= len (buf ++ p)).
Proof.
  intros Hd. revert fuel buf. induction Hd as [s|s bs s' chunks Hr Hne Hd IH];
    intros fuel buf Hh Hf Hpos; (destruct fuel as [|fuel]; [lia|]);
    destruct (stop_or_read buf) as [Hs|[Hn Hl]].
  1,3: rewrite read_loop_stop by done; exists [], s; rewrite app_nil_r;
    repeat split; [apply rtc_refl|apply prefix_nil|done].
  - simpl in Hh. rewrite app_nil_r in Hh. congruence.
  - rewrite read_loop_step by done. rewrite Hr. destruct bs as [|b bs]; [done|].
    change (mjoin ((b :: bs) :: chunks)) with ((b :: bs) ++ mjoin chunks) in *.
    assert (len (buf ++ b :: bs) = len buf + 1 + len bs) by (unfold len; rewrite length_app; simpl; lia).
    assert (0 <= len bs) by (unfold len; lia).
    destruct (IH fuel (buf ++ b :: bs)) as (p & s'' & He & Hreads & Hp & Hc);
      [by rewrite <- app_assoc|lia| |].
    { unfold MAX_REQUEST_BYTES in *. lia. }
    exists ((b :: bs) ++ p), s''. rewrite app_assoc. repeat split; [done| |by apply prefix_app|done].
    eapply rtc_l; [by exists (b :: bs)|done].
Qed.

End Endpoint.

(** ** The request line *)

Section RequestLine.

Lemma decode_char_shrinks b0 r0 : (length (decode_char b0 r0).2 <= length r0)%nat.
Proof. unfold decode_char. repeat case_match; simpl; lia. Qed.

Lemma decode_char_incl b0 r0 b : b ∈ (decode_char b0 r0).2 -> b ∈ r0.
Proof. unfold decode_char. repeat case_match; simpl; set_solver. Qed.

Lemma lossy_upto_enough n m bs :
  (length bs <= n)%nat -> (length bs <= m)%nat -> lossy_upto n bs = lossy_upto m bs.
Proof.
  revert m bs. induction n as [|n IH]; intros [|m] [|b0 r0] Hn Hm; simpl in *; try done; try lia.
  f_equal. pose proof (decode_char_shrinks b0 r0). apply IH; lia.
Qed.

(** The equation of the decoder. *)
Lemma lossy_cons b0 r0 :
  from_utf8_lossy (b0 :: r0) = (decode_char b0 r0).1 :: from_utf8_lossy (decode_char b0 r0).2.
Proof.
  unfold from_utf8_lossy. cbn [length lossy_upto]. f_equal.
  apply lossy_upto_enough; [apply decode_char_shrinks|done].
Qed.

(** Induction over a text a decoded character at a time. *)
Lemma text_ind (P : list byte -> Prop) :
  P [] -> (forall b0 r0, P (decode_char b0 r0).2 -> P (b0 :: r0)) -> forall bs, P bs.
Proof.
  intros H0 H1 bs. induction bs as [bs IH] using (induction_ltof1 _ (@length byte)).
  destruct bs as [|b0 r0]; [done|]. apply H1, IH. unfold ltof. simpl.
  pose proof (decode_char_shrinks b0 r0). lia.
Qed.

(** An ASCII byte is never inside a longer sequence, ... *)
Lemma ascii_ends b b0 :
  in_range 0 127 b = true -> continuation b = false /\ second3 b0 b = false /\ second4 b0 b = false.
Proof.
  unfold second3, second4, continuation, in_range. intros H.
  repeat case_match; repeat split; lia.
Qed.

(** ... so decoding splits at it, whatever surrounds it. *)
Lemma decode_char_app b0 l b r : in_range 0 127 b = true ->
  decode_char b0 (l ++ b :: r) = ((decode_char b0 l).1, (decode_char b0 l).2 ++ b :: r).
Proof.
  intros Hb. destruct (ascii_ends b b0 Hb) as (Hc & H3 & H4). unfold decode_char.
  destruct l as [|b1 [|b2 [|b3 l]]]; cbn [app]; rewrite ?Hc, ?H3, ?H4; by repeat case_match.
Qed.

Lemma lossy_app_ascii l b r : in_range 0 127 b = true ->
  from_utf8_lossy (l ++ b :: r) = from_utf8_lossy l ++ byte_val b :: from_utf8_lossy r.
Proof.
  intros Hb. induction l as [|b0 l IH] using text_ind; cbn [app]; rewrite !lossy_cons.
  - unfold decode_char. by rewrite Hb.
  - rewrite decode_char_app by done. cbn [fst snd app]. by rewrite IH.
Qed.

(** A line feed appears only where the text has its byte. *)
Lemma decode_char_lf b0 l : (decode_char b0 l).1 = 10 -> byte_val b0 = 10.
Proof.
  unfold decode_char, REPLACEMENT, second3, second4, continuation, in_range, low.
  repeat case_match; cbn [fst snd]; try done; intros; exfalso;
    Z.to_euclidean_division_equations; lia.
Qed.

Lemma lossy_no_lf l : x0a ∉ l -> 10 ∉ from_utf8_lossy l.
Proof.
  induction l as [|b0 l IH] using text_ind; [set_solver|].
  intros Hn. rewrite lossy_cons. apply not_elem_of_cons. split.
  - intros E. apply Hn. symmetry in E. apply decode_char_lf in E.
    replace b0 with x0a; [by left|]. by apply byte_val_inj.
  - apply IH. intros H. apply Hn. right. by eapply decode_char_incl.
Qed.
Lemma split_lf_app l r : 10 ∉ l -> split_lf (l ++ 10 :: r) = (l, true).
Proof.
  induction l as [|c l IH]; intros H; [done|]. apply not_elem_of_cons in H as [Hc Hl]. cbn [app split_lf].
  replace (c =? 10) with false by lia. by rewrite IH.
Qed.

Lemma first_line_app l r : 10 ∉ l -> first_line (l ++ 13 :: 10 :: r) = Some l.
Proof.
  intros H. change (13 :: 10 :: r) with ([13] ++ 10 :: r). rewrite app_assoc. unfold first_line.
  rewrite split_lf_app by set_solver. destruct ((l ++ [13]) ++ 10 :: r) eqn:E.
  { apply (f_equal length) in E. rewrite length_app in E. simpl in E. lia. }
  unfold strip_cr. by rewrite rev_unit, rev_involutive.
Qed.

(** The request line of a text is found, whatever its bytes are and whatever follows it. *)
Lemma first_line_lossy line rest :
  x0a ∉ line -> first_line (from_utf8_lossy (line ++ [x0d; x0a] ++ rest)) = Some (from_utf8_lossy line).
Proof.
  intros H. cbn [app]. rewrite lossy_app_ascii by done. rewrite lossy_cons. cbn -[from_utf8_lossy].
  change (10 :: ?r) with ([] ++ 10 :: r).
  apply first_line_app. by apply lossy_no_lf.
Qed.

Lemma complete_has_lf buf : header_complete buf = true -> x0a ∈ buf.
Proof.
  induction buf as [|b buf IH]; [done|]. cbn [header_complete]. intros [H|H]%orb_prop.
  - apply bool_decide_eq_true in H. destruct buf as [|b1 buf]; [done|]. injection H as -> -> _. set_solver.
  - right. auto.
Qed.

(** What was read when the loop stops holds the whole request line. *)
Lemma stopped_past_line buf line rest :
  buf `prefix_of` line ++ [x0d; x0a] ++ rest -> x0a ∉ line -> len line + 2 <= MAX_REQUEST_BYTES ->
  header_complete buf = true \/ MAX_REQUEST_BYTES <= len buf ->
  exists rest', buf = line ++ [x0d; x0a] ++ rest'.
Proof.
  intros Hp Hn Hl Hs. assert (line ++ [x0d; x0a] `prefix_of` line ++ [x0d; x0a] ++ rest) as Hq
    by (rewrite app_assoc; by apply prefix_app_r).
  destruct (prefix_weak_total _ _ _ Hp Hq) as [H|[rest' ->]]; [|by exists rest'; rewrite <- app_assoc].
  assert (buf = line ++ [x0d; x0a] \/ buf `prefix_of` line ++ [x0d]) as [->|[k Hk]].
  { destruct H as [k Hk]. destruct k as [|b k _] using rev_ind; [left; by rewrite app_nil_r in Hk|].
    right. exists k. rewrite app_assoc in Hk. change [x0d; x0a] with ([x0d] ++ [x0a]) in Hk.
    rewrite app_assoc in Hk. by apply app_inj_tail in Hk as [-> _]. }
  - exists []. by rewrite app_nil_r.
  - exfalso. destruct Hs as [Hs|Hs].
    + apply complete_has_lf in Hs. assert (x0a ∈ line ++ [x0d]) by (rewrite Hk; set_solver). set_solver.
    + apply (f_equal length) in Hk. rewrite !length_app in Hk. simpl in Hk. unfold len in *. lia.
Qed.
End RequestLine.

(** A connection with a script of what it delivers, which takes whatever is written. *)
Record Script : Type := MkScript { to_read : list (list byte); written : list byte; closed : bool }.
#[export] Instance script_stream : TcpStream Script unit := {|
  stream_read s :=
    match to_read s with
    | [] => (None, s)
    | bs :: rest => (Some (Ok bs), MkScript rest (written s) (closed s))
    end;
  stream_write_all s bs := (Ok tt, MkScript (to_read s) (written s ++ bs) (closed s));
  stream_shutdown s := (Ok tt, MkScript (to_read s) (written s) true)
|}.

Lemma script_delivers chunks out closed :
  Forall (fun bs => bs <> []) chunks -> delivers (MkScript chunks out closed) chunks.
Proof.
  induction 1 as [|bs chunks Hne Hf IH]; [apply delivers_nothing|].
  by apply delivers_chunk with (s' := MkScript chunks out closed).
Qed.

(** Every connection ends: with its answer, with what [tokio] reported, or dropped. *)
Lemma handle_connection_ends {S E} `{!TcpStream S E} {W} (prom : Prometheus W) (s : S) registry :
  (forall s bs s', stream_read s = (Some (Ok bs), s') -> len bs <= CHUNK_BYTES) ->
  exists o, handle_connection prom s registry = Some o.
Proof.
  intros Hchunk. destruct (read_loop_ends READ_FUEL [] s) as (o & s' & He & _);
    [unfold READ_FUEL, MAX_REQUEST_BYTES, len; simpl; lia|unfold READ_FUEL, MAX_REQUEST_BYTES; lia|done|
     unfold MAX_REQUEST_BYTES, CHUNK_BYTES, len; simpl; lia|].
  unfold handle_connection, read_request_head. rewrite He.
  destruct o as [[buf|e]|]; [destruct (first_line (from_utf8_lossy buf))|..]; eauto.
Qed.

(** The metrics are served to [GET] on their path, with any query, and to nothing else. *)
Lemma route_ok {W} (prom : Prometheus W) line registry :
  rt_status (route_request prom line registry) = 200 <->
  split_whitespace line !! 0%nat = Some (text "GET") /\
  before_query (default [] (split_whitespace line !! 1%nat)) = text "/metrics" /\
  exists body, encode_prometheus_text prom registry = Ok body.
Proof.
  unfold route_request. destruct (split_whitespace line !! 0%nat) as [method|]; cbn [default].
  2:{ rewrite bool_decide_eq_false_2 by done. naive_solver. }
  case_bool_decide as Hm; cbn [negb]; [|cbn; naive_solver].
  case_bool_decide as Ht; [|cbn; naive_solver].
  destruct (encode_prometheus_text prom registry); cbn; naive_solver.
Qed.

(** After the signal to shut down, no connection is taken. *)
Lemma nothing_after_shutdown {S E} (before after : list (@Selected S E)) :
  accept_loop (before ++ ShutdownReceived :: after) = ((accept_loop before).1, true).
Proof. induction before as [|[|stream|e] before IH]; cbn; [done|..|done]; by rewrite ?IH; destruct (accept_loop before). Qed.

(** C36. A client that sends a request line of fewer than 8,191 bytes and a complete head is answered by
    the route of that line alone: however the network cuts the request into reads, whatever the bytes
    of the line and of the rest of the head, the connection's handler ends, having only read, with the
    response of [route] to the decoded line. *)
Theorem answered_by_request_line {S E} `{!TcpStream S E} {W} (prom : Prometheus W) registry
    (s : S) chunks line rest :
  delivers s chunks -> mjoin chunks = line ++ [x0d; x0a] ++ rest -> header_complete (mjoin chunks) = true ->
  x0a ∉ line -> len line + 2 <= MAX_REQUEST_BYTES ->
  exists s', reads s s' /\
    handle_connection prom s registry = Some (write_response s' (route_request prom (from_utf8_lossy line) registry)).
Proof.
  intros Hd Hj Hh Hn Hl.
  destruct (read_loop_prefix READ_FUEL s chunks [] Hd Hh) as (p & s' & He & Hr & Hp & Hs);
    [unfold READ_FUEL, MAX_REQUEST_BYTES, len; simpl; lia|unfold READ_FUEL, MAX_REQUEST_BYTES; lia|].
  rewrite Hj in Hp. destruct (stopped_past_line p line rest Hp Hn Hl Hs) as [rest' ->].
  exists s'. split; [done|]. unfold handle_connection, read_request_head. rewrite He.
  cbn [app]. change (x0d :: x0a :: rest') with ([x0d; x0a] ++ rest'). by rewrite first_line_lossy.
Qed.

(** A request cut inside its line and inside the blank line, whose answer is the metrics. *)
Definition sample_cut : list (list byte) :=
  String.list_byte_of_string <$> ["GET /met"; "rics?all HTTP/1.1" +:+ String "013" EmptyString;
    newline +:+ "Host: localhost" +:+ crlf +:+ String "013" EmptyString; newline +:+ "left"]%string.
Definition sample_line : list byte := String.list_byte_of_string "GET /metrics?all HTTP/1.1".
Definition sample_rest : list byte := drop 27 (mjoin sample_cut).

Lemma answered_by_request_line_witness :
  let s := MkScript sample_cut [] false in
  delivers s sample_cut /\ mjoin sample_cut = sample_line ++ [x0d; x0a] ++ sample_rest /\
  rt_status (route_request name_registry (from_utf8_lossy sample_line) (MkMetricsWorld ∅ ∅ [])) = 200 /\
  exists s', reads s s' /\
    handle_connection name_registry s (MkMetricsWorld ∅ ∅ []) =
    Some (write_response s' (route_request name_registry (from_utf8_lossy sample_line) (MkMetricsWorld ∅ ∅ []))).
Proof.
  assert (H : delivers (MkScript sample_cut [] false) sample_cut)
    by (apply script_delivers; repeat constructor; discriminate).
  split; [exact H|]. split; [reflexivity|]. split; [reflexivity|].
  apply (answered_by_request_line name_registry (MkMetricsWorld ∅ ∅ []) _ sample_cut sample_line sample_rest H);
    [reflexivity|vm_compute; reflexivity| |vm_compute; discriminate].
  apply (bool_decide_unpack (x0a ∉ sample_line)). vm_compute. exact I.
Defined.

(** Other methods and other paths. *)
Example route_others :
  let status line := rt_status (route_request name_registry (text line) (MkMetricsWorld ∅ ∅ [])) in
  status "POST /metrics HTTP/1.1"%string = 405 /\ status "GET /nope HTTP/1.1"%string = 404 /\
  status ""%string = 405 /\ status "GET"%string = 404.
Proof. repeat split. Qed.
