(* ===== verification/Emf.v ===== *)
(** * The EMF exporter: [crates/metrics/src/emf.rs]

    A flush turns what the registry gathers into log events: counters as differences to the previous
    flush, gauges as they are, histograms as the observations since the previous flush.

    The values reported for a counter add up to its count: nothing is counted twice and nothing is
    left out. What is reported for a histogram is its first hundred observations since the last flush. *)

From Stdlib Require Import Ascii.
From stdpp Require Import gmap sorting.
From S2P Require Import Prelude BTree F64 Metrics.

Local Open Scope mtc_scope.
Local Open Scope Z_scope.

(** ** JSON values *)

(** [serde_json::Value]; an object is a map from its keys. *)
Inductive Json : Type :=
| JNull
| JBool (b : bool)
| JInt (n : Z)
| JFloat (x : f64)
| JString (s : string)
| JArray (values : list Json)
| JObject (members : gmap string Json).

(** [json_number]: a number that is no integer below [2^53] stays a float, if it is finite. *)
Definition json_number (value : f64) : Json :=
  match f64_int value with
  | Some n => if Z.abs n <? 9007199254740992 then JInt n else JFloat value
  | None => if f64_is_finite value then JFloat value else JInt 0
  end.

(** ** The exporter *)

Definition DEFAULT_EMF_NAMESPACE : string := "MtcCa".

(** [EmfConfig]. *)
Record EmfConfig : Type := MkEmfConfig {
  ec_enabled : bool;
  ec_namespace : string;
  ec_default_dimensions : gmap string string
}.
Definition EmfConfig_disabled : EmfConfig := MkEmfConfig false "" ∅.

(** [Sample]. *)
Record Sample : Type := MkSample { sp_name : string; sp_unit : option string; sp_value : Json }.

(** [EmfEmitter]; the registry is in the world. *)
Record EmfEmitter : Type := MkEmfEmitter {
  namespace : string;
  default_dimensions : gmap string string;
  last_counters : gmap string f64
}.

(** [from_config]. *)
Definition from_config (config : EmfConfig) : option EmfEmitter :=
  if negb (ec_enabled config) then None
  else Some (MkEmfEmitter
         (if String.eqb (ec_namespace config) "" then DEFAULT_EMF_NAMESPACE else ec_namespace config)
         (ec_default_dimensions config) ∅).

(** [unit_for]. *)
Definition unit_for (name : string) : option string := ms_unit <$> spec_for name.

(** [sample_key]: the separator is U+001F. *)
Definition unit_separator : string := String (ascii_of_nat 31) "".
Definition sample_key (name : string) (labels : list (string * string)) : string :=
  foldl (fun key '(label, value) => key +:+ unit_separator +:+ label +:+ "=" +:+ value)%string name labels.

(** The orders of pairs and of their lists, by which [sort] and [BTreeMap] go. *)
Definition pair_le (a b : string * string) : Prop :=
  (a.1 <> b.1 /\ String.le a.1 b.1) \/ (a.1 = b.1 /\ String.le a.2 b.2).
#[export] Instance pair_le_dec : RelDecision pair_le.
Proof. intros a b. unfold pair_le. apply _. Defined.
Fixpoint labels_le (l1 l2 : list (string * string)) : Prop :=
  match l1, l2 with
  | [], _ => True
  | _ :: _, [] => False
  | a :: l1', b :: l2' => (a = b /\ labels_le l1' l2') \/ (a <> b /\ pair_le a b)
  end.
#[export] Instance labels_le_dec : RelDecision labels_le.
Proof. intros l1. induction l1 as [|a l1 IH]; intros [|b l2]; cbn; apply _. Defined.

(** The labels of a metric, sorted. *)
Definition sorted_labels (metric : Metric) : list (string * string) := merge_sort pair_le (mt_label metric).

(** [groups.entry(labels).or_default().push(sample)]. *)
Abbreviation Groups := (gmap (list (string * string)) (list Sample)).
Definition push_sample (labels : list (string * string)) (sample : Sample) (groups : Groups) : Groups :=
  <[labels := default [] (groups !! labels) ++ [sample]]> groups.

(** One metric of a family: the last values of the counters and the groups. *)
Definition counter_metric (name : string) (state : gmap string f64 * Groups) (metric : Metric) : gmap string f64 * Groups :=
  let '(last, groups) := state in
  let labels := sorted_labels metric in
  let current := mt_counter metric in
  let key := sample_key name labels in
  let previous := default f64_zero (last !! key) in
  let delta := f64_max (f64_sub current previous) f64_zero in
  (<[key := current]> last, push_sample labels (MkSample name (unit_for name) (json_number delta)) groups).
Definition gauge_metric (name : string) (state : gmap string f64 * Groups) (metric : Metric) : gmap string f64 * Groups :=
  let '(last, groups) := state in
  (last, push_sample (sorted_labels metric) (MkSample name (unit_for name) (json_number (mt_gauge metric))) groups).
Definition family_samples (state : gmap string f64 * Groups) (family : MetricFamily) : gmap string f64 * Groups :=
  match mf_type family with
  | COUNTER => foldl (counter_metric (mf_name family)) state (mf_metric family)
  | GAUGE => foldl (gauge_metric (mf_name family)) state (mf_metric family)
  | _ => state
  end.

(** One buffer of raw observations: emptied, and reported when it held any. *)
Definition histogram_samples (state : list (list f64) * Groups) (handle : string * nat) : list (list f64) * Groups :=
  let '(buffers, groups) := state in
  let '(name, raw) := handle in
  let '(values, rest) := drain (default [] (buffers !! raw)) in
  let buffers := <[raw := rest]> buffers in
  match values with
  | [] => (buffers, groups)
  | _ => (buffers, push_sample [] (MkSample name (unit_for name) (JArray (json_number <$> values))) groups)
  end.

(** [build_event]. *)
Definition metric_definition (sample : Sample) : Json :=
  JObject (match sp_unit sample with
           | Some unit => <["Unit" := JString unit]> {["Name" := JString (sp_name sample)]}
           | None => {["Name" := JString (sp_name sample)]}
           end)%string.
Definition insert_member (root : gmap string Json) (member : string * Json) : gmap string Json :=
  <[member.1 := member.2]> root.
Definition build_event (e : EmfEmitter) (timestamp : Z) (labels : list (string * string)) (samples : list Sample) : Json :=
  let dimension_set : gset string := dom (default_dimensions e) ∪ list_to_set labels.*1 in
  let dimension_refs := merge_sort String.le (elements dimension_set) in
  let metadata := JObject (<["CloudWatchMetrics" := JArray [JObject
        (<["Namespace" := JString (namespace e)]>
        (<["Dimensions" := JArray [JArray (JString <$> dimension_refs)]]>
        {["Metrics" := JArray (metric_definition <$> samples)]}))]]> {["Timestamp" := JInt timestamp]})%string in
  let root : gmap string Json := {["_aws"%string := metadata]} in
  let root := foldl insert_member root (prod_map id JString <$> btree_iter (default_dimensions e)) in
  let root := foldl insert_member root (prod_map id JString <$> labels) in
  let root := foldl insert_member root ((fun sample => (sp_name sample, sp_value sample)) <$> samples) in
  JObject root.

Section Flush.
Context {W : Type} (prom : Prometheus W).

(** The samples of a flush, by label set; the emitter and the registry it leaves. *)
Definition flush_groups (e : EmfEmitter) (s : MetricsWorld W) : Groups * EmfEmitter * MetricsWorld W :=
  let '(last, groups) := foldl family_samples (last_counters e, ∅) (families prom s) in
  let '(buffers, groups) := foldl histogram_samples (raw_buffers s, groups) (btree_iter (raw_histograms s)) in
  (groups, MkEmfEmitter (namespace e) (default_dimensions e) last, MkMetricsWorld (inner s) (raw_histograms s) buffers).

(** [groups] in the order of the label sets. *)
Definition group_le (a b : list (string * string) * list Sample) : Prop := labels_le a.1 b.1.
#[export] Instance group_le_dec : RelDecision group_le := fun a b => decide (labels_le a.1 b.1).

(** [flush]. *)
Definition flush (timestamp : Z) (e : EmfEmitter) (s : MetricsWorld W) : list Json * EmfEmitter * MetricsWorld W :=
  let '(groups, e', s') := flush_groups e s in
  (omap (fun '(labels, samples) =>
           match samples with [] => None | _ => Some (build_event e' timestamp labels samples) end)
        (merge_sort group_le (map_to_list groups)), e', s').

(** [flush_to], over a writer: one event per line, until one cannot be written. *)
Context {Wr : Type} (to_writer : Json -> M Wr string unit) (write_all : string -> M Wr string unit).
Fixpoint write_events (events : list Json) : M Wr MetricsError unit :=
  match events with
  | [] => ret tt
  | event :: events =>
      do! map_error Emf (to_writer event);
      do! map_error Io (write_all (String (ascii_of_nat 10) ""));
      write_events events
  end.
Definition flush_to (timestamp : Z) (e : EmfEmitter) (s : MetricsWorld W) (w : Wr) :
    result unit MetricsError * Wr * EmfEmitter * MetricsWorld W :=
  let '(events, e', s') := flush timestamp e s in
  let '(r, w') := write_events events w in
  (r, w', e', s').
End Flush.

(** ** Sums over lists and maps *)

Definition zsum {A} (f : A -> Z) (l : list A) : Z := foldr (fun a acc => f a + acc) 0 l.

Lemma zsum_cons {A} (f : A -> Z) a l : zsum f (a :: l) = f a + zsum f l.
Proof. done. Qed.

Lemma zsum_app {A} (f : A -> Z) l1 l2 : zsum f (l1 ++ l2) = zsum f l1 + zsum f l2.
Proof. induction l1 as [|a l1 IH]; [done|]. rewrite <- app_comm_cons, !zsum_cons, IH. lia. Qed.

#[export] Instance zsum_perm {A} (f : A -> Z) : Proper (Permutation ==> eq) (zsum f).
Proof. intros l1 l2 Hp. induction Hp; rewrite ?zsum_cons; [done|congruence|lia|congruence]. Qed.

Lemma zsum_ext {A} (f g : A -> Z) l : (forall a, a ∈ l -> f a = g a) -> zsum f l = zsum g l.
Proof.
  induction l as [|a l IH]; intros H; [done|]. rewrite !zsum_cons, (H a) by left.
  f_equal. apply IH. intros b Hb. apply H. by right.
Qed.

Lemma zsum_zero {A} (f : A -> Z) l : (forall a, a ∈ l -> f a = 0) -> zsum f l = 0.
Proof.
  induction l as [|a l IH]; intros H; [done|]. rewrite zsum_cons, (H a), IH by (try left; intros b Hb; apply H; by right). done.
Qed.

Lemma zsum_plus {A} (f g : A -> Z) l : zsum (fun a => f a + g a) l = zsum f l + zsum g l.
Proof. induction l as [|a l IH]; [done|]. rewrite !zsum_cons, IH. lia. Qed.

Lemma zsum_omap {A B} (f : A -> option B) (g : B -> Z) l :
  zsum g (omap f l) = zsum (fun a => from_option g 0 (f a)) l.
Proof. induction l as [|a l IH]; [done|]. rewrite zsum_cons, <- IH. simpl. by destruct (f a). Qed.

(** A sum over a map of what vanishes outside some keys is the sum over the keys. *)
Lemma zsum_map `{Countable K} {A} (g : K -> A -> Z) (keys : list K) : forall m : gmap K A,
  NoDup keys -> (forall k a, m !! k = Some a -> k ∉ keys -> g k a = 0) ->
  zsum (fun '(k, a) => g k a) (map_to_list m) = zsum (fun k => from_option (g k) 0 (m !! k)) keys.
Proof.
  induction keys as [|k keys IH]; intros m Hnd Hz.
  - apply zsum_zero. intros [k a] Hin%elem_of_map_to_list. apply (Hz k a Hin), not_elem_of_nil.
  - apply NoDup_cons in Hnd as [Hk Hnd].
    assert (zsum (fun '(k, a) => g k a) (map_to_list (delete k m)) = zsum (fun k => from_option (g k) 0 (m !! k)) keys) as Hd.
    { rewrite IH; [|done|].
      - apply zsum_ext. intros k' Hk'. rewrite lookup_delete_ne; [done|]. by intros ->.
      - intros k' a [Hne Hl]%lookup_delete_Some Hnin. apply (Hz k' a Hl). rewrite not_elem_of_cons. by split. }
    rewrite zsum_cons, <- Hd. destruct (m !! k) as [a|] eqn:Ek; cbn [from_option].
    + by rewrite <- (map_to_list_delete _ _ _ Ek), zsum_cons.
    + by rewrite delete_id.
Qed.

(** ** What a flush makes of what was gathered *)

(** The metrics of all families, each with its family. *)
Definition flat (fams : list MetricFamily) : list (MetricFamily * Metric) :=
  fams ≫= fun family => pair family <$> mf_metric family.
Definition series_id (fm : MetricFamily * Metric) : string * list (string * string) :=
  (mf_name fm.1, sorted_labels fm.2).
Definition series_key (fm : MetricFamily * Metric) : string := sample_key (mf_name fm.1) (sorted_labels fm.2).
Definition metric_step (state : gmap string f64 * Groups) (fm : MetricFamily * Metric) : gmap string f64 * Groups :=
  match mf_type fm.1 with
  | COUNTER => counter_metric (mf_name fm.1) state fm.2
  | GAUGE => gauge_metric (mf_name fm.1) state fm.2
  | _ => state
  end.

Lemma families_flat fams : forall state, foldl family_samples state fams = foldl metric_step state (flat fams).
Proof.
  induction fams as [|family fams IH]; intros state; [done|]. cbn [foldl]. rewrite IH.
  unfold flat. rewrite bind_cons, foldl_app. f_equal. unfold family_samples.
  assert (forall (f : gmap string f64 * Groups -> Metric -> gmap string f64 * Groups) l state,
    (forall state m, metric_step state (family, m) = f state m) ->
    foldl f state l = foldl metric_step state (pair family <$> l)) as Hf.
  { intros f l. induction l as [|m l IHl]; intros st He; [done|]. csimpl. by rewrite He, IHl. }
  destruct (mf_type family) eqn:Et; try (apply Hf; intros st m; unfold metric_step; cbn; by rewrite Et);
    symmetry; rewrite <- (Hf (fun st _ => st)); try (intros st m; unfold metric_step; cbn; by rewrite Et);
    clear; induction (mf_metric family) as [|m l IHl]; cbn; congruence.
Qed.

(** The samples of a name in the group of a label set. *)
Definition at_labels (groups : Groups) (labels : list (string * string)) : list Sample := default [] (groups !! labels).
Definition named (name : string) (samples : list Sample) : list Sample := filter (fun sample => sp_name sample = name) samples.

Lemma named_push name labels labels' sample groups :
  named name (at_labels (push_sample labels' sample groups) labels) =
  named name (at_labels groups labels) ++ (if decide (labels' = labels /\ sp_name sample = name) then [sample] else []).
Proof.
  unfold push_sample, at_labels. destruct (decide (labels' = labels)) as [->|Hl].
  - rewrite lookup_insert_eq. cbn. unfold named. rewrite filter_app. f_equal.
    rewrite filter_cons, filter_nil. repeat case_decide; tauto.
  - rewrite lookup_insert_ne by done. rewrite decide_False by tauto. by rewrite app_nil_r.
Qed.

Section Series.
Context (name : string) (labels : list (string * string)).
Let key : string := sample_key name labels.

(** A metric of another series adds no sample, and one with another key leaves the last value. *)
Lemma step_named state fm : series_id fm <> (name, labels) ->
  named name (at_labels (metric_step state fm).2 labels) = named name (at_labels state.2 labels).
Proof.
  intros Hi. destruct state as [last groups]. unfold metric_step.
  assert (forall value, named name (at_labels (push_sample (sorted_labels fm.2)
    (MkSample (mf_name fm.1) (unit_for (mf_name fm.1)) value) groups) labels) = named name (at_labels groups labels)) as Hp.
  { intros value. rewrite named_push, decide_False, app_nil_r; [done|]. cbn. intros [Hl Hn]. apply Hi.
    unfold series_id. by rewrite Hl, Hn. }
  by destruct (mf_type fm.1); cbn; rewrite ?Hp.
Qed.

Lemma steps_named l : forall state, (forall fm, fm ∈ l -> series_id fm <> (name, labels)) ->
  named name (at_labels (foldl metric_step state l).2 labels) = named name (at_labels state.2 labels).
Proof.
  induction l as [|fm l IH]; intros state Hl; [done|]. cbn [foldl].
  rewrite IH by (intros; apply Hl; by right). apply step_named, Hl. left.
Qed.

Lemma steps_last l : forall state, (forall fm, fm ∈ l -> series_key fm <> key) ->
  (foldl metric_step state l).1 !! key = state.1 !! key.
Proof.
  induction l as [|fm l IH]; intros [last groups] Hl; [done|]. cbn [foldl].
  rewrite IH by (intros; apply Hl; by right). unfold metric_step.
  destruct (mf_type fm.1); cbn; [|done..]. rewrite lookup_insert_ne; [done|]. apply Hl. left.
Qed.

Lemma steps_other l state :
  Forall (fun fm => series_key fm <> key /\ series_id fm <> (name, labels)) l ->
  (foldl metric_step state l).1 !! key = state.1 !! key /\
  named name (at_labels (foldl metric_step state l).2 labels) = named name (at_labels state.2 labels).
Proof. rewrite Forall_forall. intros Hl. split; [apply steps_last|apply steps_named]; intros fm Hfm; by apply Hl. Qed.

(** The counter's own metric: its value is remembered, its increase is sampled. *)
Definition delta_of (previous current : f64) : f64 := f64_max (f64_sub current previous) f64_zero.

Lemma step_counter state fm :
  mf_type fm.1 = COUNTER -> series_id fm = (name, labels) ->
  (metric_step state fm).1 !! key = Some (mt_counter fm.2) /\
  named name (at_labels (metric_step state fm).2 labels) = named name (at_labels state.2 labels) ++
    [MkSample name (unit_for name) (json_number (delta_of (default f64_zero (state.1 !! key)) (mt_counter fm.2)))].
Proof.
  intros Ht Hi. destruct state as [last groups]. injection Hi as Hn Hl. unfold metric_step. rewrite Ht. cbn.
  rewrite Hn, Hl, lookup_insert_eq. split; [done|]. rewrite named_push, decide_True by done. done.
Qed.

(** The series among those gathered, or not. *)
Lemma steps_series l state fm :
  NoDup (series_id <$> l) -> (forall fm', fm' ∈ l -> series_key fm' = key -> series_id fm' = (name, labels)) ->
  fm ∈ l -> series_id fm = (name, labels) -> mf_type fm.1 = COUNTER ->
  (foldl metric_step state l).1 !! key = Some (mt_counter fm.2) /\
  named name (at_labels (foldl metric_step state l).2 labels) = named name (at_labels state.2 labels) ++
    [MkSample name (unit_for name) (json_number (delta_of (default f64_zero (state.1 !! key)) (mt_counter fm.2)))].
Proof.
  intros Hnd Hk Hin Hi Ht. apply list_elem_of_split in Hin as (l1 & l2 & ->).
  assert (forall l', (l' = l1 \/ l' = l2) -> Forall (fun fm => series_key fm <> key /\ series_id fm <> (name, labels)) l') as Hother.
  { intros l' Hl'. apply Forall_forall. intros fm' Hin'.
    assert (series_id fm' <> (name, labels)) as Hne.
    { rewrite <- Hi. intros E. rewrite fmap_app, fmap_cons in Hnd.
      apply NoDup_app in Hnd as (_ & Hd & [Hd2 _]%NoDup_cons).
      destruct Hl' as [-> | ->].
      - apply (Hd (series_id fm')); [by apply list_elem_of_fmap_2|]. rewrite E. left.
      - apply Hd2. rewrite <- E. by apply list_elem_of_fmap_2. }
    split; [|done]. intros E. apply Hne, Hk; [|done].
    destruct Hl' as [-> | ->]; apply elem_of_app; [by left|right; by right]. }
  rewrite foldl_app. cbn [foldl].
  destruct (steps_other l1 state (Hother l1 (or_introl eq_refl))) as [E1 N1].
  destruct (steps_other l2 (metric_step (foldl metric_step state l1) fm) (Hother l2 (or_intror eq_refl))) as [-> ->].
  destruct (step_counter (foldl metric_step state l1) fm Ht Hi) as [-> ->]. by rewrite E1, N1.
Qed.
End Series.

(** The histograms report under their own names. *)
Lemma histogram_steps_named name labels handles : forall state,
  name ∉ handles.*1 ->
  named name (at_labels (foldl histogram_samples state handles).2 labels) = named name (at_labels state.2 labels).
Proof.
  induction handles as [|[n raw] handles IH]; intros [buffers groups] Hn; [done|].
  csimpl in *. apply not_elem_of_cons in Hn as [Hne Hn]. rewrite IH by done.
  destruct (default [] (buffers !! raw)) as [|v vs]; [done|]. cbn.
  rewrite named_push, decide_False, app_nil_r; [done|]. intros [_ E]. cbn in E. congruence.
Qed.

(** ** The value an event reports under a name *)

Definition int_value (value : Json) : Z := match value with JInt n => n | _ => 0 end.
Definition event_value (name : string) (event : Json) : Z :=
  match event with JObject root => from_option int_value 0 (root !! name) | _ => 0 end.

Lemma insert_members_lookup members root k :
  foldl insert_member root members !! k =
  match last (filter (fun member => member.1 = k) members) with Some member => Some member.2 | None => root !! k end.
Proof.
  induction members as [|[k' v] members IH] using rev_ind; [done|].
  rewrite foldl_snoc, filter_app, filter_cons, filter_nil. unfold insert_member at 1. cbn.
  case_decide as Hk; subst.
  - by rewrite lookup_insert_eq, last_snoc.
  - by rewrite lookup_insert_ne, app_nil_r.
Qed.

(** Before the samples, no member is a number. *)
Lemma insert_strings_value members root k :
  from_option int_value 0 (root !! k) = 0 ->
  from_option int_value 0 (foldl insert_member root (prod_map id JString <$> members) !! k) = 0.
Proof.
  intros Hr. rewrite insert_members_lookup. destruct (last _) as [[k' v]|] eqn:El; [|done].
  apply last_Some_elem_of, list_elem_of_filter in El as [_ ([k2 v2] & [= -> ->] & _)%list_elem_of_fmap]. done.
Qed.

Lemma filter_samples name samples :
  filter (fun member : string * Json => member.1 = name) ((fun sample => (sp_name sample, sp_value sample)) <$> samples) =
  (fun sample => (sp_name sample, sp_value sample)) <$> named name samples.
Proof.
  unfold named. induction samples as [|sample samples IH]; [done|]. rewrite fmap_cons, !filter_cons, IH.
  cbn. by case_decide.
Qed.

Lemma event_value_build e timestamp labels samples name :
  event_value name (build_event e timestamp labels samples) =
  from_option (fun sample => int_value (sp_value sample)) 0 (last (named name samples)).
Proof.
  unfold build_event, event_value. rewrite insert_members_lookup, filter_samples, fmap_last.
  destruct (last (named name samples)) as [sample|]; [done|]. cbn [fmap option_fmap option_map].
  do 2 apply insert_strings_value. rewrite lookup_singleton. by case_decide.
Qed.

(** ** A counter over several flushes *)

Section Counter.
Context {W : Type} (prom : Prometheus W) (name : string) (series : list (list (string * string))).

(** The registry shows the counter of this name: each of its series once, among those given, with its
    count, the others being zero; and no other metric has its keys. *)
Record shows (s : MetricsWorld W) (count : list (string * string) -> Z) : Prop := {
  shows_once : NoDup (series_id <$> flat (families prom s));
  shows_keys fm labels : fm ∈ flat (families prom s) -> labels ∈ series ->
    series_key fm = sample_key name labels -> series_id fm = (name, labels);
  shows_counts fm : fm ∈ flat (families prom s) -> mf_name fm.1 = name ->
    mf_type fm.1 = COUNTER /\ sorted_labels fm.2 ∈ series /\ f64_int (mt_counter fm.2) = Some (count (sorted_labels fm.2));
  shows_absent labels : labels ∈ series ->
    (forall fm, fm ∈ flat (families prom s) -> series_id fm <> (name, labels)) -> count labels = 0;
  shows_histograms : raw_histograms s !! name = None
}.

(** The counts grow, below [2^53], from flush to flush. *)
Fixpoint counting (before : list (string * string) -> Z) (flushes : list (Z * MetricsWorld W))
    (final : list (string * string) -> Z) : Prop :=
  match flushes with
  | [] => forall labels, labels ∈ series -> final labels = before labels
  | (_, s) :: flushes => exists count, shows s count /\
      (forall labels, labels ∈ series -> before labels <= count labels < 2 ^ 53) /\ counting count flushes final
  end.

(** The events of successive flushes of one emitter. *)
Fixpoint emf_run (e : EmfEmitter) (flushes : list (Z * MetricsWorld W)) : list Json :=
  match flushes with
  | [] => []
  | (timestamp, s) :: flushes =>
      let '(events, e', _) := flush prom timestamp e s in events ++ emf_run e' flushes
  end.

(** What the emitter remembers of the counter. *)
Definition remembers (e : EmfEmitter) (count : list (string * string) -> Z) : Prop :=
  forall labels, labels ∈ series ->
    f64_int (default f64_zero (last_counters e !! sample_key name labels)) = Some (count labels).

Lemma delta_exact x y p v :
  f64_int x = Some p -> f64_int y = Some v -> 0 <= p <= v -> v < 2 ^ 53 -> json_number (delta_of x y) = JInt (v - p).
Proof.
  intros Hx Hy Hp Hv. unfold delta_of, json_number.
  rewrite (f64_max_zero _ (v - p)) by (apply f64_sub_exact; [done..|lia]).
  rewrite Z.max_l by lia. change 9007199254740992 with (2 ^ 53). by rewrite (proj2 (Z.ltb_lt _ _)) by lia.
Qed.

Lemma flush_groups_spec e s :
  let st := foldl metric_step (last_counters e, ∅) (flat (families prom s)) in
  exists groups s', flush_groups prom e s = (groups, MkEmfEmitter (namespace e) (default_dimensions e) st.1, s') /\
    (raw_histograms s !! name = None ->
     forall labels, named name (at_labels groups labels) = named name (at_labels st.2 labels)).
Proof.
  cbv zeta. unfold flush_groups. rewrite families_flat. destruct (foldl metric_step _ _) as [last groups].
  pose proof (fun labels => histogram_steps_named name labels (btree_iter (raw_histograms s)) (raw_buffers s, groups)) as Hh.
  destruct (foldl histogram_samples _ _) as [buffers groups']. eexists _, _. split; [done|]. intros Hn labels.
  apply Hh. unfold btree_iter. rewrite merge_sort_Permutation. intros ([k a] & -> & Hin)%list_elem_of_fmap.
  apply elem_of_map_to_list in Hin. cbn in *. congruence.
Qed.

(** One series in one flush. *)
Lemma flush_series e s count before labels :
  shows s count -> remembers e before -> labels ∈ series -> 0 <= before labels <= count labels -> count labels < 2 ^ 53 ->
  let st := foldl metric_step (last_counters e, ∅) (flat (families prom s)) in
  f64_int (default f64_zero (st.1 !! sample_key name labels)) = Some (count labels) /\
  from_option (fun sample => int_value (sp_value sample)) 0 (last (named name (at_labels st.2 labels))) =
    count labels - before labels.
Proof.
  cbv zeta. intros Hs Hr Hin Hb Hc. specialize (Hr _ Hin).
  destruct (decide (Exists (fun fm => series_id fm = (name, labels)) (flat (families prom s)))) as [Hex|Hno].
  - apply Exists_exists in Hex as (fm & Hfm & Hid).
    destruct (shows_counts _ _ Hs fm Hfm) as (Ht & _ & Hv); [by injection Hid|].
    assert (sorted_labels fm.2 = labels) as El by (by injection Hid). rewrite El in Hv.
    destruct (steps_series name labels _ (last_counters e, ∅) fm (shows_once _ _ Hs)
      (fun fm' H H' => shows_keys _ _ Hs fm' labels H Hin H') Hfm Hid Ht) as [-> ->].
    split; [done|]. cbn [fst snd]. unfold at_labels. rewrite lookup_empty. cbn [default named app last from_option sp_value fst].
    by erewrite delta_exact by done.
  - assert (Forall (fun fm => series_key fm <> sample_key name labels /\ series_id fm <> (name, labels))
      (flat (families prom s))) as Hother.
    { apply Forall_forall. intros fm Hfm.
      assert (series_id fm <> (name, labels)) as Hne by (intros E; apply Hno, Exists_exists; by exists fm).
      split; [|done]. intros E. by apply Hne, (shows_keys _ _ Hs fm labels). }
    assert (count labels = 0) as H0.
    { apply (shows_absent _ _ Hs); [done|]. intros fm Hfm. rewrite Forall_forall in Hother. by apply (Hother fm Hfm). }
    destruct (steps_other name labels _ (last_counters e, ∅) Hother) as [-> ->].
    cbn [fst snd]. unfold at_labels. rewrite lookup_empty. cbn [default named last from_option].
    rewrite Hr. split; [f_equal; lia|]. cbn. lia.
Qed.

(** A label set that is none of the counter's. *)
Lemma flush_other e s count labels :
  shows s count -> labels ∉ series ->
  named name (at_labels (foldl metric_step (last_counters e, ∅) (flat (families prom s))).2 labels) = [].
Proof.
  intros Hs Hnin. rewrite steps_named; [by cbn [snd]; unfold at_labels; rewrite lookup_empty|].
  intros fm Hfm E. apply Hnin. injection E as En El. rewrite <- El. by apply (shows_counts _ _ Hs fm Hfm).
Qed.

(** A flush reports the increase of all the series together, and remembers the new counts. *)
Lemma flush_total timestamp e s count before :
  NoDup series -> shows s count -> remembers e before ->
  (forall labels, labels ∈ series -> 0 <= before labels <= count labels /\ count labels < 2 ^ 53) ->
  let '(events, e', _) := flush prom timestamp e s in
  zsum (event_value name) events = zsum (fun labels => count labels - before labels) series /\ remembers e' count.
Proof.
  intros Hnd Hs Hr Hc. unfold flush. destruct (flush_groups_spec e s) as (groups & s' & -> & Hg).
  specialize (Hg (shows_histograms _ _ Hs)). split.
  - rewrite zsum_omap, merge_sort_Permutation.
    rewrite (zsum_ext _ (fun '(labels, samples) => from_option (fun sample => int_value (sp_value sample)) 0 (last (named name samples)))).
    + rewrite (zsum_map (fun _ samples => from_option (fun sample => int_value (sp_value sample)) 0 (last (named name samples))) series) by
        (done || (intros labels samples Hl Hnin; pose proof (Hg labels) as H; unfold at_labels at 1 in H; rewrite Hl in H; cbn [from_option id] in H;
         rewrite H; by rewrite (flush_other _ _ _ _ Hs Hnin))).
      apply zsum_ext. intros labels Hin. destruct (Hc _ Hin) as [Hb Hlt].
      destruct (flush_series e s count before labels Hs Hr Hin Hb Hlt) as [_ <-]. rewrite <- Hg. unfold at_labels.
      by destruct (groups !! labels).
    + intros [labels samples] _. destruct samples; [done|]. cbn [from_option]. apply event_value_build.
  - intros labels Hin. destruct (Hc _ Hin) as [Hb Hlt].
    by destruct (flush_series e s count before labels Hs Hr Hin Hb Hlt) as [H _].
Qed.

Lemma run_total flushes : forall e before final,
  NoDup series -> remembers e before -> (forall labels, labels ∈ series -> 0 <= before labels) ->
  counting before flushes final ->
  zsum (event_value name) (emf_run e flushes) = zsum (fun labels => final labels - before labels) series.
Proof.
  induction flushes as [|[timestamp s] flushes IH]; intros e before final Hnd Hr Hb Hc; cbn [emf_run counting] in *.
  - symmetry. apply zsum_zero. intros labels Hin. rewrite (Hc _ Hin). lia.
  - destruct Hc as (count & Hs & Hgrow & Hc).
    assert (forall labels, labels ∈ series -> 0 <= before labels <= count labels /\ count labels < 2 ^ 53) as Hbc.
    { intros labels Hin. specialize (Hb _ Hin). specialize (Hgrow _ Hin). lia. }
    pose proof (flush_total timestamp e s count before Hnd Hs Hr Hbc) as Hf.
    destruct (flush prom timestamp e s) as [[events e'] s']. destruct Hf as [Hf Hr'].
    rewrite zsum_app, Hf, (IH e' count final) by (done || (intros labels Hin; apply Hbc in Hin; lia)).
    rewrite <- zsum_plus. apply zsum_ext. intros labels _. lia.
Qed.
End Counter.

(** ** Histograms *)

(** A buffer that was empty holds the first hundred of what was recorded since. *)
Lemma record_first values : foldl (fun buffer value => record value buffer) [] values = take 100 values.
Proof.
  induction values as [|value values IH] using rev_ind; [done|]. rewrite foldl_snoc, IH.
  unfold record, len, MAX_RAW_OBSERVATIONS. rewrite length_take, take_app.
  destruct (Z.ltb_spec (Z.of_nat (100 `min` length values)) 100).
  - f_equal. rewrite (take_ge [value]); [done|]. cbn. lia.
  - replace (100 - length values)%nat with 0%nat by lia. by rewrite app_nil_r.
Qed.

Lemma histogram_steps_other name raw handles : forall state,
  Forall (fun h : string * nat => h.1 <> name /\ h.2 <> raw) handles ->
  (foldl histogram_samples state handles).1 !! raw = state.1 !! raw /\
  forall labels, named name (at_labels (foldl histogram_samples state handles).2 labels) = named name (at_labels state.2 labels).
Proof.
  induction handles as [|[n a] handles IH]; intros [buffers groups] Hf; [done|].
  apply Forall_cons in Hf as [[Hn Ha] Hf]. cbn [foldl fst snd] in *.
  destruct (IH (histogram_samples (buffers, groups) (n, a)) Hf) as [-> Hg].
  assert ((<[a:=[]]> buffers : list (list f64)) !! raw = buffers !! raw) as Hb by (by rewrite list_lookup_insert_ne).
  unfold histogram_samples, drain in *. destruct (default [] (buffers !! a)); cbn [fst snd] in *.
  - split; [done|apply Hg].
  - split; [done|]. intros labels. rewrite Hg, named_push, decide_False, app_nil_r; [done|]. by intros [_ E].
Qed.

(** A flush reports the observations of a histogram in one array under its name, and empties its buffer. *)
Lemma histogram_reported {W} (prom : Prometheus W) e s name raw values :
  raw_histograms s !! name = Some raw -> raw_buffers s !! raw = Some values -> values <> [] ->
  (forall name' raw', raw_histograms s !! name' = Some raw' -> name' <> name -> raw' <> raw) ->
  (forall fm, fm ∈ flat (families prom s) -> mf_name fm.1 <> name) ->
  let '(groups, _, s') := flush_groups prom e s in
  named name (at_labels groups []) = [MkSample name (unit_for name) (JArray (json_number <$> values))] /\
  raw_buffers s' !! raw = Some [].
Proof.
  intros Hr Hb Hv Hinj Hfm. unfold flush_groups. rewrite families_flat.
  assert (named name (at_labels (foldl metric_step (last_counters e, ∅) (flat (families prom s))).2 []) = []) as Hst.
  { rewrite steps_named; [by cbn [snd]; unfold at_labels; rewrite lookup_empty|].
    intros fm Hin [= E _]. by apply (Hfm fm). }
  destruct (foldl metric_step _ _) as [last groups]. cbn [snd] in Hst.
  assert ((name, raw) ∈ btree_iter (raw_histograms s)) as Hin.
  { unfold btree_iter. rewrite merge_sort_Permutation. by apply elem_of_map_to_list. }
  assert (NoDup (btree_iter (raw_histograms s)).*1) as Hnd.
  { unfold btree_iter. rewrite merge_sort_Permutation. apply NoDup_fst_map_to_list. }
  assert (forall h, h ∈ btree_iter (raw_histograms s) -> h.1 <> name -> h.2 <> raw) as Hraw.
  { intros [n a]. unfold btree_iter. rewrite merge_sort_Permutation, elem_of_map_to_list. apply Hinj. }
  apply list_elem_of_split in Hin as (h1 & h2 & E). rewrite E in *. rewrite fmap_app, fmap_cons in Hnd.
  apply NoDup_app in Hnd as (_ & Hd & [Hd2 _]%NoDup_cons).
  assert (forall h, (h = h1 \/ h = h2) -> Forall (fun h => h.1 <> name /\ h.2 <> raw) h) as Hother.
  { intros h Hh. apply Forall_forall. intros [n a] Hx. cbn.
    assert (n <> name) as Hne.
    { intros ->. destruct Hh as [-> | ->].
      - apply (Hd name); [by apply (list_elem_of_fmap_2 fst _ _ Hx)|]. left.
      - apply Hd2. by apply (list_elem_of_fmap_2 fst _ _ Hx). }
    split; [done|]. apply (Hraw (n, a)); [|done]. apply elem_of_app. destruct Hh as [-> | ->]; [by left|right; by right]. }
  rewrite foldl_app. cbn [foldl].
  destruct (histogram_steps_other name raw h1 (raw_buffers s, groups)) as [B1 G1]; [by apply Hother; left|].
  destruct (foldl histogram_samples (raw_buffers s, groups) h1) as [buffers groups1]. cbn [fst snd] in B1, G1.
  pose proof (histogram_steps_other name raw h2 (histogram_samples (buffers, groups1) (name, raw)) (Hother _ (or_intror eq_refl)))
    as [B2 G2].
  destruct (foldl histogram_samples (histogram_samples _ _) h2) as [buffers' groups']. cbn [fst snd] in B2, G2.
  rewrite G2. cbn [raw_buffers]. rewrite B2. unfold histogram_samples, drain. rewrite B1, Hb. cbn [from_option id].
  destruct values as [|v values]; [done|]. cbn [fst snd]. split.
  - rewrite named_push, decide_True by done. rewrite G1, Hst. done.
  - apply list_lookup_insert_eq. apply lookup_lt_is_Some. by rewrite B1.
Qed.

(** ** The property *)

(** C33. The EMF exporter counts exactly: over any flushes of one emitter, the values reported under the
    name of a counter, over all events, add up to the counts of its series at the last flush. Whatever
    else is registered, however many series the counter has and whenever they appear, no increment is
    reported twice or lost, as long as the counts grow and stay below [2^53], where [f64] arithmetic is
    exact. *)
Theorem emf_counters_add_up {W} (prom : Prometheus W) (name : string) (series : list (list (string * string)))
    (e : EmfEmitter) (flushes : list (Z * MetricsWorld W)) (final : list (string * string) -> Z) :
  NoDup series -> (forall labels, labels ∈ series -> last_counters e !! sample_key name labels = None) ->
  counting prom name series (fun _ => 0) flushes final ->
  zsum (event_value name) (emf_run prom e flushes) = zsum final series.
Proof.
  intros Hnd He Hc. rewrite (run_total prom name series flushes e (fun _ => 0) final); [|done| |done|done].
  - apply zsum_ext. intros. lia.
  - intros labels Hin. by rewrite (He _ Hin).
Qed.

(** ** A registry that can be run *)

(** The families to be gathered, without collectors. *)
Definition sample_prom : Prometheus (list MetricFamily) := {|
  IntCounter := unit; IntCounterVec := unit; PromGauge := unit; PromHistogram := unit;
  new_int_counter _ _ := ret tt; new_int_counter_vec _ _ _ := ret tt; new_gauge _ _ := ret tt;
  new_histogram _ _ _ := ret tt; register _ := ret tt;
  counter_inc_by _ _ w := w; counter_get _ _ := 0; with_label_values _ _ w := (tt, w);
  gauge_set _ _ w := w; gauge_get _ _ := f64_zero; histogram_observe _ _ w := w;
  gather w := w; text_encode _ := Ok []
|}.
Definition sample_series : list (list (string * string)) := [[("source_type", "acme")]; [("source_type", "api")]]%string.
Definition sample_metric (source : string) (n : Z) : Metric := MkMetric [("source_type"%string, source)] (f64_of_int n) f64_zero.
Definition sample_families (metrics : list Metric) : MetricsWorld (list MetricFamily) :=
  MkMetricsWorld [MkMetricFamily ENTRIES_BY_SOURCE_TOTAL COUNTER metrics] ∅ [].
Definition sample_count (acme api : Z) (labels : list (string * string)) : Z :=
  if decide (labels = [("source_type", "acme")]%string) then acme
  else if decide (labels = [("source_type", "api")]%string) then api else 0.
Definition sample_emitter : EmfEmitter := MkEmfEmitter "MtcCa" {["region"%string := "local"%string]} ∅.

(** One series shows at the first flush, both at the second. *)
Definition sample_flushes : list (Z * MetricsWorld (list MetricFamily)) :=
  [(1000, sample_families [sample_metric "acme" 3]);
   (2000, sample_families [sample_metric "acme" 5; sample_metric "api" 4])]%string.

Lemma sample_series_cases labels : labels ∈ sample_series ->
  labels = [("source_type", "acme")]%string \/ labels = [("source_type", "api")]%string.
Proof. unfold sample_series. set_solver. Qed.

Ltac sample_shows :=
  split; [refine (bool_decide_unpack _ _); vm_compute; exact I
         |intros fm labels Hfm Hl Hk; apply sample_series_cases in Hl; cbn in Hfm;
          repeat (apply elem_of_cons in Hfm as [->|Hfm]); try (by apply not_elem_of_nil in Hfm);
          destruct Hl as [-> | ->]; vm_compute in Hk |- *; done
         |intros fm Hfm Hn; cbn in Hfm; repeat (apply elem_of_cons in Hfm as [->|Hfm]);
          try (by apply not_elem_of_nil in Hfm); (split; [done|split; [unfold sample_series; vm_compute; set_solver|done]])
         |intros labels Hl Hno; apply sample_series_cases in Hl as [-> | ->]; try done; exfalso; cbn in Hno;
          first [by eapply Hno; [left|] | by eapply Hno; [right; left|]]
         |done].

Lemma emf_counters_add_up_witness :
  zsum (event_value ENTRIES_BY_SOURCE_TOTAL) (emf_run sample_prom sample_emitter sample_flushes) = 9 /\
  zsum (event_value ENTRIES_BY_SOURCE_TOTAL) (emf_run sample_prom sample_emitter sample_flushes) =
    zsum (sample_count 5 4) sample_series.
Proof.
  split; [vm_compute; reflexivity|]. apply emf_counters_add_up.
  - refine (bool_decide_unpack _ _). vm_compute. exact I.
  - intros labels _. apply lookup_empty.
  - exists (sample_count 3 0). split; [sample_shows|]. split.
    + intros labels Hl. apply sample_series_cases in Hl as [-> | ->]; vm_compute; split; done.
    + exists (sample_count 5 4). split; [sample_shows|]. split; [|done].
      intros labels Hl. apply sample_series_cases in Hl as [-> | ->]; vm_compute; split; done.
Defined.
