(* ===== verification/SoftHsm.v ===== *)
(** * The PKCS #11 hardware module: [crates/cloud-softhsm/src/]

    [config.rs]: the connection parameters and their resolution from the environment. [hsm.rs]: the
    [Hsm] trait over a PKCS #11 token. The [cryptoki] crate, the token behind it, and the point
    encodings of the [p256] crate are parameters; what a call does to the outside world is a function
    of the world's state [W]. A call of the trait opens its own session and runs on a blocking
    thread, which is why it is atomic here. *)

From Stdlib Require Import Ascii.
From S2P Require Import Prelude Format Signing KV Hsm.

Local Open Scope mtc_scope.
Local Open Scope Z_scope.

(** ** White space: [str::trim]

    The characters of Unicode's [White_Space], in UTF-8. A byte that continues a character begins
    none of them. *)

Definition ascii_white (a : ascii) : bool :=
  let n := nat_of_ascii a in ((9 <=? n)%nat && (n <=? 13)%nat || (n =? 32)%nat)%bool.
Definition white_2 (a b : ascii) : bool :=
  let '(a, b) := (nat_of_ascii a, nat_of_ascii b) in
  ((a =? 194)%nat && ((b =? 133)%nat || (b =? 160)%nat))%bool.
Definition white_3 (a b c : ascii) : bool :=
  let '(a, b, c) := (nat_of_ascii a, nat_of_ascii b, nat_of_ascii c) in
  (((a =? 225)%nat && (b =? 154)%nat && (c =? 128)%nat) ||
   ((a =? 226)%nat && (b =? 128)%nat &&
    (((128 <=? c)%nat && (c <=? 138)%nat) || (c =? 168)%nat || (c =? 169)%nat || (c =? 175)%nat)) ||
   ((a =? 226)%nat && (b =? 129)%nat && (c =? 159)%nat) ||
   ((a =? 227)%nat && (b =? 128)%nat && (c =? 128)%nat))%bool.

(** [s.trim().is_empty()]. *)
Fixpoint blank (s : string) : bool :=
  match s with
  | EmptyString => true
  | String a s1 =>
      if ascii_white a then blank s1
      else match s1 with
           | EmptyString => false
           | String b s2 =>
               if white_2 a b then blank s2
               else match s2 with
                    | EmptyString => false
                    | String c s3 => (white_3 a b c && blank s3)%bool
                    end
           end
  end.

(** [str::trim_end]. *)
Fixpoint trim_end (s : string) : string :=
  match s with
  | EmptyString => ""
  | String a s' => if blank s then "" else String a (trim_end s')
  end.

(** ** Configuration ([config.rs]) *)

Definition ENV_MODULE_PATH : string := "MTC_PKCS11_MODULE_PATH".
Definition ENV_TOKEN_LABEL : string := "MTC_PKCS11_TOKEN_LABEL".
Definition ENV_PIN : string := "MTC_PKCS11_PIN".
Definition ENV_KEY_LABEL : string := "MTC_PKCS11_KEY_LABEL".
Definition DEFAULT_MODULE_PATH : string := "/usr/lib/softhsm/libsofthsm2.so".
Definition DEFAULT_TOKEN_LABEL : string := "mtc-dev".
Definition DEFAULT_PIN : string := "1234".
Definition DEFAULT_KEY_LABEL : string := "checkpoint-signing".

Inductive ConfigError : Type := EmptyValue (var : string).

(** [#[error("environment variable {var} is set but empty")]]. *)
Definition config_error_text (e : ConfigError) : string :=
  match e with EmptyValue var => "environment variable " +:+ var +:+ " is set but empty" end.

Record Pkcs11Config : Type := Pkcs11Config_new {
  module_path : string;
  token_label : string;
  pin : string
}.

(** The [Debug] rendering of a configuration, over that of a string. *)
Definition debug_config (debug_str : string -> string) (c : Pkcs11Config) : string :=
  "Pkcs11Config { module_path: " +:+ debug_str (module_path c) +:+ ", token_label: " +:+
  debug_str (token_label c) +:+ ", pin: " +:+ debug_str "<redacted>" +:+ " }".

Definition resolve (lookup : string -> option string) (var default : string) :
    result string ConfigError :=
  match lookup var with
  | Some value => if blank value then Err (EmptyValue var) else Ok value
  | None => Ok default
  end.

Definition from_lookup (lookup : string -> option string) : result Pkcs11Config ConfigError :=
  let? module_path := resolve lookup ENV_MODULE_PATH DEFAULT_MODULE_PATH in
  let? token_label := resolve lookup ENV_TOKEN_LABEL DEFAULT_TOKEN_LABEL in
  let? pin := resolve lookup ENV_PIN DEFAULT_PIN in
  Ok (Pkcs11Config_new module_path token_label pin).

(** ** The [cryptoki] crate *)

(** The return codes the program tells apart, and any other. *)
Inductive RvError : Type :=
| DeviceError
| DeviceMemory
| DeviceRemoved
| FunctionFailed
| GeneralError
| HostMemory
| UserAlreadyLoggedIn
| CryptokiAlreadyInitialized
| OtherRv (code : Z).

(** [cryptoki::error::Error]: a return code with the function that gave it, or another failure. *)
Inductive Pkcs11Error : Type :=
| Pkcs11 (rv : RvError) (function : string)
| AlreadyInitialized
| OtherError (text : string).

Inductive ObjectClass : Type := PRIVATE_KEY | PUBLIC_KEY.
Inductive Mechanism : Type := Ecdsa | EccKeyPairGen.

(** [Attribute], as far as the program uses it. *)
Inductive Attribute : Type :=
| Class_ (class : ObjectClass)
| Label (bytes : list byte)
| Id (bytes : list byte)
| EcPoint (bytes : list byte)
| EcParams (bytes : list byte)
| Token (b : bool)
| Private (b : bool)
| Sensitive (b : bool)
| Extractable (b : bool)
| Sign (b : bool)
| Verify (b : bool).

Inductive AttributeType : Type :=
| AClass | ALabel | AId | AEcPoint | AEcParams | AToken | APrivate | ASensitive | AExtractable
| ASign | AVerify.

#[export] Instance ObjectClass_eq_dec : EqDecision ObjectClass.
Proof. solve_decision. Defined.
#[export] Instance Attribute_eq_dec : EqDecision Attribute.
Proof. solve_decision. Defined.
#[export] Instance AttributeType_eq_dec : EqDecision AttributeType.
Proof. solve_decision. Defined.

(** The library: each call takes the world's state, and a session is closed when it is dropped. The
    last two fields are [tokio]'s: why a blocking task is not joined, when it is not. *)
Class Cryptoki (W Slot Session ObjectHandle : Type) : Type := {
  pkcs11_new : string -> M W Pkcs11Error unit;
  initialize : M W Pkcs11Error unit;
  get_slots_with_token : M W Pkcs11Error (list Slot);
  get_token_info_label : Slot -> M W Pkcs11Error string;
  open_rw_session : Slot -> M W Pkcs11Error Session;
  login : Session -> string -> M W Pkcs11Error unit;
  find_objects : Session -> list Attribute -> M W Pkcs11Error (list ObjectHandle);
  get_attributes : Session -> ObjectHandle -> list AttributeType -> M W Pkcs11Error (list Attribute);
  session_sign : Session -> Mechanism -> ObjectHandle -> list byte -> M W Pkcs11Error (list byte);
  generate_random_vec : Session -> Z -> M W Pkcs11Error (list byte);
  generate_key_pair : Session -> Mechanism -> list Attribute -> list Attribute ->
    M W Pkcs11Error (ObjectHandle * ObjectHandle);
  close_session : Session -> W -> W;
  pkcs11_error_text : Pkcs11Error -> string;
  join_error : W -> option string
}.

(** ** The module ([hsm.rs]) *)

Definition P256_EC_PARAMS_DER : list byte := [x06; x08; x2a; x86; x48; xce; x3d; x03; x01; x07].
Definition KEY_ID_LEN : Z := 16.
Definition P256_SIGNATURE_LEN : Z := 64.

Definition rverror_is_retryable (rv : RvError) : bool :=
  match rv with
  | DeviceError | DeviceMemory | DeviceRemoved | FunctionFailed | GeneralError | HostMemory => true
  | _ => false
  end.

Definition to_hex (bytes : list byte) : string :=
  foldl (fun acc byte => acc +:+ hex_bytes [byte])%string "" bytes.

Definition transport (retryable : bool) (text : string) : CloudError :=
  Transport retryable (OtherReason text).

Definition sec1_point (ec_point : list byte) : result (list byte) CloudError :=
  let unexpected : result (list byte) CloudError :=
    Err (transport false ("unexpected CKA_EC_POINT encoding: " +:+ decimal (len ec_point) +:+ " bytes")) in
  match ec_point with
  | x04 :: rest =>
      if len rest =? 64 then Ok ec_point
      else match rest with
           | x41 :: inner =>
               match inner with
               | x04 :: _ => if len inner =? 65 then Ok inner else unexpected
               | _ => unexpected
               end
           | _ => unexpected
           end
  | _ => unexpected
  end.

Section SoftHsm.
Context {W Slot Session ObjectHandle : Type} `{!Cryptoki W Slot Session ObjectHandle}.

(** The [p256] crate, with the texts of its decoding and encoding failures; [Sha256::digest]. *)
Context (p : P256) (not_a_point_text spki_text : string).
Context (sha256 : list byte -> list byte).

Definition map_pkcs11 (operation : string) (error : Pkcs11Error) : CloudError :=
  let retryable := match error with Pkcs11 rv _ => rverror_is_retryable rv | _ => false end in
  transport retryable (operation +:+ ": " +:+ pkcs11_error_text error).

(** The loop of [find_slot]. *)
Fixpoint scan_slots (label : string) (slots : list Slot) : M W CloudError Slot :=
  match slots with
  | [] => throw (NotFound ("token '" +:+ label +:+ "'"))
  | slot :: slots' =>
      let! info := map_error (map_pkcs11 "reading token info") (get_token_info_label slot) in
      if String.eqb (trim_end info) (trim_end label) then ret slot else scan_slots label slots'
  end.
Definition find_slot (label : string) : M W CloudError Slot :=
  let! slots := map_error (map_pkcs11 "listing token slots") get_slots_with_token in
  scan_slots label slots.

(** A session that is not returned is dropped. *)
Definition open_session (slot : Slot) (auth_pin : string) : M W CloudError Session :=
  let! session := map_error (map_pkcs11 "opening PKCS#11 session") (open_rw_session slot) in
  fun w =>
  match login session auth_pin w with
  | (Ok tt, w') | (Err (Pkcs11 UserAlreadyLoggedIn _), w') => (Ok session, w')
  | (Err error, w') => (Err (map_pkcs11 "logging in to token" error), close_session session w')
  end.

(** The scope of a session: it is dropped whatever the rest of the closure returns. *)
Definition in_session {A} (slot : Slot) (auth_pin : string) (body : Session -> M W CloudError A) :
    M W CloudError A :=
  let! session := open_session slot auth_pin in
  fun w => let '(r, w') := body session w in (r, close_session session w').

(** [spawn_blocking], and the join of its task. *)
Definition spawn_blocking {A} (task : string) (body : M W CloudError A) : M W CloudError A :=
  fun w =>
  match join_error w with
  | Some error => (Err (transport false (task +:+ " task failed to join: " +:+ error)), w)
  | None => body w
  end.

Definition find_key (session : Session) (label : string) (class : ObjectClass) :
    M W CloudError (option ObjectHandle) :=
  let! matches := map_error (map_pkcs11 "finding key object")
    (find_objects session [Class_ class; Label (String.list_byte_of_string label)]) in
  ret (head matches).

Definition spki_der_from_ec_point (ec_point : list byte) : result PublicKey CloudError :=
  let? point := sec1_point ec_point in
  let? verifying_key := ok_or (from_sec1_bytes p point)
    (transport false ("CKA_EC_POINT is not a valid P-256 point: " +:+ not_a_point_text)) in
  let? der := ok_or (to_public_key_der p verifying_key)
    (transport false ("encoding SPKI DER: " +:+ spki_text)) in
  Ok (public_key_from_spki_der der).

(** [attributes.into_iter().find_map(..)]. *)
Fixpoint find_ec_point (attributes : list Attribute) : option (list byte) :=
  match attributes with
  | [] => None
  | EcPoint bytes :: _ => Some bytes
  | _ :: attributes' => find_ec_point attributes'
  end.

Record SoftHsm : Type := MkSoftHsm { soft_slot : Slot; soft_config : Pkcs11Config }.

(** [SoftHsm::connect]. *)
Definition connect (config : Pkcs11Config) : M W CloudError SoftHsm :=
  do! map_error (fun error => transport false ("loading PKCS#11 module " +:+ module_path config +:+
                   ": " +:+ pkcs11_error_text error)) (pkcs11_new (module_path config));
  do! (fun w => match initialize w with
                | (Ok tt, w') | (Err AlreadyInitialized, w')
                | (Err (Pkcs11 CryptokiAlreadyInitialized _), w') => (Ok tt, w')
                | (Err error, w') => (Err (map_pkcs11 "initializing PKCS#11 library" error), w')
                end);
  let! slot := find_slot (token_label config) in
  let! session := open_session slot (pin config) in
  do! (fun w => (Ok tt, close_session session w));
  ret (MkSoftHsm slot config).

(** [SoftHsm::from_env], in the environment read by [lookup]. *)
Definition from_env (lookup : string -> option string) : M W CloudError SoftHsm :=
  let! config := lift (map_err (fun error =>
    transport false ("resolving PKCS#11 config from environment: " +:+ config_error_text error))
    (from_lookup lookup)) in
  connect config.

Section Operations.
Context (self : SoftHsm).

(** [sign]. *)
Definition soft_sign (key_handle : KeyHandle) (data : list byte) : M W CloudError (list byte) :=
  spawn_blocking "signing" (in_session (soft_slot self) (pin (soft_config self)) (fun session =>
    let! found := find_key session key_handle PRIVATE_KEY in
    let! private_key := lift (ok_or found (NotFound key_handle)) in
    let digest := sha256 data in
    let! signature := map_error (map_pkcs11 "CKM_ECDSA sign")
      (session_sign session Ecdsa private_key digest) in
    if negb (len signature =? P256_SIGNATURE_LEN)
    then throw (transport false ("expected " +:+ decimal P256_SIGNATURE_LEN +:+
           "-byte P1363 signature, got " +:+ decimal (len signature)))
    else ret signature)).

(** [get_public_key]. *)
Definition soft_get_public_key (key_handle : KeyHandle) : M W CloudError PublicKey :=
  spawn_blocking "get-public-key" (in_session (soft_slot self) (pin (soft_config self)) (fun session =>
    let! found := find_key session key_handle PUBLIC_KEY in
    let! public_key := lift (ok_or found (NotFound key_handle)) in
    let! attributes := map_error (map_pkcs11 "reading CKA_EC_POINT")
      (get_attributes session public_key [AEcPoint]) in
    let! ec_point := lift (ok_or (find_ec_point attributes)
      (transport false ("public key " +:+ key_handle +:+ " exposes no CKA_EC_POINT"))) in
    lift (spki_der_from_ec_point ec_point))).

(** The templates of a generated key pair, and its label. *)
Definition key_label (id : list byte) : string := ("mtc-key-" +:+ to_hex id)%string.
Definition public_template (label : string) (id : list byte) : list Attribute :=
  [Token true; Private false; Verify true; EcParams P256_EC_PARAMS_DER;
   Label (String.list_byte_of_string label); Id id].
Definition private_template (label : string) (id : list byte) : list Attribute :=
  [Token true; Private true; Sensitive true; Extractable false; Sign true;
   Label (String.list_byte_of_string label); Id id].

(** [generate_key]. *)
Definition soft_generate_key (spec : KeySpec) : M W CloudError KeyHandle :=
  match spec with
  | KeySpecEcdsaP256 =>
      spawn_blocking "generate-key" (in_session (soft_slot self) (pin (soft_config self)) (fun session =>
        let! id := map_error (map_pkcs11 "generating key id") (generate_random_vec session KEY_ID_LEN) in
        let label := key_label id in
        do! map_error (map_pkcs11 "CKM_EC_KEY_PAIR_GEN")
          (generate_key_pair session EccKeyPairGen (public_template label id) (private_template label id));
        ret label))
  end.

Definition soft_hsm : Hsm W := {|
  hsm_sign := soft_sign;
  hsm_get_public_key := soft_get_public_key;
  hsm_generate_key := soft_generate_key;
  is_fips_validated := fun _ => false
|}.
End Operations.
End SoftHsm.
Arguments MkSoftHsm {Slot}.
Arguments soft_slot {Slot}.
Arguments soft_config {Slot}.
