(* ===== verification/SoftHsmFacts.v ===== *)
(** * Correctness of the PKCS #11 hardware module

    What the token behind the library is relied on for is the class [Pkcs11Token]: a view of its objects,
    and what each call does to them and returns of them. Over any such token, a generated key cannot be
    extracted, and what the module signs with it verifies under the public key it exports. *)

From Stdlib Require Import Ascii.
From S2P Require Import Prelude Format Types Wire Signing Checkpoint CheckpointFacts KV Hsm Signer SignerFacts SoftHsm.

Local Open Scope Z_scope.
Local Open Scope mtc_scope.

(** ** Text *)

(** Distinct identifiers give distinct labels. *)
Lemma key_label_inj id id' : key_label id = key_label id' -> id = id'.
Proof.
  unfold key_label, to_hex. rewrite !fold_hex_bytes. intros E%app_inv_head_str. by apply hex_bytes_inj.
Qed.

Lemma trim_end_blank s : exists t, s = (trim_end s +:+ t)%string /\ blank t = true.
Proof.
  induction s as [|a s (t & E & Ht)]; [by exists ""%string|].
  cbn [trim_end]. destruct (blank (String a s)) eqn:Eb; [by exists (String a s)|].
  exists t. split; [|done]. exact (f_equal (String a) E).
Qed.

(** ** Configuration *)

(** A variable that is set is used as it is, unless it is blank; one that is not set takes its default. *)
Lemma resolve_Ok lookup var default value :
  resolve lookup var default = Ok value <->
  (lookup var = Some value /\ blank value = false) \/ (lookup var = None /\ value = default).
Proof.
  unfold resolve. destruct (lookup var) as [v|]; [destruct (blank v) eqn:Eb|].
  - split; [done|]. intros [[[= <-] ?]|[? _]]; congruence.
  - split; [intros [= <-]; by left|]. by intros [[[= <-] _]|[? _]].
  - split; [intros [= <-]; by right|]. by intros [[? _]|[_ ->]].
Qed.

Lemma from_lookup_Ok lookup c :
  from_lookup lookup = Ok c <->
  resolve lookup ENV_MODULE_PATH DEFAULT_MODULE_PATH = Ok (module_path c) /\
  resolve lookup ENV_TOKEN_LABEL DEFAULT_TOKEN_LABEL = Ok (token_label c) /\
  resolve lookup ENV_PIN DEFAULT_PIN = Ok (pin c).
Proof.
  unfold from_lookup. destruct c as [m t n]. cbn [module_path token_label pin].
  destruct (resolve lookup ENV_MODULE_PATH _), (resolve lookup ENV_TOKEN_LABEL _),
    (resolve lookup ENV_PIN _); split; try done; try (by intros (?&?&?)).
  - by intros [= <- <- <-].
  - by intros ([= <-]&[= <-]&[= <-]).
Qed.

(** ** The token *)

Section Token.
Context (W Slot Session ObjectHandle : Type) (p : P256).

(** An object of a token: its handle, the key pair it is a half of, its attributes. *)
Record TokenObject : Type := MkTokenObject {
  to_handle : ObjectHandle;
  to_key : P256SigningKey p;
  to_attributes : list Attribute
}.

Definition attribute_type (a : Attribute) : AttributeType :=
  match a with
  | Class_ _ => AClass | Label _ => ALabel | Id _ => AId | EcPoint _ => AEcPoint
  | EcParams _ => AEcParams | Token _ => AToken | Private _ => APrivate | Sensitive _ => ASensitive
  | Extractable _ => AExtractable | Sign _ => ASign | Verify _ => AVerify
  end.

(** The attributes of an object made from a template: those, its class, and others of other types. *)
Definition made_from (class : ObjectClass) (template attributes : list Attribute) : Prop :=
  exists extra, attributes = Class_ class :: template ++ extra /\
    forall a, a ∈ extra -> attribute_type a <> AClass /\ attribute_type a ∉ map attribute_type template.

Definition matches (template : list Attribute) (o : TokenObject) : Prop :=
  Forall (fun a => a ∈ to_attributes o) template.

#[export] Instance matches_dec template o : Decision (matches template o).
Proof. unfold matches. apply _. Defined.

(** The library and its token as PKCS #11 documents them. Only key generation makes objects; a login
    lasts while the session is open; a search returns the objects that match; an ECDSA signature verifies,
    as one of the digest, under the pair's public key, whose point the public object has. *)
Class Pkcs11Token (verify_prehash : P256VerifyingKey p -> list byte -> P256Signature p -> bool)
    `{!Cryptoki W Slot Session ObjectHandle} : Type := {
  objects : W -> Slot -> list TokenObject;
  logged_in : W -> Slot -> bool;
  session_slot : Session -> Slot;
  open_keeps slot w : objects (snd (open_rw_session slot w)) = objects w;
  login_keeps s auth_pin w : objects (snd (login s auth_pin w)) = objects w;
  find_keeps s template w : objects (snd (find_objects s template w)) = objects w;
  sign_keeps s m h digest w : objects (snd (session_sign s m h digest w)) = objects w;
  attributes_keep s h types w : objects (snd (get_attributes s h types w)) = objects w;
  random_keeps s n w : objects (snd (generate_random_vec s n w)) = objects w;
  close_keeps s w : objects (close_session s w) = objects w;
  open_slot slot w s w' : open_rw_session slot w = (Ok s, w') -> session_slot s = slot;
  login_logs_in s auth_pin w r w' :
    login s auth_pin w = (r, w') -> (r = Ok tt \/ exists f, r = Err (Pkcs11 UserAlreadyLoggedIn f)) ->
    logged_in w' (session_slot s) = true;
  find_matches s template w hs w' :
    logged_in w (session_slot s) = true -> find_objects s template w = (Ok hs, w') ->
    hs ≡ₚ map to_handle (filter (matches template) (objects w (session_slot s)));
  sign_verifies_prehash s o digest w sig w' :
    o ∈ objects w (session_slot s) -> Class_ PRIVATE_KEY ∈ to_attributes o ->
    session_sign s Ecdsa (to_handle o) digest w = (Ok sig, w') -> len sig = 64 ->
    exists sg, sig_from_slice p sig = Some sg /\
      verify_prehash (verifying_key p (to_key o)) digest sg = true;
  attributes_of s o types w attributes w' :
    o ∈ objects w (session_slot s) -> get_attributes s (to_handle o) types w = (Ok attributes, w') ->
    attributes ⊆ to_attributes o;
  ec_point_of w slot o bytes :
    o ∈ objects w slot -> Class_ PUBLIC_KEY ∈ to_attributes o -> EcParams P256_EC_PARAMS_DER ∈ to_attributes o ->
    EcPoint bytes ∈ to_attributes o ->
    exists xy, len xy = 64 /\ from_sec1_bytes p (x04 :: xy) = Some (verifying_key p (to_key o)) /\
      (bytes = x04 :: xy \/ bytes = x04 :: x41 :: x04 :: xy);
  generate_makes s public private w hs w' :
    generate_key_pair s EccKeyPairGen public private w = (Ok hs, w') ->
    exists key public' private',
      made_from PUBLIC_KEY public public' /\ made_from PRIVATE_KEY private private' /\
      objects w' (session_slot s) ≡ₚ
        MkTokenObject (fst hs) key public' :: MkTokenObject (snd hs) key private' ::
        objects w (session_slot s)
}.
End Token.
Arguments MkTokenObject {ObjectHandle p}.
Arguments to_handle {ObjectHandle p}.
Arguments to_key {ObjectHandle p}.
Arguments to_attributes {ObjectHandle p}.
Arguments matches {ObjectHandle p}.

(** ** Sessions and searches *)

Section Facts.
Context {W Slot Session ObjectHandle : Type} {p : P256} `{!Cryptoki W Slot Session ObjectHandle}.
Context {verify_prehash : P256VerifyingKey p -> list byte -> P256Signature p -> bool}.
Context `{!Pkcs11Token W Slot Session ObjectHandle p verify_prehash}.

Local Abbreviation held := (objects W Slot Session ObjectHandle p).
Local Abbreviation TokenObject := (TokenObject ObjectHandle p).

(** A call that leaves the tokens' objects as they are, whatever it returns. *)
Definition quiet {E A} (m : M W E A) : Prop :=
  forall w, held (snd (m w)) = held w.

Lemma quiet_lift {E A} (r : result A E) : quiet (lift r).
Proof. done. Qed.

Lemma quiet_bind {E A B} (m : M W E A) (k : A -> M W E B) :
  quiet m -> (forall a, quiet (k a)) -> quiet (bind m k).
Proof.
  intros Hm Hk w. unfold bind. specialize (Hm w).
  destruct (m w) as [[a|e] w']; [|done]. by rewrite Hk.
Qed.

Lemma quiet_map_error {E F A} (f : E -> F) (m : M W E A) : quiet m -> quiet (map_error f m).
Proof. intros Hm w. unfold map_error. specialize (Hm w). by destruct (m w). Qed.

Lemma quiet_spawn {A} task (m : M W CloudError A) : quiet m -> quiet (spawn_blocking task m).
Proof. intros Hm w. unfold spawn_blocking. by destruct (join_error w). Qed.

Lemma quiet_open slot auth_pin : quiet (open_session slot auth_pin).
Proof.
  apply quiet_bind; [apply quiet_map_error; intros w; apply open_keeps|]. intros s w.
  pose proof (login_keeps W Slot Session ObjectHandle p s auth_pin w) as Hl.
  destruct (login s auth_pin w) as [[[]|[[] ?| |]] w'];
    rewrite <- Hl; try reflexivity; apply close_keeps.
Qed.

Lemma quiet_in_session {A} slot auth_pin (body : Session -> M W CloudError A) :
  (forall s, quiet (body s)) -> quiet (in_session slot auth_pin body).
Proof.
  intros Hb. apply quiet_bind; [apply quiet_open|]. intros s w. specialize (Hb s w).
  destruct (body s w) as [r w']. cbn [snd]. by rewrite close_keeps.
Qed.

Lemma quiet_find_key s label class : quiet (find_key s label class).
Proof.
  apply quiet_bind; [apply quiet_map_error; intros w; apply find_keeps|]. intros hs. apply quiet_lift.
Qed.

Lemma spawn_blocking_Ok {A} task (m : M W CloudError A) w a w' :
  spawn_blocking task m w = (Ok a, w') -> m w = (Ok a, w').
Proof. unfold spawn_blocking. by destruct (join_error w). Qed.

Lemma map_error_Ok {E F A} (f : E -> F) (m : M W E A) w a w' :
  map_error f m w = (Ok a, w') -> m w = (Ok a, w').
Proof. unfold map_error. destruct (m w) as [[?|?] ?]; [by intros [= <- <-]|done]. Qed.

Lemma open_session_Ok slot auth_pin w s w' :
  open_session slot auth_pin w = (Ok s, w') ->
  session_slot W Slot Session ObjectHandle p s = slot /\ logged_in W Slot Session ObjectHandle p w' slot = true /\
  held w' = held w.
Proof.
  intros E. pose proof (quiet_open slot auth_pin w) as Hq. rewrite E in Hq.
  apply bind_Ok_inv in E as (s' & w1 & Eo%map_error_Ok & El).
  pose proof (open_slot W Slot Session ObjectHandle p _ _ _ _ Eo) as Hs.
  destruct (login s' auth_pin w1) as [r w2] eqn:Ell.
  assert (s' = s /\ w2 = w' /\ (r = Ok tt \/ exists f, r = Err (Pkcs11 UserAlreadyLoggedIn f))) as (-> & -> & Hr)
    by (destruct r as [[]|[[] ?| |]]; try done; injection El as -> ->; eauto).
  split; [done|]. split; [|done]. rewrite <- Hs.
  exact (login_logs_in W Slot Session ObjectHandle p _ _ _ _ _ Ell Hr).
Qed.

Lemma in_session_Ok {A} slot auth_pin (body : Session -> M W CloudError A) w a w' :
  in_session slot auth_pin body w = (Ok a, w') ->
  exists s w0 w1, session_slot W Slot Session ObjectHandle p s = slot /\
    logged_in W Slot Session ObjectHandle p w0 slot = true /\ held w0 = held w /\
    body s w0 = (Ok a, w1) /\ held w' = held w1.
Proof.
  intros (s & w0 & Eo & Eb)%bind_Ok_inv. destruct (body s w0) as [r w1] eqn:E.
  injection Eb as -> <-. apply open_session_Ok in Eo as (Hs & Hl & Hh).
  exists s, w0, w1. split_and!; [done..|apply close_keeps].
Qed.

(** The token holds one pair of the key under the label: a public half and a private half. *)
Definition label_is (label : string) : Attribute := Label (String.list_byte_of_string label).
Record PairHeld (objs : list TokenObject) (label : string) (pub priv : TokenObject) : Prop := {
  pair_only : filter (matches [label_is label]) objs ≡ₚ [pub; priv];
  pair_key : to_key priv = to_key pub;
  pub_class : Class_ PUBLIC_KEY ∈ to_attributes pub /\ Class_ PRIVATE_KEY ∉ to_attributes pub;
  priv_class : Class_ PRIVATE_KEY ∈ to_attributes priv /\ Class_ PUBLIC_KEY ∉ to_attributes priv;
  pub_curve : EcParams P256_EC_PARAMS_DER ∈ to_attributes pub
}.

Lemma matches_cons a template (o : TokenObject) :
  matches (a :: template) o <-> a ∈ to_attributes o /\ matches template o.
Proof. apply Forall_cons_iff. Qed.

Lemma matches_nil (o : TokenObject) : matches [] o <-> True.
Proof. split; [done|]. intros _. apply Forall_nil_2. Qed.

(** A search by class and label is a search by class among the objects with the label. *)
Lemma filter_class_label class label (objs : list TokenObject) :
  filter (matches [Class_ class; label_is label]) objs =
  filter (matches [Class_ class]) (filter (matches [label_is label]) objs).
Proof.
  rewrite list_filter_filter. apply list_filter_iff. intros o.
  rewrite !matches_cons. tauto.
Qed.

(** [find_key] finds the half of its class. *)
Lemma find_key_pair objs slot label pub priv class s w r w' :
  PairHeld objs label pub priv -> held w slot = objs ->
  session_slot W Slot Session ObjectHandle p s = slot ->
  logged_in W Slot Session ObjectHandle p w slot = true ->
  find_key s label class w = (Ok r, w') ->
  r = Some (to_handle (match class with PUBLIC_KEY => pub | PRIVATE_KEY => priv end)) /\ held w' = held w.
Proof.
  intros [Hp _ [Hc1 Hc1'] [Hc2 Hc2'] _] Ho Hs Hl E. pose proof (quiet_find_key s label class w) as Hq.
  rewrite E in Hq. split; [|done].
  apply bind_Ok_inv in E as (hs & w1 & Ef%map_error_Ok & [= <- <-]).
  apply (find_matches W Slot Session ObjectHandle p) in Ef; [|by rewrite Hs].
  change (Label (String.list_byte_of_string label)) with (label_is label) in Ef.
  rewrite Hs, Ho, filter_class_label, Hp in Ef.
  assert (filter (matches [Class_ class]) [pub; priv] =
          [match class with PUBLIC_KEY => pub | PRIVATE_KEY => priv end]) as E1.
  { rewrite !filter_cons, filter_nil. destruct class; repeat case_decide;
      repeat match goal with
             | H : matches [_] _ |- _ => apply matches_cons in H as [? _]
             | H : ~ matches [_] _ |- _ => rewrite matches_cons, matches_nil in H
             end; tauto || done. }
  rewrite E1 in Ef. cbn [map] in Ef. by apply Permutation_singleton_r in Ef as ->.
Qed.

Lemma pair_member objs label pub priv :
  PairHeld objs label pub priv -> pub ∈ objs /\ priv ∈ objs.
Proof.
  intros [Hp _ _ _ _].
  split; (eapply proj2, list_elem_of_filter; rewrite Hp; set_solver).
Qed.

(** ** The operations *)

Context (self : SoftHsm (Slot := Slot)).
Local Abbreviation slot := (soft_slot self).

(** An attribute of a template is one of the object made from it; one of another value, or of another
    class, is not. *)
Lemma made_from_spec class template attributes a :
  made_from class template attributes ->
  attribute_type a ∈ AClass :: map attribute_type template ->
  a ∈ attributes <-> a ∈ Class_ class :: template.
Proof.
  intros (extra & -> & Hx) Ht. rewrite !elem_of_cons, elem_of_app.
  split; [|tauto]. intros [?|[?|Ha]]; [tauto..|]. destruct (Hx a Ha) as [H1 H2].
  apply elem_of_cons in Ht as [?|?]; [done|contradiction].
Qed.

Ltac in_template H :=
  rewrite (made_from_spec _ _ _ _ H) by (cbn; set_solver); unfold public_template, private_template; set_solver.

(** A generated pair is the only one of its label, when the label is new, and its private half cannot be
    read or wrapped. *)
Lemma soft_generate_key_Ok w label w' :
  soft_generate_key self KeySpecEcdsaP256 w = (Ok label, w') ->
  (forall o, o ∈ held w slot -> label_is label ∉ to_attributes o) ->
  exists pub priv, PairHeld (held w' slot) label pub priv /\ held w' slot ≡ₚ pub :: priv :: held w slot /\
    Sensitive true ∈ to_attributes priv /\ Extractable false ∈ to_attributes priv /\
    (Sensitive false ∉ to_attributes priv) /\ (Extractable true ∉ to_attributes priv).
Proof.
  intros (s & w0 & w1 & Hs & Hl & Hh & E & Hh1)%spawn_blocking_Ok%in_session_Ok Hnew.
  apply bind_Ok_inv in E as (id & w2 & Er%map_error_Ok & E).
  pose proof (random_keeps W Slot Session ObjectHandle p s KEY_ID_LEN w0) as Hr. rewrite Er in Hr. cbn [snd] in Hr.
  apply bind_Ok_inv in E as (hs & w3 & Eg%map_error_Ok & [= <- <-]).
  apply (generate_makes W Slot Session ObjectHandle p) in Eg as (key & pub & priv & Hpub & Hpriv & Ho).
  rewrite Hs, Hr, Hh in Ho. rewrite Hh1.
  exists (MkTokenObject (fst hs) key pub), (MkTokenObject (snd hs) key priv).
  split; [|split_and!; [exact Ho|cbn [to_attributes]; in_template Hpriv..]].
  split; cbn [to_key to_attributes]; [|done|split; in_template Hpub|split; in_template Hpriv|in_template Hpub].
  rewrite Ho, !filter_cons_True; [|apply matches_cons; split; [|by apply matches_nil]..].
  - do 2 f_equiv. enough (filter (matches [label_is (key_label id)]) (held w slot) = []) as -> by done.
    destruct (filter _ _) as [|o l] eqn:El; [done|]. exfalso.
    assert (o ∈ filter (matches [label_is (key_label id)]) (held w slot)) as [Hm Hin]%list_elem_of_filter
      by (rewrite El; set_solver).
    apply matches_cons in Hm as [Hm _]. by apply (Hnew o Hin).
  - cbn [to_attributes]. unfold label_is. in_template Hpriv.
  - cbn [to_attributes]. unfold label_is. in_template Hpub.
Qed.

Context (not_a_point_text spki_text : string) (sha256 : list byte -> list byte).

Lemma quiet_soft_sign label data : quiet (soft_sign sha256 self label data).
Proof.
  apply quiet_spawn, quiet_in_session. intros s.
  apply quiet_bind; [apply quiet_find_key|intros found].
  apply quiet_bind; [apply quiet_lift|intros h].
  apply quiet_bind; [apply quiet_map_error; intros w; apply sign_keeps|intros sig].
  by case_match.
Qed.

(** What is signed with the private half verifies, as the digest of the data, under the pair's key. *)
Lemma soft_sign_Ok label data pub priv w sig w' :
  PairHeld (held w slot) label pub priv ->
  soft_sign sha256 self label data w = (Ok sig, w') ->
  len sig = 64 /\ exists sg, sig_from_slice p sig = Some sg /\
    verify_prehash (verifying_key p (to_key pub)) (sha256 data) sg = true.
Proof.
  intros Hp (s & w0 & w1 & Hs & Hl & Hh & E & _)%spawn_blocking_Ok%in_session_Ok.
  apply bind_Ok_inv in E as (found & w2 & Ef & E).
  rewrite <- Hh in Hp.
  destruct (find_key_pair _ _ _ _ _ _ _ _ _ _ Hp eq_refl Hs Hl Ef) as [-> Hh2].
  cbn [ok_or] in E. apply bind_Ok_inv in E as (h & w3 & [= <- <-] & E).
  apply bind_Ok_inv in E as (sig' & w4 & Es%map_error_Ok & E).
  change P256_SIGNATURE_LEN with 64 in E.
  destruct (Z.eqb_spec (len sig') 64) as [Hlen|]; [|done]. injection E as -> ->. split; [done|].
  rewrite <- (pair_key _ _ _ _ Hp).
  apply (sign_verifies_prehash W Slot Session ObjectHandle p) in Es; [done| |apply (priv_class _ _ _ _ Hp)|done].
  rewrite Hs, Hh2. apply (pair_member _ _ _ _ Hp).
Qed.

Lemma sec1_point_wrapped xy bytes :
  len xy = 64 -> bytes = x04 :: xy \/ bytes = x04 :: x41 :: x04 :: xy -> sec1_point bytes = Ok (x04 :: xy).
Proof.
  intros Hl [-> | ->]; unfold sec1_point; rewrite ?len_cons, Hl; done.
Qed.

Lemma find_ec_point_Some attributes bytes :
  find_ec_point attributes = Some bytes -> EcPoint bytes ∈ attributes.
Proof.
  induction attributes as [|a attributes IH]; [done|]. cbn [find_ec_point].
  destruct a; try (intros; apply elem_of_cons; right; by apply IH).
  intros [= ->]. apply elem_of_cons. by left.
Qed.

(** The public key exported for a label is the SPKI encoding of the pair's key. *)
Lemma soft_get_public_key_Ok label pub priv w pk w' :
  PairHeld (held w slot) label pub priv ->
  soft_get_public_key p not_a_point_text spki_text self label w = (Ok pk, w') ->
  to_public_key_der p (verifying_key p (to_key pub)) = Some (public_spki_der pk).
Proof.
  intros Hp (s & w0 & w1 & Hs & Hl & Hh & E & _)%spawn_blocking_Ok%in_session_Ok.
  apply bind_Ok_inv in E as (found & w2 & Ef & E).
  rewrite <- Hh in Hp.
  destruct (find_key_pair _ _ _ _ _ _ _ _ _ _ Hp eq_refl Hs Hl Ef) as [-> Hh2].
  cbn [ok_or] in E. apply bind_Ok_inv in E as (h & w3 & [= <- <-] & E).
  apply bind_Ok_inv in E as (attributes & w4 & Ea%map_error_Ok & E).
  assert (pub ∈ held w0 slot) as Hin by apply (pair_member _ _ _ _ Hp).
  apply (attributes_of W Slot Session ObjectHandle p) in Ea; [|by rewrite Hs, Hh2].
  apply bind_Ok_inv in E as (point & w5 & Ep & E). destruct (find_ec_point attributes) as [b|] eqn:Eb; [|done].
  injection Ep as -> ->. apply find_ec_point_Some, Ea in Eb.
  destruct (ec_point_of W Slot Session ObjectHandle p w0 slot pub point)
    as (xy & Hxy & Hv & Hb); [done|by destruct Hp as [_ _ [? _] _ _]|by destruct Hp|done|].
  unfold lift, spki_der_from_ec_point in E. rewrite (sec1_point_wrapped xy) in E by done.
  rewrite Hv in E. cbn [ok_or] in E.
  destruct (to_public_key_der p _) as [der|]; [|done]. by injection E as <- _.
Qed.

(** The answers of the module while it is asked again leave the token as it is. *)
Lemma quiet_hsm_after label payload n w :
  held (hsm_after (H := soft_hsm p not_a_point_text spki_text sha256 self) label payload w n) = held w.
Proof.
  induction n as [|n IH]; [done|]. cbn [hsm_after]. by etransitivity; [apply quiet_soft_sign|].
Qed.
End Facts.

(** ** The property *)

Lemma prehash_signature_verifies (p : P256) (Hp : P256_documented p) v der message sig sg :
  to_public_key_der p v = Some der -> len sig = 64 -> sig_from_slice p sig = Some sg ->
  p256_verify p v message sg = true ->
  scheme_verify (SignatureScheme := EcdsaP256 p) (from_spki_der ALGORITHM der) message
    (Signature_from_bytes sig) = Ok tt.
Proof.
  intros Hd Hlen Hsg Hv. simpl. unfold ecdsa_verify, parse_verifying_key. cbn [vk_algorithm spki_der].
  rewrite bool_decide_true by done. cbn [negb]. rewrite (der_roundtrip p Hp _ _ Hd). cbn [ok_or sig_bytes].
  rewrite Hlen. change (64 =? P1363_LEN) with true. cbn [negb]. rewrite Hsg. cbn [ok_or]. by rewrite Hv.
Qed.

(** C34. From key generation to verification on a PKCS #11 token. A key generated under a new label
    has a private object that is sensitive and cannot be extracted; and if the public key of the
    label is then exported and a checkpoint is published with it, at moments when the token's objects of that
    label are still the ones generated (whatever was done to others), the published bytes parse to a
    checkpoint of the given fields that verifies under the exported key. *)
Theorem soft_hsm_checkpoint_verifies {W Slot Session ObjectHandle : Type} (p : P256) (Hp : P256_documented p)
    (lib : Cryptoki W Slot Session ObjectHandle)
    (verify_prehash : P256VerifyingKey p -> list byte -> P256Signature p -> bool)
    (sha256 : list byte -> list byte) (not_a_point_text spki_text : string)
    (Hverify : forall v m sg, p256_verify p v m sg = verify_prehash v (sha256 m) sg)
    (token : Pkcs11Token W Slot Session ObjectHandle p verify_prehash)
    (self : SoftHsm) (policy : RetryPolicy) (w w1 w2 w2' w3 : W) (st : W * list Z) (slept : list Z)
    (label : KeyHandle) (pk : PublicKey)
    (id : LogId) (size : TreeSize) (root : HashOutput) (time : Z) (object : SignedCheckpointObject) :
  let held w := objects W Slot Session ObjectHandle p w (soft_slot self) in
  let labelled w := filter (matches [label_is label]) (held w) in
  0 <= max_retries policy -> id_ok id -> in_u64 size -> in_u64 time ->
  labelled w = [] ->
  soft_generate_key self KeySpecEcdsaP256 w = (Ok label, w1) ->
  labelled w2 ≡ₚ labelled w1 ->
  soft_get_public_key p not_a_point_text spki_text self label w2 = (Ok pk, w2') ->
  labelled w3 ≡ₚ labelled w1 ->
  sign_checkpoint (H := soft_hsm p not_a_point_text spki_text sha256 self) policy label id size root time
    (w3, slept) = (Ok object, st) ->
  (exists priv, priv ∈ labelled w1 /\ Class_ PRIVATE_KEY ∈ to_attributes priv /\
     Sensitive true ∈ to_attributes priv /\ (Extractable true ∉ to_attributes priv)) /\
  exists c, parse_tls_presentation (object_bytes object) = Ok c /\
    log_id c = id /\ tree_size c = size /\ root_hash c = root /\ signed_at c = time /\
    verify (H := EcdsaP256 p) c (from_spki_der ALGORITHM (public_spki_der pk)) = Ok tt.
Proof.
  intros held labelled Hm Hok Hn Ht Hnew Hg H2 Hpk H3 Hs.
  assert (forall o, o ∈ held w -> label_is label ∉ to_attributes o) as Hfree.
  { intros o Hin Hl. assert (o ∈ labelled w) as Hin'; [|rewrite Hnew in Hin'; set_solver].
    apply list_elem_of_filter. split; [|done]. apply matches_cons. split; [done|by apply matches_nil]. }
  destruct (soft_generate_key_Ok self w label w1 Hg Hfree) as (pub & priv & H1 & _ & Hsens & _ & _ & Hext).
  assert (forall w', labelled w' ≡ₚ labelled w1 -> PairHeld (held w') label pub priv) as Hpair.
  { intros w' E. destruct H1 as [Hf ? ? ? ?]. split; [|done..]. etransitivity; [exact E|exact Hf]. }
  split.
  { exists priv. split; [|split; [apply (priv_class _ _ _ _ H1)|done]]. unfold labelled.
    unfold held. rewrite (pair_only _ _ _ _ H1). set_solver. }
  apply Hpair in H2, H3. pose proof (soft_get_public_key_Ok self _ _ label pub priv w2 pk w2' H2 Hpk) as Hder.
  assert (1 <= len (as_str id) <= 255 \/ ~ 1 <= len (as_str id) <= 255) as [Hid|Hid] by lia;
    [|by rewrite sign_checkpoint_refused in Hs].
  destruct (sign_checkpoint_run (H := soft_hsm p not_a_point_text spki_text sha256 self)
              policy label id size root time w3 slept Hid Hm) as (n & _ & _ & _ & Hl).
  rewrite Hl in Hs. injection Hs as Hs _. apply publish_Ok in Hs as (sig & Ea & Hlen & ->).
  exists (published id size root time sig).
  assert (in_u16 (len sig)) by (rewrite Hlen; done).
  split_and!; [by apply framed_parses|done..|].
  apply verify_Ok. exists (signing_payload id size root). split.
  - rewrite (signature_input_state _ (unsigned id size root time)) by done. by apply signature_input_payload.
  - set (w' := hsm_after (H := soft_hsm p not_a_point_text spki_text sha256 self) label
                 (signing_payload id size root) w3 n).
    assert (PairHeld (held w') label pub priv) as Hw' by (unfold held, w'; by rewrite quiet_hsm_after).
    destruct (soft_sign_Ok self sha256 label (signing_payload id size root) pub priv w' sig
                (snd (hsm_sign (Hsm := soft_hsm p not_a_point_text spki_text sha256 self) label
                        (signing_payload id size root) w'))) as (_ & sg & Hsg & Hv); [done| |].
    + unfold nth_answer in Ea. rewrite <- Ea. apply surjective_pairing.
    + apply (prehash_signature_verifies p Hp (verifying_key p (to_key pub)) _ _ _ sg); [done..|].
      by rewrite Hverify.
Qed.

(** ** A token that runs

    Two slots, of which the second has the token: the pairs generated on it, whether the user is logged in,
    the draws of its random source. A signature is the key followed by the digest. *)

Definition sample_sha256 (m : list byte) : list byte := arr_list (be_array 32 (from_be_bytes m)).
Definition sample_prehash (v : array 32) (digest : list byte) (s : array 64) : bool :=
  bool_decide (arr_list s = arr_list v ++ digest).

Definition sample_p256 : P256 := {|
  P256SigningKey := array 32;
  P256VerifyingKey := array 32;
  P256Signature := array 64;
  sk_from_slice := array_of 32;
  sk_to_bytes := arr_list;
  verifying_key := fun k => k;
  from_sec1_bytes := fun bs => match bs with
                               | x04 :: xy => if len xy =? 64 then array_of 32 (take 32 xy) else None
                               | _ => None
                               end;
  from_public_key_der := array_of 32;
  to_public_key_der := fun k => Some (arr_list k);
  try_sign := fun k m => array_of 64 (arr_list k ++ sample_sha256 m);
  sig_to_bytes := arr_list;
  sig_from_slice := array_of 64;
  p256_verify := fun k m s => sample_prehash k (sample_sha256 m) s
|}.

Lemma sample_p256_documented : P256_documented sample_p256.
Proof.
  split; simpl.
  - intros k. apply array_of_list.
  - intros v der [= <-]. apply array_of_list.
  - intros s. unfold len. by rewrite array_length.
  - intros s. apply array_of_list.
  - intros k m s Hs. apply array_of_Some in Hs. by apply bool_decide_true.
Qed.

Record SamplePair : Type := MkSamplePair {
  pair_secret : array 32;
  pair_public_template : list Attribute;
  pair_private_template : list Attribute
}.
Record SampleToken : Type := MkSampleToken {
  st_pairs : list SamplePair;
  st_logged_in : bool;
  st_draws : Z
}.

(** The token's objects: handles are the pair's place and its half. *)
Definition settable (a : Attribute) : Prop := attribute_type a <> AClass /\ attribute_type a <> AEcPoint.
#[export] Instance settable_dec a : Decision (settable a).
Proof. unfold settable. apply _. Defined.

Definition sample_attributes (class : ObjectClass) (pr : SamplePair) : list Attribute :=
  match class with
  | PUBLIC_KEY => Class_ PUBLIC_KEY :: filter settable (pair_public_template pr) ++
      [EcPoint (x04 :: x41 :: x04 :: arr_list (pair_secret pr) ++ replicate 32 x00)]
  | PRIVATE_KEY => Class_ PRIVATE_KEY :: filter settable (pair_private_template pr) ++ []
  end.
Definition sample_half (i : nat) (class : ObjectClass) (pr : SamplePair) :
    TokenObject (nat * ObjectClass) sample_p256 :=
  MkTokenObject (p := sample_p256) (i, class) (pair_secret pr) (sample_attributes class pr).
Definition sample_objects (w : SampleToken) (slot : bool) : list (TokenObject (nat * ObjectClass) sample_p256) :=
  if slot then concat (imap (fun i pr => [sample_half i PUBLIC_KEY pr; sample_half i PRIVATE_KEY pr]) (st_pairs w))
  else [].

Definition invalid : Pkcs11Error := Pkcs11 (OtherRv 7) "invalid".
Definition sample_lib : Cryptoki SampleToken bool bool (nat * ObjectClass) := {|
  pkcs11_new := fun _ w => (Ok tt, w);
  initialize := fun w => (Err AlreadyInitialized, w);
  get_slots_with_token := fun w => (Ok [false; true], w);
  get_token_info_label := fun slot w => (Ok (if slot then "mtc-dev   " else "other     ")%string, w);
  open_rw_session := fun slot w => (Ok slot, w);
  login := fun s auth_pin w =>
    if String.eqb auth_pin "1234"
    then if st_logged_in w then (Err (Pkcs11 UserAlreadyLoggedIn "C_Login"), w)
         else (Ok tt, MkSampleToken (st_pairs w) true (st_draws w))
    else (Err (Pkcs11 (OtherRv 160) "C_Login"), w);
  find_objects := fun s template w =>
    if st_logged_in w then (Ok (map to_handle (filter (matches template) (sample_objects w s))), w)
    else (Err invalid, w);
  get_attributes := fun s h types w =>
    match (if s then st_pairs w !! fst h else None) with
    | Some pr => (Ok (filter (fun a => attribute_type a ∈ types) (sample_attributes (snd h) pr)), w)
    | None => (Err invalid, w)
    end;
  session_sign := fun s m h digest w =>
    match (if s then st_pairs w !! fst h else None) with
    | Some pr => (Ok (arr_list (pair_secret pr) ++ digest), w)
    | None => (Err invalid, w)
    end;
  generate_random_vec := fun s n w =>
    (Ok (to_be_bytes (Z.to_nat n) (st_draws w)), MkSampleToken (st_pairs w) (st_logged_in w) (st_draws w + 1));
  generate_key_pair := fun s m public private w =>
    if (s && bool_decide (Forall settable public) && bool_decide (Forall settable private))%bool
    then let i := length (st_pairs w) in
         (Ok ((i, PUBLIC_KEY), (i, PRIVATE_KEY)),
          MkSampleToken (st_pairs w ++ [MkSamplePair (be_array 32 (st_draws w)) public private])
            (st_logged_in w) (st_draws w + 1))
    else (Err invalid, w);
  close_session := fun _ w => MkSampleToken (st_pairs w) false (st_draws w);
  pkcs11_error_text := fun _ => "error";
  join_error := fun _ => None
|}.

Lemma sample_objects_elem w slot o :
  o ∈ sample_objects w slot <->
  slot = true /\ exists i class pr, st_pairs w !! i = Some pr /\ o = sample_half i class pr.
Proof.
  unfold sample_objects. destruct slot; [|split; [intros []%not_elem_of_nil|by intros [? _]]].
  rewrite list_elem_of_In, in_concat. split.
  - intros (l & Hl & Ho). apply list_elem_of_In in Hl, Ho.
    apply elem_of_lookup_imap in Hl as (i & pr & -> & Hi). split; [done|].
    apply elem_of_cons in Ho as [->|Ho%list_elem_of_singleton]; eauto 10.
  - intros (_ & i & class & pr & Hi & ->).
    eexists. split; [by apply list_elem_of_In, elem_of_lookup_imap_2, Hi|].
    apply list_elem_of_In. destruct class; set_solver.
Qed.

Lemma Forall_settable l : Forall settable l -> filter settable l = l.
Proof.
  induction l as [|a l IH]; [done|]. intros [Ha Hl]%Forall_cons_iff.
  rewrite filter_cons_True by done. by rewrite IH.
Qed.

Lemma EcPoint_settable bytes (l : list Attribute) : EcPoint bytes ∉ filter settable l.
Proof. intros [[_ Ha] _]%list_elem_of_filter. by apply Ha. Qed.

(** The token is one as documented. *)
#[export, refine] Instance sample_token :
    Pkcs11Token SampleToken bool bool (nat * ObjectClass) sample_p256 sample_prehash (Cryptoki0 := sample_lib) := {|
  objects := sample_objects;
  logged_in := fun w _ => st_logged_in w;
  session_slot := fun s => s
|}.
Proof.
  - done.
  - intros s auth_pin w. cbn. by destruct (auth_pin =? "1234")%string, (st_logged_in w).
  - intros s template w. cbn. by destruct (st_logged_in w).
  - intros s m h digest w. cbn. by destruct (if s then _ else _).
  - intros s h types w. cbn. by destruct (if s then _ else _).
  - done.
  - done.
  - by intros slot w s w' [= <- _].
  - intros s auth_pin w r w' E [->|[f ->]]; cbn in E;
      destruct (auth_pin =? "1234")%string, (st_logged_in w) eqn:El; by simplify_eq.
  - intros s template w hs w' Hl E. cbn in E. rewrite Hl in E. by injection E as <- _.
  - intros s o digest w sig w' (-> & i & class & pr & Hi & ->)%sample_objects_elem _ E Hlen.
    cbn in E. rewrite Hi in E. injection E as <- <-.
    destruct (array_of_length 64 (arr_list (pair_secret pr) ++ digest)) as (sg & Hsg & Es);
      [unfold len in Hlen; lia|].
    exists sg. split; [done|]. by apply bool_decide_true.
  - intros s o types w attributes w' (-> & i & class & pr & Hi & ->)%sample_objects_elem E.
    cbn in E. rewrite Hi in E. injection E as <- <-. by intros a [_ ?]%list_elem_of_filter.
  - intros w slot o bytes (-> & i & class & pr & Hi & ->)%sample_objects_elem Hc _ Hb.
    exists (arr_list (pair_secret pr) ++ replicate 32 x00).
    assert (len (arr_list (pair_secret pr) ++ replicate 32 x00) = 64) as Hl
      by (unfold len; by rewrite length_app, array_length, length_replicate).
    split; [done|]. split.
    + cbn [from_sec1_bytes sample_p256]. rewrite Hl. cbn [Z.eqb].
      change (64 =? 64) with true. cbv iota.
      rewrite take_app_length' by (symmetry; apply array_length). apply array_of_list.
    + right. destruct class; cbn in Hb.
      * rewrite app_nil_r in Hb. apply elem_of_cons in Hb as [?|Hb]; [done|].
        by apply EcPoint_settable in Hb.
      * apply elem_of_cons in Hb as [?|Hb]; [done|].
        apply elem_of_app in Hb as [Hb|Hb]; [by apply EcPoint_settable in Hb|].
        apply list_elem_of_singleton in Hb. by injection Hb as ->.
  - intros s public private w hs w' E. cbn in E. destruct s; [|done].
    destruct (bool_decide (Forall settable public)) eqn:E1, (bool_decide (Forall settable private)) eqn:E2;
      try done. apply bool_decide_eq_true in E1, E2. injection E as <- <-.
    set (pr := MkSamplePair (be_array 32 (st_draws w)) public private).
    exists (pair_secret pr), (sample_attributes PUBLIC_KEY pr), (sample_attributes PRIVATE_KEY pr).
    split; [|split].
    + eexists. split; [cbn; by rewrite Forall_settable|]. intros a ->%list_elem_of_singleton. split; [done|].
      cbn. intros (a & Ha & Hin)%list_elem_of_fmap. rewrite Forall_forall in E1.
      by destruct (E1 a Hin) as [_ ?].
    + eexists. split; [cbn; by rewrite Forall_settable|]. by intros a []%not_elem_of_nil.
    + cbn [objects sample_objects st_pairs]. unfold sample_objects. cbn [st_pairs].
      rewrite imap_app, concat_app. cbn [imap concat fst snd]. rewrite Nat.add_0_r, app_nil_r.
      by rewrite Permutation_app_comm.
Defined.

(** The default configuration, and the module connected with it to the token [mtc-dev] of the second slot. *)
Definition blank_token : SampleToken := MkSampleToken [] false 7.
Definition sample_soft : SoftHsm := MkSoftHsm true (Pkcs11Config_new DEFAULT_MODULE_PATH DEFAULT_TOKEN_LABEL DEFAULT_PIN).

Example connect_defaults :
  from_env (Cryptoki0 := sample_lib) (fun _ => None) blank_token = (Ok sample_soft, blank_token) /\
  fst (from_env (Cryptoki0 := sample_lib) (fun var => if String.eqb var ENV_PIN then Some " " else None) blank_token) =
    Err (transport false ("resolving PKCS#11 config from environment: environment variable " +:+
                          "MTC_PKCS11_PIN is set but empty")%string) /\
  fst (find_slot (Cryptoki0 := sample_lib) "absent" blank_token) = Err (NotFound "token 'absent'").
Proof. split_and!; by vm_compute. Qed.

Definition sample_hsm : Hsm SampleToken := soft_hsm (Cryptoki0 := sample_lib) sample_p256 "" "" sample_sha256 sample_soft.
Definition generated_token : SampleToken :=
  snd (soft_generate_key (Cryptoki0 := sample_lib) sample_soft KeySpecEcdsaP256 blank_token).
Definition generated_label : KeyHandle := "mtc-key-00000000000000000000000000000007".
Definition exported_key : PublicKey :=
  unwrap_or (public_key_from_spki_der [])
    (fst (soft_get_public_key (Cryptoki0 := sample_lib) sample_p256 "" "" sample_soft generated_label generated_token)).
Definition soft_object : SignedCheckpointObject :=
  unwrap_or (MkSignedCheckpointObject "" [] 0)
    (fst (sign_checkpoint (H := sample_hsm) default_retry_policy generated_label (MkId [x61]) 5 (zero_array 32) 7
            (generated_token, []))).

Lemma soft_hsm_checkpoint_verifies_witness :
  exists c, parse_tls_presentation (object_bytes soft_object) = Ok c /\ tree_size c = 5 /\
    verify (H := EcdsaP256 sample_p256) c (from_spki_der ALGORITHM (public_spki_der exported_key)) = Ok tt.
Proof.
  destruct (soft_hsm_checkpoint_verifies sample_p256 sample_p256_documented sample_lib sample_prehash
    sample_sha256 "" "" (fun _ _ _ => eq_refl) sample_token sample_soft default_retry_policy
    blank_token generated_token generated_token generated_token generated_token (generated_token, []) []
    generated_label exported_key (MkId [x61]) 5 (zero_array 32) 7 soft_object)
    as (_ & c & Hc & _ & Hs & _ & _ & Hv).
  - done.
  - by split.
  - done.
  - done.
  - reflexivity.
  - etransitivity; [apply surjective_pairing|]. apply (f_equal2 pair); [vm_compute|]; reflexivity.
  - reflexivity.
  - etransitivity; [apply surjective_pairing|]. apply (f_equal2 pair); [vm_compute|]; reflexivity.
  - reflexivity.
  - etransitivity; [apply surjective_pairing|]. apply (f_equal2 pair); vm_compute; reflexivity.
  - exact (ex_intro _ c (conj Hc (conj Hs Hv))).
Defined.
