(* ===== verification/Conformance.v ===== *)
(** * The conformance suite: [crates/conformance/src/]

    The hexadecimal codec ([hex.rs]), the test-vector schema ([schema.rs]), the evaluation of a vector by
    the parsers and verifiers of the other files ([runner.rs]), and the discovery of vector files
    ([loader.rs]). Renderings of values ([Debug], Unicode lower case), the JSON reader and the file
    contents are parameters; a directory is a finite tree. *)

From Stdlib Require Import Ascii.
From stdpp Require Import sorting.
From S2P Require Import Prelude Format ParseInt Types Wire Tree Proofs Inclusion LogEntry Signing Checkpoint.

Local Open Scope Z_scope.
Local Open Scope mtc_scope.

(** ** Hexadecimal ([hex.rs]) *)

Inductive HexError : Type :=
| OddLength (len : Z)
| HexInvalidDigit (offset : Z) (found : Z).

(** [encode]. *)
Definition hex_encode (bytes : list byte) : string :=
  foldl (fun out byte => out +:+ hex_bytes [byte])%string "" bytes.

(** [hex_digit]. *)
Definition hex_nibble (b : byte) (offset : Z) : result Z HexError :=
  let c := byte_val b in
  if ((48 <=? c) && (c <=? 57))%bool then Ok (c - 48)
  else if ((97 <=? c) && (c <=? 102))%bool then Ok (c - 97 + 10)
  else if ((65 <=? c) && (c <=? 70))%bool then Ok (c - 65 + 10)
  else Err (HexInvalidDigit offset c).

(** The loop of [decode], from byte [i] on. *)
Fixpoint decode_loop (i : Z) (bytes out : list byte) : result (list byte) HexError :=
  match bytes with
  | hi :: lo :: bytes' =>
      let? hi := hex_nibble hi i in
      let? lo := hex_nibble lo (i + 1) in
      decode_loop (i + 2) bytes' (out ++ [byte_of_Z (Z.lor (Z.shiftl hi 4) lo)])
  | _ => Ok out
  end.

(** [decode]. *)
Definition hex_decode (s : string) : result (list byte) HexError :=
  let bytes := String.list_byte_of_string s in
  if negb (len bytes mod 2 =? 0) then Err (OddLength (len bytes)) else decode_loop 0 bytes [].

(** ** The schema ([schema.rs]) *)

Inductive Outcome : Type := Accept | Reject.

Record ParseExpectation (F : Type) : Type := MkParseExpectation {
  outcome : Outcome;
  fields : option F;
  error_class : option string
}.
Arguments MkParseExpectation {F}.
Arguments outcome {F}.
Arguments fields {F}.
Arguments error_class {F}.

Record VerifyExpectation (Mat : Type) : Type := MkVerifyExpectation {
  verify_outcome : Outcome;
  material : Mat;
  verify_error_class : option string
}.
Arguments MkVerifyExpectation {Mat}.
Arguments verify_outcome {Mat}.
Arguments material {Mat}.
Arguments verify_error_class {Mat}.

Record CheckpointFields : Type := MkCheckpointFields {
  cf_log_id : string;
  cf_tree_size : Z;
  cf_root_hash_hex : string;
  cf_signed_at : Z;
  cf_signature_hex : string
}.
Record CheckpointVerifyMaterial : Type := MkCheckpointVerifyMaterial {
  verifying_key_spki_hex : string
}.
Record CheckpointVector : Type := MkCheckpointVector {
  cv_id : string;
  cv_description : string;
  cv_wire_hex : string;
  cv_parse : ParseExpectation CheckpointFields;
  cv_verify : option (VerifyExpectation CheckpointVerifyMaterial)
}.

Record InclusionProofFields : Type := MkInclusionProofFields {
  pf_tree_size : Z;
  pf_leaf_index : Z;
  audit_path_hex : list string
}.
Record InclusionProofVerifyMaterial : Type := MkInclusionProofVerifyMaterial {
  leaf_hash_hex : string;
  root_hash_hex : string
}.
Record InclusionProofVector : Type := MkInclusionProofVector {
  pv_id : string;
  pv_description : string;
  pv_wire_hex : string;
  pv_parse : ParseExpectation InclusionProofFields;
  pv_verify : option (VerifyExpectation InclusionProofVerifyMaterial)
}.

Inductive LogEntryFields : Type :=
| FieldsNull
| FieldsCertificate (subject_type subject_info_hash_hex : string) (claim_count : Z).
Record LogEntryVector : Type := MkLogEntryVector {
  ev_id : string;
  ev_description : string;
  ev_wire_hex : string;
  ev_parse : ParseExpectation LogEntryFields
}.

Inductive Vector : Type :=
| CheckpointV (v : CheckpointVector)
| InclusionProofV (v : InclusionProofVector)
| LogEntryV (v : LogEntryVector).

Definition vector_id (v : Vector) : string :=
  match v with CheckpointV v => cv_id v | InclusionProofV v => pv_id v | LogEntryV v => ev_id v end.
Definition kind_name (v : Vector) : string :=
  match v with
  | CheckpointV _ => "checkpoint"
  | InclusionProofV _ => "inclusion_proof"
  | LogEntryV _ => "log_entry"
  end.
Definition description (v : Vector) : string :=
  match v with
  | CheckpointV v => cv_description v
  | InclusionProofV v => pv_description v
  | LogEntryV v => ev_description v
  end.
Definition parse_outcome (v : Vector) : Outcome :=
  match v with
  | CheckpointV v => outcome (cv_parse v)
  | InclusionProofV v => outcome (pv_parse v)
  | LogEntryV v => outcome (ev_parse v)
  end.

(** ** The runner ([runner.rs]) *)

(** The renderings the diagnostics use: [{:?}] of the program's types, of strings and of characters, and
    [str::to_lowercase]. *)
Record Rendering : Type := MkRendering {
  debug_checkpoint_parse_error : CheckpointParseError -> string;
  debug_checkpoint_verify_error : CheckpointVerifyError -> string;
  debug_wire_error : WireError -> string;
  debug_proof_error : ProofError -> string;
  debug_checkpoint : Checkpoint Signed -> string;
  debug_inclusion_proof : InclusionProof -> string;
  debug_log_entry : LogEntry -> string;
  debug_log_entry_fields : LogEntryFields -> string;
  debug_str : string -> string;
  debug_char : Z -> string;
  to_lowercase : string -> string
}.

(** [str::contains]. *)
Fixpoint contains (s sub : string) : bool :=
  (String.prefix sub s ||
   match s with EmptyString => false | String _ s' => contains s' sub end)%bool.

(** [str::eq_ignore_ascii_case]. *)
Definition eq_ignore_ascii_case (s t : string) : bool :=
  String.eqb (to_ascii_lowercase s) (to_ascii_lowercase t).

Record FieldDiff : Type := MkFieldDiff { field : string; expected : string; actual : string }.

Definition newline : string := String "010"%char EmptyString.
Definition quoted (s : string) : string := String "034"%char (s +:+ String "034"%char EmptyString).

Section Runner.
Context (text : Rendering) {hasher : Hasher} (p : P256).

Definition diff_eq (diffs : list FieldDiff) (name expected actual : string) : list FieldDiff :=
  if String.eqb expected actual then diffs else diffs ++ [MkFieldDiff name expected actual].

Definition diff_hex (diffs : list FieldDiff) (name expected_hex : string) (actual_bytes : list byte) :
    list FieldDiff :=
  let actual_hex := hex_encode actual_bytes in
  if eq_ignore_ascii_case expected_hex actual_hex then diffs
  else diffs ++ [MkFieldDiff name (to_lowercase text expected_hex) actual_hex].

Definition hex_error_text (e : HexError) : string :=
  match e with
  | OddLength n => "hex string has odd length " +:+ decimal n
  | HexInvalidDigit offset found =>
      "invalid hex digit " +:+ debug_char text found +:+ " at offset " +:+ decimal offset
  end.

Definition decode_field (name value : string) : result (list byte) string :=
  map_err (fun e => name +:+ " is not valid hex: " +:+ hex_error_text e)%string (hex_decode value).

Definition hash_error_text (e : HashOutputError) : string :=
  match e with
  | InvalidLength expected actual =>
      "hash output must be exactly " +:+ decimal expected +:+ " bytes, got " +:+ decimal actual
  end.

Definition decode_hash_field (name value : string) : result HashOutput string :=
  let? bytes := decode_field name value in
  map_err (fun e => name +:+ ": " +:+ hash_error_text e)%string (HashOutput_try_from bytes).

Definition require_fields {F} (fields : option F) : result F string :=
  ok_or fields ("vector schema error: parse.outcome is " +:+ quoted "accept" +:+
               " but parse.fields is missing")%string.

Definition format_diffs (context : string) (diffs : list FieldDiff) : string :=
  foldl (fun out d => out +:+ "  - " +:+ field d +:+ ": expected " +:+ debug_str text (expected d) +:+
                      ", actual " +:+ debug_str text (actual d) +:+ newline)%string
    (context +:+ " (structural diff):" +:+ newline)%string diffs.

Definition require_no_diffs (context : string) (diffs : list FieldDiff) : result unit string :=
  match diffs with [] => Ok tt | _ => Err (format_diffs context diffs) end.

(** [check_error_class], on the [Debug] rendering of the error. *)
Definition check_error_class (expected_class : option string) (debug : string) : result unit string :=
  match expected_class with
  | None => Err ("vector schema error: outcome is " +:+ quoted "reject" +:+
                 " but error_class is missing")%string
  | Some class =>
      if contains debug class then Ok tt
      else Err ("expected error class " +:+ debug_str text class +:+
                " not found in the actual error" +:+ newline +:+ "  actual error (Debug): " +:+ debug)%string
  end.

Definition rejected_but_expected_accept (debug : string) : string :=
  "expected ACCEPT but got a rejection" +:+ newline +:+ "  error (Debug): " +:+ debug.
Definition accepted_but_expected_reject (actual_debug : string) : string :=
  "expected REJECT but the operation succeeded" +:+ newline +:+ "  value (Debug): " +:+ actual_debug.

(** *** Checkpoints *)

Definition diff_checkpoint_fields (expected : CheckpointFields) (actual : Checkpoint Signed) :
    list FieldDiff :=
  let diffs := diff_eq [] "log_id" (cf_log_id expected) (String.string_of_list_byte (as_str (log_id actual))) in
  let diffs := diff_eq diffs "tree_size" (decimal (cf_tree_size expected)) (decimal (Checkpoint.tree_size actual)) in
  let diffs := diff_hex diffs "root_hash_hex" (cf_root_hash_hex expected) (as_bytes (root_hash actual)) in
  let diffs := diff_eq diffs "signed_at" (decimal (cf_signed_at expected)) (decimal (signed_at actual)) in
  diff_hex diffs "signature_hex" (cf_signature_hex expected) (sig_bytes (signature actual)).

(** The end of an evaluation, by the outcome expected of a verification. *)
Definition verify_result {E} (debug : E -> string) (expected : Outcome) (class : option string)
    (result_ : result unit E) : result unit string :=
  match expected, result_ with
  | Accept, Ok _ => Ok tt
  | Accept, Err err => Err (rejected_but_expected_accept (debug err))
  | Reject, Err err => check_error_class class (debug err)
  | Reject, Ok _ => Err (accepted_but_expected_reject "(): verification succeeded")
  end.

Definition evaluate_checkpoint_verify (v : VerifyExpectation CheckpointVerifyMaterial)
    (cp : Checkpoint Signed) : result unit string :=
  let? key_bytes := decode_field "verify.verifying_key_spki_hex" (verifying_key_spki_hex (material v)) in
  let key := from_spki_der EcdsaP256Sha256 key_bytes in
  verify_result (debug_checkpoint_verify_error text) (verify_outcome v) (verify_error_class v)
    (Checkpoint.verify (H := EcdsaP256 p) cp key).

Definition evaluate_checkpoint (v : CheckpointVector) : result unit string :=
  let? bytes := decode_field "wire_hex" (cv_wire_hex v) in
  match outcome (cv_parse v), parse_tls_presentation bytes with
  | Reject, Err err => check_error_class (error_class (cv_parse v)) (debug_checkpoint_parse_error text err)
  | Reject, Ok cp => Err (accepted_but_expected_reject (debug_checkpoint text cp))
  | Accept, Err err => Err (rejected_but_expected_accept (debug_checkpoint_parse_error text err))
  | Accept, Ok cp =>
      let? expected := require_fields (fields (cv_parse v)) in
      let diffs := diff_checkpoint_fields expected cp in
      let? _u := require_no_diffs "parsed checkpoint fields did not match" diffs in
      match cv_verify v with
      | Some verify => evaluate_checkpoint_verify verify cp
      | None => Ok tt
      end
  end.

(** *** Inclusion proofs *)

(** The loop over the two paths, from hash [i] on. *)
Fixpoint diff_path (i : Z) (diffs : list FieldDiff) (expected actual : list string) : list FieldDiff :=
  match expected, actual with
  | e :: expected', a :: actual' =>
      let diffs :=
        if eq_ignore_ascii_case e a then diffs
        else diffs ++ [MkFieldDiff ("audit_path_hex[" +:+ decimal i +:+ "]") (to_lowercase text e) a] in
      diff_path (i + 1) diffs expected' actual'
  | _, _ => diffs
  end.

Definition diff_inclusion_proof_fields (expected : InclusionProofFields) (actual : InclusionProof) :
    list FieldDiff :=
  let diffs := diff_eq [] "tree_size" (decimal (pf_tree_size expected)) (decimal (Inclusion.tree_size actual)) in
  let diffs := diff_eq diffs "leaf_index" (decimal (pf_leaf_index expected)) (decimal (leaf_index actual)) in
  let actual_path := map (fun h => hex_encode (as_bytes h)) (audit_path actual) in
  if len (audit_path_hex expected) =? len actual_path
  then diff_path 0 diffs (audit_path_hex expected) actual_path
  else diffs ++ [MkFieldDiff "audit_path_hex (length)" (decimal (len (audit_path_hex expected)))
                   (decimal (len actual_path))].

Definition evaluate_inclusion_proof_verify (v : VerifyExpectation InclusionProofVerifyMaterial)
    (proof : InclusionProof) : result unit string :=
  let? leaf_hash := decode_hash_field "verify.leaf_hash_hex" (leaf_hash_hex (material v)) in
  let? root_hash := decode_hash_field "verify.root_hash_hex" (root_hash_hex (material v)) in
  verify_result (debug_proof_error text) (verify_outcome v) (verify_error_class v)
    (Inclusion.verify proof leaf_hash root_hash).

Definition evaluate_inclusion_proof (v : InclusionProofVector) : result unit string :=
  let? bytes := decode_field "wire_hex" (pv_wire_hex v) in
  match outcome (pv_parse v), tls_parse_exact (T := InclusionProof) bytes with
  | Reject, Err err => check_error_class (error_class (pv_parse v)) (debug_wire_error text err)
  | Reject, Ok proof => Err (accepted_but_expected_reject (debug_inclusion_proof text proof))
  | Accept, Err err => Err (rejected_but_expected_accept (debug_wire_error text err))
  | Accept, Ok proof =>
      let? expected := require_fields (fields (pv_parse v)) in
      let diffs := diff_inclusion_proof_fields expected proof in
      let? _u := require_no_diffs "parsed inclusion proof fields did not match" diffs in
      match pv_verify v with
      | Some verify => evaluate_inclusion_proof_verify verify proof
      | None => Ok tt
      end
  end.

(** *** Log entries *)

Definition subject_type_name (t : SubjectType) : string := match t with Tls => "tls" end.

Definition diff_log_entry_fields (expected : LogEntryFields) (actual : LogEntry) : list FieldDiff :=
  match expected, actual with
  | FieldsNull, Null => []
  | FieldsCertificate subject_type_ hash_hex claim_count, Certificate entry =>
      let diffs := diff_eq [] "subject_type" subject_type_ (subject_type_name (subject_type entry)) in
      let diffs := diff_hex diffs "subject_info_hash_hex" hash_hex (as_bytes (as_hash (subject_info_hash entry))) in
      diff_eq diffs "claim_count" (decimal claim_count) (decimal (len (claims entry)))
  | expected, actual =>
      [MkFieldDiff "variant" (debug_log_entry_fields text expected) (debug_log_entry text actual)]
  end.

Definition evaluate_log_entry (v : LogEntryVector) : result unit string :=
  let? bytes := decode_field "wire_hex" (ev_wire_hex v) in
  match outcome (ev_parse v), tls_parse_exact (T := LogEntry) bytes with
  | Reject, Err err => check_error_class (error_class (ev_parse v)) (debug_wire_error text err)
  | Reject, Ok entry => Err (accepted_but_expected_reject (debug_log_entry text entry))
  | Accept, Err err => Err (rejected_but_expected_accept (debug_wire_error text err))
  | Accept, Ok entry =>
      let? expected := require_fields (fields (ev_parse v)) in
      require_no_diffs "parsed log entry fields did not match" (diff_log_entry_fields expected entry)
  end.

(** [evaluate]. *)
Definition evaluate (vector : Vector) : result unit string :=
  match vector with
  | CheckpointV v => evaluate_checkpoint v
  | InclusionProofV v => evaluate_inclusion_proof v
  | LogEntryV v => evaluate_log_entry v
  end.
End Runner.

(** ** The loader ([loader.rs])

    A path is its components below the vectors' directory. A directory entry can fail to be read, and so
    can its type; symbolic links are not followed, so that the tree is finite. *)

Definition Path : Type := list string.

Section Loader.
Context {IoError JsonError : Type}.

Inductive Node : Type :=
| NFile
| NOther
| NDir (entries : result (list (result (string * result Node IoError) IoError)) IoError).

(** What is before and after the last dot of a name. *)
Fixpoint rsplit_dot (s : string) : option (string * string) :=
  match s with
  | EmptyString => None
  | String c s' =>
      match rsplit_dot s' with
      | Some (before, after) => Some (String c before, after)
      | None => if Ascii.eqb c "." then Some (EmptyString, s') else None
      end
  end.

(** [Path::extension] of a name. *)
Definition extension (name : string) : option string :=
  match rsplit_dot name with
  | Some (before, after) => if String.eqb before "" then None else Some after
  | None => None
  end.
Definition is_json (name : string) : bool :=
  match extension name with Some ext => String.eqb ext "json" | None => false end.

Fixpoint collect (dir : Node) (path : Path) (out : list Path) : result (list Path) IoError :=
  match dir with
  | NDir (Ok entries) =>
      (fix walk (entries : list (result (string * result Node IoError) IoError)) (out : list Path) :
         result (list Path) IoError :=
       match entries with
       | [] => Ok out
       | Err e :: _ => Err e
       | Ok (name, Err e) :: _ => Err e
       | Ok (name, Ok node) :: entries' =>
           match node with
           | NDir _ => let? out := collect node (path ++ [name]) out in walk entries' out
           | NFile => walk entries' (if is_json name then out ++ [path ++ [name]] else out)
           | NOther => walk entries' out
           end
       end) entries out
  | NDir (Err e) => Err e
  | _ => Ok out
  end.

(** The order of [PathBuf]: by components, which are compared bytewise. *)
Fixpoint path_compare (a b : Path) : comparison :=
  match a, b with
  | [], [] => Eq
  | [], _ => Lt
  | _, [] => Gt
  | x :: a', y :: b' =>
      match String.compare x y with Eq => path_compare a' b' | c => c end
  end.
Definition path_le (a b : Path) : Prop := path_compare a b <> Gt.
#[export] Instance path_le_dec a b : Decision (path_le a b).
Proof. unfold path_le. apply _. Defined.

(** [discover_vector_files]. *)
Definition discover_vector_files (root : Node) : result (list Path) IoError :=
  let? out := collect root [] [] in
  Ok (merge_sort path_le out).

Inductive LoadError : Type :=
| LoadIo (path : Path) (source : IoError)
| LoadSchema (path : Path) (source : JsonError).

(** [load_vector_file], over the file system's contents and [serde_json::from_str]. *)
Definition load_vector_file (read_to_string : Path -> result string IoError)
    (from_str : string -> result Vector JsonError) (path : Path) : result Vector LoadError :=
  let? contents := map_err (LoadIo path) (read_to_string path) in
  map_err (LoadSchema path) (from_str contents).
End Loader.
