(* ===== verification/ConformanceFacts.v ===== *)
(** * Correctness of the conformance runner

    Decoding is the inverse of encoding up to the case of the digits, so that the runner, which compares
    texts, decides equality of values: a vector passes exactly when its expectations hold of what its
    bytes parse to. *)

From Stdlib Require Import Ascii.
From stdpp Require Import sorting.
From S2P Require Import Prelude Format ParseInt Types Wire WireLaws Tree TreeFacts Proofs Inclusion LogEntry Signing Checkpoint CheckpointFacts ProofCodecs Conformance.

Local Open Scope Z_scope.
Local Open Scope mtc_scope.

(** ** Hexadecimal *)

Lemma hex_encode_bytes bs : hex_encode bs = hex_bytes bs.
Proof. apply fold_hex_bytes. Qed.

(** A digit is read as the number whose lower-case digit it is. *)
Lemma hex_nibble_spec c i :
  match hex_nibble (byte_of_ascii c) i with
  | Ok d => 0 <= d < 16 /\ ascii_lower c = hex_digit d
  | Err _ => forall d, 0 <= d < 16 -> ascii_lower c <> hex_digit d
  end.
Proof.
  assert (forall d, 0 <= d < 16 -> d ∈ seqZ 0 16) as Hd by (intros d Hd; apply elem_of_seqZ; lia).
  assert (forall P : Z -> Prop, (forall d, d ∈ seqZ 0 16 -> P d) -> forall d, 0 <= d < 16 -> P d) as Hall
    by (intros P HP d Hr; apply HP, Hd, Hr).
  clear Hd. destruct c as [[] [] [] [] [] [] [] []]; cbn;
    first [ split; [lia|reflexivity] | apply Hall; apply Forall_forall; repeat constructor; discriminate ].
Qed.

Lemma nibbles_byte hi lo : 0 <= hi < 16 -> 0 <= lo < 16 ->
  hex_bytes [byte_of_Z (Z.lor (Z.shiftl hi 4) lo)] = String (hex_digit hi) (String (hex_digit lo) "").
Proof.
  intros Hh Hl. rewrite lor_shiftl_add by lia. change (2 ^ 4) with 16. cbn [hex_bytes].
  rewrite byte_val_of_Z, Z.mod_small by lia.
  rewrite Z.div_add_l, (Z.div_small lo), Z.add_0_r by lia.
  by rewrite (Z.add_comm (hi * 16)), Z.mod_add, Z.mod_small by lia.
Qed.

Lemma hex_bytes_cons b bs : hex_bytes (b :: bs) = (hex_bytes [b] +:+ hex_bytes bs)%string.
Proof. done. Qed.

Lemma length_lower s : String.length (to_ascii_lowercase s) = String.length s.
Proof. induction s as [|c s IH]; simpl; congruence. Qed.

Lemma length_list_byte s : length (String.list_byte_of_string s) = String.length s.
Proof. induction s as [|c s IH]; [done|]. cbn. by f_equal. Qed.

Lemma lower_hex_digit d : 0 <= d < 16 -> ascii_lower (hex_digit d) = hex_digit d.
Proof.
  intros Hd. assert (d ∈ seqZ 0 16) as Hin by (apply elem_of_seqZ; lia). revert d Hd Hin.
  enough (Forall (fun d => ascii_lower (hex_digit d) = hex_digit d) (seqZ 0 16)) as H.
  { intros d _ Hin. by eapply Forall_forall in H. }
  repeat constructor.
Qed.

Lemma lower_hex_bytes bs : to_ascii_lowercase (hex_bytes bs) = hex_bytes bs.
Proof.
  induction bs as [|b bs IH]; [done|]. cbn [hex_bytes to_ascii_lowercase]. pose proof (byte_val_range b).
  rewrite IH, !lower_hex_digit; [done|..]; Z.to_euclidean_division_equations; lia.
Qed.

(** The loop reads the bytes whose encoding the text is, up to the case of its digits. *)
Lemma decode_loop_iff n : forall s i out bs,
  String.length s = (2 * n)%nat ->
  decode_loop i (String.list_byte_of_string s) out = Ok bs <->
  exists bs', bs = out ++ bs' /\ to_ascii_lowercase s = hex_bytes bs'.
Proof.
  induction n as [|n IH]; intros s i out bs Hl.
  - destruct s as [|c s]; [|done]. cbn. split.
    + intros [= <-]. exists []. by rewrite app_nil_r.
    + intros (bs' & -> & E). destruct bs'; [by rewrite app_nil_r|done].
  - destruct s as [|c [|c' s]]; [done|simpl in Hl; lia|]. simpl in Hl.
    cbn [String.list_byte_of_string decode_loop].
    change (String.list_byte_of_string (String c (String c' s))) with
      (byte_of_ascii c :: byte_of_ascii c' :: String.list_byte_of_string s). cbn [decode_loop].
    pose proof (hex_nibble_spec c i) as Hc. pose proof (hex_nibble_spec c' (i + 1)) as Hc'.
    assert (forall b bs', hex_bytes (b :: bs') = to_ascii_lowercase (String c (String c' s)) ->
      ascii_lower c = hex_digit (byte_val b / 16) /\ ascii_lower c' = hex_digit (byte_val b mod 16) /\
      hex_bytes bs' = to_ascii_lowercase s) as Hinv by (intros b bs' E; by injection E as <- <- <-).
    assert (forall b, 0 <= byte_val b / 16 < 16 /\ 0 <= byte_val b mod 16 < 16) as Hr
      by (intros b; pose proof (byte_val_range b); Z.to_euclidean_division_equations; lia).
    destruct (hex_nibble (byte_of_ascii c) i) as [hi|e].
    2: { split; [done|]. intros ([|b bs'] & _ & E); [done|]. symmetry in E. apply Hinv in E as (E & _).
         by apply Hc in E; [|apply Hr]. }
    destruct (hex_nibble (byte_of_ascii c') (i + 1)) as [lo|e].
    2: { split; [done|]. intros ([|b bs'] & _ & E); [done|]. symmetry in E. apply Hinv in E as (_ & E & _).
         by apply Hc' in E; [|apply Hr]. }
    destruct Hc as [Hhi Ec], Hc' as [Hlo Ec'].
    set (b := byte_of_Z (Z.lor (Z.shiftl hi 4) lo)).
    assert (hex_bytes [b] = String (hex_digit hi) (String (hex_digit lo) "")) as Eb by by apply nibbles_byte.
    rewrite (IH s (i + 2) (out ++ [b]) bs) by lia. split.
    + intros (bs' & -> & E). exists (b :: bs'). rewrite <- app_assoc. split; [done|].
      rewrite hex_bytes_cons, Eb, <- E. cbn [to_ascii_lowercase]. by rewrite Ec, Ec'.
    + intros ([|b' bs'] & -> & E); [done|]. exists bs'.
      assert (b' = b) as ->.
      { symmetry in E. apply Hinv in E as (E1 & E2 & _). rewrite Ec in E1. rewrite Ec' in E2.
        assert (hex_bytes [b'] = hex_bytes [b]) as E3 by (rewrite Eb; cbn; by rewrite E1, E2).
        by apply hex_bytes_inj in E3 as [= ->]. }
      rewrite <- app_assoc. split; [done|]. symmetry in E. by apply Hinv in E as (_ & _ & E).
Qed.

(** A text decodes to some bytes exactly when it is their encoding, but for the case of its digits. *)
Lemma hex_decode_iff s bs : hex_decode s = Ok bs <-> eq_ignore_ascii_case s (hex_encode bs) = true.
Proof.
  unfold eq_ignore_ascii_case. rewrite String.eqb_eq, hex_encode_bytes, lower_hex_bytes.
  unfold hex_decode, len. rewrite length_list_byte.
  destruct (Nat.Even_or_Odd (String.length s)) as [[n Hn]|[n Hn]].
  - replace (Z.of_nat (String.length s) mod 2) with 0
      by (rewrite Hn, Nat2Z.inj_mul, Z.mul_comm; symmetry; by apply Z.mod_mul).
    cbn [Z.eqb negb]. rewrite (decode_loop_iff n) by done. cbn. split; [by intros (? & -> & ?)|by eauto].
  - split.
    + destruct (Z.eqb_spec (Z.of_nat (String.length s) mod 2) 0) as [E|]; [|done].
      apply Z.mod_divide in E as [k E]; lia.
    + intros E. exfalso. apply (f_equal String.length) in E. rewrite length_lower, length_hex_bytes in E. lia.
Qed.

Lemma hex_decode_encode bs : hex_decode (hex_encode bs) = Ok bs.
Proof. apply hex_decode_iff, String.eqb_refl. Qed.

(** ** Comparisons *)

Lemma prefix_iff sub s : String.prefix sub s = true <-> exists t, s = (sub +:+ t)%string.
Proof.
  revert s. induction sub as [|c sub IH]; intros s.
  - split; [intros _; by exists s|]. by destruct s.
  - destruct s as [|d s]; cbn; [split; [done|by intros [t ?]]|].
    destruct (ascii_dec c d) as [->|Hne].
    + rewrite IH. split; [intros [t ->]; by exists t|]. intros [t E]. exists t. by injection E.
    + split; [done|]. intros [t E]. by injection E.
Qed.

Lemma contains_iff s sub : contains s sub = true <-> exists a b, s = (a +:+ (sub +:+ b))%string.
Proof.
  induction s as [|c s IH]; cbn [contains]; rewrite orb_true_iff, prefix_iff.
  - split.
    + intros [[b E]|?]; [|done]. by exists ""%string, b.
    + intros ([|a] & b & E); [|done]. left. by exists b.
  - rewrite IH. split.
    + intros [[b E]|(a & b & ->)]; [by exists ""%string, b|]. by exists (String c a), b.
    + intros ([|d a] & b & E); [left; by exists b|]. right. injection E as _ ->. by exists a, b.
Qed.

(** What a vector expects, of values. *)
Definition class_named (class : option string) (debug : string) : Prop :=
  exists name, class = Some name /\ contains debug name = true.

Definition outcome_holds {E} (debug : E -> string) (expected : Outcome) (class : option string)
    (r : result unit E) : Prop :=
  match expected, r with
  | Accept, Ok _ => True
  | Reject, Err e => class_named class (debug e)
  | _, _ => False
  end.

Definition checkpoint_matches (f : CheckpointFields) (c : Checkpoint Signed) : Prop :=
  cf_log_id f = String.string_of_list_byte (as_str (log_id c)) /\
  cf_tree_size f = Checkpoint.tree_size c /\
  hex_decode (cf_root_hash_hex f) = Ok (as_bytes (root_hash c)) /\
  cf_signed_at f = signed_at c /\
  hex_decode (cf_signature_hex f) = Ok (sig_bytes (signature c)).

Definition proof_matches (f : InclusionProofFields) (proof : InclusionProof) : Prop :=
  pf_tree_size f = Inclusion.tree_size proof /\ pf_leaf_index f = leaf_index proof /\
  Forall2 (fun e h => hex_decode e = Ok (as_bytes h)) (audit_path_hex f) (audit_path proof).

Definition entry_matches (f : LogEntryFields) (e : LogEntry) : Prop :=
  match f, e with
  | FieldsNull, Null => True
  | FieldsCertificate name hash_hex count, Certificate entry =>
      name = subject_type_name (subject_type entry) /\
      hex_decode hash_hex = Ok (as_bytes (as_hash (subject_info_hash entry))) /\
      count = len (claims entry)
  | _, _ => False
  end.

Definition expectation_holds {A E F} (debug : E -> string) (x : ParseExpectation F) (parsed : result A E)
    (accepted : F -> A -> Prop) : Prop :=
  match outcome x, parsed with
  | Accept, Ok a => exists f, fields x = Some f /\ accepted f a
  | Reject, Err e => class_named (error_class x) (debug e)
  | _, _ => False
  end.

Section Holds.
Context (text : Rendering) {hasher : Hasher} (p : P256).

Definition checkpoint_verifies (v : option (VerifyExpectation CheckpointVerifyMaterial))
    (c : Checkpoint Signed) : Prop :=
  match v with
  | None => True
  | Some v => exists key, hex_decode (verifying_key_spki_hex (material v)) = Ok key /\
      outcome_holds (debug_checkpoint_verify_error text) (verify_outcome v) (verify_error_class v)
        (Checkpoint.verify (H := EcdsaP256 p) c (from_spki_der EcdsaP256Sha256 key))
  end.

Definition proof_verifies (v : option (VerifyExpectation InclusionProofVerifyMaterial))
    (proof : InclusionProof) : Prop :=
  match v with
  | None => True
  | Some v => exists leaf root : HashOutput,
      hex_decode (leaf_hash_hex (material v)) = Ok (as_bytes leaf) /\
      hex_decode (root_hash_hex (material v)) = Ok (as_bytes root) /\
      outcome_holds (debug_proof_error text) (verify_outcome v) (verify_error_class v)
        (Inclusion.verify proof leaf root)
  end.

Definition vector_holds (v : Vector) : Prop :=
  match v with
  | CheckpointV v => exists bytes, hex_decode (cv_wire_hex v) = Ok bytes /\
      expectation_holds (debug_checkpoint_parse_error text) (cv_parse v) (parse_tls_presentation bytes)
        (fun f c => checkpoint_matches f c /\ checkpoint_verifies (cv_verify v) c)
  | InclusionProofV v => exists bytes, hex_decode (pv_wire_hex v) = Ok bytes /\
      expectation_holds (debug_wire_error text) (pv_parse v) (tls_parse_exact (T := InclusionProof) bytes)
        (fun f proof => proof_matches f proof /\ proof_verifies (pv_verify v) proof)
  | LogEntryV v => exists bytes, hex_decode (ev_wire_hex v) = Ok bytes /\
      expectation_holds (debug_wire_error text) (ev_parse v) (tls_parse_exact (T := LogEntry) bytes) entry_matches
  end.
End Holds.

(** The numbers of a vector are unsigned, and its wire bytes fit the address space. *)
Definition representable (v : Vector) : Prop :=
  match v with
  | CheckpointV v => len (String.list_byte_of_string (cv_wire_hex v)) <= isize_max /\
      from_option (fun f => 0 <= cf_tree_size f /\ 0 <= cf_signed_at f) True (fields (cv_parse v))
  | InclusionProofV v => len (String.list_byte_of_string (pv_wire_hex v)) <= isize_max /\
      from_option (fun f => 0 <= pf_tree_size f /\ 0 <= pf_leaf_index f) True (fields (pv_parse v))
  | LogEntryV v => len (String.list_byte_of_string (ev_wire_hex v)) <= isize_max /\
      from_option (fun f => match f with FieldsCertificate _ _ n => 0 <= n | FieldsNull => True end) True
        (fields (ev_parse v))
  end.

Lemma check_error_class_iff text class debug :
  check_error_class text class debug = Ok tt <-> class_named class debug.
Proof.
  unfold check_error_class, class_named. destruct class as [name|]; [|split; [done|by intros (?&?&?)]].
  destruct (contains debug name) eqn:E; split; try done.
  - intros _. by exists name.
  - intros (n & [= <-] & ?). congruence.
Qed.

Lemma verify_result_iff {E} text (debug : E -> string) expected class (r : result unit E) :
  verify_result text debug expected class r = Ok tt <-> outcome_holds debug expected class r.
Proof.
  unfold verify_result, outcome_holds. destruct expected, r; try done. apply check_error_class_iff.
Qed.

Lemma decode_field_Ok text name s bs : decode_field text name s = Ok bs <-> hex_decode s = Ok bs.
Proof. unfold decode_field. destruct (hex_decode s); cbn; split; congruence. Qed.

Lemma decode_hash_field_Ok text name s (h : HashOutput) :
  decode_hash_field text name s = Ok h <-> hex_decode s = Ok (as_bytes h).
Proof.
  unfold decode_hash_field. destruct (decode_field text name s) as [bs|e] eqn:Ed.
  - apply decode_field_Ok in Ed. unfold HashOutput_try_from. rewrite Ed.
    destruct (array_of HashOutput_LEN bs) as [a|] eqn:Ea; cbn.
    + apply array_of_Some in Ea as <-. unfold as_bytes. split; [by intros [= ->]|]. intros [= E].
      f_equal. by apply array_eq.
    + split; [done|]. intros [= ->]. unfold as_bytes in Ea. by rewrite array_of_list in Ea.
  - split; [done|]. intros E. apply (decode_field_Ok text name) in E. congruence.
Qed.

Lemma diff_eq_nil diffs name e a : diff_eq diffs name e a = [] <-> diffs = [] /\ e = a.
Proof.
  unfold diff_eq. destruct (String.eqb_spec e a) as [->|Hne]; [tauto|].
  split; [intros H; by apply app_nil in H as [_ ?]|tauto].
Qed.

Lemma diff_hex_nil text diffs name e bs : diff_hex text diffs name e bs = [] <-> diffs = [] /\ hex_decode e = Ok bs.
Proof.
  unfold diff_hex. rewrite hex_decode_iff. destruct (eq_ignore_ascii_case e (hex_encode bs)); [tauto|].
  split; [intros H; by apply app_nil in H as [_ ?]|by intros []].
Qed.

Lemma diff_path_nil text : forall e hs i diffs, length e = length hs ->
  diff_path text i diffs e (map (fun h : HashOutput => hex_encode (as_bytes h)) hs) = [] <->
  diffs = [] /\ Forall2 (fun x h => hex_decode x = Ok (as_bytes h)) e hs.
Proof.
  induction e as [|x e IH]; intros [|h hs] i diffs Hl; try done.
  - cbn. split; [by split|tauto].
  - injection Hl as Hl. cbn [map diff_path]. rewrite IH by done. rewrite Forall2_cons, hex_decode_iff.
    destruct (eq_ignore_ascii_case x _); [tauto|].
    split; [intros [H _]; by apply app_nil in H as [_ ?]|by intros (_ & ? & _)].
Qed.

Lemma decimal_eq n m : 0 <= n -> 0 <= m -> decimal n = decimal m <-> n = m.
Proof. intros Hn Hm. split; [by apply decimal_inj|by intros ->]. Qed.

(** No difference is reported exactly when the values are as expected. *)
Section Exact.
Context (text : Rendering) {hasher : Hasher} (p : P256).

Lemma diff_checkpoint_nil f c :
  0 <= cf_tree_size f -> 0 <= cf_signed_at f -> checkpoint_ok c ->
  diff_checkpoint_fields text f c = [] <-> checkpoint_matches f c.
Proof.
  intros Hn Ht (_ & [Hn' _] & [Ht' _]). unfold diff_checkpoint_fields, checkpoint_matches.
  rewrite diff_hex_nil, diff_eq_nil, diff_hex_nil, !diff_eq_nil, !decimal_eq by done. tauto.
Qed.

Lemma diff_inclusion_nil f proof :
  0 <= pf_tree_size f -> 0 <= pf_leaf_index f -> 0 <= Inclusion.tree_size proof -> 0 <= leaf_index proof ->
  diff_inclusion_proof_fields text f proof = [] <-> proof_matches f proof.
Proof.
  intros Hn Hi Hn' Hi'. unfold diff_inclusion_proof_fields, proof_matches. unfold len. rewrite length_map.
  destruct (Z.eqb_spec (Z.of_nat (length (audit_path_hex f))) (Z.of_nat (length (audit_path proof)))) as [E|E].
  - rewrite diff_path_nil, !diff_eq_nil, !decimal_eq by lia. tauto.
  - split; [intros H; by apply app_nil in H as [_ ?]|]. intros (_ & _ & H%Forall2_length). lia.
Qed.

Lemma diff_entry_nil f e :
  (match f with FieldsCertificate _ _ n => 0 <= n | FieldsNull => True end) ->
  diff_log_entry_fields text f e = [] <-> entry_matches f e.
Proof.
  intros Hn. unfold diff_log_entry_fields, entry_matches. destruct f as [|name hash_hex n], e as [|entry]; try done.
  rewrite !diff_eq_nil, diff_hex_nil, diff_eq_nil, decimal_eq by (done || apply len_nonneg). tauto.
Qed.

Lemma require_no_diffs_iff context diffs : require_no_diffs text context diffs = Ok tt <-> diffs = [].
Proof. by destruct diffs. Qed.

(** The shape the three evaluations share. *)
Lemma evaluation_iff {A E F} (debug : E -> string) (shown : A -> string) (x : ParseExpectation F)
    (parsed : result A E) (check : F -> A -> result unit string) (accepted : F -> A -> Prop) :
  (forall f a, fields x = Some f -> parsed = Ok a -> check f a = Ok tt <-> accepted f a) ->
  match outcome x, parsed with
  | Reject, Err err => check_error_class text (error_class x) (debug err)
  | Reject, Ok a => Err (accepted_but_expected_reject (shown a))
  | Accept, Err err => Err (rejected_but_expected_accept (debug err))
  | Accept, Ok a => let? expected := require_fields (fields x) in check expected a
  end = Ok tt <-> expectation_holds debug x parsed accepted.
Proof.
  intros Hc. unfold expectation_holds. destruct (outcome x), parsed as [a|err]; try done.
  - unfold require_fields. destruct (fields x) as [f|] eqn:Ef; cbn [ok_or].
    + rewrite Hc by done. split; [intros H; by exists f|]. by intros (f' & [= ->] & ?).
    + split; [done|]. by intros (f' & ? & _).
  - apply check_error_class_iff.
Qed.

Lemma sequel_iff (a b : result unit string) (P Q : Prop) :
  (a = Ok tt <-> P) -> (b = Ok tt <-> Q) -> (let? _u := a in b) = Ok tt <-> P /\ Q.
Proof. intros Ha Hb. rewrite <- Ha, <- Hb. destruct a as [[]|]; split; try done; tauto. Qed.

Lemma evaluate_checkpoint_verify_iff v c :
  evaluate_checkpoint_verify text p v c = Ok tt <-> checkpoint_verifies text p (Some v) c.
Proof.
  unfold evaluate_checkpoint_verify, checkpoint_verifies.
  destruct (decode_field text _ _) as [key|e] eqn:E.
  - apply decode_field_Ok in E. rewrite verify_result_iff. split; [by exists key|].
    intros (key' & E' & H). assert (key' = key) as -> by congruence. done.
  - split; [done|]. intros (key & Ek & _). eapply decode_field_Ok in Ek. rewrite Ek in E. done.
Qed.

Lemma evaluate_inclusion_proof_verify_iff v proof :
  evaluate_inclusion_proof_verify text v proof = Ok tt <-> proof_verifies text (Some v) proof.
Proof.
  unfold evaluate_inclusion_proof_verify, proof_verifies.
  destruct (decode_hash_field text _ (leaf_hash_hex _)) as [leaf|e] eqn:E1;
    [|split; [done|]; intros (leaf & root & El & _); eapply decode_hash_field_Ok in El; rewrite El in E1; done].
  destruct (decode_hash_field text _ (root_hash_hex _)) as [root|e] eqn:E2;
    [|split; [done|]; intros (leaf' & root & _ & El & _); eapply decode_hash_field_Ok in El; rewrite El in E2; done].
  rewrite verify_result_iff. pose proof (proj1 (decode_hash_field_Ok _ _ _ _) E1) as H1.
  pose proof (proj1 (decode_hash_field_Ok _ _ _ _) E2) as H2. split; [by exists leaf, root|].
  intros (leaf' & root' & H1' & H2' & H). rewrite H1 in H1'. rewrite H2 in H2'.
  injection H1' as ->%array_eq. injection H2' as ->%array_eq. done.
Qed.

Lemma decoded_fits text' name s bs :
  decode_field text' name s = Ok bs -> len (String.list_byte_of_string s) <= isize_max -> len bs <= isize_max.
Proof.
  intros E%decode_field_Ok%hex_decode_iff. apply String.eqb_eq, (f_equal String.length) in E.
  rewrite !length_lower, hex_encode_bytes, length_hex_bytes in E. unfold len. rewrite length_list_byte. lia.
Qed.
End Exact.

Lemma evaluate_iff {hasher : Hasher} (text : Rendering) (p : P256) (vector : Vector) :
  representable vector -> evaluate text p vector = Ok tt <-> vector_holds text p vector.
Proof.
  intros Hr. destruct vector as [v|v|v]; destruct Hr as [Hl Hf];
    cbn [evaluate vector_holds]; unfold evaluate_checkpoint, evaluate_inclusion_proof, evaluate_log_entry;
    destruct (decode_field text "wire_hex" _) as [bytes|e] eqn:Ed.
  all: try (split; [done|]; intros (bytes & Eb & _); eapply decode_field_Ok in Eb; rewrite Eb in Ed; done).
  all: pose proof (decoded_fits text _ _ _ Ed Hl) as Hfit; apply decode_field_Ok in Ed.
  all: rewrite evaluation_iff;
    [split; [by exists bytes|]; intros (bytes' & E & H); assert (bytes' = bytes) as -> by congruence; exact H|].
  all: intros f a Ef Ea; rewrite Ef in Hf; cbn in Hf.
  - apply sequel_iff; [|destruct (cv_verify v) as [vv|]; [apply evaluate_checkpoint_verify_iff|done]].
    rewrite require_no_diffs_iff. apply diff_checkpoint_nil; [tauto..|].
    by apply parse_tls_presentation_iff in Ea as [? _].
  - apply sequel_iff; [|destruct (pv_verify v) as [vv|]; [apply evaluate_inclusion_proof_verify_iff|done]].
    apply (tls_exact_iff (H := inclusion_laws)) in Ea as [[[? _] [? _]] _]; [|done..].
    rewrite require_no_diffs_iff. destruct Hf. by apply diff_inclusion_nil.
  - rewrite require_no_diffs_iff. by apply diff_entry_nil.
Qed.

(** C37. The runner decides its vectors' expectations: for every vector whose numbers are unsigned,
    [evaluate] returns [Ok] exactly if the wire text decodes to bytes and, when acceptance is expected,
    the program's parser accepts them as a value with the expected fields, on which verification, if
    asked for, ends as expected; when rejection is expected, the parser rejects them with an error whose
    rendering contains the class named. Its comparisons of texts are comparisons of values. *)
Theorem evaluate_exact {hasher : Hasher} (text : Rendering) (p : P256) (vector : Vector) :
  representable vector -> evaluate text p vector = Ok tt <-> vector_holds text p vector.
Proof. apply evaluate_iff. Qed.

Lemma length_hex_text bs : len (String.list_byte_of_string (hex_encode bs)) = 2 * len bs.
Proof. unfold len. rewrite length_list_byte, hex_encode_bytes, length_hex_bytes. lia. Qed.

(** ** Discovery *)

Section Discovery.
Context {IoError : Type}.

(** A [json] file below a directory, at a path of directories. *)
Inductive json_at : Node (IoError := IoError) -> Path -> Prop :=
| json_here entries name :
    Ok (name, Ok NFile) ∈ entries -> is_json name = true -> json_at (NDir (Ok entries)) [name]
| json_below entries name node path :
    Ok (name, Ok node) ∈ entries -> json_at node path -> json_at (NDir (Ok entries)) (name :: path).

Lemma json_at_dir node path : json_at node path -> exists entries, node = NDir entries.
Proof. intros []; eauto. Qed.

Lemma json_at_leaf d prefix : (forall es, d <> NDir es) -> forall path : Path,
  path ∈ @nil Path <-> exists rel, path = prefix ++ rel /\ json_at d rel.
Proof.
  intros Hd path. split; [intros []%not_elem_of_nil|]. intros (rel & _ & Hj).
  apply json_at_dir in Hj as [es ->]. by destruct (Hd es).
Qed.

Lemma json_at_nil rel : ~ json_at (NDir (Ok [])) rel.
Proof. intros Hj. inversion Hj as [? ? Hin|? ? ? ? Hin]; by apply not_elem_of_nil in Hin. Qed.

(** What the first entry adds. *)
Lemma json_at_cons entry entries rel :
  json_at (NDir (Ok (entry :: entries))) rel <->
  json_at (NDir (Ok entries)) rel \/
  exists name node, entry = Ok (name, Ok node) /\
    ((node = NFile /\ is_json name = true /\ rel = [name]) \/
     exists rel', rel = name :: rel' /\ json_at node rel').
Proof.
  split.
  - intros Hj. inversion Hj as [? name Hin Hjson|? name node rel' Hin Hj']; subst.
    + apply elem_of_cons in Hin as [<-|Hin]; [right; eauto 10|left; by constructor].
    + apply elem_of_cons in Hin as [<-|Hin]; [right; eauto 10|left; by econstructor].
  - intros [Hj|(name & node & -> & [(-> & ? & ->)|(rel' & -> & ?)])].
    + inversion Hj; subst; econstructor; try apply elem_of_cons; eauto.
    + constructor; [apply elem_of_cons; by left|done].
    + econstructor; [apply elem_of_cons; by left|done].
Qed.

(** One entry of a directory: it adds [added] to what the others add. *)
Lemma collect_step (prefix : Path) entry entries (added found : list Path) :
  (forall path, path ∈ found <-> exists rel, path = prefix ++ rel /\ json_at (NDir (Ok entries)) rel) ->
  (forall path, path ∈ added <-> exists name node rel, entry = Ok (name, Ok node) /\ path = prefix ++ rel /\
     ((node = NFile /\ is_json name = true /\ rel = [name]) \/
      exists rel', rel = name :: rel' /\ json_at node rel')) ->
  forall path, path ∈ added ++ found <->
    exists rel, path = prefix ++ rel /\ json_at (NDir (Ok (entry :: entries))) rel.
Proof.
  intros Hf Ha path. rewrite elem_of_app, Hf, Ha. setoid_rewrite json_at_cons. split.
  - intros [(name & node & rel & -> & -> & H)|(rel & -> & H)]; eauto 10.
  - intros (rel & -> & [H|(name & node & -> & H)]); eauto 10.
Qed.

Lemma collect_Ok : forall (dir : Node) prefix out out',
  collect dir prefix out = Ok out' ->
  exists found, out' = out ++ found /\
    forall path, path ∈ found <-> exists rel, path = prefix ++ rel /\ json_at dir rel.
Proof.
  fix IH 1. intros dir prefix out out'.
  destruct dir as [| |[entries|e]]; cbn [collect].
  - intros [= <-]. exists []. rewrite app_nil_r. split; [reflexivity|]. by apply json_at_leaf.
  - intros [= <-]. exists []. rewrite app_nil_r. split; [reflexivity|]. by apply json_at_leaf.
  - revert out out'. induction entries as [|entry entries IHe]; intros out out' E.
    + injection E as <-. exists []. rewrite app_nil_r. split; [reflexivity|]. intros path.
      split; [intros []%not_elem_of_nil|]. by intros (rel & _ & []%json_at_nil).
    + destruct entry as [[name [node|e]]|e]; [|discriminate E..].
      pose proof (IH node (prefix ++ [name]) out) as IHn. clear IH. destruct node as [| |sub].
      * apply IHe in E as (found & -> & Hf).
        exists ((if is_json name then [prefix ++ [name]] else []) ++ found).
        split; [destruct (is_json name); by rewrite <- ?app_assoc|].
        apply collect_step; [exact Hf|]. clear. intros path. split.
        -- destruct (is_json name) eqn:Ej; [|intros []%not_elem_of_nil].
           intros ->%list_elem_of_singleton. exists name, NFile, [name]. auto 10.
        -- intros (n & d & rel & [= <- <-] & -> & [(_ & -> & ->)|(rel' & _ & Hj)]); [|by inversion Hj].
           by apply list_elem_of_singleton.
      * apply IHe in E as (found & -> & Hf). exists ([] ++ found). split; [reflexivity|].
        apply collect_step; [exact Hf|]. clear. intros path. split; [intros []%not_elem_of_nil|].
        by intros (n & d & rel & [= <- <-] & -> & [(? & _)|(rel' & _ & Hj)]); [|inversion Hj].
      * destruct (collect (NDir sub) (prefix ++ [name]) out) as [out1|] eqn:E1; [|discriminate E].
        destruct (IHn out1 eq_refl) as (found1 & -> & Hf1). apply IHe in E as (found2 & -> & Hf2). clear IHn IHe.
        exists (found1 ++ found2). rewrite <- app_assoc. split; [reflexivity|].
        apply collect_step; [exact Hf2|]. intros path. rewrite Hf1. clear. split.
        -- intros (rel & -> & ?). exists name, (NDir sub), (name :: rel). rewrite <- app_assoc. eauto 10.
        -- intros (n & d & rel & [= <- <-] & -> & [(? & _)|(rel' & -> & Hj)]); [done|].
           exists rel'. by rewrite <- app_assoc.
  - intros E. discriminate E.
Qed.

Lemma path_compare_antisym a : forall b, path_compare b a = CompOpp (path_compare a b).
Proof.
  induction a as [|x a IH]; intros [|y b]; try done. cbn [path_compare].
  rewrite (String.compare_antisym x y). by destruct (String.compare y x); cbn; [apply IH| |].
Qed.

#[local] Instance path_le_total : Total path_le.
Proof.
  intros a b. unfold path_le. rewrite (path_compare_antisym a b). destruct (path_compare a b); cbn; auto;
    by (left || right).
Qed.

(** The files found are the [json] files of the tree, dotfiles with that extension among them, in order. *)
Theorem discover_exact (root : Node) (found : list Path) :
  discover_vector_files root = Ok found ->
  Sorted path_le found /\ forall path, path ∈ found <-> json_at root path.
Proof.
  unfold discover_vector_files. destruct (collect root [] []) as [out|] eqn:E; [|done]. intros [= <-].
  apply collect_Ok in E as (files & -> & Hf). split; [exact (Sorted_merge_sort path_le _)|]. intros path.
  rewrite merge_sort_Permutation. cbn [app]. rewrite Hf. split; [by intros (rel & -> & ?)|by eauto].
Qed.
End Discovery.

(** ** Examples *)

(** Renderings that name the variants. *)
Definition sample_text : Rendering := {|
  debug_checkpoint_parse_error := fun e =>
    match e with
    | TrustAnchorIdEmpty _ => "TrustAnchorIdEmpty"
    | LogIdNotUtf8 _ => "LogIdNotUtf8"
    | ParseWire (TrailingBytes _ _) => "Wire(TrailingBytes)"
    | ParseWire _ => "Wire"
    end;
  debug_checkpoint_verify_error := fun _ => "error";
  debug_wire_error := fun e =>
    match e with
    | LengthOverflow _ _ _ => "LengthOverflow"
    | InvalidValue _ _ => "InvalidValue"
    | _ => "error"
    end;
  debug_proof_error := fun e => match e with RootMismatch => "RootMismatch" | _ => "error" end;
  debug_checkpoint := fun _ => "checkpoint";
  debug_inclusion_proof := fun _ => "proof";
  debug_log_entry := fun _ => "entry";
  debug_log_entry_fields := fun _ => "fields";
  debug_str := quoted;
  debug_char := fun c => String (ascii_of_N (Z.to_N c)) "";
  to_lowercase := to_ascii_lowercase
|}.

(** The committed certificate entry meets its expectations; with another count it does not. *)
Definition committed_entry (count : Z) : Vector :=
  LogEntryV (MkLogEntryVector "log-entry-accept-certificate" "a certificate entry"
    ("000100001111111111111111111111111111111111111111111111111111111111111111" +:+
     "00120000000e000c0b6578616d706c652e636f6d")
    (MkParseExpectation Accept (Some (FieldsCertificate "tls"
       "1111111111111111111111111111111111111111111111111111111111111111" count)) None)).

Lemma committed_entry_representable n : 0 <= n -> representable (committed_entry n).
Proof. intros Hn. split; [by apply Z.leb_le; vm_compute|exact Hn]. Qed.

Lemma evaluate_exact_witness :
  vector_holds (hasher := ToyHasher) sample_text toy_p256 (committed_entry 1) /\
  ~ vector_holds (hasher := ToyHasher) sample_text toy_p256 (committed_entry 2).
Proof.
  split.
  - refine (proj1 (evaluate_exact (hasher := ToyHasher) sample_text toy_p256 (committed_entry 1) _) _).
    + apply committed_entry_representable. lia.
    + vm_compute. reflexivity.
  - intros H. enough (evaluate (hasher := ToyHasher) sample_text toy_p256 (committed_entry 2) = Ok tt) as E
      by (vm_compute in E; discriminate E).
    refine (proj2 (evaluate_exact (hasher := ToyHasher) sample_text toy_p256 (committed_entry 2) _) H).
    apply committed_entry_representable. lia.
Defined.

(** A dotfile with the extension is found; a directory that cannot be read fails the discovery. *)
Example discovered :
  discover_vector_files (IoError := unit) (NDir (Ok
    [Ok ("log-entry", Ok (NDir (Ok [Ok ("b.json", Ok NFile); Ok ("a.json", Ok NFile); Ok ("README.md", Ok NFile)])));
     Ok ("checkpoint", Ok (NDir (Ok [Ok (".hidden.json", Ok NFile); Ok (".json", Ok NFile)])))]))%string
  = Ok [["checkpoint"; ".hidden.json"]; ["log-entry"; "a.json"]; ["log-entry"; "b.json"]]%string /\
  discover_vector_files (NDir (Ok [Ok ("x"%string, Ok (NDir (Err tt)))])) = Err tt /\
  discover_vector_files (IoError := unit) NFile = Ok [].
Proof. split_and!; by vm_compute. Qed.
