(* ===== verification/VectorGenerator.v ===== *)
(** * The seed vectors: [crates/conformance/examples/generate_vectors.rs]

    The fixtures built by the real serializers and the vectors made of them, some deliberately
    corrupted. A failure is [None]; writing the files is left out. *)

From Stdlib Require Import Ascii.
From S2P Require Import Prelude Format Types Wire Tree Inclusion LogEntry Signing Checkpoint Conformance.

Local Open Scope Z_scope.
Local Open Scope mtc_scope.

Definition SIGNING_KEY_HEX : string :=
  "C9AFA9D845BA75166B5C215767B1D6934E50C3DB36E89B127B8A622B120F6721".
Definition VERIFYING_KEY_SEC1_HEX : string :=
  "04" +:+ "60FED4BA255A9D31C961EB74C6356D68C049B8923B61FA6CE669622E60F29FB6" +:+
  "7903FE1008B8BC99A41AE9E95628BC64F2F1B20C2D7E9F5177A3C294D4462299".

Notation "'let*' x ':=' e 'in' k" :=
  (match ok e with Some x => k | None => None end)
  (at level 10, x name, e at level 100, k at level 200) : mtc_scope.

Definition bytes_of (s : string) : list byte := String.list_byte_of_string s.

(** ** The descriptions of the vectors *)

Definition describe_checkpoint_accept_001 : string :=
    ("Happy path (spec §19.4 AC). A signed Checkpoint built via CheckpointBuilder, signed " +:+
     "with ECDSA P-256 under the RFC 6979 Appendix A.2.5 test key, and serialized with " +:+
     "Checkpoint::serialize_tls_presentation. Exercises parse accept and verify accept.")%string.
Definition describe_checkpoint_reject_empty_trust_anchor_id : string :=
    ("Must-reject. A single 0x00 length-prefix byte for the TrustAnchorID (log id) field: " +:+
     "below the draft's opaque<1..2^8-1> minimum of 1 byte. Not derived from a serializer " +:+
     "call (no valid Checkpoint is this short) — this is the exact byte sequence " +:+
     "crates/mtc/src/checkpoint/mod.rs's own parse_rejects_empty_trust_anchor_id unit " +:+
     "test already asserts is correct, reused rather than invented.")%string.
Definition describe_checkpoint_reject_non_utf8_log_id : string :=
    ("Must-reject. TrustAnchorID length prefix 0x01 followed by the single byte 0xFF, " +:+
     "which is not valid UTF-8. Reuses the exact byte sequence " +:+
     "crates/mtc/src/checkpoint/mod.rs's own parse_rejects_non_utf8_log_id unit test " +:+
     "asserts is correct.")%string.
Definition describe_checkpoint_reject_trailing_bytes : string :=
    ("Must-reject. checkpoint-accept-001's real serialized bytes with one stray byte " +:+
     "(0x99) appended — TlsReader::finish rejects any unconsumed suffix after a " +:+
     "structurally complete checkpoint.")%string.
Definition describe_inclusion_proof_accept_001 : string :=
    ("Happy path (spec §19.4 AC). InclusionProof::generate for leaf index 5 of a 13-leaf " +:+
     "tree of certificate LogEntry leaves (subject_info_hash encodes the index), each " +:+
     "appended as the framed LeafBytes the CA write path commits, serialized with " +:+
     "tls_serialize_to_vec. Exercises parse accept and verify accept; leaf_hash_hex is " +:+
     "LogEntry::leaf_hash::<Sha256Hasher> of leaf 5.")%string.
Definition describe_inclusion_proof_reject_truncated : string :=
    ("Must-reject. inclusion-proof-accept-001's real serialized bytes with the final byte " +:+
     "dropped: the audit_path vector's own u16 length prefix (still the original claimed " +:+
     "body length) now exceeds the bytes actually remaining in the truncated input, so " +:+
     "the bounded reader rejects it as LengthOverflow before reading any element (caught " +:+
     "at the outer length-prefix check, ahead of the per-element 32-byte reads).")%string.
Definition describe_inclusion_proof_reject_root_mismatch : string :=
    ("Must-reject (verify, not parse). inclusion-proof-accept-001's real serialized bytes " +:+
     "with the last bit of the final audit-path hash flipped: still a structurally " +:+
     "well-formed proof (parse accepts), but verify() reconstructs a different root than " +:+
     "the true one, so it rejects with RootMismatch.")%string.
Definition describe_log_entry_accept_null : string :=
    ("Happy path. The spec-defined null_entry placeholder (LogEntry::null), serialized " +:+
     "with tls_serialize_to_vec — the constant two-byte `00 00` form (type = " +:+
     "null_entry(0), Empty body).")%string.
Definition describe_log_entry_accept_certificate : string :=
    ("Happy path. A TbsCertificateLogEntry (subject_type = tls, a fixed " +:+
     "subject_info_hash, one dns claim for " +:+
     quoted "example.com" +:+
     ") wrapped as LogEntry::Certificate and serialized with tls_serialize_to_vec.")%string.
Definition describe_log_entry_reject_unknown_type : string :=
    ("Must-reject. A MerkleTreeCertEntryType discriminant of 2, which is neither " +:+
     "null_entry(0) nor tbs_cert_entry(1) — LogEntry::tls_parse's catch-all match arm " +:+
     "rejects it as InvalidValue. The two bytes are the real u16 TLS-presentation " +:+
     "encoding of 2.")%string.

Section Generator.
Context {hasher : Hasher} (p : P256).

Definition signing_keypair : option (SigningKey * VerifyingKey) :=
  let* secret := hex_decode SIGNING_KEY_HEX in
  let* signing := signing_key_from_bytes p secret in
  let* public := hex_decode VERIFYING_KEY_SEC1_HEX in
  let* verifying := verifying_key_from_sec1 p public in
  Some (signing, verifying).

(** ** Checkpoints *)

Record CheckpointFixture : Type := MkCheckpointFixture {
  cfix_wire : list byte;
  cfix_fields : CheckpointFields;
  cfix_verifying_key_spki_hex : string
}.

Definition fixture_root : HashOutput := be_array 32 (from_be_bytes (replicate 32 x7f)).

Definition build_checkpoint_fixture : option CheckpointFixture :=
  match signing_keypair with
  | None => None
  | Some (signing, verifying) =>
      let* log_id := Id_new (Tag := LogTag) (bytes_of "prod-log-1") in
      let tree_size := 12345 in
      let signed_at := 1700000000 in
      let* signed := sign (H := EcdsaP256 p)
        (build (builder_signed_at (builder_tree_size (builder_root_hash (builder_new log_id) fixture_root)
           tree_size) signed_at)) signing in
      let* wire := serialize_tls_presentation signed in
      Some (MkCheckpointFixture wire
        (MkCheckpointFields (String.string_of_list_byte (as_str log_id)) tree_size
           (hex_encode (as_bytes fixture_root)) signed_at (hex_encode (sig_bytes (signature signed))))
        (hex_encode (spki_der verifying)))
  end.

Definition checkpoint_accept_vector (fixture : CheckpointFixture) : Vector :=
  CheckpointV (MkCheckpointVector "checkpoint-accept-001" describe_checkpoint_accept_001
    (hex_encode (cfix_wire fixture)) (MkParseExpectation Accept (Some (cfix_fields fixture)) None)
    (Some (MkVerifyExpectation Accept
             (MkCheckpointVerifyMaterial (cfix_verifying_key_spki_hex fixture)) None))).

Definition checkpoint_reject_empty_trust_anchor_id_vector : Vector :=
  CheckpointV (MkCheckpointVector "checkpoint-reject-empty-trust-anchor-id"
    describe_checkpoint_reject_empty_trust_anchor_id (hex_encode [x00])
    (MkParseExpectation Reject None (Some "TrustAnchorIdEmpty"%string)) None).

Definition checkpoint_reject_non_utf8_log_id_vector : Vector :=
  CheckpointV (MkCheckpointVector "checkpoint-reject-non-utf8-log-id"
    describe_checkpoint_reject_non_utf8_log_id (hex_encode [x01; xff])
    (MkParseExpectation Reject None (Some "LogIdNotUtf8"%string)) None).

Definition checkpoint_reject_trailing_bytes_vector (fixture : CheckpointFixture) : Vector :=
  CheckpointV (MkCheckpointVector "checkpoint-reject-trailing-bytes" describe_checkpoint_reject_trailing_bytes
    (hex_encode (cfix_wire fixture ++ [x99]))
    (MkParseExpectation Reject None (Some "TrailingBytes"%string)) None).

Definition checkpoint_vectors : option (list Vector) :=
  match build_checkpoint_fixture with
  | None => None
  | Some fixture => Some [checkpoint_accept_vector fixture; checkpoint_reject_empty_trust_anchor_id_vector;
      checkpoint_reject_non_utf8_log_id_vector; checkpoint_reject_trailing_bytes_vector fixture]
  end.

(** ** Inclusion proofs *)

Record InclusionProofFixture : Type := MkInclusionProofFixture {
  pfix_wire : list byte;
  pfix_fields : InclusionProofFields;
  pfix_leaf_hash_hex : string;
  pfix_root_hash_hex : string
}.

Definition inclusion_proof_fields (proof : InclusionProof) : InclusionProofFields :=
  MkInclusionProofFields (Inclusion.tree_size proof) (leaf_index proof)
    (map (fun h => hex_encode (as_bytes h)) (audit_path proof)).

(** The hash is the index in eight bytes, then zeros. *)
Definition inclusion_entry (i : Z) : LogEntry :=
  Certificate (build_entry (with_subject_info_hash (with_subject_type entry_builder_new Tls)
    (from_hash (be_array 32 (from_be_bytes (to_be_bytes 8 i ++ replicate 24 x00)))))).

(** [for i in 0..n { tree.append(..) }], from [i] on. *)
Fixpoint append_entries (n : nat) (i : Z) (tree : MerkleTree) : option MerkleTree :=
  match n with
  | O => Some tree
  | S n' =>
      let* leaf := leaf_bytes (inclusion_entry i) in
      append_entries n' (i + 1) (snd (append tree leaf))
  end.

Definition build_inclusion_proof_fixture : option InclusionProofFixture :=
  match append_entries 13 0 MerkleTree_new with
  | None => None
  | Some tree =>
      let* proof := generate tree 5 in
      let* leaf_hash := entry_leaf_hash (inclusion_entry 5) in
      let root := root tree in
      let* wire := tls_serialize_to_vec proof in
      let fields := inclusion_proof_fields proof in
      Some (MkInclusionProofFixture wire fields (hex_encode (as_bytes leaf_hash)) (hex_encode (as_bytes root)))
  end.

Definition inclusion_proof_accept_vector (fixture : InclusionProofFixture) : Vector :=
  InclusionProofV (MkInclusionProofVector "inclusion-proof-accept-001" describe_inclusion_proof_accept_001
    (hex_encode (pfix_wire fixture))
    (MkParseExpectation Accept (Some (pfix_fields fixture)) None)
    (Some (MkVerifyExpectation Accept
       (MkInclusionProofVerifyMaterial (pfix_leaf_hash_hex fixture) (pfix_root_hash_hex fixture)) None))).

Definition inclusion_proof_reject_truncated_vector (fixture : InclusionProofFixture) : Vector :=
  let truncated := take (length (pfix_wire fixture) - 1) (pfix_wire fixture) in
  InclusionProofV (MkInclusionProofVector "inclusion-proof-reject-truncated" describe_inclusion_proof_reject_truncated
    (hex_encode truncated)
    (MkParseExpectation Reject None (Some "LengthOverflow"%string)) None).

(** [tampered[last] ^= 1] of an array that is not empty. *)
Definition flip_last (bytes : list byte) : list byte :=
  match rev bytes with
  | [] => []
  | b :: bytes' => rev (byte_of_Z (Z.lxor (byte_val b) 1) :: bytes')
  end.

Definition inclusion_proof_reject_root_mismatch_vector (fixture : InclusionProofFixture) : option Vector :=
  let tampered := flip_last (pfix_wire fixture) in
  let* tampered_proof := tls_parse_exact (T := InclusionProof) tampered in
  Some (InclusionProofV (MkInclusionProofVector "inclusion-proof-reject-root-mismatch"
    describe_inclusion_proof_reject_root_mismatch (hex_encode tampered)
    (MkParseExpectation Accept (Some (inclusion_proof_fields tampered_proof)) None)
    (Some (MkVerifyExpectation Reject
       (MkInclusionProofVerifyMaterial (pfix_leaf_hash_hex fixture) (pfix_root_hash_hex fixture))
       (Some "RootMismatch"%string))))).

Definition inclusion_proof_vectors : option (list Vector) :=
  match build_inclusion_proof_fixture with
  | None => None
  | Some fixture =>
      match inclusion_proof_reject_root_mismatch_vector fixture with
      | None => None
      | Some mismatch => Some [inclusion_proof_accept_vector fixture;
          inclusion_proof_reject_truncated_vector fixture; mismatch]
      end
  end.

(** ** Log entries *)

Definition log_entry_accept_null_vector : option Vector :=
  let* wire := tls_serialize_to_vec Null in
  Some (LogEntryV (MkLogEntryVector "log-entry-accept-null" describe_log_entry_accept_null (hex_encode wire)
    (MkParseExpectation Accept (Some FieldsNull) None))).

Definition log_entry_accept_certificate_vector : option Vector :=
  let* name := DnsName_new (bytes_of "example.com") in
  let* claim := Claim_dns [name] in
  let cert_entry := build_entry (with_claim (with_subject_info_hash
    (with_subject_type entry_builder_new Tls) (from_hash (be_array 32 (from_be_bytes (replicate 32 x11))))) claim) in
  let* wire := tls_serialize_to_vec (Certificate cert_entry) in
  Some (LogEntryV (MkLogEntryVector "log-entry-accept-certificate" describe_log_entry_accept_certificate
    (hex_encode wire)
    (MkParseExpectation Accept (Some (FieldsCertificate "tls"
       (hex_encode (as_bytes (as_hash (subject_info_hash cert_entry)))) (len (claims cert_entry)))) None))).

Definition log_entry_reject_unknown_type_vector : option Vector :=
  let* wire := to_vec (write_u16 2) in
  Some (LogEntryV (MkLogEntryVector "log-entry-reject-unknown-type" describe_log_entry_reject_unknown_type
    (hex_encode wire)
    (MkParseExpectation Reject None (Some "InvalidValue"%string)))).

Definition log_entry_vectors : option (list Vector) :=
  match log_entry_accept_null_vector, log_entry_accept_certificate_vector, log_entry_reject_unknown_type_vector with
  | Some null, Some certificate, Some unknown => Some [null; certificate; unknown]
  | _, _, _ => None
  end.

(** [main]: the vectors written, in their order. *)
Definition generated_vectors : option (list Vector) :=
  match checkpoint_vectors, inclusion_proof_vectors, log_entry_vectors with
  | Some checkpoints, Some proofs, Some entries => Some (checkpoints ++ proofs ++ entries)
  | _, _, _ => None
  end.
End Generator.
