(* ===== verification/Sha256.v ===== *)
(** * SHA-256, as an instance of the [sha2] crate's parameter

    The function of FIPS 180-4, to run the examples on the values the program computes. Nothing is proved
    of it, and no theorem depends on it. *)

From S2P Require Import Prelude Types Tree TreeFacts.

Local Open Scope Z_scope.

Definition word (x : Z) : Z := x mod 2 ^ 32.
Definition rotr (n x : Z) : Z := Z.lor (Z.shiftr x n) (word (Z.shiftl x (32 - n))).
Definition xor3 (a b c : Z) : Z := Z.lxor a (Z.lxor b c).
Definition ch (x y z : Z) : Z := Z.lxor (Z.land x y) (Z.land (2 ^ 32 - 1 - x) z).
Definition maj (x y z : Z) : Z := xor3 (Z.land x y) (Z.land x z) (Z.land y z).

(** The constants are the first 32 bits of the fractional parts of the cube roots of the first 64
    primes, and of the square roots of the first eight. *)
Definition is_prime (n : nat) : bool :=
  forallb (fun d => negb (Nat.eqb (n mod d) 0)) (seq 2 (n - 2)).
Definition primes : list Z := map Z.of_nat (List.filter is_prime (seq 2 310)).

(** The integer cube root, a bit at a time. *)
Fixpoint cube_root (bits : nat) (r n : Z) : Z :=
  match bits with
  | O => r
  | S b =>
      let r' := r + 2 ^ Z.of_nat b in
      cube_root b (if r' * r' * r' <=? n then r' else r) n
  end.

Definition round_constants : list Z :=
  Eval vm_compute in map (fun q => word (cube_root 40 0 (q * 2 ^ 96))) (take 64 primes).
Definition initial_state : list Z :=
  Eval vm_compute in map (fun q => word (Z.sqrt (q * 2 ^ 64))) (take 8 primes).

(** The message schedule, last word first. *)
Fixpoint schedule (n : nat) (ws : list Z) : list Z :=
  match n with
  | O => ws
  | S n' =>
      let w i := nth i ws 0 in
      let s0 := xor3 (rotr 7 (w 14%nat)) (rotr 18 (w 14%nat)) (Z.shiftr (w 14%nat) 3) in
      let s1 := xor3 (rotr 17 (w 1%nat)) (rotr 19 (w 1%nat)) (Z.shiftr (w 1%nat) 10) in
      schedule n' (word (s1 + w 6%nat + s0 + w 15%nat) :: ws)
  end.

Definition round (state : list Z) (kw : Z * Z) : list Z :=
  match state with
  | [a; b; c; d; e; f; g; h] =>
      let s1 := xor3 (rotr 6 e) (rotr 11 e) (rotr 25 e) in
      let t1 := h + s1 + ch e f g + fst kw + snd kw in
      let s0 := xor3 (rotr 2 a) (rotr 13 a) (rotr 22 a) in
      let t2 := s0 + maj a b c in
      [word (t1 + t2); a; b; c; word (d + t1); e; f; g]
  | _ => state
  end.

Fixpoint words (bs : list byte) : list Z :=
  match bs with
  | a :: b :: c :: d :: bs' => from_be_bytes [a; b; c; d] :: words bs'
  | _ => []
  end.

Definition compress (state : list Z) (block : list byte) : list Z :=
  let ws := rev (schedule 48 (rev (words block))) in
  zip_with (fun x y => word (x + y)) state (fold_left round (zip round_constants ws) state).

Definition pad (msg : list byte) : list byte :=
  msg ++ [x80] ++ replicate (Z.to_nat ((55 - len msg) mod 64)) x00 ++ to_be_bytes 8 (8 * len msg).

Fixpoint blocks (n : nat) (bs : list byte) : list (list byte) :=
  match n with O => [] | S n' => take 64 bs :: blocks n' (drop 64 bs) end.

Definition sha256_value (msg : list byte) : Z :=
  let padded := pad msg in
  fold_left (fun acc w => acc * 2 ^ 32 + w)
    (fold_left compress (blocks (length padded / 64) padded) initial_state) 0.

Definition sha256_crate : Sha2.
Proof.
  refine {| sha_state := list byte; sha_new := []; sha_update := app;
            sha_finalize := fun msg => be_array 32 (sha256_value msg) |}.
  - intros s. by rewrite app_nil_r.
  - intros s a b. by rewrite app_assoc.
Defined.

Definition Sha256Real : Hasher := Sha256Hasher sha256_crate.

(** The digest of [abc], from the standard. *)
Example sha256_abc : sha256_value [x61; x62; x63] =
  0xba7816bf8f01cfea414140de5dae2223b00361a396177a9cb410ff61f20015ad.
Proof. by vm_compute. Qed.
