(* ===== verification/VectorGeneratorFacts.v ===== *)
(** * The seed vectors pass

    Every vector the generator writes is one the runner accepts: what its serializers produce parses to
    what was serialized and verifies, and each corruption is rejected with the error named. *)

From Stdlib Require Import Ascii.
From stdpp Require Import gmap.
From S2P Require Import Prelude Format Types Wire WireLaws Tree TreeFacts Proofs Inclusion InclusionFacts ProofCodecs LogEntry Signing Checkpoint CheckpointFacts KV Hsm Signer SignerFacts ParseInt Conformance ConformanceFacts VectorGenerator Sha256.

Local Open Scope Z_scope.
Local Open Scope mtc_scope.

(** ** Corrupted encodings *)

(** A byte after a checkpoint is reported as such. *)
Lemma checkpoint_trailing c wire b :
  checkpoint_ok c -> serialize_tls_presentation c = Ok wire -> len wire + 1 <= isize_max ->
  parse_tls_presentation (wire ++ [b]) = Err (ParseWire (TrailingBytes (len wire) 1)).
Proof.
  intros Hok Hw Hl. apply to_vec_writes in Hw. unfold parse_tls_presentation.
  rewrite (parses_checkpoint c wire Hok Hw _ [b]);
    [|apply reader_ok_new; by rewrite len_app|done|done].
  unfold finish, is_empty, remaining, offset, advance, set_pos. cbn [buf pos base_offset TlsReader_new].
  rewrite len_app. change (len [b]) with 1.
  replace (len wire + 1 - (0 + len wire)) with 1 by lia. done.
Qed.

(** The bytes of an inclusion proof. *)
Definition path_bytes (path : list HashOutput) : list byte := concat (map as_bytes path).
Definition proof_bytes (proof : InclusionProof) : list byte :=
  to_be_bytes 8 (Inclusion.tree_size proof) ++ to_be_bytes 8 (leaf_index proof) ++
  to_be_bytes 2 (len (path_bytes (audit_path proof))) ++ path_bytes (audit_path proof).

Lemma length_path_bytes path : len (path_bytes path) = 32 * len path.
Proof.
  induction path as [|h path IH]; [done|].
  change (path_bytes (h :: path)) with (as_bytes h ++ path_bytes path). rewrite len_app, len_cons, IH. unfold len at 1, as_bytes. rewrite array_length. unfold HashOutput_LEN. lia.
Qed.

Lemma writes_path path : writes (write_each path) (path_bytes path).
Proof.
  induction path as [|h path IH]; [done|].
  apply (writes_bind _ _ (as_bytes h) (path_bytes path)); [apply appends_write_each|done|exact IH].
Qed.

Lemma proof_serializes proof :
  32 * len (audit_path proof) < 2 ^ 16 -> tls_serialize_to_vec proof = Ok (proof_bytes proof).
Proof.
  intros Hl. apply to_vec_writes.
  eapply writes_bind; [unfold write_bytes; auto 10 with wire|done|].
  eapply writes_bind; [unfold write_bytes; auto 10 with wire|done|].
  apply writes_vector_u16. exists (path_bytes (audit_path proof)). split; [apply writes_path|].
  split; [|done]. rewrite length_path_bytes. pose proof (len_nonneg (audit_path proof)). split; lia.
Qed.

Lemma proof_parses proof :
  32 * len (audit_path proof) < 2 ^ 16 -> in_u64 (Inclusion.tree_size proof) -> in_u64 (leaf_index proof) ->
  tls_parse_exact (proof_bytes proof) = Ok proof.
Proof.
  intros Hl Hn Hi. apply (tls_exact_iff (H := inclusion_laws)); [done| |split; [done|by apply proof_serializes]].
  unfold proof_bytes, len. rewrite !length_app, !length_to_be_bytes.
  pose proof (length_path_bytes (audit_path proof)) as E. unfold len in *. unfold isize_max. lia.
Qed.

(** A proof whose encoding lost its last byte claims more than is left. *)
Lemma proof_truncated proof :
  audit_path proof <> [] -> 32 * len (audit_path proof) < 2 ^ 16 ->
  in_u64 (Inclusion.tree_size proof) -> in_u64 (leaf_index proof) ->
  tls_parse_exact (T := InclusionProof) (take (length (proof_bytes proof) - 1) (proof_bytes proof)) =
    Err (LengthOverflow 18 (32 * len (audit_path proof)) (32 * len (audit_path proof) - 1)).
Proof.
  intros Hne Hl Hn Hi.
  assert (0 < len (audit_path proof)) as Hpos.
  { destruct (audit_path proof) as [|h path]; [done|]. rewrite len_cons. pose proof (len_nonneg path). lia. }
  pose proof (length_path_bytes (audit_path proof)) as Hb.
  set (body := path_bytes (audit_path proof)) in *. set (body' := take (length body - 1) body).
  assert (take (length (proof_bytes proof) - 1) (proof_bytes proof) =
    to_be_bytes 8 (Inclusion.tree_size proof) ++ to_be_bytes 8 (leaf_index proof) ++ to_be_bytes 2 (len body) ++ body') as ->.
  { unfold proof_bytes. fold body. rewrite !app_assoc, length_app, take_app.
    rewrite take_ge by (rewrite !length_app, !length_to_be_bytes; unfold len in *; lia).
    apply (f_equal2 app); [done|]. unfold body'. apply (f_equal2 take); [|done].
    rewrite !length_app, !length_to_be_bytes. unfold len in *. lia. }
  assert (len body' = len body - 1) as Hb' by (unfold body', len in *; rewrite length_take; lia).
  assert (in_u16 (len body)) as Hu by (split; lia).
  set (bs := to_be_bytes 8 _ ++ _). set (r0 := TlsReader_new bs).
  assert (len bs = 18 + len body') as Hr0
    by (unfold bs, len; rewrite !length_app, !length_to_be_bytes; lia).
  assert (reader_ok r0) as Hok by (apply reader_ok_new; rewrite Hr0; unfold isize_max; lia).
  unfold tls_parse_exact, parse_exact. fold r0. unfold tls_parse, inclusion_parse, bind at 1.
  rewrite (parses_be 8 (Inclusion.tree_size proof) r0 _ Hok eq_refl) by done.
  pose proof (reader_ok_advance r0 _ _ Hok eq_refl) as Hok1.
  pose proof (rest_advance r0 _ _ Hok eq_refl) as Hr1. unfold bind at 1.
  rewrite (parses_be 8 (leaf_index proof) _ _ Hok1 Hr1) by done.
  pose proof (reader_ok_advance _ _ _ Hok1 Hr1) as Hok2.
  pose proof (rest_advance _ _ _ Hok1 Hr1) as Hr2. unfold bind at 1, read_vector_u16, bind at 1.
  rewrite (parses_read_u16 (len body) Hu _ _ Hok2 Hr2) by done.
  assert (forall n z, len (to_be_bytes n z) = Z.of_nat n) as Hbe by (intros; unfold len; by rewrite length_to_be_bytes).
  unfold read_items, read_scoped, take_body, remaining, offset, advance, set_pos.
  cbn [buf pos base_offset depth max_depth r0 TlsReader_new]. rewrite !Hbe. change (DEFAULT_MAX_DEPTH <=? 0) with false.
  cbv iota. rewrite Hr0, (proj2 (Z.ltb_lt _ _)) by lia. do 2 f_equal; lia.
Qed.

(** ** A flipped bit in the last hash *)

Lemma flip_last_snoc xs b : flip_last (xs ++ [b]) = xs ++ [byte_of_Z (Z.lxor (byte_val b) 1)].
Proof. unfold flip_last. rewrite rev_unit. cbn [rev]. by rewrite rev_involutive. Qed.

Lemma flip_last_app xs ys : ys <> [] -> flip_last (xs ++ ys) = xs ++ flip_last ys.
Proof.
  intros Hy. destruct (exists_last Hy) as (zs & b & ->). by rewrite app_assoc, !flip_last_snoc, app_assoc.
Qed.

Lemma flip_bit_neq b : byte_of_Z (Z.lxor (byte_val b) 1) <> b.
Proof. destruct b; discriminate. Qed.

Lemma flip_last_neq ys : ys <> [] -> flip_last ys <> ys.
Proof.
  intros Hy. destruct (exists_last Hy) as (zs & b & ->). rewrite flip_last_snoc.
  intros [_ [= E]]%app_inj_2; [|done]. by apply flip_bit_neq in E.
Qed.

Lemma length_flip_last ys : length (flip_last ys) = length ys.
Proof.
  destruct ys as [|y ys]; [done|]. destruct (exists_last (l := y :: ys)) as (zs & b & ->); [done|].
  by rewrite flip_last_snoc, !length_app.
Qed.

Definition flip_hash (h : HashOutput) : HashOutput := be_array 32 (from_be_bytes (flip_last (as_bytes h))).
Definition flip_path (path : list HashOutput) : list HashOutput :=
  match rev path with [] => [] | h :: path' => rev path' ++ [flip_hash h] end.
Definition tamper (proof : InclusionProof) : InclusionProof :=
  from_parts (Inclusion.tree_size proof) (leaf_index proof) (flip_path (audit_path proof)).

Lemma flip_hash_bytes h : as_bytes (flip_hash h) = flip_last (as_bytes h).
Proof.
  unfold flip_hash, as_bytes at 1. cbn [arr_list be_array].
  pose proof (to_from_be_bytes (flip_last (as_bytes h))) as E. rewrite length_flip_last in E.
  unfold as_bytes in *. by rewrite array_length in E.
Qed.

Lemma hash_not_nil (h : HashOutput) : as_bytes h <> [].
Proof. intros E. pose proof (array_length h) as Hl. unfold as_bytes in E. by rewrite E in Hl. Qed.

Lemma flip_hash_neq h : flip_hash h <> h.
Proof.
  intros E. apply (f_equal as_bytes) in E. rewrite flip_hash_bytes in E.
  by apply flip_last_neq in E; [|apply hash_not_nil].
Qed.

Lemma flip_path_snoc path h : flip_path (path ++ [h]) = path ++ [flip_hash h].
Proof. unfold flip_path. rewrite rev_unit. by rewrite rev_involutive. Qed.

Lemma length_flip_path path : length (flip_path path) = length path.
Proof.
  destruct path as [|h path]; [done|]. destruct (exists_last (l := h :: path)) as (zs & b & ->); [done|].
  by rewrite flip_path_snoc, !length_app.
Qed.

(** Flipping the last bit of the encoding is flipping the last bit of the last hash. *)
Lemma flip_proof_bytes proof :
  audit_path proof <> [] -> flip_last (proof_bytes proof) = proof_bytes (tamper proof).
Proof.
  intros Hne. unfold proof_bytes. cbn [tamper Inclusion.tree_size leaf_index audit_path].
  assert (path_bytes (audit_path proof) <> [] /\
          flip_last (path_bytes (audit_path proof)) = path_bytes (flip_path (audit_path proof))) as [Hn E].
  { destruct (exists_last Hne) as (path & h & ->). rewrite flip_path_snoc. unfold path_bytes.
    rewrite !map_app, !concat_app. cbn [map concat]. rewrite !app_nil_r. pose proof (hash_not_nil h).
    split; [intros [_ ?]%app_nil; done|]. by rewrite flip_last_app, flip_hash_bytes. }
  rewrite !app_assoc, flip_last_app, E by done. rewrite <- !app_assoc. do 4 f_equal.
  rewrite !length_path_bytes. unfold len. by rewrite length_flip_path.
Qed.

(** The tampered proof of an accepted one does not verify, or else two inputs collide. *)
Lemma tampered_mismatch {hasher : Hasher} proof lh r :
  0 <= leaf_index proof -> Inclusion.tree_size proof <= 2 ^ 64 -> audit_path proof <> [] ->
  Inclusion.verify proof lh r = Ok tt ->
  Inclusion.verify (tamper proof) lh r = Err RootMismatch \/
  collision_in (verify_inputs proof lh ++ verify_inputs (tamper proof) lh).
Proof.
  intros Hi Hn Hne Hv. pose proof (proj1 (verify_ok _ _ _ Hi Hn) Hv) as (Hlt & Hl & _).
  rewrite (verify_spec (tamper proof)) by done. cbn [tamper Inclusion.tree_size leaf_index audit_path].
  rewrite (proj2 (Z.leb_gt _ _)) by done. cbv zeta.
  unfold len. rewrite length_flip_path, Hl, Z.eqb_refl. cbn [negb].
  destruct (decide _) as [E|]; [right|by left].
  destruct (verify_unique proof (tamper proof) lh lh r) as [[E' _]|]; try done.
  - apply verify_ok; [done..|]. cbn [tamper Inclusion.tree_size leaf_index audit_path].
    by rewrite length_flip_path.
  - exfalso. apply (f_equal audit_path) in E'. cbn [tamper audit_path] in E'.
    destruct (exists_last Hne) as (path & h & Ep). rewrite Ep, flip_path_snoc in E'.
    apply app_inj_2 in E' as [_ [= E']]; [|done]. by apply (flip_hash_neq h).
Qed.

(** ** The fixtures *)

(** The renderings of errors name their variant, as derived [Debug] does. *)
Record names_variants (text : Rendering) : Prop := {
  names_id_empty o : contains (debug_checkpoint_parse_error text (TrustAnchorIdEmpty o)) "TrustAnchorIdEmpty" = true;
  names_not_utf8 o : contains (debug_checkpoint_parse_error text (LogIdNotUtf8 o)) "LogIdNotUtf8" = true;
  names_trailing o n :
    contains (debug_checkpoint_parse_error text (ParseWire (TrailingBytes o n))) "TrailingBytes" = true;
  names_overflow o n m : contains (debug_wire_error text (LengthOverflow o n m)) "LengthOverflow" = true;
  names_invalid o reason : contains (debug_wire_error text (InvalidValue o reason)) "InvalidValue" = true;
  names_mismatch : contains (debug_proof_error text RootMismatch) "RootMismatch" = true
}.

(** The test key of RFC 6979: the scalar is one, its public point is the other constant, and the crate
    can sign with it. *)
Record test_key (p : P256) (k : P256SigningKey p) (der : list byte) : Prop := {
  test_scalar : sk_from_slice p (unwrap_or [] (hex_decode SIGNING_KEY_HEX)) = Some k;
  test_point : from_sec1_bytes p (unwrap_or [] (hex_decode VERIFYING_KEY_SEC1_HEX)) = Some (verifying_key p k);
  test_der : to_public_key_der p (verifying_key p k) = Some der;
  test_signs m : is_Some (try_sign p k m)
}.

Section Fixtures.
Context {hasher : Hasher} (p : P256) (Hp : P256_documented p) (k : P256SigningKey p) (der : list byte).
Context (Hk : test_key p k der).
Context (text : Rendering) (Ht : names_variants text).

Lemma signing_keypair_ok : signing_keypair p = Some (generate_keypair p k).
Proof.
  destruct Hk as [Hs Hv Hd _]. unfold signing_keypair.
  destruct (hex_decode SIGNING_KEY_HEX) as [s|] eqn:Es; [|by vm_compute in Es].
  destruct (hex_decode VERIFYING_KEY_SEC1_HEX) as [v|] eqn:Ev; [|by vm_compute in Ev].
  cbn [unwrap_or] in Hs, Hv. cbn [ok].
  assert ((len s =? SCALAR_LEN) = true) as El by (vm_compute in Es; injection Es as <-; reflexivity).
  unfold signing_key_from_bytes. rewrite El. cbn [negb]. rewrite Hs. cbn [ok_or ok].
  unfold verifying_key_from_sec1. rewrite Hv. cbn [ok_or ok]. done.
Qed.

Definition fixture_id : LogId := MkId (bytes_of "prod-log-1").

Lemma fixture_id_ok : Id_new (bytes_of "prod-log-1") = Ok fixture_id /\ id_ok fixture_id /\ len (as_str fixture_id) = 10.
Proof. by vm_compute. Qed.

Lemma checkpoint_fixture : exists sig,
  len sig = 64 /\
  Checkpoint.verify (H := EcdsaP256 p) (published fixture_id 12345 fixture_root 1700000000 sig)
    (from_spki_der EcdsaP256Sha256 der) = Ok tt /\
  build_checkpoint_fixture p = Some (MkCheckpointFixture
    (framed_bytes fixture_id 12345 fixture_root 1700000000 sig)
    (MkCheckpointFields (String.string_of_list_byte (as_str fixture_id)) 12345
       (hex_encode (as_bytes fixture_root)) 1700000000 (hex_encode sig))
    (hex_encode der)).
Proof.
  destruct fixture_id_ok as (Hid & _ & Hl).
  assert (1 <= len (as_str fixture_id) <= 255) as Hid' by lia.
  set (m := signing_payload fixture_id 12345 fixture_root).
  pose proof (signature_input_payload fixture_id 12345 fixture_root 1700000000 Hid') as Hm.
  destruct (test_signs _ _ _ Hk m) as [s Hs].
  assert (ecdsa_sign p (fst (generate_keypair p k)) m = Ok (Signature_from_bytes (sig_to_bytes p s))) as Hsign.
  { unfold ecdsa_sign. cbn [fst generate_keypair sk_algorithm secret_bytes].
    rewrite bool_decide_true by done. cbn [negb]. rewrite (sk_roundtrip p Hp). cbn [ok_or]. by rewrite Hs. }
  assert (snd (generate_keypair p k) = from_spki_der EcdsaP256Sha256 der) as Hvk
    by (cbn [snd generate_keypair]; unfold to_domain_verifying_key; by rewrite (test_der _ _ _ Hk)).
  assert (in_u16 (len (sig_to_bytes p s))) as Hsl by (rewrite (sig_length p Hp); split; lia).
  exists (sig_to_bytes p s). split; [apply (sig_length p Hp)|]. split.
  - apply verify_Ok. exists m. split.
    + rewrite (signature_input_state _ (unsigned fixture_id 12345 fixture_root 1700000000)) by done. exact Hm.
    + rewrite <- Hvk. apply (generated_key_pair p Hp k); [by exists der; apply (test_der _ _ _ Hk)|exact Hsign].
  - assert (sign (H := EcdsaP256 p) (unsigned fixture_id 12345 fixture_root 1700000000) (fst (generate_keypair p k))
              = Ok (published fixture_id 12345 fixture_root 1700000000 (sig_to_bytes p s))) as Esign
      by (apply sign_Ok; exists m, (Signature_from_bytes (sig_to_bytes p s));
          exact (conj Hm (conj Hsign eq_refl))).
    assert (serialize_tls_presentation (published fixture_id 12345 fixture_root 1700000000 (sig_to_bytes p s)) =
      Ok (framed_bytes fixture_id 12345 fixture_root 1700000000 (sig_to_bytes p s))) as Ewire
      by exact (framed_serializes _ _ _ _ _ Hid' Hsl).
    unfold build_checkpoint_fixture. rewrite signing_keypair_ok, (surjective_pairing (generate_keypair p k)), Hid.
    cbn [ok]. change (build _) with (unsigned fixture_id 12345 fixture_root 1700000000).
    rewrite Esign. cbn [ok]. rewrite Ewire. cbn [ok]. by rewrite Hvk.
Qed.

Lemma leaf_bytes_no_claims (h : HashOutput) :
  exists bs, leaf_bytes (Certificate (MkTbs Tls (from_hash h) [])) = Ok (from_framed bs).
Proof. by eexists. Qed.

(** The thirteen entries' tree, of which leaf 5 has the hash of entry 5. *)
Lemma fixture_tree : exists tree lh,
  append_entries 13 0 MerkleTree_new = Some tree /\ tree_len tree = 13 /\
  leaf_hash tree 5 = Some lh /\ entry_leaf_hash (inclusion_entry 5) = Ok lh.
Proof.
  assert (forall i, exists bs, leaf_bytes (inclusion_entry i) = Ok (from_framed bs)) as Hb
    by (intros i; apply leaf_bytes_no_claims).
  assert (forall n i tree, exists ls, append_entries n i tree = Some (MkMerkleTree (leaves tree ++ ls)) /\ length ls = n /\
      forall j, (j < n)%nat -> exists bs, leaf_bytes (inclusion_entry (i + Z.of_nat j)) = Ok (from_framed bs) /\
        ls !! j = Some (hash_leaf bs)) as Hall.
  { induction n as [|n IH]; intros i tree.
    - exists []. rewrite app_nil_r. split; [by destruct tree|]. split; [done|lia].
    - destruct (Hb i) as [bs Ebs].
      destruct (IH (i + 1) (snd (append tree (from_framed bs)))) as (ls & E & Hl & Hj).
      exists (hash_leaf bs :: ls). cbn [append_entries]. rewrite Ebs. cbn [ok]. rewrite E. split.
      + cbn [append snd leaves leaf_as_bytes]. by rewrite <- app_assoc.
      + split; [simpl; lia|]. intros [|j] Hjn; [exists bs; by rewrite Z.add_0_r|].
        replace (i + Z.of_nat (S j)) with (i + 1 + Z.of_nat j) by lia. apply Hj. lia. }
  destruct (Hall 13%nat 0 MerkleTree_new) as (ls & E & Hl & Hj).
  destruct (Hj 5%nat) as (bs & Ebs & Hls); [lia|]. exists (MkMerkleTree ls), (hash_leaf bs).
  split; [exact E|]. split; [unfold tree_len, len; cbn [leaves]; by rewrite Hl|]. split.
  - unfold leaf_hash. change (try_from_uint 64 5) with (Some 5). exact Hls.
  - unfold entry_leaf_hash. change (0 + Z.of_nat 5) with 5 in Ebs. by rewrite Ebs.
Qed.

Lemma inclusion_fixture : exists tree proof lh,
  append_entries 13 0 MerkleTree_new = Some tree /\ generate tree 5 = Ok proof /\ leaf_hash tree 5 = Some lh /\
  Inclusion.tree_size proof = 13 /\ leaf_index proof = 5 /\ length (audit_path proof) = 4%nat /\
  Inclusion.verify proof lh (root tree) = Ok tt /\
  build_inclusion_proof_fixture = Some (MkInclusionProofFixture (proof_bytes proof) (inclusion_proof_fields proof)
    (hex_encode (as_bytes lh)) (hex_encode (as_bytes (root tree)))).
Proof.
  destruct fixture_tree as (tree & lh & Et & Hl & Hlh & He).
  destruct (generate_verifies tree 5) as (proof & lh' & Hlh' & Hg & Hn & Hi & Hv); [lia..|].
  assert (lh' = lh) as -> by congruence. rewrite Hl in Hn.
  assert (length (audit_path proof) = 4%nat) as H4.
  { apply verify_ok in Hv as (_ & Hlen & _); [|lia..]. rewrite Hlen, Hn, Hi. reflexivity. }
  exists tree, proof, lh. split_and!; try assumption.
  unfold build_inclusion_proof_fixture. rewrite Et, Hg. cbn [ok]. rewrite He. cbn [ok].
  rewrite proof_serializes by (unfold len; rewrite H4; lia). done.
Qed.

(** ** The vectors *)

Lemma hex_text_fits bs : len bs <= 2 ^ 40 -> len (String.list_byte_of_string (hex_encode bs)) <= isize_max.
Proof. intros Hl. rewrite length_hex_text. unfold isize_max. lia. Qed.

(** A rejected checkpoint. *)
Lemma checkpoint_rejected id describe bytes class e :
  len bytes <= 2 ^ 40 -> parse_tls_presentation bytes = Err e ->
  contains (debug_checkpoint_parse_error text e) class = true ->
  evaluate text p (CheckpointV (MkCheckpointVector id describe (hex_encode bytes)
    (MkParseExpectation Reject None (Some class)) None)) = Ok tt.
Proof.
  intros Hl Hr Hc. apply evaluate_iff.
  - split; [by apply hex_text_fits|done].
  - exists bytes. split; [apply hex_decode_encode|]. unfold expectation_holds. cbn [outcome cv_parse error_class].
    rewrite Hr. by exists class.
Qed.

Lemma checkpoint_vectors_pass : exists vs,
  checkpoint_vectors p = Some vs /\ length vs = 4%nat /\ Forall (fun v => evaluate text p v = Ok tt) vs.
Proof.
  destruct checkpoint_fixture as (sig & Hsig & Hv & E). destruct fixture_id_ok as (_ & Hok & Hl).
  assert (1 <= len (as_str fixture_id) <= 255) as Hid by lia.
  assert (in_u16 (len sig)) as Hu by (rewrite Hsig; split; lia).
  pose proof (framed_length fixture_id 12345 fixture_root 1700000000 sig) as Hw. rewrite Hsig, Hl in Hw.
  pose proof (framed_serializes fixture_id 12345 fixture_root 1700000000 sig Hid Hu) as Hser.
  assert (in_u64 12345 /\ in_u64 1700000000) as [Hn Htm] by done.
  pose proof (framed_parses fixture_id 12345 fixture_root 1700000000 sig Hok Hn Htm Hid Hu) as Hparse.
  set (wire := framed_bytes _ _ _ _ _) in *.
  eexists. unfold checkpoint_vectors. rewrite E. split; [reflexivity|]. split; [done|].
  repeat apply Forall_cons_2; [| | | |apply Forall_nil_2].
  - apply evaluate_iff.
    + split; [apply hex_text_fits; cbn [cfix_wire]; lia|]. cbn. lia.
    + exists wire. split; [apply hex_decode_encode|]. unfold expectation_holds. cbn [outcome cv_parse fields].
      rewrite Hparse. eexists. split; [reflexivity|]. split.
      * split_and!; [done|done|apply hex_decode_encode|done|apply hex_decode_encode].
      * exists der. split; [apply hex_decode_encode|]. unfold outcome_holds.
        cbn [verify_outcome]. by rewrite Hv.
  - eapply checkpoint_rejected; [done| |apply (names_id_empty _ Ht 0)]. reflexivity.
  - eapply checkpoint_rejected; [done| |apply (names_not_utf8 _ Ht 0)]. reflexivity.
  - assert (checkpoint_ok (published fixture_id 12345 fixture_root 1700000000 sig)) as Hc
      by (split; [exact Hok|by split]).
    eapply checkpoint_rejected; [|apply (checkpoint_trailing _ wire x99 Hc Hser)|apply (names_trailing _ Ht)].
    + cbn [cfix_wire]. rewrite len_app. change (len [x99]) with 1. lia.
    + unfold isize_max. lia.
Qed.

(** The inputs hashed while the fixture's proof and its tampered copy are verified. *)
Definition mismatch_inputs : list (list byte) :=
  match append_entries 13 0 MerkleTree_new with
  | None => []
  | Some tree =>
      match generate tree 5, leaf_hash tree 5 with
      | Ok proof, Some lh => verify_inputs proof lh ++ verify_inputs (tamper proof) lh
      | _, _ => []
      end
  end.

Lemma proof_fields_match proof : proof_matches (inclusion_proof_fields proof) proof.
Proof.
  split; [done|]. split; [done|]. cbn [inclusion_proof_fields audit_path_hex].
  induction (audit_path proof) as [|h path IH]; constructor; [apply hex_decode_encode|exact IH].
Qed.

(** A vector that expects a proof to be accepted, and its verification to end as it does. *)
Lemma proof_vector_passes id describe proof (lh r : HashOutput) expected class :
  length (audit_path proof) = 4%nat -> in_u64 (Inclusion.tree_size proof) -> in_u64 (leaf_index proof) ->
  outcome_holds (debug_proof_error text) expected class (Inclusion.verify proof lh r) ->
  evaluate text p (InclusionProofV (MkInclusionProofVector id describe (hex_encode (proof_bytes proof))
    (MkParseExpectation Accept (Some (inclusion_proof_fields proof)) None)
    (Some (MkVerifyExpectation expected
       (MkInclusionProofVerifyMaterial (hex_encode (as_bytes lh)) (hex_encode (as_bytes r))) class)))) = Ok tt.
Proof.
  intros H4 Hn Hi Ho.
  assert (32 * len (audit_path proof) < 2 ^ 16) as Hl by (unfold len; rewrite H4; lia).
  apply evaluate_iff.
  - split; [|split; [apply Hn|apply Hi]]. apply hex_text_fits. unfold proof_bytes, len.
    rewrite !length_app, !length_to_be_bytes. pose proof (length_path_bytes (audit_path proof)) as E.
    unfold len in *. lia.
  - exists (proof_bytes proof). split; [apply hex_decode_encode|]. unfold expectation_holds.
    cbn [outcome pv_parse fields]. rewrite proof_parses by done.
    eexists. split; [reflexivity|]. split; [apply proof_fields_match|].
    exists lh, r. split; [apply hex_decode_encode|]. split; [apply hex_decode_encode|exact Ho].
Qed.

Lemma inclusion_vectors_pass : exists vs,
  inclusion_proof_vectors = Some vs /\ length vs = 3%nat /\
  (Forall (fun v => evaluate text p v = Ok tt) vs \/ collision_in mismatch_inputs).
Proof.
  destruct inclusion_fixture as (tree & proof & lh & Et & Hg & Hlh & Hn & Hi & H4 & Hv & Efix).
  assert (audit_path proof <> []) as Hne by (by intros E; rewrite E in H4).
  assert (32 * len (audit_path proof) < 2 ^ 16) as Hl by (unfold len; rewrite H4; lia).
  assert (in_u64 (Inclusion.tree_size proof) /\ in_u64 (leaf_index proof)) as [Hn' Hi'] by (by rewrite Hn, Hi).
  assert (length (audit_path (tamper proof)) = 4%nat) as H4' by (cbn; by rewrite length_flip_path).
  assert (tls_parse_exact (T := InclusionProof) (flip_last (proof_bytes proof)) = Ok (tamper proof)) as Hparse.
  { rewrite flip_proof_bytes by done. apply proof_parses; [|done..]. unfold len. rewrite H4'. lia. }
  unfold inclusion_proof_vectors, inclusion_proof_reject_root_mismatch_vector. rewrite Efix.
  cbn [pfix_wire pfix_leaf_hash_hex pfix_root_hash_hex]. rewrite Hparse. cbn [ok].
  eexists. split; [reflexivity|]. split; [done|].
  destruct (tampered_mismatch proof lh (root tree)) as [Hm|Hm]; [lia|lia|done|done| |].
  - left. repeat apply Forall_cons_2; [| | |apply Forall_nil_2].
    + apply proof_vector_passes; [done..|]. by rewrite Hv.
    + apply evaluate_iff.
      * split; [|done]. apply hex_text_fits. cbn [pfix_wire]. unfold proof_bytes, len.
        rewrite length_take, !length_app, !length_to_be_bytes. pose proof (length_path_bytes (audit_path proof)) as E.
        unfold len in *. lia.
      * eexists. split; [apply hex_decode_encode|]. unfold expectation_holds. cbn [outcome pv_parse error_class pfix_wire].
        rewrite proof_truncated by done. eexists. split; [reflexivity|apply (names_overflow _ Ht)].
    + rewrite flip_proof_bytes by done. apply proof_vector_passes; [done..|]. rewrite Hm.
      eexists. split; [reflexivity|apply (names_mismatch _ Ht)].
  - right. unfold mismatch_inputs. by rewrite Et, Hg, Hlh.
Qed.

Lemma log_entry_vectors_pass : exists vs,
  log_entry_vectors = Some vs /\ length vs = 3%nat /\ Forall (fun v => evaluate text p v = Ok tt) vs.
Proof.
  eexists. split; [vm_compute; reflexivity|]. split; [done|].
  repeat apply Forall_cons_2; [| | |apply Forall_nil_2].
  - by vm_compute.
  - by vm_compute.
  - apply evaluate_iff; [by vm_compute|]. exists [x00; x02]. split; [reflexivity|].
    unfold expectation_holds. cbn [outcome ev_parse error_class].
    change (tls_parse_exact (T := LogEntry) [x00; x02])
      with (Err (A := LogEntry) (InvalidValue 2 "unknown MerkleTreeCertEntry type")).
    eexists. split; [reflexivity|apply (names_invalid _ Ht)].
Qed.
End Fixtures.

(** C38. The generator and the runner agree: with the published test key, whatever the hash function,
    the generator writes ten vectors; the four checkpoint vectors and the three log entry vectors pass
    the runner, and so do the three inclusion proof vectors, unless the proof of leaf 5 and its copy
    with one bit flipped hash two different inputs to one digest. *)
Theorem generated_vectors_pass {hasher : Hasher} (p : P256) (Hp : P256_documented p)
    (k : P256SigningKey p) (der : list byte) (Hk : test_key p k der) (text : Rendering)
    (Ht : names_variants text) :
  exists checkpoints proofs entries,
    checkpoint_vectors p = Some checkpoints /\ inclusion_proof_vectors = Some proofs /\
    log_entry_vectors = Some entries /\ generated_vectors p = Some (checkpoints ++ proofs ++ entries) /\
    length (checkpoints ++ proofs ++ entries) = 10%nat /\
    Forall (fun v => evaluate text p v = Ok tt) (checkpoints ++ entries) /\
    (Forall (fun v => evaluate text p v = Ok tt) proofs \/ collision_in mismatch_inputs).
Proof.
  destruct (checkpoint_vectors_pass p Hp k der Hk text Ht) as (cs & Ec & Lc & Hc).
  destruct (inclusion_vectors_pass p text Ht) as (ps & Ei & Li & Hi).
  destruct (log_entry_vectors_pass p text Ht) as (es & Ee & Le & He).
  exists cs, ps, es. unfold generated_vectors. rewrite Ec, Ei, Ee. split_and!; try done.
  - by rewrite !length_app, Lc, Li, Le.
  - by apply Forall_app_2.
Qed.

(** ** The committed vectors

    Run with SHA-256, the generator's inclusion proof and log entry vectors are the files of
    [conformance/vectors/], and the committed checkpoint passes but for its signature. *)

Definition committed (v : Vector) : string * list string :=
  match v with
  | CheckpointV v => (cv_id v, [cv_wire_hex v])
  | InclusionProofV v => (pv_id v, pv_wire_hex v ::
      match pv_verify v with
      | Some e => [leaf_hash_hex (material e); root_hash_hex (material e)]
      | None => []
      end)
  | LogEntryV v => (ev_id v, [ev_wire_hex v])
  end.

Definition committed_path : string :=
  "8da7018d09d27ce62e45589921e06cc15db1594c20aed2fd4a8914c56455c1a4" +:+
  "726f25649e2c56153fe3a657d0fe374e26c231472c2b632ceda9b6d38e16784c" +:+
  "5517720dca6e7081f6589f94661c6befe0d1d1e27b351af2e0f30a13eed9ae54" +:+
  "47aa1c473935fe3ecfb70e2d94118b71364b4d3926f56517966ba5279834".
Definition committed_leaf : string := "4353d77e666499bee08bf66bba1d673bb2e1dbb4bb0b561380302f3dd8183064".
Definition committed_root : string := "dff36eba34ba5385dc2400b97aaa2f23b042743a15eef53654bdef6006015d67".

Example committed_inclusion_proofs :
  option_map (map committed) (inclusion_proof_vectors (hasher := Sha256Real)) = Some
    [("inclusion-proof-accept-001",
      ["000000000000000d00000000000000050080" +:+ committed_path +:+ "86fd"; committed_leaf; committed_root]);
     ("inclusion-proof-reject-truncated", ["000000000000000d00000000000000050080" +:+ committed_path +:+ "86"]);
     ("inclusion-proof-reject-root-mismatch",
      ["000000000000000d00000000000000050080" +:+ committed_path +:+ "86fc"; committed_leaf; committed_root])]%string.
Proof. by vm_compute. Qed.

Example committed_log_entries :
  option_map (map committed) log_entry_vectors = Some
    [("log-entry-accept-null", ["0000"]);
     ("log-entry-accept-certificate",
      ["000100001111111111111111111111111111111111111111111111111111111111111111" +:+
       "00120000000e000c0b6578616d706c652e636f6d"]);
     ("log-entry-reject-unknown-type", ["0002"])]%string.
Proof. by vm_compute. Qed.

Lemma sample_text_names : names_variants sample_text.
Proof. by split. Qed.

(** The committed checkpoint, with another hash expected, and cut short. *)
Definition committed_signature : string :=
  "5cef3fd7a6a284fc703349083ebd0772a0c4ce81928810637ed8d9ac4dec2078" +:+
  "77d4b69178fe56123c41288a39549509f8947f41dbebd330e0ec432555bf95a5".
Definition committed_checkpoint (wire_hex root_hash_hex : string) : Vector :=
  CheckpointV (MkCheckpointVector "checkpoint-accept-001" describe_checkpoint_accept_001 wire_hex
    (MkParseExpectation Accept
       (Some (MkCheckpointFields "prod-log-1" 12345 root_hash_hex 1700000000 committed_signature)) None) None).
Definition committed_wire : string :=
  "0a70726f642d6c6f672d310000000000003039" +:+
  "7f7f7f7f7f7f7f7f7f7f7f7f7f7f7f7f7f7f7f7f7f7f7f7f7f7f7f7f7f7f7f7f" +:+ "000000006553f1000040" +:+ committed_signature.
Definition sevens (digit : string) : string := Nat.iter 31 (String.append "7F") ("7" +:+ digit).

Example committed_checkpoint_runs :
  evaluate (hasher := Sha256Real) sample_text toy_p256 (committed_checkpoint committed_wire (sevens "F")) = Ok tt /\
  evaluate (hasher := Sha256Real) sample_text toy_p256 (committed_checkpoint committed_wire (sevens "e")) =
    Err (format_diffs sample_text "parsed checkpoint fields did not match"
           [MkFieldDiff "root_hash_hex" (to_ascii_lowercase (sevens "e")) (to_ascii_lowercase (sevens "f"))]) /\
  evaluate (hasher := Sha256Real) sample_text toy_p256 (committed_checkpoint "0a7" (sevens "f")) =
    Err "wire_hex is not valid hex: hex string has odd length 3"%string.
Proof. split_and!; by vm_compute. Qed.

(** A stand-in for the [p256] crate, whose only public key is the published one and whose signatures are
    the message's last bytes. *)
Definition published_point : array 65 :=
  be_array 65 (from_be_bytes (unwrap_or [] (hex_decode VERIFYING_KEY_SEC1_HEX))).
Definition message_tail (m : list byte) : array 64 := be_array 64 (from_be_bytes m).
Definition kat_p256 : P256 := {|
  P256SigningKey := array 32;
  P256VerifyingKey := array 65;
  P256Signature := array 64;
  sk_from_slice := array_of 32;
  sk_to_bytes := arr_list;
  verifying_key := fun _ => published_point;
  from_sec1_bytes := array_of 65;
  from_public_key_der := array_of 65;
  to_public_key_der := fun k => Some (arr_list k);
  try_sign := fun _ m => Some (message_tail m);
  sig_to_bytes := arr_list;
  sig_from_slice := array_of 64;
  p256_verify := fun _ m s => bool_decide (s = message_tail m)
|}.

Lemma kat_p256_documented : P256_documented kat_p256.
Proof.
  split; simpl.
  - intros k. apply array_of_list.
  - intros v der [= <-]. apply array_of_list.
  - intros s. unfold len. by rewrite array_length.
  - intros s. apply array_of_list.
  - intros k m s [= <-]. by apply bool_decide_true.
Qed.

Definition kat_key : array 32 := be_array 32 (from_be_bytes (unwrap_or [] (hex_decode SIGNING_KEY_HEX))).

Lemma array_of_be n bs : length bs = n -> array_of n bs = Some (be_array n (from_be_bytes bs)).
Proof.
  intros Hl. destruct (array_of_length n bs Hl) as (a & -> & Ea). f_equal. rewrite (be_array_from a). by rewrite Ea.
Qed.

Lemma kat_test_key : test_key kat_p256 kat_key (arr_list published_point).
Proof.
  split; [apply array_of_be; by vm_compute|apply array_of_be; by vm_compute|done|].
  intros m. by exists (message_tail m).
Qed.

Lemma generated_vectors_pass_witness :
  exists checkpoints proofs entries,
    generated_vectors (hasher := ToyHasher) kat_p256 = Some (checkpoints ++ proofs ++ entries) /\
    Forall (fun v => evaluate (hasher := ToyHasher) sample_text kat_p256 v = Ok tt) (checkpoints ++ entries).
Proof.
  destruct (generated_vectors_pass (hasher := ToyHasher) kat_p256 kat_p256_documented kat_key
    (arr_list published_point) kat_test_key sample_text sample_text_names)
    as (cs & ps & es & _ & _ & _ & E & _ & H & _).
  exists cs, ps, es. exact (conj E H).
Defined.
