(* ===== verification/KVTypes.v ===== *)
(** * The types of what the store holds

    A [u64] of the source is a [Z] here: that every stored number stays one that a [u64] holds is an
    invariant of the store, kept by every call whose own numbers are in range; what would leave the
    range is refused, and counts are exact. *)

From stdpp Require Import gmap.
From S2P Require Import Prelude BTree KV KVContract DynamoDbFacts LeaseDynamoDb.

Local Open Scope mtc_scope.
Local Open Scope Z_scope.

(** ** Calls with arguments of the source's types *)

Definition action_typed (act : UpdateAction) : Prop :=
  match act with SetAttribute _ v => value_wf v | Increment _ n => in_u64 n | Remove _ => True end.
Definition op_typed (op : Operation) : Prop :=
  match op with
  | Put _ v _ => value_wf v
  | Update _ expr _ => Forall action_typed expr
  | Delete _ _ | ConditionCheck _ _ => True
  end.
Definition call_typed {A} (c : Call A) : Prop :=
  match c with
  | CPut _ v _ => value_wf v
  | CUpdate _ expr _ => Forall action_typed expr
  | CTransact ops => Forall op_typed ops
  | CGet _ | CQuery _ => True
  end.

(** The items of an answer. *)
Definition answer_typed {A} (c : Call A) : result A CloudError -> Prop :=
  match c in Call A return result A CloudError -> Prop with
  | CGet _ | CUpdate _ _ _ => fun r => forall it, r = Ok it -> value_wf (item_value it)
  | CQuery _ => fun r => forall items, r = Ok items -> Forall (fun it => value_wf (item_value it)) items
  | CPut _ _ _ | CTransact _ => fun _ => True
  end.

(** ** Updates *)

Lemma attr_after_typed (expr : list UpdateAction) a : forall v v',
  Forall action_typed expr -> (forall x, v = Some x -> value_wf x) ->
  attr_after a v expr = Some v' -> forall x, v' = Some x -> value_wf x.
Proof.
  induction expr as [|act expr IH]; intros v v' Hw Hv E; cbn [attr_after] in E; [by injection E as <-|].
  apply Forall_cons in Hw as [Ha Hw].
  destruct act as [b y|b n|b]; case_decide; try by eapply IH.
  - eapply IH; [done| |exact E]. by intros x [= <-].
  - destruct v as [[|c| | |]|]; try done. case_decide; [|done]. eapply IH; [done| |exact E].
    intros x [= <-]. constructor. specialize (Hv _ eq_refl). inversion Hv as [|c' Hc| | |]; subst.
    cbn [action_typed] in Ha. unfold in_uint in *. lia.
  - eapply IH; [done| |exact E]. done.
Qed.

Lemma updates_typed v expr v' : Forall action_typed expr -> value_wf v -> updates v expr v' -> value_wf v'.
Proof.
  intros Hw Hv (m & m' & -> & -> & Hu). constructor. intros a x Hx. inversion Hv as [| | | |m0 Hm]; subst.
  eapply (attr_after_typed expr a); [done| |apply Hu|exact Hx]. by apply Hm.
Qed.

(** ** Transactions *)

Lemma values_wf_insert (m : gmap string Value) k v : values_wf m -> value_wf v -> values_wf (<[k := v]> m).
Proof. intros Hm Hv k' x [[_ <-]|[_ Hx]]%lookup_insert_Some; [done|by eapply Hm]. Qed.

Lemma values_wf_delete (m : gmap string Value) k : values_wf m -> values_wf (delete k m).
Proof. intros Hm k' x [_ Hx]%lookup_delete_Some. by eapply Hm. Qed.

(** The writes of an operation, of values of the source's types. *)
Definition write_typed (w : option (Key * option Value)) : Prop :=
  match w with Some (_, Some v) => value_wf v | _ => True end.

Lemma op_writes_typed (m : gmap string Value) op w : values_wf m -> op_typed op -> op_writes m op w -> write_typed w.
Proof.
  intros Hm. destruct op as [k v cs|k expr cs|k cs|k cs]; cbn [op_typed op_writes]; try by intros ? ->.
  intros Hw (v & v' & Hk & Hu & ->). cbn. eapply updates_typed; [done| |done]. exact (Hm k v Hk).
Qed.

Lemma perform_typed ws : forall m : gmap string Value,
  Forall write_typed ws -> values_wf m -> values_wf (fold_left perform ws m).
Proof.
  induction ws as [|w ws IH]; intros m Hw Hm; [done|]. apply Forall_cons in Hw as [Ha Hw]. apply IH; [done|].
  destruct w as [[k [v|]]|]; [|by apply values_wf_delete|done]. by apply values_wf_insert.
Qed.

Lemma transact_typed (m : gmap string Value) ops ws :
  values_wf m -> Forall op_typed ops -> Forall2 (op_writes m) ops ws -> Forall write_typed ws.
Proof.
  intros Hm Ho H. induction H as [|op w ops ws Hw H IH]; [constructor|].
  apply Forall_cons in Ho as [Hop Ho]. constructor; [by eapply op_writes_typed|by apply IH].
Qed.

(** One call, whatever its outcome. *)
Lemma applied_typed {A} (c : Call A) (m : gmap string Value) r m' :
  values_wf m -> call_typed c -> applied m c r m' -> values_wf m' /\ answer_typed c r.
Proof.
  intros Hm Hc Ha. destruct c as [k|k v cs|k expr cs|ops|p]; cbn [call_typed answer_typed applied] in *.
  - destruct Ha as [-> ->]. split; [done|]. intros it E.
    assert (exists v, m !! k = Some v /\ it = MkItem k v) as (v & Hv & ->).
    { revert E. generalize (eq_refl (m !! k)). case_match eqn:Ek; intros _ E; [|done]. injection E as <-. eauto. }
    by eapply Hm.
  - destruct Ha as [(_ & _ & ->)|(_ & _ & ->)]; [|done]. split; [by apply values_wf_insert|done].
  - case_match eqn:Ek; [|by destruct Ha as [-> ->]].
    destruct Ha as [(_ & v' & Hu & -> & ->)|(_ & [reason ->] & ->)]; [|done].
    assert (value_wf v') by (eapply updates_typed; [done|exact (Hm _ _ Ek)|done]).
    split; [by apply values_wf_insert|]. by intros it [= <-].
  - destruct Ha as [(_ & _ & ws & Hw & ->)|(_ & _ & ->)]; [|done]. split; [|done].
    apply perform_typed; [|done]. by eapply transact_typed.
  - destruct Ha as (-> & items & -> & _ & Hin). split; [done|]. intros items' [= <-].
    apply Forall_forall. intros it [Hl _]%Hin. exact (Hm _ _ Hl).
Qed.

Lemma kv_step_typed {A} (c : Call A) (m : gmap string Value) r m' :
  values_wf m -> call_typed c -> kv_step m c r m' -> values_wf m' /\ answer_typed c r.
Proof.
  intros Hm Hc [r0 m0 Ha|r0 m0 b reason Ha|b reason].
  - by eapply applied_typed.
  - split; [by eapply applied_typed|]. by destruct c.
  - split; [done|]. by destruct c.
Qed.

(** ** The store over its life *)

(** Calls one after the other, each answered as the contract allows or lost, with the answers. *)
Inductive served_calls : Items -> list { A : Type & (Call A * result A CloudError)%type } -> Items -> Prop :=
| served_none m : served_calls m [] m
| served_call m A (c : Call A) r m1 rest m2 :
    kv_step m c r m1 -> served_calls m1 rest m2 -> served_calls m (existT A (c, r) :: rest) m2.

Lemma served_typed m calls m' : served_calls m calls m' -> values_wf m ->
  (forall A (c : Call A) r, In (existT A (c, r)) calls -> call_typed c) ->
  values_wf m' /\ forall A (c : Call A) r, In (existT A (c, r)) calls -> answer_typed c r.
Proof.
  induction 1 as [m|m B c r m1 rest m2 Hs Hr IH]; intros Hm Hc; [by split|].
  destruct (kv_step_typed c m r m1 Hm) as [Hm1 Ha]; [by apply (Hc B c r); left|exact Hs|].
  destruct IH as [Hm2 Hans]; [done|intros A c' r' Hin; apply (Hc A c' r'); by right|].
  split; [done|]. intros A c' r' [E|Hin]; [|by apply Hans].
  apply (f_equal (fun x : { A : Type & (Call A * result A CloudError)%type } =>
    answer_typed (projT2 x).1 (projT2 x).2)) in E. cbn in E. by rewrite <- E.
Qed.

(** The in-memory backend, call after call, with its answers. *)
Fixpoint memory_calls (calls : list (sigT Call)) (m : Items) : list { A : Type & (Call A * result A CloudError)%type } * Items :=
  match calls with
  | [] => ([], m)
  | existT A c :: rest =>
      let '(r, m1) := memory c m in
      let '(answers, m2) := memory_calls rest m1 in (existT A (c, r) :: answers, m2)
  end.

Lemma memory_calls_served calls : forall m, served_calls m (memory_calls calls m).1 (memory_calls calls m).2.
Proof.
  induction calls as [|[A c] calls IH]; intros m; cbn [memory_calls]; [constructor|].
  pose proof (memory_applied c m) as Ha. destruct (memory c m) as [r m1]. specialize (IH m1).
  destruct (memory_calls calls m1) as [answers m2]. eapply served_call; [|exact IH]. by apply kv_answered.
Qed.

Lemma memory_calls_In calls : forall m A (c : Call A) r,
  In (existT A (c, r)) (memory_calls calls m).1 -> In (existT A c) calls.
Proof.
  induction calls as [|[B b] calls IH]; intros m A c r; cbn [memory_calls]; [done|].
  destruct (memory b m) as [r1 m1]. specialize (IH m1). destruct (memory_calls calls m1) as [answers m2].
  intros [E|Hin]; [left|right; by eapply IH].
  by apply (f_equal (fun x : { A : Type & (Call A * result A CloudError)%type } => existT (projT1 x) (projT2 x).1)) in E.
Qed.

(** ** Increments *)

Lemma attr_after_untouched a v before rest :
  Forall (fun act => action_attribute act <> a) before -> attr_after a v (before ++ rest) = attr_after a v rest.
Proof.
  induction 1 as [|act before Hn _ IH]; [done|]. rewrite <- IH. destruct act; cbn in *; by rewrite decide_False by congruence.
Qed.

(** An increment past the end leaves the update nothing it could write, ... *)
Lemma overflow_no_update at_ a c n before after v :
  at_ !! a = Some (VU64 c) -> Forall (fun act => action_attribute act <> a) before -> 2 ^ 64 <= c + n ->
  ~ updates (VMap at_) (before ++ Increment a n :: after) v.
Proof.
  intros Ha Hb Ho (m & m' & [= <-] & -> & Hu). specialize (Hu a). rewrite attr_after_untouched, Ha in Hu by done.
  cbn in Hu. by rewrite decide_True, decide_False in Hu by (done || lia).
Qed.

(** ... and any other adds up. *)
Lemma increment_adds at_ a c n before after v :
  at_ !! a = Some (VU64 c) -> Forall (fun act => action_attribute act <> a) before -> Forall (fun act => action_attribute act <> a) after ->
  updates (VMap at_) (before ++ Increment a n :: after) v -> exists m, v = VMap m /\ m !! a = Some (VU64 (c + n)).
Proof.
  intros Ha Hb Hf (m & m' & [= <-] & -> & Hu). exists m'. split; [done|]. specialize (Hu a).
  rewrite attr_after_untouched, Ha in Hu by done. cbn in Hu. rewrite decide_True in Hu by done.
  destruct (decide _); [|done]. rewrite <- (app_nil_r after), attr_after_untouched in Hu by done.
  cbn in Hu. congruence.
Qed.

(** C39. The in-memory store's numbers are [u64]s and count exactly. From items whose numbers are in
    range, through any calls whose own numbers are, the items left and the items of every answer have
    their numbers in range. And in any state so reached, an update that increments a stored number past
    the end is refused and changes nothing, alone or in a transaction of whatever operations; one that
    succeeds has stored the exact sum. *)
Theorem store_keeps_types calls m :
  values_wf m -> (forall A (c : Call A), In (existT A c) calls -> call_typed c) ->
  let m' := (memory_calls calls m).2 in
  values_wf m' /\
  (forall A (c : Call A) r, In (existT A (c, r)) (memory_calls calls m).1 -> answer_typed c r) /\
  forall k at_ a c n before after cs,
    m' !! k = Some (VMap at_) -> at_ !! a = Some (VU64 c) -> Forall (fun act => action_attribute act <> a) before ->
    let expr := before ++ Increment a n :: after in
    (2 ^ 64 <= c + n ->
       refused (memory (CUpdate k expr cs) m').1 /\ (memory (CUpdate k expr cs) m').2 = m' /\
       forall ops, Update k expr cs ∈ ops ->
         refused (memory (CTransact ops) m').1 /\ (memory (CTransact ops) m').2 = m') /\
    (Forall (fun act => action_attribute act <> a) after -> forall item m'', memory (CUpdate k expr cs) m' = (Ok item, m'') ->
       exists at', m'' = <[k := VMap at']> m' /\ item = MkItem k (VMap at') /\ at' !! a = Some (VU64 (c + n))).
Proof.
  intros Hm Hc m'.
  destruct (served_typed m (memory_calls calls m).1 m') as [Hv Ha];
    [apply memory_calls_served|done|intros A c r Hin; apply Hc; by eapply memory_calls_In|].
  split; [done|]. split; [exact Ha|]. intros k at_ a c n before after cs Hk Hat Hb expr. split.
  - intros Ho. assert (forall v v', m' !! k = Some v -> ~ updates v expr v') as Hno.
    { intros v v' E. rewrite Hk in E. injection E as <-. by apply (overflow_no_update _ _ c). }
    pose proof (memory_applied (CUpdate k expr cs) m') as H. cbn [applied] in H. rewrite Hk in H.
    destruct H as [(_ & v' & Hu & _)|(_ & Hr & Hs)]; [by destruct (Hno _ v' Hk)|]. split_and!; [done..|].
    intros ops Hin. pose proof (memory_applied (CTransact ops) m') as H.
    destruct H as [(He & _)|(_ & ? & ?)]; [|by split]. rewrite Forall_forall in He.
    destruct (He _ Hin) as (_ & v & v' & E & Hu). by destruct (Hno v v').
  - intros Hf item m'' E. pose proof (memory_applied (CUpdate k expr cs) m') as H. rewrite E in H.
    cbn [applied fst snd] in H. rewrite Hk in H. destruct H as [(_ & v' & Hu & [= ->] & ->)|(_ & [? [=]] & _)].
    destruct (increment_adds at_ a c n before after v' Hat Hb Hf Hu) as (at' & -> & ?). by exists at'.
Qed.

(** The highest number, incremented: the call is refused, the number stays. *)
Definition full_attributes : gmap string Value := {["n"%string := VU64 u64_max]}.
Definition full_counter : gmap string Value := {["k"%string := VMap full_attributes]}.
Definition bump_counter_call : Call Item := CUpdate "k" (update_increment update_new "n" 1) [].

Definition bump_counter : Operation := Update "k" (update_increment update_new "n" 1) [].

Lemma full_counter_typed : values_wf full_counter.
Proof.
  apply values_wf_insert; [by intros k v H%lookup_empty_Some|]. constructor. intros a v Ha.
  unfold full_attributes in Ha. apply lookup_singleton_Some in Ha as [_ <-]. constructor. split; [discriminate|reflexivity].
Qed.

Lemma store_keeps_types_witness :
  (memory bump_counter_call full_counter).1 = Err (ConditionFailed (WouldOverflowU64 "n")) /\
  refused (memory (CTransact [Put "j" (VBool true) []; bump_counter]) (memory_calls [existT Item bump_counter_call] full_counter).2).1.
Proof.
  split; [vm_compute; reflexivity|].
  assert (forall A (c : Call A), In (existT A c) [existT Item bump_counter_call] -> call_typed c) as Hc.
  2: { destruct (store_keeps_types [existT Item bump_counter_call] full_counter full_counter_typed Hc) as (_ & _ & H).
       apply (proj1 (H "k"%string full_attributes "n"%string u64_max 1 [] [] []
         ltac:(vm_compute; reflexivity) ltac:(vm_compute; reflexivity) (Forall_nil_2 _)) ltac:(vm_compute; discriminate)).
       right. left. }
  intros A c Hin. assert (existT Item bump_counter_call = existT A c) as E by (by destruct Hin as [?|[]]).
  apply (f_equal (fun x : sigT Call => call_typed (projT2 x))) in E. cbn in E. rewrite <- E. repeat constructor; discriminate.
Defined.
