(* ===== verification/Suite.v ===== *)
(** * Test suites over a trait

    The conformance suites of [cloud-test-suite] and [coordination] are programs that call a backend
    through its trait and panic at the first answer they do not expect. Here is what such a program
    is, over any calls [E], what its runs on a backend are, and when none of them panics: if no
    answer that the trait's contract allows makes it panic, then it passes on every backend that
    keeps the contract. The text of a panic is not modelled. *)

From stdpp Require Import base list relations.
From S2P Require Import Prelude.

(** ** Programs *)

(** [Race] is a [tokio::spawn] of each task and the answers of the joins, in the order of the
    handles; a call of [E R] is answered by an [R]. *)
Inductive Test (E : Type -> Type) : Type :=
| Passed
| Panicked
| Perform {R : Type} (c : E R) (k : R -> Test E)
| Race {R : Type} (tasks : list (E R)) (k : list R -> Test E).
Arguments Passed {E}.
Arguments Panicked {E}.
Arguments Perform {E R} c k.
Arguments Race {E R} tasks k.

(** [assert!], [unwrap_or_else(|err| panic!(..))], [let Err(err) = result else { panic!(..) }]. *)
Definition assert_that {E} (b : bool) (k : Test E) : Test E := if b then k else Panicked.
Definition expect {E A Er} (r : result A Er) (k : A -> Test E) : Test E :=
  match r with Ok a => k a | Err _ => Panicked end.
Definition expect_err {E A Er} (r : result A Er) (k : Er -> Test E) : Test E :=
  match r with Ok _ => Panicked | Err e => k e end.
Definition expect_some {E A} (o : option A) (k : A -> Test E) : Test E :=
  match o with Some a => k a | None => Panicked end.

(** A [for] loop. *)
Fixpoint for_each {E A} (l : list A) (body : A -> Test E -> Test E) (k : Test E) : Test E :=
  match l with
  | [] => k
  | a :: rest => body a (for_each rest body k)
  end.

Declare Scope suite_scope.
Delimit Scope suite_scope with suite.
Notation "'call!' r ':=' c 'in' k" := (Perform c (fun r => k))
  (at level 10, r name, c at level 100, k at level 200) : suite_scope.
Notation "'ok!' x ':=' c 'in' k" := (Perform c (fun r => expect r (fun x => k)))
  (at level 10, x name, c at level 100, k at level 200) : suite_scope.
Notation "'done!' c ';' k" := (Perform c (fun r => expect r (fun _ => k)))
  (at level 10, c at level 100, k at level 200) : suite_scope.
Notation "'err!' e ':=' c 'in' k" := (Perform c (fun r => expect_err r (fun e => k)))
  (at level 10, e name, c at level 100, k at level 200) : suite_scope.
Notation "'assert!' b ';' k" := (assert_that b k)
  (at level 10, b at level 100, k at level 200) : suite_scope.

(** ** Runs *)

Section Runs.
Context {E : Type -> Type} {S : Type} (step : forall R, S -> E R -> R -> S -> Prop).

(** One task of a race makes its call. *)
Inductive race_step {R} : S * list (E R + R) -> S * list (E R + R) -> Prop :=
| task_runs s ts i c r s' :
    ts !! i = Some (inl c) -> step R s c r s' -> race_step (s, ts) (s', <[i := inr r]> ts).

(** [runs t s passed]: a run of [t] from [s] ends, without a panic or with one. *)
Fixpoint runs (t : Test E) (s : S) (passed : bool) : Prop :=
  match t with
  | Passed => passed = true
  | Panicked => passed = false
  | Perform c k => exists r s', step _ s c r s' /\ runs (k r) s' passed
  | Race tasks k => exists rs s', rtc race_step (s, inl <$> tasks) (s', inr <$> rs) /\ runs (k rs) s' passed
  end.

(** A suite: each case on an instance of its own, in order, up to the first panic. *)
Fixpoint suite_runs (fresh : S -> Prop) (cases : list (Test E)) (passed : bool) : Prop :=
  match cases with
  | [] => passed = true
  | t :: rest => exists s, fresh s /\
      ((runs t s false /\ passed = false) \/ (runs t s true /\ suite_runs fresh rest passed))
  end.

(** No call has an answer that the contract allows and the program panics at, nor a call the contract
    does not cover. *)
Context (pre : forall R, S -> E R -> Prop).
Fixpoint safe (t : Test E) (s : S) : Prop :=
  match t with
  | Passed => True
  | Panicked => False
  | Perform c k => pre _ s c /\ forall r s', step _ s c r s' -> safe (k r) s'
  | Race tasks k => forall s' ts, rtc race_step (s, inl <$> tasks) (s', ts) ->
      (forall i c, ts !! i = Some (inl c) -> pre _ s' c) /\ (forall rs, ts = inr <$> rs -> safe (k rs) s')
  end.

Lemma safe_assert b k s : b = true -> safe k s -> safe (assert_that b k) s.
Proof. by intros ->. Qed.

Lemma safe_for_each {A} (l : list A) (body : A -> Test E -> Test E) (inv : list A -> S -> Prop) k :
  (forall a rest t s, inv (a :: rest) s -> (forall s', inv rest s' -> safe t s') -> safe (body a t) s) ->
  (forall s, inv [] s -> safe k s) ->
  forall s, inv l s -> safe (for_each l body k) s.
Proof.
  intros Hbody Hk. induction l as [|a l IH]; intros s Hs; simpl; [by apply Hk|]. by eapply Hbody.
Qed.

(** A race whose first task to run wins: from then on the state stands, and everyone else loses. *)
Section OneWinner.
Context {R : Type} (tasks : list (E R)) (s0 : S).
Context (won : nat -> R -> Prop) (lost : R -> Prop) (after : nat -> S -> Prop).
Context (Hwin : forall i c, tasks !! i = Some c -> pre _ s0 c /\
           forall r s', step _ s0 c r s' -> won i r /\ after i s').
Context (Hlose : forall w s i c, after w s -> tasks !! i = Some c -> pre _ s c /\
           forall r s', step _ s c r s' -> lost r /\ s' = s).

Definition settled (w : nat) (ts : list (E R + R)) : Prop :=
  (exists r, ts !! w = Some (inr r) /\ won w r) /\
  forall i x, i <> w -> ts !! i = Some x ->
    match x with inl c => tasks !! i = Some c | inr r => lost r end.

Lemma race_states st : rtc race_step (s0, inl <$> tasks) st ->
  length st.2 = length tasks /\
  ((st.1 = s0 /\ st.2 = inl <$> tasks) \/ exists w, after w st.1 /\ settled w st.2).
Proof.
  revert st. apply rtc_ind_r; simpl; [rewrite length_fmap; auto|].
  intros st1 st2 _ [s ts i c r s' Hi Hs] [Hlen Hst]. simpl in *. rewrite length_insert. split; [done|]. right.
  pose proof (lookup_lt_Some _ _ _ Hi) as Hlt. destruct Hst as [[-> ->]|(w & Hw & [r0 [Hr0 Hwon]] & Ho)].
  - rewrite list_lookup_fmap in Hi. destruct (tasks !! i) as [c'|] eqn:Et; [|done]. injection Hi as ->.
    destruct (proj2 (Hwin i c Et) r s' Hs) as [Hwon Ha]. exists i. split; [done|]. split.
    + exists r. split; [|done]. by rewrite list_lookup_insert_eq.
    + intros j x Hj. rewrite list_lookup_insert_ne by done. rewrite list_lookup_fmap.
      destruct (tasks !! j) eqn:Ej; [|done]. by intros [= <-].
  - assert (i <> w) as Hne by (intros ->; congruence).
    pose proof (Ho i _ Hne Hi) as Et. simpl in Et.
    destruct (proj2 (Hlose w s i c Hw Et) r s' Hs) as [Hl ->]. exists w. split; [done|]. split.
    + exists r0. split; [|done]. by rewrite list_lookup_insert_ne.
    + intros j x Hj. destruct (decide (i = j)) as [<-|Hij].
      * rewrite list_lookup_insert_eq by done. by intros [= <-].
      * rewrite list_lookup_insert_ne by done. by apply Ho.
Qed.

Lemma safe_race k :
  tasks <> [] ->
  (forall w rs s, length rs = length tasks -> after w s -> (exists r, rs !! w = Some r /\ won w r) ->
     (forall i r, i <> w -> rs !! i = Some r -> lost r) -> safe (k rs) s) ->
  safe (Race tasks k) s0.
Proof.
  intros Hne Hk s ts Hr. destruct (race_states _ Hr) as [Hlen [[Es Ets]|(w & Hw & [r0 [Hr0 Hwon]] & Ho)]];
    simpl in *; [subst|].
  - split.
    + intros i c Hi. rewrite list_lookup_fmap in Hi. destruct (tasks !! i) as [c'|] eqn:Et; [|done].
      injection Hi as ->. by apply (Hwin i c).
    + intros [|r rs] Er; destruct tasks; by simplify_eq/=.
  - split.
    + intros i c Hi. assert (i <> w) by (intros ->; congruence). apply (Hlose w s i c); [done|].
      by apply (Ho i (inl c)).
    + intros rs ->. rewrite length_fmap in Hlen. rewrite list_lookup_fmap in Hr0.
      destruct (rs !! w) as [r|] eqn:Ew; [|done]. injection Hr0 as ->.
      eapply (Hk w); [done|done|by exists r0|]. intros i r Hi Er.
      apply (Ho i (inr r) Hi). by rewrite list_lookup_fmap, Er.
Qed.
End OneWinner.
End Runs.

(** ** Backends that keep the contract *)

(** The states of a backend stand for those of the contract, and what it answers to a call the
    contract covers is what the contract allows. *)
Class Conforms {E : Type -> Type} {S M : Type} (step : forall R, S -> E R -> R -> S -> Prop)
    (spec : forall R, M -> E R -> R -> M -> Prop) (pre : forall R, M -> E R -> Prop)
    (stands_for : S -> M -> Prop) : Prop := {
  conforms : forall R (c : E R) s m r s', stands_for s m -> pre _ m c -> step _ s c r s' ->
    exists m', spec _ m c r m' /\ stands_for s' m'
}.

Section Conforming.
Context {E : Type -> Type} {S M : Type} (step : forall R, S -> E R -> R -> S -> Prop).
Context (spec : forall R, M -> E R -> R -> M -> Prop) (pre : forall R, M -> E R -> Prop).
Context (stands_for : S -> M -> Prop) `{!Conforms step spec pre stands_for}.

Lemma race_simulated {R} (s : S) (m : M) (ts : list (E R + R)) st :
  rtc (race_step step) (s, ts) st -> stands_for s m ->
  (forall m' us, rtc (race_step spec) (m, ts) (m', us) -> forall i c, us !! i = Some (inl c) -> pre _ m' c) ->
  exists m', rtc (race_step spec) (m, ts) (m', st.2) /\ stands_for st.1 m'.
Proof.
  intros Hr Hm Hp. revert st Hr. apply rtc_ind_r; simpl; [by exists m|].
  intros st1 st2 _ [s1 ts1 i c r s2 Hi Hs] (m1 & Hr1 & Hm1). simpl in *.
  destruct (conforms _ c s1 m1 r s2 Hm1 (Hp _ _ Hr1 _ _ Hi) Hs) as (m2 & Hs2 & Hm2).
  exists m2. split; [|done]. eapply rtc_r; [done|]. by apply (task_runs spec m1 ts1 i c r m2).
Qed.

Lemma safe_passes t : forall s m passed,
  safe spec pre t m -> stands_for s m -> runs step t s passed -> passed = true.
Proof.
  induction t as [| |R c k IH|R tasks k IH]; intros s m passed Hsafe Hm Hrun; simpl in *; [done..| |].
  - destruct Hsafe as [Hp Hk], Hrun as (r & s' & Hs & Hrun).
    destruct (conforms _ c s m r s' Hm Hp Hs) as (m' & Hs' & Hm'). by eapply IH; [apply Hk| |].
  - destruct Hrun as (rs & s' & Hr & Hrun).
    destruct (race_simulated _ m _ _ Hr Hm) as (m' & Hr' & Hm'); [by intros; eapply Hsafe|].
    eapply IH; [|done|done]. by apply (Hsafe m' _ Hr').
Qed.

Lemma suite_passes (fresh : S -> Prop) (initial : M -> Prop) cases :
  (forall s, fresh s -> exists m, initial m /\ stands_for s m) ->
  Forall (fun t => forall m, initial m -> safe spec pre t m) cases ->
  ~ suite_runs step fresh cases false.
Proof.
  intros Hf Hc. induction Hc as [|t cases Ht Hc IH]; simpl; [done|].
  intros (s & Hs & [[Hr _]|[_ Hr]]); [|done].
  destruct (Hf s Hs) as (m & Hi & Hm). exfalso. by pose proof (safe_passes t s m false (Ht m Hi) Hm Hr).
Qed.
End Conforming.

(** ** A run *)

(** The run on a backend that is a function, the tasks of a race one after the other. *)
Section Alone.
Context {E : Type -> Type} {S : Type} (exec : forall R, E R -> S -> R * S).

Fixpoint exec_all {R} (tasks : list (E R)) (s : S) : list R * S :=
  match tasks with
  | [] => ([], s)
  | c :: rest => let '(r, s1) := exec _ c s in let '(rs, s2) := exec_all rest s1 in (r :: rs, s2)
  end.
Fixpoint run_alone (t : Test E) (s : S) : bool :=
  match t with
  | Passed => true
  | Panicked => false
  | Perform c k => let '(r, s') := exec _ c s in run_alone (k r) s'
  | Race tasks k => let '(rs, s') := exec_all tasks s in run_alone (k rs) s'
  end.

Definition exec_step (R : Type) (s : S) (c : E R) (r : R) (s' : S) : Prop := exec _ c s = (r, s').

Lemma exec_all_race {R} (tasks : list (E R)) : forall (answered : list R) s,
  rtc (race_step exec_step) (s, (inr <$> answered) ++ (inl <$> tasks))
    ((exec_all tasks s).2, inr <$> (answered ++ (exec_all tasks s).1)).
Proof.
  induction tasks as [|c tasks IH]; intros answered s; simpl.
  { rewrite !app_nil_r. done. }
  destruct (exec _ c s) as [r s1] eqn:Ec. specialize (IH (answered ++ [r]) s1).
  destruct (exec_all tasks s1) as [rs s2]. simpl in *. rewrite fmap_app, <- !app_assoc in IH. simpl in IH.
  eapply rtc_l; [|exact IH].
  assert ((inr <$> answered) ++ inr r :: (inl <$> tasks) =
          <[length answered := inr r]> ((inr <$> answered) ++ inl c :: (inl <$> tasks))) as ->.
  { pose proof (insert_app_r (inr <$> answered) (inl c :: (inl <$> tasks)) 0 (inr r)) as Hi.
    rewrite length_fmap, Nat.add_0_r in Hi. by rewrite Hi. }
  apply (task_runs exec_step s _ (length answered) c r s1).
  - rewrite lookup_app_r by (by rewrite length_fmap). by rewrite length_fmap, Nat.sub_diag.
  - exact Ec.
Qed.

Lemma run_alone_runs t : forall s, runs exec_step t s (run_alone t s).
Proof.
  induction t as [| |R c k IH|R tasks k IH]; intros s; simpl; [done..| |].
  - destruct (exec _ c s) as [r s'] eqn:Ec. by exists r, s'.
  - pose proof (exec_all_race tasks [] s) as Hr. destruct (exec_all tasks s) as [rs s']. by exists rs, s'.
Qed.

(** On new instances that are all the same, a suite ends. *)
Lemma suite_runs_alone s0 cases :
  suite_runs exec_step (fun s => s = s0) cases (forallb (fun t => run_alone t s0) cases).
Proof.
  induction cases as [|t cases IH]; [done|]. simpl. exists s0. split; [done|].
  pose proof (run_alone_runs t s0) as Hr. destruct (run_alone t s0); [right|left]; by split.
Qed.

(** So a suite whose cases are safe ends by passing, and only so. *)
Lemma suite_ends_passing {M : Type} (spec : forall R, M -> E R -> R -> M -> Prop) (pre : forall R, M -> E R -> Prop)
    (stands_for : S -> M -> Prop) `{!Conforms exec_step spec pre stands_for} s0 (initial : M -> Prop) cases :
  (exists m, initial m /\ stands_for s0 m) ->
  Forall (fun t => forall m, initial m -> safe spec pre t m) cases ->
  suite_runs exec_step (fun s => s = s0) cases true /\ ~ suite_runs exec_step (fun s => s = s0) cases false.
Proof.
  intros Hi Hc. assert (~ suite_runs exec_step (fun s => s = s0) cases false) as Hn
    by (apply (suite_passes exec_step spec pre stands_for _ initial); [by intros s ->|done]).
  split; [|done]. pose proof (suite_runs_alone s0 cases) as Hr. by destruct (forallb _ cases).
Qed.
End Alone.
