(* ===== verification/KvSuite.v ===== *)
(** * The conformance suite of [ReplicatedKv]: [cloud-test-suite/src/replicated_kv.rs]

    The cases of the suite, as programs over the calls of the trait. The numbers of tasks that
    [proptest] draws for the concurrent cases are a parameter. *)

From stdpp Require Import gmap.
From S2P Require Import Prelude Format KV KVContract Suite.

Local Open Scope mtc_scope.
Local Open Scope suite_scope.
Local Open Scope Z_scope.

(** A call of the trait, and the type of what it returns. *)
Inductive KvCall : Type -> Type :=
| Kv {A} (c : Call A) : KvCall (result A CloudError).

Abbreviation KvTest := (Test KvCall).

(** [matches!(err, CloudError::NotFound { .. })], and of the other variants. *)
Definition is_not_found (e : CloudError) : bool := match e with NotFound _ => true | _ => false end.
Definition is_condition_failed (e : CloudError) : bool :=
  match e with ConditionFailed _ => true | _ => false end.

(** [matches!(result, Err(CloudError::NotFound { .. }))]. *)
Definition result_not_found {A} (r : result A CloudError) : bool :=
  match r with Ok _ => false | Err e => is_not_found e end.

Definition CONCURRENCY_TASK_RANGE : nat * nat := (4, 48)%nat.
Definition CONCURRENCY_ROUNDS : nat := 6.

Definition map_item (pairs : list (string * Value)) : Value :=
  VMap (foldl (fun m '(k, v) => <[k := v]> m) ∅ pairs).

(** ** The sequential cases *)

Definition test_put_then_get_round_trips : KvTest :=
  let key := "cts/replicated-kv/round-trip"%string in
  done! Kv (CPut key (VU64 7) []);
  ok! item := Kv (CGet key) in
  assert! bool_decide (item_value item = VU64 7);
  Passed.

Definition test_get_missing_is_not_found : KvTest :=
  err! err := Kv (CGet "cts/replicated-kv/missing") in
  assert! is_not_found err;
  Passed.

Definition test_conditional_put_succeeds_then_loses_cas : KvTest :=
  let key := "cts/replicated-kv/cas-counter"%string in
  done! Kv (CPut key (VU64 1) [NotExists]);
  err! err := Kv (CPut key (VU64 2) [NotExists]) in
  assert! is_precondition_failure err;
  ok! item := Kv (CGet key) in
  assert! bool_decide (item_value item = VU64 1);
  Passed.

Definition test_attribute_equals_condition_gates_put : KvTest :=
  let key := "cts/replicated-kv/attribute-equals"%string in
  done! Kv (CPut key (VU64 3) []);
  err! err := Kv (CPut key (VU64 4) [AttributeEquals "" (VU64 99)]) in
  assert! is_condition_failed err;
  done! Kv (CPut key (VU64 4) [AttributeEquals "" (VU64 3)]);
  ok! item := Kv (CGet key) in
  assert! bool_decide (item_value item = VU64 4);
  Passed.

Definition test_atomic_update_increments_and_returns_post_state : KvTest :=
  let key := "cts/replicated-kv/atomic-increment"%string in
  done! Kv (CPut key (map_item [("next_index", VU64 0)%string]) []);
  ok! item := Kv (CUpdate key (update_increment update_new "next_index" 32) []) in
  assert! bool_decide (item_value item = map_item [("next_index", VU64 32)%string]);
  Passed.

Definition test_atomic_update_honors_epoch_condition : KvTest :=
  let key := "cts/replicated-kv/atomic-epoch"%string in
  done! Kv (CPut key (map_item [("next_index", VU64 0)%string; ("epoch", VU64 1)%string]) []);
  err! stale_err := Kv (CUpdate key (update_increment update_new "next_index" 1)
                          [AttributeEquals "epoch" (VU64 2)]) in
  assert! is_precondition_failure stale_err;
  done! Kv (CUpdate key (update_increment update_new "next_index" 1) [AttributeEquals "epoch" (VU64 1)]);
  Passed.

Definition test_atomic_update_missing_key_is_not_found : KvTest :=
  err! err := Kv (CUpdate "cts/replicated-kv/missing" update_new []) in
  assert! is_not_found err;
  Passed.

Definition test_atomic_update_increment_on_absent_attribute_is_condition_failed : KvTest :=
  let key := "cts/replicated-kv/increment-absent-attribute"%string in
  done! Kv (CPut key (map_item []) []);
  err! err := Kv (CUpdate key (update_increment update_new "missing_attr" 1) []) in
  assert! is_condition_failed err;
  Passed.

Definition test_query_returns_matching_prefix_sorted_by_key : KvTest :=
  for_each ["cts/replicated-kv/query/coord/b"; "cts/replicated-kv/query/coord/a";
            "cts/replicated-kv/query/other/x"]%string
    (fun k rest => done! Kv (CPut k (VBool true) []); rest)
  (ok! items := Kv (CQuery "cts/replicated-kv/query/coord/") in
   assert! bool_decide (item_key <$> items =
     ["cts/replicated-kv/query/coord/a"; "cts/replicated-kv/query/coord/b"]%string);
   Passed).

Definition test_query_with_no_matches_is_empty_ok : KvTest :=
  ok! items := Kv (CQuery "cts/replicated-kv/query/nothing/") in
  assert! match items with [] => true | _ :: _ => false end;
  Passed.

Definition test_transact_applies_all_ops_when_every_condition_holds : KvTest :=
  let lease := "cts/replicated-kv/transact-ok/lease"%string in
  let counter := "cts/replicated-kv/transact-ok/counter"%string in
  done! Kv (CPut lease (VU64 1) []);
  done! Kv (CPut counter (map_item [("next_index", VU64 0)%string]) []);
  done! Kv (CTransact [ConditionCheck lease [AttributeEquals "" (VU64 1)];
                       Update counter (update_increment update_new "next_index" 32) []]);
  ok! item := Kv (CGet counter) in
  assert! bool_decide (item_value item = map_item [("next_index", VU64 32)%string]);
  Passed.

Definition test_transact_with_one_failing_condition_applies_zero_ops : KvTest :=
  let lease := "cts/replicated-kv/transact-fail/lease"%string in
  let counter := "cts/replicated-kv/transact-fail/counter"%string in
  done! Kv (CPut lease (VU64 1) []);
  done! Kv (CPut counter (map_item [("next_index", VU64 0)%string]) []);
  err! err := Kv (CTransact [Update counter (update_increment update_new "next_index" 32) [];
                             ConditionCheck lease [AttributeEquals "" (VU64 99)]]) in
  assert! is_condition_failed err;
  ok! counter_item := Kv (CGet counter) in
  assert! bool_decide (item_value counter_item = map_item [("next_index", VU64 0)%string]);
  ok! lease_item := Kv (CGet lease) in
  assert! bool_decide (item_value lease_item = VU64 1);
  Passed.

Definition test_transact_failing_op_first_still_applies_zero_ops : KvTest :=
  let lease := "cts/replicated-kv/transact-fail-first/lease"%string in
  let side_effect := "cts/replicated-kv/transact-fail-first/side-effect"%string in
  done! Kv (CPut lease (VU64 1) []);
  err! err := Kv (CTransact [ConditionCheck lease [AttributeEquals "" (VU64 99)];
                             Put side_effect (VBool true) []]) in
  assert! is_condition_failed err;
  call! side_effect_result := Kv (CGet side_effect) in
  assert! result_not_found side_effect_result;
  Passed.

Definition test_transact_delete_and_put_are_all_or_nothing : KvTest :=
  let a := "cts/replicated-kv/transact-delete-put/a"%string in
  let b := "cts/replicated-kv/transact-delete-put/b"%string in
  done! Kv (CPut a (VU64 1) []);
  err! err := Kv (CTransact [Delete a []; Put b (VU64 2) [Exists]]) in
  assert! is_condition_failed err;
  ok! a_item := Kv (CGet a) in
  assert! bool_decide (item_value a_item = VU64 1);
  call! b_result := Kv (CGet b) in
  assert! result_not_found b_result;
  Passed.

Definition test_transact_update_on_missing_key_is_condition_failed : KvTest :=
  let present := "cts/replicated-kv/transact-update-missing/present"%string in
  let missing := "cts/replicated-kv/transact-update-missing/missing"%string in
  done! Kv (CPut present (VU64 1) []);
  err! err := Kv (CTransact [Put present (VU64 2) []; Update missing (update_increment update_new "n" 1) []]) in
  assert! is_condition_failed err;
  ok! present_item := Kv (CGet present) in
  assert! bool_decide (item_value present_item = VU64 1);
  call! missing_result := Kv (CGet missing) in
  assert! result_not_found missing_result;
  Passed.

(** ** The concurrent cases *)

(** The loop over the joins: [wins] and [losses], or a panic at an unexpected error. *)
Fixpoint tally {A} (results : list (result A CloudError)) (wins losses : nat) (k : nat -> nat -> KvTest) : KvTest :=
  match results with
  | [] => k wins losses
  | Ok _ :: rest => tally rest (S wins) losses k
  | Err (ConditionFailed _) :: rest => tally rest wins (S losses) k
  | Err _ :: _ => Panicked
  end.

(** [u64::try_from(n).unwrap_or(u64::MAX)], [usize::try_from(n).unwrap_or(usize::MAX)]. *)
Definition to_u64 (n : nat) : Z := default u64_max (try_from_uint 64 (Z.of_nat n)).
Definition to_usize (n : Z) : Z := default usize_max (try_from_uint 64 n).

Definition concurrent_put_key (round : nat) : Key :=
  ("cts/replicated-kv/concurrent-put/" +:+ decimal (Z.of_nat round))%string.

(** One round: the tasks' puts, the tally, and the value that is left. *)
Definition put_round (draw : nat -> option nat) (round : nat) (rest : KvTest) : KvTest :=
  expect_some (draw round) (fun tasks =>
  let key := concurrent_put_key round in
  Race ((fun task => Kv (CPut key (VU64 (to_u64 task)) [NotExists])) <$> seq 0 tasks) (fun results =>
  tally results 0 0 (fun wins losses =>
  assert! Nat.eqb wins 1;
  assert! Nat.eqb losses (tasks - 1);
  ok! item := Kv (CGet key) in
  match item_value item with
  | VU64 winner_task => assert! to_usize winner_task <? Z.of_nat tasks; rest
  | _ => Panicked
  end))).

Definition test_concurrent_conditional_put_yields_exactly_one_winner (draw : nat -> option nat) : KvTest :=
  for_each (seq 0 CONCURRENCY_ROUNDS) (put_round draw) Passed.

Definition concurrent_update_key : Key := "cts/replicated-kv/concurrent-atomic-update".

Definition bump_epoch (round : nat) : Call Item :=
  CUpdate concurrent_update_key
    (update_set (update_increment update_new "count" 1) "epoch" (VU64 (Z.of_nat round + 1)))
    [AttributeEquals "epoch" (VU64 (Z.of_nat round))].
Definition update_round (draw : nat -> option nat) (round : nat) (rest : KvTest) : KvTest :=
  expect_some (draw round) (fun tasks =>
  Race ((fun _ => Kv (bump_epoch round)) <$> seq 0 tasks) (fun results =>
  tally results 0 0 (fun wins losses =>
  assert! Nat.eqb wins 1;
  assert! Nat.eqb losses (tasks - 1);
  rest))).

Definition test_concurrent_atomic_update_yields_exactly_one_winner (draw : nat -> option nat) : KvTest :=
  done! Kv (CPut concurrent_update_key (map_item [("count", VU64 0)%string; ("epoch", VU64 0)%string]) []);
  for_each (seq 0 CONCURRENCY_ROUNDS) (update_round draw)
  (ok! final_item := Kv (CGet concurrent_update_key) in
   match item_value final_item with
   | VMap map =>
       assert! bool_decide (map !! "count"%string = Some (VU64 (Z.of_nat CONCURRENCY_ROUNDS)));
       Passed
   | _ => Panicked
   end).

(** ** The suite *)

(** [run_replicated_kv_suite]; [put_draw] and [update_draw] are the samples that the runners of the
    two concurrent cases draw, round by round. *)
Definition replicated_kv_suite (put_draw update_draw : nat -> option nat) : list KvTest :=
  [test_put_then_get_round_trips;
   test_get_missing_is_not_found;
   test_conditional_put_succeeds_then_loses_cas;
   test_attribute_equals_condition_gates_put;
   test_atomic_update_increments_and_returns_post_state;
   test_atomic_update_honors_epoch_condition;
   test_atomic_update_missing_key_is_not_found;
   test_atomic_update_increment_on_absent_attribute_is_condition_failed;
   test_query_returns_matching_prefix_sorted_by_key;
   test_query_with_no_matches_is_empty_ok;
   test_transact_applies_all_ops_when_every_condition_holds;
   test_transact_with_one_failing_condition_applies_zero_ops;
   test_transact_failing_op_first_still_applies_zero_ops;
   test_transact_delete_and_put_are_all_or_nothing;
   test_transact_update_on_missing_key_is_condition_failed;
   test_concurrent_conditional_put_yields_exactly_one_winner put_draw;
   test_concurrent_atomic_update_yields_exactly_one_winner update_draw].

(** The in-memory backend as a function of the call, and a run of the suite on it. *)
Definition memory_exec (R : Type) (c : KvCall R) : Items -> R * Items :=
  match c with Kv c => memory c end.
