(* ===== verification/KvSuiteFacts.v ===== *)
(** * The conformance suite of [ReplicatedKv] against the contract

    Every backend that keeps the contract on the calls the DynamoDB backend supports passes the
    suite, in every interleaving of the concurrent cases; so do the in-memory backend, and
    the DynamoDB backend on any server with DynamoDB's documented laws when no call fails in
    transport. *)

From Stdlib Require Import Ascii.
From stdpp Require Import gmap relations.
From S2P Require Import Prelude Format BTree KV KVContract AwsErrors DynamoDb DynamoDbFacts DynamoDbRefines DynamoDbContract LeaseDynamoDb Suite KvSuite.

Local Open Scope mtc_scope.
Local Open Scope Z_scope.

(** ** The contract, call by call *)

Definition kv_spec (R : Type) (m : Items) (c : KvCall R) : R -> Items -> Prop :=
  match c with Kv c => applied m c end.
Definition kv_pre (R : Type) (m : Items) (c : KvCall R) : Prop :=
  match c with Kv c => supported m c end.

Abbreviation kv_safe := (safe kv_spec kv_pre).

(** What the contract allows, from what the in-memory backend does. *)
Definition same_answer {A} (r0 r : result A CloudError) : Prop :=
  match r0 with
  | Err (ConditionFailed _) => exists reason, r = Err (ConditionFailed reason)
  | _ => r = r0
  end.

Lemma applied_answer {A} (c : Call A) m r0 m0 r m' :
  memory c m = (r0, m0) -> applied m c r m' -> m' = m0 /\ same_answer r0 r.
Proof.
  intros E Ha. pose proof (memory_applied c m) as H0. rewrite E in H0. cbn [fst snd] in H0.
  split; [by eapply applied_items|]. destruct r0 as [a|e]; [by eapply applied_Ok|].
  destruct r as [a|e']; [by rewrite (applied_Ok _ _ _ _ _ _ Ha H0)|].
  destruct c as [k|k v cs|k expr cs|ops|p]; cbn [applied] in *; unfold refused in *.
  - destruct H0 as [_ ->], Ha as [_ ->]. by destruct (m !! k).
  - destruct H0 as [(_ & ? & _)|(_ & [? [= ->]] & _)], Ha as [(_ & ? & _)|(_ & ? & _)]; done.
  - destruct (m !! k); [|destruct H0 as [[= ->] _], Ha as [[= ->] _]; done].
    destruct H0 as [(_ & ? & _ & ? & _)|(_ & [? [= ->]] & _)], Ha as [(_ & ? & _ & ? & _)|(_ & ? & _)]; done.
  - destruct H0 as [(_ & ? & _)|(_ & [? [= ->]] & _)], Ha as [(_ & ? & _)|(_ & ? & _)]; done.
  - by destruct H0 as (_ & ? & ? & _).
Qed.

Lemma safe_call {A} (c : Call A) (k : result A CloudError -> KvTest) m r0 m0 :
  memory c m = (r0, m0) -> supported m c -> (forall r, same_answer r0 r -> kv_safe (k r) m0) ->
  kv_safe (Perform (Kv c) k) m.
Proof.
  intros E Hs Hk. split; [done|]. intros r m' Ha. cbn [kv_spec] in Ha.
  destruct (applied_answer c m r0 m0 r m' E Ha) as [-> Hr]. by apply Hk.
Qed.

(** ** The calls of the suite are supported

    Up to whether an increment overflows, whatever is stored. *)

Lemma map_item_wf pairs : Forall (fun p => value_wf p.2) pairs -> value_wf (map_item pairs).
Proof.
  intros H. constructor.
  enough (forall m : gmap string Value, (forall k v, m !! k = Some v -> value_wf v) ->
    forall k v, foldl (fun m '(k, v) => <[k := v]> m) m pairs !! k = Some v -> value_wf v) as Hm
    by (apply Hm; intros k v; by rewrite lookup_empty).
  induction H as [|[k v] pairs Hv H IH]; intros m Hm; simpl; [done|].
  apply IH. intros k' v' [[_ <-]|[_ Hk]]%lookup_insert_Some; [done|by eapply Hm].
Qed.

Definition expr_wf (expr : UpdateExpression) : Prop := Forall action_wf expr /\ NoDup (action_attribute <$> expr).
Definition op_wf (op : Operation) : Prop :=
  match op with
  | Put _ v cs => value_wf v /\ Forall condition_wf cs
  | Update _ expr cs => expr_wf expr /\ Forall condition_wf cs
  | Delete _ cs | ConditionCheck _ cs => Forall condition_wf cs
  end.
Definition call_wf {A} (c : Call A) : Prop :=
  match c with
  | CGet _ => True
  | CPut _ v cs => value_wf v /\ Forall condition_wf cs
  | CUpdate _ expr cs => expr_wf expr /\ Forall condition_wf cs
  | CTransact ops => ops <> [] /\ (length ops <= 100)%nat /\ NoDup (op_key <$> ops) /\ Forall op_wf ops
  | CQuery p => exists pk sk_prefix, split_once "/"%char p = Some (pk, sk_prefix) /\ pk <> ""%string
  end.

(** No increment of [expr] overflows on [v], and an update of no actions meets no value but a map. *)
Definition increment_fits (m : gmap string Value) (act : UpdateAction) : bool :=
  match act with
  | Increment a n => match m !! a with Some (VU64 c) => c + n <? 2 ^ 64 | _ => true end
  | _ => true
  end.
Definition expr_fits (v : option Value) (expr : UpdateExpression) : bool :=
  match v with
  | Some (VMap m) => forallb (increment_fits m) expr
  | Some _ => match expr with [] => false | _ :: _ => true end
  | None => true
  end.
Definition op_fits (m : Items) (op : Operation) : bool :=
  match op with Update k expr _ => expr_fits (m !! k) expr | _ => true end.
Definition call_fits {A} (m : Items) (c : Call A) : bool :=
  match c with
  | CUpdate k expr _ => expr_fits (m !! k) expr
  | CTransact ops => forallb (op_fits m) ops
  | _ => true
  end.

Lemma new_wf : expr_wf update_new.
Proof. by split; constructor. Qed.

Lemma increment_wf a n : a <> ""%string -> in_u64 n -> expr_wf (update_increment update_new a n).
Proof. intros Ha Hn. split; [apply Forall_singleton; by split|apply NoDup_singleton]. Qed.

Lemma expr_fits_supported v expr : expr_wf expr -> expr_fits v expr = true -> update_supported v expr.
Proof.
  intros [Hw Hd] Hf. split_and!; [done..|]. destruct v as [[| | | |m]|]; try done; cbn [expr_fits] in Hf;
    try by destruct expr.
  intros a n c Hin Hc. rewrite forallb_forall in Hf. apply list_elem_of_In in Hin.
  specialize (Hf _ Hin). cbn [increment_fits] in Hf. rewrite Hc in Hf. by apply Z.ltb_lt.
Qed.

Lemma fits_supported {A} (c : Call A) m : call_wf c -> call_fits m c = true -> supported m c.
Proof.
  destruct c as [k|k v cs|k expr cs|ops|p]; cbn [call_wf call_fits supported]; try done.
  - intros [Hw Hcs] Hf. split; [by apply expr_fits_supported|done].
  - intros (? & ? & ? & Hw) Hf. split_and!; [done..|]. rewrite Forall_forall in *. intros op Hin.
    specialize (Hw op Hin). rewrite forallb_forall in Hf. apply list_elem_of_In in Hin.
    specialize (Hf op Hin). destruct op; cbn in *; [done| |done..].
    destruct Hw. split; [by apply expr_fits_supported|done].
Qed.

(** ** The sequential cases

    A case without a race whose calls are well formed, and that goes on the same way whatever the
    reason of a failed condition, is settled by its run on the in-memory backend. *)

Fixpoint uniform (t : KvTest) : Prop :=
  match t with
  | Passed | Panicked => True
  | Perform c k =>
      match c in KvCall R return (R -> Prop) -> (R -> KvTest) -> Prop with
      | Kv c => fun uniform_k k => call_wf c /\
          (forall reason reason', k (Err (ConditionFailed reason)) = k (Err (ConditionFailed reason'))) /\
          forall r, uniform_k r
      end (fun r => uniform (k r)) k
  | Race _ _ => False
  end.

Fixpoint run_fits (t : KvTest) (m : Items) : bool :=
  match t with
  | Passed => true
  | Panicked | Race _ _ => false
  | Perform c k =>
      match c in KvCall R return (R -> Items -> bool) -> bool with
      | Kv c => fun rest => (call_fits m c && let '(r, m') := memory c m in rest r m')%bool
      end (fun r => run_fits (k r))
  end.

Lemma uniform_safe t : forall m, uniform t -> run_fits t m = true -> kv_safe t m.
Proof.
  induction t as [| |R c k IH|R tasks k IH]; intros m; try done.
  destruct c as [A c]. cbn [uniform run_fits]. intros (Hw & Hk & Hu) [Hf Hr]%andb_true_iff.
  destruct (memory c m) as [r0 m0] eqn:E.
  eapply safe_call; [done|by apply fits_supported|]. intros r Hsame.
  enough (k r = k r0) as -> by (by apply IH). destruct r0 as [a|[]]; cbn [same_answer] in Hsame; try by subst.
  destruct Hsame as [reason' ->]. apply Hk.
Qed.

Lemma uniform_assert b k : uniform k -> uniform (assert_that b k).
Proof. by destruct b. Qed.
Lemma uniform_expect {A} (r : result A CloudError) k : (forall a, uniform (k a)) -> uniform (expect r k).
Proof. intros Hk. destruct r; [apply Hk|exact I]. Qed.
Lemma uniform_expect_err {A} (r : result A CloudError) k : (forall e, uniform (k e)) -> uniform (expect_err r k).
Proof. intros Hk. destruct r; [exact I|apply Hk]. Qed.
Lemma uniform_call {A} (c : Call A) (k : result A CloudError -> KvTest) :
  call_wf c ->
  (forall reason reason', k (Err (ConditionFailed reason)) = k (Err (ConditionFailed reason'))) ->
  (forall r, uniform (k r)) -> uniform (Perform (Kv c) k).
Proof. by split. Qed.

Create HintDb kv_suite.
#[export] Hint Resolve map_item_wf wf_bool new_wf : kv_suite.
#[export] Hint Constructors Forall : kv_suite.
#[export] Hint Extern 1 (value_wf (VU64 _)) => apply wf_u64; split; [discriminate|reflexivity] : kv_suite.
#[export] Hint Extern 1 (NoDup _) => apply (bool_decide_unpack _); vm_compute; exact I : kv_suite.
#[export] Hint Extern 1 (value_wf (snd _)) => cbn [snd] : kv_suite.
#[export] Hint Extern 1 (expr_wf (update_increment update_new _ _)) =>
  apply increment_wf; [discriminate|split; [discriminate|reflexivity]] : kv_suite.
#[export] Hint Extern 1 (condition_wf _) => progress cbn [condition_wf] : kv_suite.
#[export] Hint Extern 1 (op_wf _) => progress cbn [op_wf] : kv_suite.

Ltac well_formed :=
  cbn [call_wf];
  lazymatch goal with
  | |- True => exact I
  | |- _ <> _ /\ _ => split_and!; [discriminate|simpl; lia|auto with kv_suite|auto 10 with kv_suite]
  | |- exists _ _, _ => eexists _, _; split; [reflexivity|discriminate]
  | |- _ => split; auto 10 with kv_suite
  end.
Ltac uniformly :=
  lazymatch goal with
  | |- uniform Passed => exact I
  | |- uniform (assert_that _ _) => apply uniform_assert
  | |- uniform (expect _ _) => apply uniform_expect; intros ?
  | |- uniform (expect_err _ _) => apply uniform_expect_err; intros ?
  | |- uniform (Perform _ _) => apply uniform_call; [well_formed|reflexivity|intros ?]
  end.

(** The first fifteen cases. *)
Definition sequential_cases : list KvTest := take 15 (replicated_kv_suite (fun _ => None) (fun _ => None)).

Lemma sequential_uniform : Forall uniform sequential_cases.
Proof.
  unfold sequential_cases, replicated_kv_suite. cbn [take].
  do 15 (constructor; [match goal with |- uniform ?t => unfold t end; cbv zeta; cbn [for_each]; repeat uniformly|]).
  constructor.
Qed.

Lemma sequential_safe : Forall (fun t => kv_safe t ∅) sequential_cases.
Proof.
  assert (Forall (fun t => run_fits t ∅ = true) sequential_cases) as Hr.
  { apply List.Forall_forall. apply forallb_forall. vm_compute. reflexivity. }
  pose proof sequential_uniform as Hu. rewrite List.Forall_forall in *. intros t Ht.
  apply uniform_safe; [by apply Hu|by apply Hr].
Qed.

(** ** The concurrent cases *)

Definition lost {A} (r : result A CloudError) : Prop := exists reason, r = Err (ConditionFailed reason).
Definition succeeded {A} (r : result A CloudError) : Prop := exists a, r = Ok a.

Lemma tally_lost {A} (rs : list (result A CloudError)) wins losses k :
  Forall lost rs -> tally rs wins losses k = k wins (losses + length rs)%nat.
Proof.
  intros H. revert losses. induction H as [|r rs [reason ->] H IH]; intros losses; simpl.
  - by rewrite Nat.add_0_r.
  - by rewrite IH, Nat.add_succ_r.
Qed.

Lemma tally_winner {A} (rs : list (result A CloudError)) : forall w losses k,
  (exists r, rs !! w = Some r /\ succeeded r) -> (forall i r, i <> w -> rs !! i = Some r -> lost r) ->
  tally rs 0 losses k = k 1%nat (losses + (length rs - 1))%nat.
Proof.
  induction rs as [|x rs IH]; intros w losses k (r & Hw & [a ->]) Ho; [done|].
  destruct w as [|w]; cbn [tally].
  - injection Hw as ->. rewrite tally_lost.
    + f_equal. simpl. lia.
    + apply Forall_lookup. intros i r Hr. by apply (Ho (S i)).
  - destruct (Ho 0%nat x ltac:(done) eq_refl) as [reason ->]. rewrite (IH w).
    + f_equal. destruct rs; [done|]. simpl. lia.
    + exists (Ok a). split; [exact Hw|by exists a].
    + intros i r Hi Hr. apply (Ho (S i)); [lia|done].
Qed.

(** A race of calls of which exactly the first to be made succeeds. *)
Lemma race_call {A} (calls : list (Call A)) m (after : nat -> Items)
    (k : nat -> nat -> KvTest) :
  calls <> [] ->
  (forall i c, calls !! i = Some c -> supported m c /\ exists a, memory c m = (Ok a, after i)) ->
  (forall w i c, calls !! i = Some c -> supported (after w) c /\
     exists reason, memory c (after w) = (Err (ConditionFailed reason), after w)) ->
  (forall w, (w < length calls)%nat -> kv_safe (k 1 (length calls - 1))%nat (after w)) ->
  kv_safe (Race (Kv <$> calls) (fun results => tally results 0 0 k)) m.
Proof.
  intros Hne Hwin Hlose Hk.
  apply (safe_race kv_spec kv_pre (Kv <$> calls) m (fun _ => succeeded) lost (fun w s => s = after w)).
  - intros i c Hi. rewrite list_lookup_fmap in Hi. destruct (calls !! i) as [c'|] eqn:Ei; [|done].
    injection Hi as <-. destruct (Hwin i c' Ei) as [Hs [a E]]. split; [done|]. intros r s' Ha.
    destruct (applied_answer _ _ _ _ _ _ E Ha) as [-> ->]. split; [by exists a|done].
  - intros w s i c -> Hi. rewrite list_lookup_fmap in Hi. destruct (calls !! i) as [c'|] eqn:Ei; [|done].
    injection Hi as <-. destruct (Hlose w i c' Ei) as [Hs [reason E]]. split; [done|]. intros r s' Ha.
    destruct (applied_answer _ _ _ _ _ _ E Ha) as [-> Hr]. by split.
  - by destruct calls.
  - intros w rs s Hlen -> Hw Ho. rewrite (tally_winner rs w 0 k Hw Ho), Hlen, length_fmap. apply Hk.
    destruct Hw as (r & Hw & _). apply lookup_lt_Some in Hw. rewrite Hlen, length_fmap in Hw. done.
Qed.

(** [proptest] draws from the range it is given, in every round. *)
Definition draws_in_range (draw : nat -> option nat) : Prop :=
  forall round, exists n, draw round = Some n /\ (CONCURRENCY_TASK_RANGE.1 <= n <= CONCURRENCY_TASK_RANGE.2)%nat.

Lemma concurrent_put_key_inj i j : concurrent_put_key i = concurrent_put_key j -> i = j.
Proof.
  intros E. apply (inj (String.append "cts/replicated-kv/concurrent-put/")) in E.
  apply decimal_inj in E; lia.
Qed.

Lemma to_u64_small n : (n <= 48)%nat -> to_u64 n = Z.of_nat n /\ in_u64 (to_u64 n).
Proof.
  intros Hn. assert (0 <= Z.of_nat n < 2 ^ 64) as Hr by lia.
  unfold to_u64, try_from_uint. rewrite (proj2 (Z.leb_le _ _)), (proj2 (Z.ltb_lt _ _)) by lia. by split.
Qed.

Lemma to_usize_u64 n : (n <= 48)%nat -> to_usize (to_u64 n) = Z.of_nat n.
Proof.
  intros Hn. destruct (to_u64_small n Hn) as [-> _].
  unfold to_usize, try_from_uint. by rewrite (proj2 (Z.leb_le _ _)), (proj2 (Z.ltb_lt _ _)) by lia.
Qed.

Section Draws.
Context (draw : nat -> option nat) (Hdraw : draws_in_range draw).

Lemma items_insert_eq (m : Items) k v : (<[k := v]> m : Items) !! k = Some v.
Proof. apply (lookup_insert_eq (M := gmap Key)). Qed.

Lemma items_insert_ne (m : Items) k k' v : k <> k' -> (<[k := v]> m : Items) !! k' = m !! k'.
Proof. apply (lookup_insert_ne (M := gmap Key)). Qed.

Lemma memory_put_absent k v (m : Items) :
  m !! k = None -> memory (CPut k v [NotExists]) m = (Ok tt, <[k := v]> m).
Proof. intros Hk. cbn [memory]. unfold put, bind, lift, read_state, write_state. by rewrite Hk. Qed.

Lemma memory_put_present k v x (m : Items) :
  m !! k = Some x -> memory (CPut k v [NotExists]) m = (Err (ConditionFailed ItemAlreadyExists), m).
Proof. intros Hk. cbn [memory]. unfold put, bind, lift, read_state. by rewrite Hk. Qed.

Lemma memory_get_present k v (m : Items) : m !! k = Some v -> memory (CGet k) m = (Ok (MkItem k v), m).
Proof. intros Hk. cbn [memory]. unfold get, bind, lift, read_state. by rewrite Hk. Qed.

(** A round on a free key leaves one of the tasks' values there. *)
Lemma put_round_safe round rest (m : Items) :
  m !! concurrent_put_key round = None ->
  (forall v, kv_safe rest (<[concurrent_put_key round := v]> m)) ->
  kv_safe (put_round draw round rest) m.
Proof.
  intros Hm Hrest. unfold put_round. destruct (Hdraw round) as (n & -> & Hn). cbn [expect_some].
  set (key := concurrent_put_key round) in *. simpl in Hn.
  pose (calls := (fun task => CPut key (VU64 (to_u64 task)) [NotExists]) <$> seq 0 n).
  assert (length calls = n) as Hlen by (unfold calls; by rewrite length_fmap, length_seq).
  assert (forall i c, calls !! i = Some c -> (i < n)%nat /\ c = CPut key (VU64 (to_u64 i)) [NotExists]) as Hcalls.
  { intros i c. unfold calls. rewrite list_lookup_fmap. destruct (decide (i < n)%nat) as [Hi|Hi].
    - rewrite lookup_seq_lt by done. by intros [= <-].
    - rewrite lookup_seq_ge by lia. done. }
  assert (forall i m', (i < n)%nat -> supported m' (CPut key (VU64 (to_u64 i)) [NotExists])) as Hs.
  { intros i m' Hi. split; [apply wf_u64, to_u64_small; lia|by repeat constructor]. }
  change (kv_safe (Race ((fun task => Kv (CPut key (VU64 (to_u64 task)) [NotExists])) <$> seq 0 n)
    (fun results => tally results 0 0 (fun wins losses =>
      assert_that (Nat.eqb wins 1) (assert_that (Nat.eqb losses (n - 1))
      (Perform (Kv (CGet key)) (fun r => expect r (fun item => match item_value item with
       | VU64 winner_task => assert_that (to_usize winner_task <? Z.of_nat n) rest
       | _ => Panicked end))))))) m).
  assert ((fun task => Kv (CPut key (VU64 (to_u64 task)) [NotExists])) <$> seq 0 n = Kv <$> calls) as ->
    by (unfold calls; by rewrite <- list_fmap_compose).
  apply (race_call calls m (fun i => <[key := VU64 (to_u64 i)]> m)).
  - intros E. rewrite E in Hlen. simpl in Hlen. lia.
  - intros i c [Hi ->]%Hcalls. split; [by apply Hs|]. exists tt. by apply memory_put_absent.
  - intros w i c [Hi ->]%Hcalls. split; [by apply Hs|]. cbv beta. eexists.
    apply (memory_put_present _ _ (VU64 (to_u64 w))). by rewrite items_insert_eq.
  - intros w Hw. cbv beta. rewrite Hlen in *. cbn [assert_that Nat.eqb]. rewrite Nat.eqb_refl. cbn [assert_that].
    eapply safe_call; [apply memory_get_present, items_insert_eq|done|].
    intros r ->. cbn [expect item_value]. cbv beta iota. rewrite to_usize_u64 by lia.
    rewrite (proj2 (Z.ltb_lt _ _)) by lia. apply Hrest.
Qed.

Lemma concurrent_put_safe : kv_safe (test_concurrent_conditional_put_yields_exactly_one_winner draw) ∅.
Proof.
  unfold test_concurrent_conditional_put_yields_exactly_one_winner.
  apply (safe_for_each kv_spec kv_pre _ _ (fun l (m : Items) => NoDup l /\ forall r, r ∈ l -> m !! concurrent_put_key r = None)).
  - intros r l t m [[Hr Hd]%NoDup_cons Hm] Ht. apply put_round_safe; [apply Hm; left|].
    intros v. apply Ht. split; [done|]. intros r' Hr'. rewrite items_insert_ne.
    + apply Hm. by right.
    + intros E%concurrent_put_key_inj. by subst.
  - done.
  - split; [apply NoDup_seq|]. intros. apply lookup_empty.
Qed.

(** The counter after [n] rounds. *)
Definition counter (n : nat) : Value := map_item [("count", VU64 (Z.of_nat n))%string; ("epoch", VU64 (Z.of_nat n))%string].

Lemma bump_counter n : (n < CONCURRENCY_ROUNDS)%nat ->
  let expr := update_set (update_increment update_new "count" 1) "epoch" (VU64 (Z.of_nat n + 1)) in
  let conditions := [AttributeEquals "epoch" (VU64 (Z.of_nat n))] in
  check_conditions (Some (counter n)) conditions = Ok tt /\
  apply_update_actions (counter n) expr = Ok (counter (S n)) /\
  (exists reason, check_conditions (Some (counter (S n))) conditions = Err (ConditionFailed reason)) /\
  expr_fits (Some (counter n)) expr = true /\ expr_fits (Some (counter (S n))) expr = true.
Proof.
  unfold CONCURRENCY_ROUNDS. intros Hn. do 6 (destruct n as [|n]; [split_and!; try eexists; vm_compute; reflexivity|]). lia.
Qed.

Lemma bump_wf n : (n < CONCURRENCY_ROUNDS)%nat -> call_wf (bump_epoch n).
Proof.
  unfold CONCURRENCY_ROUNDS. intros Hn. split.
  - split.
    + repeat constructor; try done; simpl; lia.
    + apply (bool_decide_unpack _). vm_compute. exact I.
  - repeat constructor; simpl; lia.
Qed.

Lemma memory_bump n (m : Items) : (n < CONCURRENCY_ROUNDS)%nat ->
  m !! concurrent_update_key = Some (counter n) ->
  memory (bump_epoch n) m =
    (Ok (MkItem concurrent_update_key (counter (S n))), <[concurrent_update_key := counter (S n)]> m).
Proof.
  intros Hn Hm. destruct (bump_counter n Hn) as (Hc & Hu & _). unfold bump_epoch. cbn [memory].
  unfold atomic_update, bind, lift, read_state, write_state, ret. rewrite Hm. cbn [ok_or]. by rewrite Hc, Hu.
Qed.

Lemma memory_bump_late n (m : Items) : (n < CONCURRENCY_ROUNDS)%nat ->
  m !! concurrent_update_key = Some (counter (S n)) ->
  exists reason, memory (bump_epoch n) m = (Err (ConditionFailed reason), m).
Proof.
  intros Hn Hm. destruct (bump_counter n Hn) as (_ & _ & [reason Hc] & _). exists reason. unfold bump_epoch.
  cbn [memory]. unfold atomic_update, bind, lift, read_state. rewrite Hm. cbn [ok_or]. by rewrite Hc.
Qed.

Lemma update_round_safe n rest (m : Items) : (n < CONCURRENCY_ROUNDS)%nat ->
  m !! concurrent_update_key = Some (counter n) ->
  kv_safe rest (<[concurrent_update_key := counter (S n)]> m) ->
  kv_safe (update_round draw n rest) m.
Proof.
  intros Hn Hm Hrest. unfold update_round. destruct (Hdraw n) as (tasks & -> & Ht). cbn [expect_some].
  simpl in Ht. destruct (bump_counter n Hn) as (_ & _ & _ & Hf & Hf').
  pose (calls := replicate tasks (bump_epoch n)).
  assert ((fun _ => Kv (bump_epoch n)) <$> seq 0 tasks = Kv <$> calls) as ->.
  { unfold calls. rewrite fmap_replicate. generalize 0%nat. clear. induction tasks; intros s; [done|].
    cbn [seq]. csimpl. by rewrite IHtasks. }
  apply (race_call calls m (fun _ => <[concurrent_update_key := counter (S n)]> m)).
  - unfold calls. destruct tasks; [lia|done].
  - intros i c [-> _]%lookup_replicate. split; [|eexists; by apply memory_bump].
    apply fits_supported; [by apply bump_wf|]. simpl. by rewrite Hm.
  - intros w i c [-> _]%lookup_replicate. split; [|apply memory_bump_late; [done|by rewrite items_insert_eq]].
    apply fits_supported; [by apply bump_wf|]. cbn [bump_epoch call_fits]. by rewrite items_insert_eq.
  - intros w Hw. unfold calls. rewrite length_replicate. cbn [assert_that Nat.eqb]. by rewrite Nat.eqb_refl.
Qed.

Lemma concurrent_update_safe : kv_safe (test_concurrent_atomic_update_yields_exactly_one_winner draw) ∅.
Proof.
  unfold test_concurrent_atomic_update_yields_exactly_one_winner.
  eapply safe_call; [reflexivity|apply fits_supported; [split; auto 10 with kv_suite|reflexivity]|].
  intros r ->. cbn [expect].
  apply (safe_for_each kv_spec kv_pre _ _ (fun l (m : Items) => exists n, (n <= CONCURRENCY_ROUNDS)%nat /\
    l = seq n (CONCURRENCY_ROUNDS - n) /\ m !! concurrent_update_key = Some (counter n))).
  - intros n l t m (n' & Hn & El & Hm) Ht.
    destruct (CONCURRENCY_ROUNDS - n')%nat as [|d] eqn:Ed; [done|]. injection El as -> ->.
    apply update_round_safe; [lia|done|]. apply Ht. exists (S n'). split; [lia|].
    split; [f_equal; lia|by rewrite items_insert_eq].
  - intros m (n & Hn & El & Hm). assert (n = CONCURRENCY_ROUNDS) as ->.
    { destruct (CONCURRENCY_ROUNDS - n)%nat eqn:Ed; [lia|done]. }
    eapply safe_call; [by apply memory_get_present|done|].
    intros r ->. exact I.
  - exists 0%nat. split; [lia|]. split; [done|]. by rewrite items_insert_eq.
Qed.
End Draws.

(** ** The suite *)

Lemma suite_cases_safe put_draw update_draw :
  draws_in_range put_draw -> draws_in_range update_draw ->
  Forall (fun t => forall m, m = ∅ -> kv_safe t m) (replicated_kv_suite put_draw update_draw).
Proof.
  intros Hp Hu. change (replicated_kv_suite put_draw update_draw) with (sequential_cases ++
    [test_concurrent_conditional_put_yields_exactly_one_winner put_draw;
     test_concurrent_atomic_update_yields_exactly_one_winner update_draw]).
  apply List.Forall_app. split.
  - apply (List.Forall_impl _ (P := fun t => kv_safe t ∅)); [by intros t Ht m ->|apply sequential_safe].
  - constructor; [|constructor; [|constructor]]; intros m ->; [by apply concurrent_put_safe|by apply concurrent_update_safe].
Qed.

(** The in-memory backend. *)
#[export] Instance memory_conforms : Conforms (exec_step memory_exec) kv_spec kv_pre (=).
Proof.
  constructor. intros R [A c] s m r s' -> _ E. exists s'. split; [|done]. pose proof (memory_applied c m) as H.
  unfold exec_step in E. simpl in *. by rewrite E in H.
Qed.

(** The DynamoDB backend over a server, in the calls that do not fail in transport; its table stands
    for the items. *)
Section DynamoDb.
Context {W : Type} (client : Client W) (table : W -> gmap (string * string) Attributes).
Context `{!DynamoDbServer client table}.

Definition ddb_exec_step (R : Type) (w : W) (c : KvCall R) : R -> W -> Prop :=
  match c with
  | Kv c => fun r w' => (exists fuel, ddb_call client fuel c w = Some (r, w')) /\
      forall retryable reason, r <> Err (Transport retryable reason)
  end.

#[export] Instance ddb_conforms : Conforms ddb_exec_step kv_spec kv_pre (fun w m => table_rep (table w) m).
Proof.
  constructor. intros R [A c] w m r w' Hr Hs [[fuel E] Hn].
  destruct (ddb_call_kv_step client table fuel c m w r w' Hr Hs E) as (m' & Hr' & Hk).
  exists m'. split; [|done]. destruct Hk as [r m' Ha|r m' b reason _|b reason]; [done|by destruct (Hn b reason)..].
Qed.
End DynamoDb.

(** C40. A backend that keeps the contract of [ReplicatedKv], on the calls that the DynamoDB
    backend supports at least, passes the conformance suite: whatever the numbers of tasks drawn and
    however the tasks of the concurrent cases interleave, no run of the suite panics. *)
Theorem kv_suite_accepts {S : Type} (step : forall R, S -> KvCall R -> R -> S -> Prop)
    (stands_for : S -> Items -> Prop) (fresh : S -> Prop) (put_draw update_draw : nat -> option nat) :
  Conforms step kv_spec kv_pre stands_for -> (forall s, fresh s -> stands_for s ∅) ->
  draws_in_range put_draw -> draws_in_range update_draw ->
  ~ suite_runs step fresh (replicated_kv_suite put_draw update_draw) false.
Proof.
  intros Hc Hf Hp Hu. apply (suite_passes step kv_spec kv_pre stands_for fresh (fun m => m = ∅)).
  - intros s Hs. exists ∅. split; [done|by apply Hf].
  - by apply suite_cases_safe.
Qed.

(** The suite ends on the in-memory backend, and only by passing. *)
Theorem memory_passes_kv_suite put_draw update_draw :
  draws_in_range put_draw -> draws_in_range update_draw ->
  let runs := suite_runs (exec_step memory_exec) (fun m => m = memory_new) (replicated_kv_suite put_draw update_draw) in
  runs true /\ ~ runs false.
Proof.
  intros Hp Hu runs. apply (suite_ends_passing memory_exec kv_spec kv_pre (=) memory_new (fun m => m = ∅)).
  - by exists ∅.
  - by apply suite_cases_safe.
Qed.

Theorem dynamodb_passes_kv_suite {W : Type} (client : Client W) (table : W -> gmap (string * string) Attributes)
    (fresh : W -> Prop) put_draw update_draw :
  DynamoDbServer client table -> (forall w, fresh w -> table w = ∅) ->
  draws_in_range put_draw -> draws_in_range update_draw ->
  ~ suite_runs (ddb_exec_step client) fresh (replicated_kv_suite put_draw update_draw) false.
Proof.
  intros Hs Hf Hp Hu. apply (suite_passes _ kv_spec kv_pre (fun w m => table_rep (table w) m) fresh (fun m => m = ∅)).
  - intros w Hw. exists ∅. split; [done|]. rewrite (Hf w Hw). apply rep_empty.
  - by apply suite_cases_safe.
Qed.

Lemma draws_four : draws_in_range (fun _ => Some 4%nat).
Proof. intros round. exists 4%nat. simpl. split; [done|lia]. Qed.

(** The DynamoDB backend on the server in memory. *)
Lemma kv_suite_accepts_witness :
  ~ suite_runs (ddb_exec_step toy_client) (fun t => t = ∅) (replicated_kv_suite (fun _ => Some 4%nat) (fun _ => Some 4%nat)) false.
Proof.
  apply (kv_suite_accepts (ddb_exec_step toy_client) (fun t m => table_rep t m) (fun t => t = ∅) (fun _ => Some 4%nat)
    (fun _ => Some 4%nat)).
  - apply (ddb_conforms toy_client (fun t => t)).
  - intros t ->. apply rep_empty.
  - apply draws_four.
  - apply draws_four.
Defined.

(** ** Backends that do not pass *)

(** A backend that writes whatever the conditions, one that does the operations of a transaction one
    by one up to the first that fails, and one whose update makes the item when there is none. *)
Definition unconditional_exec (R : Type) (c : KvCall R) : Items -> R * Items :=
  match c with
  | Kv c => match c in Call A return Items -> result A CloudError * Items with
            | CPut k v _ => put k v []
            | c => memory c
            end
  end.
Fixpoint one_by_one (ops : list Operation) : M Items CloudError unit :=
  match ops with
  | [] => ret tt
  | op :: rest => do! transact [op]; one_by_one rest
  end.
Definition non_atomic_exec (R : Type) (c : KvCall R) : Items -> R * Items :=
  match c with
  | Kv c => match c in Call A return Items -> result A CloudError * Items with
            | CTransact ops => one_by_one ops
            | c => memory c
            end
  end.
Definition upserting_exec (R : Type) (c : KvCall R) : Items -> R * Items :=
  match c with
  | Kv c => match c in Call A return Items -> result A CloudError * Items with
            | CUpdate k expr cs => fun items =>
                atomic_update k expr cs (match items !! k with Some _ => items | None => <[k := VMap ∅]> items end)
            | c => memory c
            end
  end.

Example broken_backends_fail :
  let suite := replicated_kv_suite (fun _ => Some 4%nat) (fun _ => Some 4%nat) in
  suite_runs (exec_step unconditional_exec) (fun m => m = ∅) suite false /\
  suite_runs (exec_step non_atomic_exec) (fun m => m = ∅) suite false /\
  suite_runs (exec_step upserting_exec) (fun m => m = ∅) suite false.
Proof. cbv zeta. split_and!; [apply (suite_runs_alone unconditional_exec)|apply (suite_runs_alone non_atomic_exec)|apply (suite_runs_alone upserting_exec)]. Qed.
