(* ===== verification/StoreSuite.v ===== *)
(** * The conformance suites of [ObjectStore] and [ObjectLock]:
      [cloud-test-suite/src/object_store.rs], [object_lock.rs]

    The cases of the two suites, as programs over the calls of the two traits and the readings of the
    clock that the lock's suite is given.

    Every store that keeps the documented contract passes both suites, as long as a case takes
    less than an hour by the store's clock and by the suite's; so does the in-memory store. *)

From stdpp Require Import gmap sorting.
From S2P Require Import Prelude BTree Time KV ObjectStore ObjectStoreFacts Suite KvSuite.

Local Open Scope mtc_scope.
Local Open Scope suite_scope.
Local Open Scope Z_scope.

(** A call of the traits, or a reading of the clock. *)
Inductive StoreSuiteCall : Type -> Type :=
| OnStore {A} (c : StoreCall A) : StoreSuiteCall (result A CloudError)
| ClockNow : StoreSuiteCall Z.

Abbreviation StoreTest := (Test StoreSuiteCall).

(** [PutOptions::default()]. *)
Definition put_options_default : PutOptions := MkPutOptions IfNotExists.

Definition is_already_exists (e : CloudError) : bool := match e with AlreadyExists _ => true | _ => false end.
Definition is_retention_violation (e : CloudError) : bool :=
  match e with RetentionViolation _ => true | _ => false end.

(** A byte string literal. *)
Definition bytes_of (s : string) : list byte := String.list_byte_of_string s.

(** [clock.now() + Duration::from_hours(hours)], which panics past the end of time. *)
Definition from_hours (hours : Z) : Z := hours * 3600 * nanos_per_sec.
Definition now_plus_hours (hours : Z) (k : Z -> StoreTest) : StoreTest :=
  call! now := ClockNow in
  expect_some (system_time_checked_add now (from_hours hours)) k.

(** ** [object_store.rs] *)

Definition test_put_then_get_round_trips : StoreTest :=
  done! OnStore (CallPut "cts/object-store/round-trip" (bytes_of "leaf") put_options_default);
  ok! bytes := OnStore (CallGet "cts/object-store/round-trip") in
  assert! bool_decide (bytes = bytes_of "leaf");
  Passed.

Definition test_get_missing_is_not_found : StoreTest :=
  err! err := OnStore (CallGet "cts/object-store/missing") in
  assert! is_not_found err;
  Passed.

Definition test_if_not_exists_put_rejects_overwrite : StoreTest :=
  done! OnStore (CallPut "cts/object-store/if-not-exists" (bytes_of "leaf") if_not_exists);
  err! err := OnStore (CallPut "cts/object-store/if-not-exists" (bytes_of "other") if_not_exists) in
  assert! is_already_exists err;
  ok! bytes := OnStore (CallGet "cts/object-store/if-not-exists") in
  assert! bool_decide (bytes = bytes_of "leaf");
  Passed.

Definition test_overwrite_mode_replaces_existing_object : StoreTest :=
  done! OnStore (CallPut "cts/object-store/overwrite" (bytes_of "first") if_not_exists);
  done! OnStore (CallPut "cts/object-store/overwrite" (bytes_of "second") overwrite);
  ok! bytes := OnStore (CallGet "cts/object-store/overwrite") in
  assert! bool_decide (bytes = bytes_of "second");
  Passed.

Definition test_head_reports_matching_size : StoreTest :=
  done! OnStore (CallPut "cts/object-store/head" (bytes_of "leaf!") put_options_default);
  ok! meta := OnStore (CallHead "cts/object-store/head") in
  assert! om_size_bytes meta =? 5;
  Passed.

Definition test_head_missing_is_not_found : StoreTest :=
  err! err := OnStore (CallHead "cts/object-store/missing") in
  assert! is_not_found err;
  Passed.

Definition test_list_returns_only_matching_prefix_sorted_by_key : StoreTest :=
  for_each ["cts/object-store/list/entries/0002"; "cts/object-store/list/entries/0001";
            "cts/object-store/list/tiles/0001"]%string
    (fun key rest => done! OnStore (CallPut key (bytes_of "x") put_options_default); rest)
  (ok! listed := OnStore (CallList "cts/object-store/list/entries/") in
   assert! bool_decide (oi_key <$> listed =
     ["cts/object-store/list/entries/0001"; "cts/object-store/list/entries/0002"]%string);
   Passed).

Definition test_list_with_no_matches_is_empty_ok : StoreTest :=
  ok! listed := OnStore (CallList "cts/object-store/list/nothing/") in
  assert! match listed with [] => true | _ :: _ => false end;
  Passed.

Definition test_delete_removes_object : StoreTest :=
  done! OnStore (CallPut "cts/object-store/delete" (bytes_of "x") put_options_default);
  done! OnStore (CallDelete "cts/object-store/delete");
  err! err := OnStore (CallGet "cts/object-store/delete") in
  assert! is_not_found err;
  Passed.

Definition test_delete_missing_is_not_found : StoreTest :=
  err! err := OnStore (CallDelete "cts/object-store/missing") in
  assert! is_not_found err;
  Passed.

(** [run_object_store_suite]. *)
Definition object_store_suite : list StoreTest :=
  [test_put_then_get_round_trips;
   test_get_missing_is_not_found;
   test_if_not_exists_put_rejects_overwrite;
   test_overwrite_mode_replaces_existing_object;
   test_head_reports_matching_size;
   test_head_missing_is_not_found;
   test_list_returns_only_matching_prefix_sorted_by_key;
   test_list_with_no_matches_is_empty_ok;
   test_delete_removes_object;
   test_delete_missing_is_not_found].

(** ** [object_lock.rs] *)

Definition test_put_with_retention_then_get_retention_round_trips : StoreTest :=
  now_plus_hours 1 (fun retain_until =>
  done! OnStore (CallPutWithRetention "cts/object-lock/round-trip" (bytes_of "cp") retain_until);
  ok! got := OnStore (CallGetRetention "cts/object-lock/round-trip") in
  assert! got =? retain_until;
  ok! bytes := OnStore (CallGet "cts/object-lock/round-trip") in
  assert! bool_decide (bytes = bytes_of "cp");
  Passed).

Definition test_put_with_retention_is_create_only : StoreTest :=
  now_plus_hours 1 (fun retain_until =>
  done! OnStore (CallPutWithRetention "cts/object-lock/create-only" (bytes_of "cp") retain_until);
  err! err := OnStore (CallPutWithRetention "cts/object-lock/create-only" (bytes_of "cp2") retain_until) in
  assert! is_already_exists err;
  Passed).

Definition test_get_retention_missing_object_is_not_found : StoreTest :=
  err! err := OnStore (CallGetRetention "cts/object-lock/missing") in
  assert! is_not_found err;
  Passed.

Definition test_get_retention_on_unlocked_object_is_not_found : StoreTest :=
  done! OnStore (CallPut "cts/object-lock/unlocked" (bytes_of "x") put_options_default);
  err! err := OnStore (CallGetRetention "cts/object-lock/unlocked") in
  assert! is_not_found err;
  Passed.

Definition test_extend_retention_forward_succeeds : StoreTest :=
  now_plus_hours 1 (fun first =>
  now_plus_hours 2 (fun second =>
  done! OnStore (CallPutWithRetention "cts/object-lock/extend-forward" (bytes_of "cp") first);
  done! OnStore (CallExtendRetention "cts/object-lock/extend-forward" second);
  ok! got := OnStore (CallGetRetention "cts/object-lock/extend-forward") in
  assert! got =? second;
  Passed)).

Definition test_extend_retention_rejects_shortening : StoreTest :=
  now_plus_hours 2 (fun first =>
  now_plus_hours 1 (fun shorter =>
  done! OnStore (CallPutWithRetention "cts/object-lock/extend-shorten" (bytes_of "cp") first);
  err! err := OnStore (CallExtendRetention "cts/object-lock/extend-shorten" shorter) in
  assert! is_retention_violation err;
  ok! got := OnStore (CallGetRetention "cts/object-lock/extend-shorten") in
  assert! got =? first;
  Passed)).

Definition test_extend_retention_rejects_equal_instant : StoreTest :=
  now_plus_hours 1 (fun retain_until =>
  done! OnStore (CallPutWithRetention "cts/object-lock/extend-equal" (bytes_of "cp") retain_until);
  err! err := OnStore (CallExtendRetention "cts/object-lock/extend-equal" retain_until) in
  assert! is_retention_violation err;
  Passed).

Definition test_extend_retention_missing_object_is_not_found : StoreTest :=
  now_plus_hours 1 (fun new_retain_until =>
  err! err := OnStore (CallExtendRetention "cts/object-lock/missing" new_retain_until) in
  assert! is_not_found err;
  Passed).

Definition test_delete_during_retention_window_is_rejected : StoreTest :=
  now_plus_hours 1 (fun retain_until =>
  done! OnStore (CallPutWithRetention "cts/object-lock/delete-retained" (bytes_of "cp") retain_until);
  err! err := OnStore (CallDelete "cts/object-lock/delete-retained") in
  assert! is_retention_violation err;
  ok! bytes := OnStore (CallGet "cts/object-lock/delete-retained") in
  assert! bool_decide (bytes = bytes_of "cp");
  Passed).

Definition test_overwrite_during_retention_window_is_rejected : StoreTest :=
  now_plus_hours 1 (fun retain_until =>
  done! OnStore (CallPutWithRetention "cts/object-lock/overwrite-retained" (bytes_of "cp") retain_until);
  err! err := OnStore (CallPut "cts/object-lock/overwrite-retained" (bytes_of "tampered") overwrite) in
  assert! is_retention_violation err;
  ok! bytes := OnStore (CallGet "cts/object-lock/overwrite-retained") in
  assert! bool_decide (bytes = bytes_of "cp");
  Passed).

Definition test_if_not_exists_put_over_retained_key_is_already_exists : StoreTest :=
  now_plus_hours 1 (fun retain_until =>
  done! OnStore (CallPutWithRetention "cts/object-lock/if-not-exists-retained" (bytes_of "cp") retain_until);
  err! err := OnStore (CallPut "cts/object-lock/if-not-exists-retained" (bytes_of "tampered") if_not_exists) in
  assert! is_already_exists err;
  Passed).

(** [run_object_lock_suite]. *)
Definition object_lock_suite : list StoreTest :=
  [test_put_with_retention_then_get_retention_round_trips;
   test_put_with_retention_is_create_only;
   test_get_retention_missing_object_is_not_found;
   test_get_retention_on_unlocked_object_is_not_found;
   test_extend_retention_forward_succeeds;
   test_extend_retention_rejects_shortening;
   test_extend_retention_rejects_equal_instant;
   test_extend_retention_missing_object_is_not_found;
   test_delete_during_retention_window_is_rejected;
   test_overwrite_during_retention_window_is_rejected;
   test_if_not_exists_put_over_retained_key_is_already_exists].

(** The in-memory store and its clock, which is the suite's. *)
Definition store_exec (clock : nat -> Z) (R : Type) (c : StoreSuiteCall R) : MemoryObjectStore -> R * MemoryObjectStore :=
  match c with
  | OnStore c => memory_call clock c
  | ClockNow => fun s => (clock (readings s), MkMemoryObjectStore (objects s) (S (readings s)))
  end.

Section Window.
(** The hour from [t0] on, and the instants in it that the suite's clock may read. *)
Context (t0 : Z) (reading : Z -> Prop).

Definition in_window (t : Z) : Prop := t0 <= t < t0 + from_hours 1.

(** The contract of the two traits and of the clock. *)
Definition store_spec (R : Type) (m : Objects) (c : StoreSuiteCall R) : R -> Objects -> Prop :=
  match c with
  | OnStore c => fun r m' => exists t, in_window t /\ contract t c m r m'
  | ClockNow => fun t m' => reading t /\ m' = m
  end.
Definition store_pre (R : Type) (m : Objects) (c : StoreSuiteCall R) : Prop := True.

Abbreviation store_safe := (safe store_spec store_pre).

(** ** What the contract leaves to answer *)

Lemma safe_store {A} (c : StoreCall A) k m :
  (forall t r m', in_window t -> contract t c m r m' -> store_safe (k r) m') -> store_safe (Perform (OnStore c) k) m.
Proof. intros Hk. split; [exact I|]. intros r m' (t & Ht & Hc). by eapply Hk. Qed.

Ltac by_contract :=
  apply safe_store; intros t [a|e] m' Ht Hc; cbn [contract performed refusal] in Hc; unfold in_window, retained in *.

Lemma safe_put_new key bytes opts k (m : Objects) :
  m !! key = None ->
  (forall modified, store_safe (k (Ok tt)) (<[key := MkStoredObject bytes modified None]> m)) ->
  store_safe (Perform (OnStore (CallPut key bytes opts)) k) m.
Proof.
  intros Hm Hk. by_contract.
  - destruct Hc as (_ & _ & modified & ->). destruct a. apply Hk.
  - destruct Hc as [_ [(_ & [o Ho] & _)|(_ & (o & Ho & _) & _)]]; congruence.
Qed.

Lemma safe_put_taken key bytes opts o k (m : Objects) :
  m !! key = Some o -> mode opts = IfNotExists -> store_safe (k (Err (AlreadyExists key))) m ->
  store_safe (Perform (OnStore (CallPut key bytes opts)) k) m.
Proof.
  intros Hm Ho Hk. by_contract.
  - destruct Hc as (Hn & _). specialize (Hn Ho). congruence.
  - destruct Hc as [-> [(_ & _ & ->)|(Hmode & _)]]; [done|congruence].
Qed.

Lemma safe_overwrite key bytes o k (m : Objects) :
  m !! key = Some o -> retain_until o = None ->
  (forall modified, store_safe (k (Ok tt)) (<[key := MkStoredObject bytes modified None]> m)) ->
  store_safe (Perform (OnStore (CallPut key bytes overwrite)) k) m.
Proof.
  intros Hm Ho Hk. by_contract.
  - destruct Hc as (_ & _ & modified & ->). destruct a. apply Hk.
  - destruct Hc as [_ [(Hmode & _)|(_ & (o' & Ho' & u & Hu & _) & _)]]; [done|congruence].
Qed.

Lemma safe_overwrite_retained key bytes o until k (m : Objects) :
  m !! key = Some o -> retain_until o = Some until -> t0 + from_hours 1 <= until ->
  (forall reason, store_safe (k (Err (RetentionViolation reason))) m) ->
  store_safe (Perform (OnStore (CallPut key bytes overwrite)) k) m.
Proof.
  intros Hm Ho Hu Hk. by_contract.
  - destruct Hc as (_ & Hn & _). destruct (Hn o Hm). exists until. split; [done|lia].
  - destruct Hc as [-> [(Hmode & _)|(_ & _ & reason & ->)]]; [done|apply Hk].
Qed.

Lemma safe_get key o k (m : Objects) :
  m !! key = Some o -> store_safe (k (Ok (data o))) m -> store_safe (Perform (OnStore (CallGet key)) k) m.
Proof.
  intros Hm Hk. by_contract; destruct Hc as [-> Hc]; [|by destruct Hc; congruence].
  destruct Hc as (o' & Ho' & ->). by simplify_eq.
Qed.

Lemma safe_get_absent key k (m : Objects) :
  m !! key = None -> store_safe (k (Err (NotFound key))) m -> store_safe (Perform (OnStore (CallGet key)) k) m.
Proof. intros Hm Hk. by_contract; destruct Hc as [-> Hc]; [naive_solver congruence|]. by destruct Hc as [_ ->]. Qed.

Lemma safe_head key o k (m : Objects) :
  m !! key = Some o -> store_safe (k (Ok (metadata o))) m -> store_safe (Perform (OnStore (CallHead key)) k) m.
Proof.
  intros Hm Hk. by_contract; destruct Hc as [-> Hc]; [|by destruct Hc; congruence].
  destruct Hc as (o' & Ho' & ->). by simplify_eq.
Qed.

Lemma safe_head_absent key k (m : Objects) :
  m !! key = None -> store_safe (k (Err (NotFound key))) m -> store_safe (Perform (OnStore (CallHead key)) k) m.
Proof. intros Hm Hk. by_contract; destruct Hc as [-> Hc]; [naive_solver congruence|]. by destruct Hc as [_ ->]. Qed.

(** A listing has no choice: it is the matching entries of the map, in order. *)
Definition listing (prefix : string) (m : Objects) : list ObjectInfo :=
  (fun entry : string * StoredObject => info entry.1 entry.2) <$> btree_with_prefix prefix m.

Lemma info_lt_NoDup l : StronglySorted info_lt l -> NoDup l.
Proof.
  induction l as [|x l IH]; [constructor|]. intros [Hs Hl]%StronglySorted_inv.
  constructor; [|by apply IH]. intros Hx. rewrite Forall_forall in Hl. by destruct (Hl x Hx).
Qed.

Lemma listing_unique prefix (m : Objects) infos :
  StronglySorted info_lt infos ->
  (forall i, i ∈ infos <->
     exists o, m !! oi_key i = Some o /\ String.prefix prefix (oi_key i) = true /\ i = info (oi_key i) o) ->
  infos = listing prefix m.
Proof.
  intros Hs Hin. assert (StronglySorted info_lt (listing prefix m)) as Hs'.
  { eapply StronglySorted_fmap; [|apply btree_with_prefix_sorted]. done. }
  apply (StronglySorted_unique_strong info_lt); [|done..|].
  - intros x y _ _ [Hxy Hne] [Hyx _]. destruct Hne. by apply (anti_symm String.le).
  - apply NoDup_Permutation; [by apply info_lt_NoDup..|]. intros i. rewrite Hin. unfold listing.
    rewrite list_elem_of_fmap. split.
    + intros (o & Hl & Hp & ->). exists (oi_key i, o). split; [done|]. by apply elem_of_btree_with_prefix.
    + intros ([key o] & -> & He). apply elem_of_btree_with_prefix in He as [? ?]. by exists o.
Qed.

Lemma safe_list prefix k (m : Objects) :
  store_safe (k (Ok (listing prefix m))) m -> store_safe (Perform (OnStore (CallList prefix)) k) m.
Proof.
  intros Hk. by_contract; [|by destruct Hc]. destruct Hc as (-> & Hs & Hin).
  by rewrite (listing_unique prefix m a Hs Hin).
Qed.

Lemma safe_delete key o k (m : Objects) :
  m !! key = Some o -> retain_until o = None -> store_safe (k (Ok tt)) (delete key m) ->
  store_safe (Perform (OnStore (CallDelete key)) k) m.
Proof.
  intros Hm Ho Hk. by_contract.
  - destruct Hc as [-> _]. by destruct a.
  - destruct Hc as [_ [(? & _)|((o' & Ho' & u & Hu & _) & _)]]; congruence.
Qed.

Lemma safe_delete_absent key k (m : Objects) :
  m !! key = None -> store_safe (k (Err (NotFound key))) m -> store_safe (Perform (OnStore (CallDelete key)) k) m.
Proof.
  intros Hm Hk. by_contract.
  - destruct Hc as (_ & o & Ho & _). congruence.
  - destruct Hc as [-> [(_ & ->)|((o & Ho & _) & _)]]; [done|congruence].
Qed.

Lemma safe_delete_retained key o until k (m : Objects) :
  m !! key = Some o -> retain_until o = Some until -> t0 + from_hours 1 <= until ->
  (forall reason, store_safe (k (Err (RetentionViolation reason))) m) ->
  store_safe (Perform (OnStore (CallDelete key)) k) m.
Proof.
  intros Hm Ho Hu Hk. by_contract.
  - destruct Hc as (_ & o' & Ho' & Hn). simplify_eq. destruct Hn. exists until. split; [done|lia].
  - destruct Hc as [-> [(? & _)|(_ & reason & ->)]]; [congruence|apply Hk].
Qed.

Lemma safe_put_with_retention key bytes until k (m : Objects) :
  m !! key = None ->
  (forall modified, store_safe (k (Ok tt)) (<[key := MkStoredObject bytes modified (Some until)]> m)) ->
  store_safe (Perform (OnStore (CallPutWithRetention key bytes until)) k) m.
Proof.
  intros Hm Hk. by_contract.
  - destruct Hc as (_ & modified & ->). destruct a. apply Hk.
  - destruct Hc as (_ & [o Ho] & _). congruence.
Qed.

Lemma safe_put_with_retention_taken key bytes until o k (m : Objects) :
  m !! key = Some o -> store_safe (k (Err (AlreadyExists key))) m ->
  store_safe (Perform (OnStore (CallPutWithRetention key bytes until)) k) m.
Proof. intros Hm Hk. by_contract; [destruct Hc; congruence|]. by destruct Hc as (-> & _ & ->). Qed.

Lemma safe_extend key until o current k (m : Objects) :
  m !! key = Some o -> retain_until o = Some current -> current < until ->
  store_safe (k (Ok tt)) (<[key := MkStoredObject (data o) (last_modified o) (Some until)]> m) ->
  store_safe (Perform (OnStore (CallExtendRetention key until)) k) m.
Proof.
  intros Hm Ho Hu Hk. by_contract.
  - destruct Hc as (o' & c & Ho' & Hc & _ & ->). simplify_eq. by destruct a.
  - rewrite Hm in Hc. cbn in Hc. destruct Hc as [_ [(? & _)|((c & Hc & ?) & _)]]; [congruence|simplify_eq; lia].
Qed.

Lemma safe_extend_back key until o current k (m : Objects) :
  m !! key = Some o -> retain_until o = Some current -> until <= current ->
  (forall reason, store_safe (k (Err (RetentionViolation reason))) m) ->
  store_safe (Perform (OnStore (CallExtendRetention key until)) k) m.
Proof.
  intros Hm Ho Hu Hk. by_contract.
  - destruct Hc as (o' & c & Ho' & Hc & ? & _). simplify_eq. lia.
  - rewrite Hm in Hc. cbn in Hc. destruct Hc as [-> [(? & _)|(_ & reason & ->)]]; [congruence|apply Hk].
Qed.

Lemma safe_extend_absent key until k (m : Objects) :
  m !! key = None -> store_safe (k (Err (NotFound key))) m ->
  store_safe (Perform (OnStore (CallExtendRetention key until)) k) m.
Proof.
  intros Hm Hk. by_contract.
  - destruct Hc as (o & c & Ho & _). congruence.
  - rewrite Hm in Hc. destruct Hc as [-> [(_ & ->)|((c & Hc & _) & _)]]; done.
Qed.

Lemma safe_get_retention key o until k (m : Objects) :
  m !! key = Some o -> retain_until o = Some until -> store_safe (k (Ok until)) m ->
  store_safe (Perform (OnStore (CallGetRetention key)) k) m.
Proof.
  intros Hm Ho Hk. by_contract.
  - destruct Hc as (-> & o' & Ho' & Hu). by simplify_eq.
  - rewrite Hm in Hc. cbn in Hc. destruct Hc as (_ & Hn & _). congruence.
Qed.

Lemma safe_get_retention_absent key k (m : Objects) :
  m !! key ≫= retain_until = None -> store_safe (k (Err (NotFound key))) m ->
  store_safe (Perform (OnStore (CallGetRetention key)) k) m.
Proof.
  intros Hm Hk. by_contract.
  - destruct Hc as (_ & o & Ho & Hu). rewrite Ho in Hm. cbn in Hm. congruence.
  - by destruct Hc as (-> & _ & ->).
Qed.

(** ** The cases *)

(** Every instant the suite computes is in range. *)
Context (Hreading : forall t, reading t -> in_window t) (Hend : t0 + from_hours 3 < 2 ^ 63 * nanos_per_sec).

Lemma safe_now_plus hours k (m : Objects) :
  hours <= 2 -> (forall now, in_window now -> store_safe (k (now + from_hours hours)) m) ->
  store_safe (now_plus_hours hours k) m.
Proof.
  intros Hh Hk. split; [exact I|]. intros now m' [Hr ->]. apply Hreading in Hr. unfold system_time_checked_add.
  rewrite (proj2 (Z.ltb_lt _ _)) by (unfold in_window, from_hours, nanos_per_sec in *; lia). by apply Hk.
Qed.

Ltac look :=
  solve [apply lookup_empty | apply lookup_insert_eq | apply lookup_delete_eq
        | rewrite lookup_insert_ne by discriminate; look].
Ltac in_time := unfold in_window, from_hours, nanos_per_sec in *; lia.
Ltac settle :=
  lazymatch goal with
  | |- safe _ _ Passed _ => exact I
  | |- safe _ _ (now_plus_hours _ _) _ => apply safe_now_plus; [lia|intros ? ?]
  | |- safe _ _ (assert_that _ _) _ => apply safe_assert; [first [apply Z.eqb_refl | vm_compute; reflexivity]|]
  | |- safe _ _ (Perform (OnStore (CallPut _ _ _)) _) _ =>
      first [eapply safe_put_new; [look|intros ?] | eapply safe_put_taken; [look|reflexivity|]
            | eapply safe_overwrite; [look|reflexivity|intros ?]
            | eapply safe_overwrite_retained; [look|reflexivity|in_time|intros ?]]
  | |- safe _ _ (Perform (OnStore (CallGet _)) _) _ => first [eapply safe_get; [look|] | eapply safe_get_absent; [look|]]
  | |- safe _ _ (Perform (OnStore (CallHead _)) _) _ => first [eapply safe_head; [look|] | eapply safe_head_absent; [look|]]
  | |- safe _ _ (Perform (OnStore (CallList _)) _) _ => apply safe_list
  | |- safe _ _ (Perform (OnStore (CallDelete _)) _) _ =>
      first [eapply safe_delete; [look|reflexivity|] | eapply safe_delete_absent; [look|]
            | eapply safe_delete_retained; [look|reflexivity|in_time|intros ?]]
  | |- safe _ _ (Perform (OnStore (CallPutWithRetention _ _ _)) _) _ =>
      first [eapply safe_put_with_retention; [look|intros ?] | eapply safe_put_with_retention_taken; [look|]]
  | |- safe _ _ (Perform (OnStore (CallExtendRetention _ _)) _) _ =>
      first [eapply safe_extend_absent; [look|] | eapply safe_extend; [look|reflexivity|in_time|]
            | eapply safe_extend_back; [look|reflexivity|in_time|intros ?]]
  | |- safe _ _ (Perform (OnStore (CallGetRetention _)) _) _ =>
      first [eapply safe_get_retention; [look|reflexivity|]
            | eapply safe_get_retention_absent; [first [reflexivity | by rewrite lookup_insert_eq]|]]
  end; cbn [expect expect_err data last_modified retain_until].

Lemma object_store_safe : Forall (fun t => store_safe t ∅) object_store_suite.
Proof.
  unfold object_store_suite.
  do 10 (constructor; [match goal with |- store_safe ?t _ => unfold t end; cbn [for_each]; repeat settle|]).
  constructor.
Qed.

Lemma object_lock_safe : Forall (fun t => store_safe t ∅) object_lock_suite.
Proof.
  unfold object_lock_suite.
  do 11 (constructor; [match goal with |- store_safe ?t _ => unfold t end; repeat settle|]).
  constructor.
Qed.
End Window.

(** ** The suites *)

Definition both_suites : list (Test StoreSuiteCall) :=
  object_store_suite ++ object_lock_suite.

Lemma both_safe t0 reading :
  (forall t, reading t -> in_window t0 t) -> t0 + from_hours 3 < 2 ^ 63 * nanos_per_sec ->
  Forall (fun t => forall m, m = ∅ -> safe (store_spec t0 reading) store_pre t m) both_suites.
Proof.
  intros Hr He. unfold both_suites. apply List.Forall_app. split;
    apply (List.Forall_impl _ (P := fun t => safe (store_spec t0 reading) store_pre t ∅)); try (by intros t Ht m ->).
  - apply object_store_safe.
  - by apply object_lock_safe.
Qed.

(** The in-memory store, over a clock that does not leave the hour. *)
Lemma memory_store_conforms (clock : nat -> Z) t0 :
  (forall n, in_window t0 (clock n)) ->
  Conforms (exec_step (store_exec clock)) (store_spec t0 (fun t => exists n, t = clock n)) store_pre
    (fun s m => objects s = m).
Proof.
  intros Hc. constructor. intros R [A c|] s m r s' <- _ E.
  - exists (objects s'). split; [|done]. exists (clock (readings s)). split; [apply Hc|].
    change (memory_call clock c s = (r, s')) in E.
    pose proof (memory_contract clock c s : contract _ c _ (memory_call clock c s).1 (objects (memory_call clock c s).2)) as H.
    by rewrite E in H.
  - unfold exec_step in E. injection E as <- <-. exists (objects s). split; [|done]. split; [by eexists|done].
Qed.

(** A store that keeps the documented contract of [ObjectStore] and [ObjectLock] passes both
    conformance suites, if the suites take less than an hour by the store's clock and by theirs: no run
    of either panics, whatever the two clocks read in that hour. *)
Theorem store_suites_accept {S : Type} (step : forall R, S -> StoreSuiteCall R -> R -> S -> Prop)
    (stands_for : S -> Objects -> Prop) (fresh : S -> Prop) (t0 : Z) (reading : Z -> Prop) :
  Conforms step (store_spec t0 reading) store_pre stands_for -> (forall s, fresh s -> stands_for s ∅) ->
  (forall t, reading t -> in_window t0 t) -> t0 + from_hours 3 < 2 ^ 63 * nanos_per_sec ->
  ~ suite_runs step fresh both_suites false.
Proof.
  intros Hc Hf Hr He. apply (suite_passes step (store_spec t0 reading) store_pre stands_for fresh (fun m => m = ∅)).
  - intros s Hs. exists ∅. split; [done|by apply Hf].
  - by apply both_safe.
Qed.

(** The in-memory store passes: the suites end, and only so. *)
Theorem memory_passes_store_suites (clock : nat -> Z) t0 :
  (forall n, in_window t0 (clock n)) -> t0 + from_hours 3 < 2 ^ 63 * nanos_per_sec ->
  let runs := suite_runs (exec_step (store_exec clock)) (fun s => s = memory_object_store_new) both_suites in
  runs true /\ ~ runs false.
Proof.
  intros Hc He runs. pose proof (memory_store_conforms clock t0 Hc).
  apply (suite_ends_passing (store_exec clock) (store_spec t0 (fun t => exists n, t = clock n)) store_pre
    (fun s m => objects s = m) memory_object_store_new (fun m => m = ∅)).
  - by exists ∅.
  - apply both_safe; [|done]. intros t [n ->]. apply Hc.
Qed.

(** A clock that stands still. *)
Lemma store_suites_accept_witness :
  ~ suite_runs (exec_step (store_exec (fun _ => 7))) (fun s => s = memory_object_store_new) both_suites false.
Proof.
  apply (store_suites_accept (exec_step (store_exec (fun _ => 7))) (fun s m => objects s = m) (fun s => s = memory_object_store_new)
    7 (fun t => exists n : nat, t = 7)).
  - apply (memory_store_conforms (fun _ => 7) 7). intros n. split; [lia|reflexivity].
  - by intros s ->.
  - intros t [_ ->]. split; [lia|reflexivity].
  - reflexivity.
Defined.

(** ** Stores that do not pass *)

(** A store that replaces whatever the mode, one that forgets the retention of what it deletes, and one
    whose retention can be shortened. *)
Definition replacing_call {A} (c : StoreCall A) : StoreCall A :=
  match c with CallPut key bytes _ => CallPut key bytes overwrite | c => c end.
Definition unlocked (key : string) (s : MemoryObjectStore) : MemoryObjectStore :=
  MkMemoryObjectStore (alter (fun o => MkStoredObject (data o) (last_modified o) None) key (objects s)) (readings s).
Definition replacing_exec (R : Type) (c : StoreSuiteCall R) : MemoryObjectStore -> R * MemoryObjectStore :=
  match c with OnStore c => store_exec (fun _ => 7) _ (OnStore (replacing_call c)) | ClockNow => store_exec (fun _ => 7) _ ClockNow end.
Definition unlocking_exec (R : Type) (c : StoreSuiteCall R) : MemoryObjectStore -> R * MemoryObjectStore :=
  match c with
  | OnStore c => fun s => store_exec (fun _ => 7) _ (OnStore c) (match c with CallDelete key => unlocked key s | _ => s end)
  | ClockNow => store_exec (fun _ => 7) _ ClockNow
  end.
Definition shortening_exec (R : Type) (c : StoreSuiteCall R) : MemoryObjectStore -> R * MemoryObjectStore :=
  match c with
  | OnStore c =>
      match c in StoreCall A return MemoryObjectStore -> result A CloudError * MemoryObjectStore with
      | CallExtendRetention key until => fun s =>
          match objects s !! key with
          | Some o => (Ok tt, MkMemoryObjectStore (<[key := MkStoredObject (data o) (last_modified o) (Some until)]> (objects s)) (readings s))
          | None => (Err (NotFound key), s)
          end
      | c => memory_call (fun _ => 7) c
      end
  | ClockNow => store_exec (fun _ => 7) _ ClockNow
  end.

Example broken_stores_fail :
  suite_runs (exec_step replacing_exec) (fun s => s = memory_object_store_new) both_suites false /\
  suite_runs (exec_step unlocking_exec) (fun s => s = memory_object_store_new) both_suites false /\
  suite_runs (exec_step shortening_exec) (fun s => s = memory_object_store_new) both_suites false.
Proof. split_and!; [apply (suite_runs_alone replacing_exec)|apply (suite_runs_alone unlocking_exec)|apply (suite_runs_alone shortening_exec)]. Qed.
