(* ===== verification/LeaseSuite.v ===== *)
(** * The lease suite: [coordination/src/suite.rs]

    One life of a lease, of two regions over one store and one fake clock, as a program over the
    store's calls and the clock's operations.

    Over any store that keeps the contract of [ReplicatedKv] and any clock that behaves as the fake
    clock, started anywhere but in the last minutes of its range, the suite does not panic. *)

From stdpp Require Import gmap.
From S2P Require Import Prelude Time WireLaws Types KV KVContract Lease LeaseFacts Clock AwsErrors DynamoDb DynamoDbFacts DynamoDbRefines DynamoDbContract LeaseDynamoDb KVTypes Suite KvSuite KvSuiteFacts.

Local Open Scope mtc_scope.
Local Open Scope suite_scope.
Local Open Scope Z_scope.

(** A call of the store, or an operation of the clock. *)
Inductive LeaseSuiteCall : Type -> Type :=
| OnKv {A} (c : Call A) : LeaseSuiteCall (result A CloudError)
| OnClock (op : ClockOp) : LeaseSuiteCall Outcome.

Abbreviation LeaseTest := (Test LeaseSuiteCall).

#[export] Instance Lease_eq_dec : EqDecision Lease.
Proof. solve_decision. Defined.

(** [clock.now()], [clock.advance(delta)]. *)
Definition clock_now (k : Z -> LeaseTest) : LeaseTest :=
  call! outcome := OnClock Clock.Now in
  match outcome with Observed t => k t | _ => Panicked end.
Definition clock_advance (delta : Z) (k : LeaseTest) : LeaseTest := Perform (OnClock (Advance delta)) (fun _ => k).

(** An operation of a coordinator, on the suite's store and clock. *)
Fixpoint operate {A} (p : Prog A) (k : A -> LeaseTest) : LeaseTest :=
  match p with
  | Done a => k a
  | Lease.Now f => clock_now (fun t => operate (f t) k)
  | Invoke c f => call! r := OnKv c in operate (f r) k
  end.

(** [expect_lease(p.await, ..)]. *)
Definition expect_lease (p : Prog (result Lease LeaseError)) (k : Lease -> LeaseTest) : LeaseTest :=
  operate p (fun result => expect result k).

(** [assert_eq!(p.await, Err(..))], [assert!(matches!(p.await, Err(LeaseError::NoLease { .. })))]. *)
Definition is_no_lease (r : result Lease LeaseError) : bool := match r with Err (NoLease _) => true | _ => false end.
Definition is_lease_held (r : result Lease LeaseError) : bool := match r with Err LeaseHeld => true | _ => false end.
Definition is_lost_lease (r : result Lease LeaseError) : bool := match r with Err LostLease => true | _ => false end.
Definition expect_that (p : Prog (result Lease LeaseError)) (b : result Lease LeaseError -> bool) (k : LeaseTest) : LeaseTest :=
  operate p (fun result => assert_that (b result) k).

Definition suite_log : result LogId IdError := Id_new (String.list_byte_of_string "lease-suite-log").

(** [run_lease_suite], in its numbered parts. *)
Section Parts.
Context (coord_a coord_b : LeaseCoordinator).
Context (region_a region_b : Region).

(** 1. *)
Definition bootstrap (k : LeaseTest) : LeaseTest :=
  expect_that (read_lease coord_a) is_no_lease (expect_that (claim_lease coord_b) is_no_lease k).

(** 2 to 4. *)
Definition first_acquire (k : Lease -> LeaseTest) : LeaseTest :=
  clock_now (fun t_acquire =>
  expect_lease (acquire coord_a) (fun l1 =>
  assert! lease_epoch l1 =? INITIAL_EPOCH;
  assert! bool_decide (lease_holder_id l1 = co_identity coord_a);
  assert! bool_decide (lease_region l1 = region_a);
  assert! t_acquire <? lease_expires_at l1;
  expect_some (system_time_checked_add t_acquire LEASE_TTL) (fun limit =>
  assert! lease_expires_at l1 <=? limit;
  expect_lease (read_lease coord_a) (fun read =>
  assert! bool_decide (read = l1);
  expect_that (acquire coord_a) is_lease_held
  (expect_that (acquire coord_b) is_lease_held
  (expect_that (claim_lease coord_b) is_lease_held (k l1))))))).

(** 5. *)
Definition first_renew (l1 : Lease) (k : Lease -> LeaseTest) : LeaseTest :=
  clock_advance (LEASE_TTL / 3)
  (expect_lease (renew coord_a INITIAL_EPOCH) (fun l2 =>
  assert! lease_epoch l2 =? INITIAL_EPOCH;
  assert! lease_expires_at l1 <? lease_expires_at l2;
  let stale := INITIAL_EPOCH + 5 in
  expect_that (renew coord_a stale) is_lost_lease (k l2))).

(** 6 and 7. *)
Definition takeover (l2 : Lease) (k : Lease -> Epoch -> LeaseTest) : LeaseTest :=
  clock_advance (LEASE_TTL + nanos_per_sec)
  (expect_that (claim_lease coord_b) is_lease_held
  (clock_advance TAKEOVER_SAFETY_MARGIN
  (expect_lease (claim_lease coord_b) (fun l3 =>
  expect (checked_next INITIAL_EPOCH) (fun expected_epoch =>
  assert! lease_epoch l3 =? expected_epoch;
  assert! lease_epoch l2 <? lease_epoch l3;
  assert! bool_decide (lease_holder_id l3 = co_identity coord_b);
  assert! bool_decide (lease_region l3 = region_b);
  expect_lease (read_lease coord_b) (fun read_b =>
  assert! bool_decide (read_b = l3);
  k l3 expected_epoch)))))).

(** 8 and 9. *)
Definition fenced (l3 : Lease) (expected_epoch : Epoch) : LeaseTest :=
  expect_that (renew coord_a INITIAL_EPOCH) is_lost_lease
  (expect_that (claim_lease coord_a) is_lease_held
  (clock_advance (LEASE_TTL / 3)
  (expect_lease (renew coord_b (lease_epoch l3)) (fun l4 =>
  assert! lease_epoch l4 =? expected_epoch;
  assert! lease_expires_at l3 <? lease_expires_at l4;
  Passed)))).
End Parts.

Definition lease_suite : LeaseTest :=
  expect suite_log (fun log_id =>
  let region_a := "us-east-1"%string in
  let region_b := "us-west-2"%string in
  let coord_a := coordinator_new log_id "us-east-1/inst-a" region_a in
  let coord_b := coordinator_new log_id "us-west-2/inst-b" region_b in
  bootstrap coord_a coord_b
  (first_acquire coord_a coord_b region_a (fun l1 =>
  first_renew coord_a l1 (fun l2 =>
  takeover coord_b region_b l2 (fun l3 expected_epoch =>
  fenced coord_a coord_b l3 expected_epoch))))).

(** The in-memory store and the fake clock's counter. *)
Definition lease_exec (clock_op : ClockOp -> Z -> Outcome * Z) (R : Type) (c : LeaseSuiteCall R) :
    Items * Z -> R * (Items * Z) :=
  match c with
  | OnKv c => fun s => let '(r, items) := memory c s.1 in (r, (items, s.2))
  | OnClock op => fun s => let '(outcome, nanos) := clock_op op s.2 in (outcome, (s.1, nanos))
  end.

(** ** The contracts *)

Definition lease_spec (R : Type) (s : Items * Z) (c : LeaseSuiteCall R) : R -> Items * Z -> Prop :=
  match c with
  | OnKv c => fun r s' => applied s.1 c r s'.1 /\ s'.2 = s.2
  | OnClock op => fun outcome s' => (outcome, s'.2) = atomic_op op s.2 /\ s'.1 = s.1
  end.
Definition lease_pre (R : Type) (s : Items * Z) (c : LeaseSuiteCall R) : Prop :=
  match c with OnKv c => supported s.1 c | OnClock _ => True end.

Abbreviation lease_safe := (safe lease_spec lease_pre).

(** ** An operation of a coordinator is its run on the in-memory store *)

Definition can_refuse {A} (c : Call A) : bool := match c with CGet _ | CQuery _ => false | _ => true end.

Lemma refusal_possible {A} (c : Call A) m reason m' :
  memory c m = (Err (ConditionFailed reason), m') -> can_refuse c = true.
Proof.
  destruct c; try done; cbn [memory]; unfold get, query, bind, lift, read_state, ret; try done.
  destruct (m !! key); cbn; intros E; simplify_eq.
Qed.

(** The program goes on the same way whatever the reason of a refusal. *)
Fixpoint indifferent {A} (p : Prog A) : Prop :=
  match p with
  | Done _ => True
  | Lease.Now f => forall t, indifferent (f t)
  | Invoke c f =>
      (can_refuse c = true -> forall r r', f (Err (ConditionFailed r)) = f (Err (ConditionFailed r'))) /\
      forall r, indifferent (f r)
  end.

Lemma program_indifferent co req : indifferent (program co req).
Proof.
  destruct req as [| |e|]; cbn; try done.
  split; [done|]. intros [it|[]]; cbn; try done. destruct (decode_lease it) as [l|]; cbn; [|done].
  intros t. destruct (negb _); [done|]. by destruct (checked_next _).
Qed.

(** What the store holds stays of the source's types. *)
Lemma call_static_typed {A} (c : Call A) : call_static c -> call_typed c.
Proof.
  destruct c as [k|k v cs|k expr cs|ops|p]; cbn; try done; [by intros []|]. intros (Hw & _).
  eapply Forall_impl; [exact Hw|]. by intros act [_ Ha].
Qed.

Lemma memory_values_wf {A} (c : Call A) m : call_static c -> values_wf m -> values_wf (memory c m).2.
Proof. intros Hc Hm. eapply applied_typed; [exact Hm|by apply call_static_typed|apply memory_applied]. Qed.

Lemma safe_clock op k m t outcome t' :
  atomic_op op t = (outcome, t') -> lease_safe (k outcome) (m, t') -> lease_safe (Perform (OnClock op) k) (m, t).
Proof.
  intros E Hk. split; [exact I|]. intros r [m1 t1] [Hr Hm]. cbn in *. rewrite E in Hr. by simplify_eq.
Qed.

Lemma run_values_wf {A} (p : Prog A) t : forall m, prog_ok p -> values_wf m -> values_wf (run t p m).2.
Proof.
  induction p as [a|f IH|B c f IH]; intros m Hok Hm; cbn [run]; [done|by apply IH|].
  destruct Hok as [Hc Hf]. pose proof (memory_values_wf c m Hc Hm) as Hm'.
  pose proof (kv_step_answer_ok m _ c _ Hm Hm' (kv_answered m c _ _ (memory_applied c m))) as Ha.
  destruct (memory c m) as [r m']. apply IH; [by apply Hf|done].
Qed.

Lemma safe_operate {A} (p : Prog A) k t : forall m,
  prog_ok p -> indifferent p -> values_wf m ->
  lease_safe (k (run t p m).1) ((run t p m).2, t) -> lease_safe (operate p k) (m, t).
Proof.
  induction p as [a|f IH|B c f IH]; intros m Hok Hi Hm Hk; cbn [run operate] in *; [done| |].
  - eapply safe_clock; [reflexivity|]. by apply IH.
  - destruct Hok as [Hc Hf], Hi as [Hr Hi].
    split; [by apply call_static_supported|]. intros r [m' t'] [Ha Et]. cbn in Ha, Et. subst t'.
    pose proof (memory_values_wf c m Hc Hm) as Hm'.
    pose proof (kv_step_answer_ok m _ c _ Hm Hm' (kv_answered m c _ _ (memory_applied c m))) as Hans.
    destruct (memory c m) as [r0 m0] eqn:E. cbn [fst snd] in *.
    destruct (applied_answer c m r0 m0 r m' E Ha) as [-> Hsame].
    enough (f r = f r0) as -> by (apply IH; [by apply Hf|by apply Hi|done|done]).
    destruct r0 as [a|[]]; cbn in Hsame; try by subst. destruct Hsame as [reason' ->].
    apply Hr. by eapply refusal_possible.
Qed.

(** ** What each operation does, for the store and the lease it finds *)

Definition lease_is (key : Key) (m : Items) (r : Region) (h : HolderId) (e : Epoch) (x : Z) : Prop :=
  exists v, m !! key = Some (VMap v) /\ has_lease v r h e x.

Section Operations.
Context (co : LeaseCoordinator) (m : Items) (t : Z).

Lemma read_none : m !! co_key co = None -> run t (read_lease co) m = (Err (NoLease (co_key co)), m).
Proof.
  intros Hm. unfold read_lease. cbn [run memory]. unfold get, bind, read_state, lift. by rewrite Hm.
Qed.

Lemma read_some r h e x : lease_is (co_key co) m r h e x -> in_u64 x ->
  run t (read_lease co) m = (Ok (MkLease r h e (x * nanos_per_milli)), m).
Proof.
  intros (v & Hm & Hl) Hx. unfold read_lease. cbn [run memory]. unfold get, bind, read_state, lift. rewrite Hm.
  cbn [fmap option_fmap option_map ok_or run]. rewrite (decode_has_lease (co_key co) _ _ _ _ _ Hl); [done|]. unfold in_uint, u64_max in *. lia.
Qed.

Lemma expiry_decodes : from_unix_millis (expiry_at t) = Some (expiry_at t * nanos_per_milli).
Proof. apply from_unix_millis_Some. pose proof (expiry_at_range t). unfold in_uint, u64_max in *. lia. Qed.

Lemma acquire_free : m !! co_key co = None ->
  exists m', run t (acquire co) m =
    (Ok (MkLease (co_region co) (co_identity co) INITIAL_EPOCH (expiry_at t * nanos_per_milli)), m') /\
    lease_is (co_key co) m' (co_region co) (co_identity co) INITIAL_EPOCH (expiry_at t).
Proof.
  intros Hm. unfold acquire. cbn [run]. rewrite memory_put_absent by done. cbn [acquire_result].
  rewrite ttl_millis. fold (expiry_at t). unfold own_lease. rewrite expiry_decodes. eexists. split; [reflexivity|].
  destruct (encode_has_lease (co_region co) (co_identity co) INITIAL_EPOCH (expiry_at t)) as (v & -> & Hl).
  exists v. split; [apply items_insert_eq|done].
Qed.

Lemma acquire_held r h e x : lease_is (co_key co) m r h e x -> run t (acquire co) m = (Err LeaseHeld, m).
Proof. intros (v & Hm & _). unfold acquire. cbn [run]. by rewrite (memory_put_present _ _ _ _ Hm). Qed.

(** A renewal by the holder at its epoch. *)
Lemma renew_holder r e x : lease_is (co_key co) m r (co_identity co) e x ->
  exists m', run t (renew co e) m =
    (Ok (MkLease r (co_identity co) e (expiry_at t * nanos_per_milli)), m') /\
    lease_is (co_key co) m' r (co_identity co) e (expiry_at t).
Proof.
  intros (v & Hm & [Hr Hh He Hx]). unfold renew. cbn [run]. rewrite ttl_millis. fold (expiry_at t).
  pose (v' := <[ATTR_EXPIRES_AT := VU64 (expiry_at t)]> v : gmap string Value).
  assert (has_lease v' r (co_identity co) e (expiry_at t)) as Hl.
  { split; unfold v'; by simplify_map_eq. }
  pose proof (update_run LostLease (co_key co) m v v' (renew_expr (expiry_at t)) (renew_conditions co e) Hm) as Hu.
  destruct (memory (CUpdate (co_key co) (renew_expr (expiry_at t)) (renew_conditions co e)) m) as [r0 m0].
  exists (<[co_key co := VMap v']> m). cbn [run].
  rewrite Hu; [|by cbn; rewrite Hh, He; cbn; rewrite !decide_True by done|done].
  rewrite (decode_has_lease (co_key co) _ _ _ _ _ Hl) by (pose proof (expiry_at_range t); unfold in_uint, u64_max in *; lia).
  split; [done|]. exists v'. split; [apply items_insert_eq|done].
Qed.

(** A renewal at another epoch, or by another holder. *)
Lemma renew_lost r h e e' x : lease_is (co_key co) m r h e x -> h <> co_identity co \/ e <> e' ->
  run t (renew co e') m = (Err LostLease, m).
Proof.
  intros (v & Hm & [Hr Hh He Hx]) Hne. unfold renew. cbn [run memory].
  unfold atomic_update, bind, read_state, lift. rewrite Hm. cbn [ok_or].
  pose proof (check_conditions_holds (Some (VMap v)) (renew_conditions co e')) as Hc.
  destruct (check_conditions (Some (VMap v)) (renew_conditions co e')) as [[]|err].
  - apply Forall_cons in Hc as [Hh' Hc]. apply Forall_cons in Hc as [Hc _]. exfalso.
    change (v !! ATTR_HOLDER_ID = Some (VString (co_identity co))) in Hh'.
    change (v !! ATTR_EPOCH = Some (VU64 e')) in Hc. destruct Hne; congruence.
  - destruct Hc as [[reason ->] _]. done.
Qed.

Lemma claim_none : m !! co_key co = None -> run t (claim_lease co) m = (Err (NoLease (co_key co)), m).
Proof. intros Hm. rewrite claim_lease_run. by rewrite Hm. Qed.

(** A claim before and after the safety margin. *)
Lemma claim_early r h e x : lease_is (co_key co) m r h e x -> in_u64 x -> to_unix_millis t < saturating_add 64 x 60000 ->
  run t (claim_lease co) m = (Err LeaseHeld, m).
Proof.
  intros (v & Hm & Hl) Hx Ht. rewrite claim_lease_run, Hm.
  rewrite (decode_has_lease (co_key co) _ _ _ _ _ Hl) by (unfold in_uint, u64_max in *; lia). cbn [lease_expires_at].
  rewrite to_from_unix_millis by done. by rewrite (proj2 (Z.ltb_lt _ _)) by done.
Qed.

Lemma claim_late r h e x : lease_is (co_key co) m r h e x -> in_u64 x -> saturating_add 64 x 60000 <= to_unix_millis t ->
  e + 1 < 2 ^ 64 ->
  exists m', run t (claim_lease co) m =
    (Ok (MkLease (co_region co) (co_identity co) (e + 1) (expiry_at t * nanos_per_milli)), m') /\
    lease_is (co_key co) m' (co_region co) (co_identity co) (e + 1) (expiry_at t).
Proof.
  intros (v & Hm & Hl) Hx Ht He. rewrite claim_lease_run, Hm.
  rewrite (decode_has_lease (co_key co) _ _ _ _ _ Hl) by (unfold in_uint, u64_max in *; lia).
  cbn [lease_expires_at lease_epoch]. rewrite to_from_unix_millis by done.
  rewrite (proj2 (Z.ltb_ge _ _)) by done. rewrite (proj2 (Z.leb_gt _ _)) by done.
  eexists. split; [reflexivity|].
  eexists. split; [apply items_insert_eq|]. split; apply lookup_union_Some_l; reflexivity.
Qed.
End Operations.

(** ** The parts of the suite *)

Lemma safe_request co req k m t :
  request_ok req -> values_wf m ->
  (values_wf (run t (program co req) m).2 -> lease_safe (k (run t (program co req) m).1) ((run t (program co req) m).2, t)) ->
  lease_safe (operate (program co req) k) (m, t).
Proof.
  intros Hreq Hm Hk. apply safe_operate; [by apply program_ok|apply program_indifferent|done|].
  apply Hk. apply run_values_wf; [by apply program_ok|done].
Qed.

Lemma safe_request_to co req k m t r m' :
  request_ok req -> values_wf m -> run t (program co req) m = (r, m') ->
  (values_wf m' -> lease_safe (k r) (m', t)) -> lease_safe (operate (program co req) k) (m, t).
Proof. intros Hreq Hm E Hk. apply safe_request; [done..|]. by rewrite E. Qed.

Lemma safe_now k m t : lease_safe (k t) (m, t) -> lease_safe (clock_now k) (m, t).
Proof. intros Hk. by eapply safe_clock. Qed.

Lemma safe_advance d k m t : 0 <= d -> in_u64 (t + d) -> 0 <= t -> lease_safe k (m, t + d) -> lease_safe (clock_advance d k) (m, t).
Proof.
  intros Hd Ht Ht0 Hk. eapply safe_clock; [reflexivity|].
  assert (Z.min (t + Z.min d u64_max) u64_max = t + d) as -> by (unfold in_uint, u64_max in *; lia). exact Hk.
Qed.

(** Milliseconds of an instant [k] milliseconds after [t]. *)
Lemma millis_after t k : 0 <= t -> 0 <= k -> in_u64 (t + k * nanos_per_milli) ->
  to_unix_millis (t + k * nanos_per_milli) = t / nanos_per_milli + k /\
  expiry_at (t + k * nanos_per_milli) = t / nanos_per_milli + k + 60000.
Proof.
  intros Ht Hk Hr. assert (nanos_per_milli = 10 ^ 6) as En by done. rewrite En in *.
  assert (to_unix_millis (t + k * 10 ^ 6) = t / 10 ^ 6 + k) as E.
  { unfold to_unix_millis, as_millis. rewrite (proj2 (Z.ltb_ge _ _)) by lia. rewrite En, Z.div_add by done.
    assert (0 <= t / 10 ^ 6 + k < 2 ^ 64).
    { split; [pose proof (Z.div_pos t (10 ^ 6)); lia|]. rewrite <- Z.div_add by done.
      apply Z.div_lt_upper_bound; [done|]. unfold in_uint in Hr. lia. }
    unfold try_from_uint. by rewrite (proj2 (Z.leb_le _ _)), (proj2 (Z.ltb_lt _ _)) by lia. }
  split; [done|]. unfold expiry_at, saturating_add. rewrite E.
  assert (t / 10 ^ 6 + k < 2 ^ 64 / 10 ^ 6 + 1).
  { rewrite <- Z.div_add by done. apply Z.lt_succ_r, Z.div_le_mono; [done|]. unfold in_uint in Hr. lia. }
  assert (2 ^ 64 / 10 ^ 6 + 1 + 60000 < 2 ^ 64) by done. lia.
Qed.

Section Parts.
Context (coord_a coord_b : LeaseCoordinator) (key : Key).
Context (Ha : co_key coord_a = key) (Hb : co_key coord_b = key) (Hab : co_identity coord_a <> co_identity coord_b).
Context (t0 : Z) (Ht0 : 0 <= t0) (Hend : t0 + 161 * nanos_per_sec <= u64_max).

(** The instant [k] milliseconds after the start, and the expiry written then. *)
Definition at_ms (k : Z) : Z := t0 + k * nanos_per_milli.
Definition expiry (k : Z) : Z := t0 / nanos_per_milli + k + 60000.

Lemma at_ms_millis k : 0 <= k <= 161000 -> to_unix_millis (at_ms k) = t0 / nanos_per_milli + k /\ expiry_at (at_ms k) = expiry k.
Proof. intros Hk. apply millis_after; [done|lia|]. unfold in_uint, u64_max, nanos_per_sec, nanos_per_milli in *. lia. Qed.

Lemma expiry_range k : 0 <= k <= 161000 -> in_u64 (expiry k) /\ saturating_add 64 (expiry k) 60000 = expiry k + 60000.
Proof.
  intros Hk. unfold expiry, in_uint, saturating_add. pose proof (Z.div_pos t0 nanos_per_milli Ht0 eq_refl).
  assert (t0 / nanos_per_milli <= u64_max / nanos_per_milli).
  { apply Z.div_le_mono; [done|]. unfold nanos_per_sec in Hend. lia. }
  assert (u64_max / nanos_per_milli + 161000 + 120000 < 2 ^ 64 - 1) by done. lia.
Qed.

Lemma expiry_bounds k : at_ms k < expiry k * nanos_per_milli <= at_ms k + LEASE_TTL.
Proof.
  unfold expiry, at_ms, LEASE_TTL. pose proof (Z.mul_div_le t0 nanos_per_milli eq_refl).
  pose proof (Z.mul_succ_div_gt t0 nanos_per_milli eq_refl). unfold nanos_per_milli, nanos_per_sec in *. lia.
Qed.

Lemma advance_to k d k' (rest : LeaseTest) m :
  d = (k' - k) * nanos_per_milli -> 0 <= k <= k' -> k' <= 161000 ->
  lease_safe rest (m, at_ms k') -> lease_safe (clock_advance d rest) (m, at_ms k).
Proof.
  intros -> Hk Hk' Hr. unfold at_ms in *. unfold nanos_per_milli, nanos_per_sec, u64_max in *.
  apply safe_advance; [lia|unfold in_uint; lia|lia|].
  replace (t0 + k * 10 ^ 6 + (k' - k) * 10 ^ 6) with (t0 + k' * 10 ^ 6) by lia. exact Hr.
Qed.

Definition lease_of (co : LeaseCoordinator) (e : Epoch) (k : Z) : Lease :=
  MkLease (co_region co) (co_identity co) e (expiry k * nanos_per_milli).
Definition held_by (co : LeaseCoordinator) (e : Epoch) (k : Z) (m : Items) : Prop :=
  values_wf m /\ lease_is key m (co_region co) (co_identity co) e (expiry k).

(** The operations, at instant [k]: *)
Lemma safe_acquire co k (rest : Lease -> LeaseTest) m : co_key co = key -> 0 <= k <= 161000 ->
  values_wf m -> m !! key = None ->
  (forall m', held_by co INITIAL_EPOCH k m' -> lease_safe (rest (lease_of co INITIAL_EPOCH k)) (m', at_ms k)) ->
  lease_safe (expect_lease (acquire co) rest) (m, at_ms k).
Proof.
  intros Hco Hk Hw Hm Hr. rewrite <- Hco in Hm. destruct (acquire_free co m (at_ms k) Hm) as (m' & E & Hl).
  rewrite (proj2 (at_ms_millis k Hk)) in *. apply (safe_request_to co Acquire _ _ _ _ _ I Hw E).
  intros Hw'. apply Hr. rewrite Hco in Hl. by split.
Qed.

Lemma safe_read co co' e j k (rest : Lease -> LeaseTest) m : co_key co = key -> 0 <= j <= 161000 ->
  held_by co' e j m -> lease_safe (rest (lease_of co' e j)) (m, at_ms k) ->
  lease_safe (expect_lease (read_lease co) rest) (m, at_ms k).
Proof.
  intros Hco Hj [Hw Hl] Hr. rewrite <- Hco in Hl. apply (safe_request_to co Lease.Read _ _ _ _ _ I Hw (read_some co m _ _ _ _ _ Hl (proj1 (expiry_range j Hj)))).
  intros _. exact Hr.
Qed.

Lemma safe_renew co e j k (rest : Lease -> LeaseTest) m : co_key co = key -> 0 <= k <= 161000 -> in_u64 e ->
  held_by co e j m ->
  (forall m', held_by co e k m' -> lease_safe (rest (lease_of co e k)) (m', at_ms k)) ->
  lease_safe (expect_lease (renew co e) rest) (m, at_ms k).
Proof.
  intros Hco Hk He [Hw Hl] Hr. rewrite <- Hco in Hl. destruct (renew_holder co m (at_ms k) _ _ _ Hl) as (m' & E & Hl').
  rewrite (proj2 (at_ms_millis k Hk)) in *. apply (safe_request_to co (Renew e) _ _ _ _ _ He Hw E).
  intros Hw'. apply Hr. rewrite Hco in Hl'. by split.
Qed.

Lemma safe_claim co co' e j k (rest : Lease -> LeaseTest) m : co_key co = key -> 0 <= j <= 161000 -> 0 <= k <= 161000 ->
  j + 120000 <= k -> e + 1 < 2 ^ 64 -> held_by co' e j m ->
  (forall m', held_by co (e + 1) k m' -> lease_safe (rest (lease_of co (e + 1) k)) (m', at_ms k)) ->
  lease_safe (expect_lease (claim_lease co) rest) (m, at_ms k).
Proof.
  intros Hco Hj Hk Hjk He [Hw Hl] Hr. rewrite <- Hco in Hl. destruct (expiry_range j Hj) as [Hx Hs]. destruct (at_ms_millis k Hk) as [Hms Hexp].
  destruct (claim_late co m (at_ms k) _ _ _ _ Hl Hx) as (m' & E & Hl'); [rewrite Hs, Hms; unfold expiry; lia|done|].
  rewrite Hexp in *. apply (safe_request_to co Claim _ _ _ _ _ I Hw E). intros Hw'. apply Hr. rewrite Hco in Hl'. by split.
Qed.

(** The refusals. *)
Lemma safe_acquire_held co co' e j k rest m : co_key co = key -> held_by co' e j m ->
  lease_safe rest (m, at_ms k) -> lease_safe (expect_that (acquire co) is_lease_held rest) (m, at_ms k).
Proof.
  intros Hco [Hw Hl] Hr. rewrite <- Hco in Hl. apply (safe_request_to co Acquire _ _ _ _ _ I Hw (acquire_held co m _ _ _ _ _ Hl)). intros _. exact Hr.
Qed.

Lemma safe_renew_lost co co' e e' j k rest m : co_key co = key -> in_u64 e' -> held_by co' e j m ->
  co_identity co' <> co_identity co \/ e <> e' ->
  lease_safe rest (m, at_ms k) -> lease_safe (expect_that (renew co e') is_lost_lease rest) (m, at_ms k).
Proof.
  intros Hco He [Hw Hl] Hne Hr. rewrite <- Hco in Hl. apply (safe_request_to co (Renew e') _ _ _ _ _ He Hw (renew_lost co m _ _ _ _ _ _ Hl Hne)).
  intros _. exact Hr.
Qed.

Lemma safe_claim_held co co' e j k rest m : co_key co = key -> 0 <= j <= 161000 -> 0 <= k <= 161000 -> k < j + 120000 ->
  held_by co' e j m ->
  lease_safe rest (m, at_ms k) -> lease_safe (expect_that (claim_lease co) is_lease_held rest) (m, at_ms k).
Proof.
  intros Hco Hj Hk Hjk [Hw Hl] Hr. rewrite <- Hco in Hl. destruct (expiry_range j Hj) as [Hx Hs].
  refine (safe_request_to co Claim _ _ _ _ _ I Hw (claim_early co m _ _ _ _ _ Hl Hx _) (fun _ => Hr)).
  rewrite Hs, (proj1 (at_ms_millis k Hk)). unfold expiry. lia.
Qed.

Ltac settle := apply safe_assert; [first [apply Z.eqb_refl | by apply bool_decide_eq_true | apply Z.ltb_lt | apply Z.leb_le]|].
Ltac ms :=
  unfold lease_of; cbn [lease_expires_at lease_epoch];
  unfold LEASE_TTL, nanos_per_sec, expiry, nanos_per_milli, INITIAL_EPOCH in *; lia.

Lemma values_wf_empty : values_wf (∅ : Items).
Proof. intros k v H. by apply (lookup_empty_Some (M := gmap string)) in H. Qed.

Lemma safe_bootstrap k : lease_safe k (∅, at_ms 0) -> lease_safe (bootstrap coord_a coord_b k) (∅, at_ms 0).
Proof.
  intros Hk. pose proof values_wf_empty as Hw.
  apply (safe_request_to coord_a Lease.Read _ _ _ _ _ I Hw (read_none coord_a ∅ _ (lookup_empty _))). intros _.
  apply (safe_request_to coord_b Claim _ _ _ _ _ I Hw (claim_none coord_b ∅ _ (lookup_empty _))). intros _. exact Hk.
Qed.

Lemma safe_first_acquire (k : Lease -> LeaseTest) :
  (forall m, held_by coord_a INITIAL_EPOCH 0 m -> lease_safe (k (lease_of coord_a INITIAL_EPOCH 0)) (m, at_ms 0)) ->
  lease_safe (first_acquire coord_a coord_b (co_region coord_a) k) (∅, at_ms 0).
Proof.
  intros Hk. apply safe_now. apply safe_acquire; [done|lia|apply values_wf_empty|apply (lookup_empty (M := gmap string))|].
  intros m Hm. settle. settle. settle. pose proof (expiry_bounds 0) as Hx. settle; [exact (proj1 Hx)|].
  unfold system_time_checked_add. rewrite (proj2 (Z.ltb_lt _ _)) by (unfold at_ms, u64_max in *; ms). cbn [expect_some].
  settle; [exact (proj2 Hx)|]. eapply safe_read; [done| |done|]; [lia|]. settle.
  eapply safe_acquire_held; [done..|]. eapply safe_acquire_held; [done..|].
  eapply safe_claim_held; [done| | | |done|]; [lia..|]. by apply Hk.
Qed.

Lemma safe_first_renew m (k : Lease -> LeaseTest) :
  held_by coord_a INITIAL_EPOCH 0 m ->
  (forall m, held_by coord_a INITIAL_EPOCH 20000 m -> lease_safe (k (lease_of coord_a INITIAL_EPOCH 20000)) (m, at_ms 20000)) ->
  lease_safe (first_renew coord_a (lease_of coord_a INITIAL_EPOCH 0) k) (m, at_ms 0).
Proof.
  intros Hm Hk. apply (advance_to 0 _ 20000); [done|lia..|]. eapply safe_renew; [done|lia|done|done|].
  intros m' Hm'. settle. settle; [ms|]. eapply safe_renew_lost; [done|done|done|by right|]. by apply Hk.
Qed.

Lemma safe_takeover m (k : Lease -> Epoch -> LeaseTest) :
  held_by coord_a INITIAL_EPOCH 20000 m ->
  (forall m, held_by coord_b (INITIAL_EPOCH + 1) 141000 m ->
     lease_safe (k (lease_of coord_b (INITIAL_EPOCH + 1) 141000) (INITIAL_EPOCH + 1)) (m, at_ms 141000)) ->
  lease_safe (takeover coord_b (co_region coord_b) (lease_of coord_a INITIAL_EPOCH 20000) k) (m, at_ms 20000).
Proof.
  intros Hm Hk. apply (advance_to 20000 _ 81000); [done|lia..|].
  eapply safe_claim_held; [done| | | |done|]; [lia..|]. apply (advance_to 81000 _ 141000); [done|lia..|].
  eapply safe_claim; [done| | | | |done|]; [lia..|done|]. intros m' Hm'.
  change (checked_next INITIAL_EPOCH) with (Ok (INITIAL_EPOCH + 1) : result Epoch EpochOverflow). cbn [expect].
  settle. settle; [ms|]. settle. settle. eapply safe_read; [done| |done|]; [lia|]. settle. by apply Hk.
Qed.

Lemma safe_fenced m :
  held_by coord_b (INITIAL_EPOCH + 1) 141000 m ->
  lease_safe (fenced coord_a coord_b (lease_of coord_b (INITIAL_EPOCH + 1) 141000) (INITIAL_EPOCH + 1)) (m, at_ms 141000).
Proof.
  intros Hm. eapply safe_renew_lost; [done|done|done|left; congruence|].
  eapply safe_claim_held; [done| | | |done|]; [lia..|]. apply (advance_to 141000 _ 161000); [done|lia..|].
  eapply safe_renew; [done|lia|done|done|]. intros m' Hm'. settle. settle; [ms|]. exact I.
Qed.
End Parts.

Lemma lease_suite_safe t0 : 0 <= t0 -> t0 + 161 * nanos_per_sec <= u64_max -> lease_safe lease_suite (∅, t0).
Proof.
  intros Ht0 Hend. unfold lease_suite. change suite_log with
    (Ok (MkId (String.list_byte_of_string "lease-suite-log")) : result LogId IdError). cbn [expect].
  set (log := MkId _). set (a := coordinator_new log "us-east-1/inst-a" "us-east-1").
  set (b := coordinator_new log "us-west-2/inst-b" "us-west-2").
  replace t0 with (at_ms t0 0) by (unfold at_ms; lia).
  apply safe_bootstrap.
  eapply (safe_first_acquire a b (lease_key log)); [done..|]. intros m Hm.
  eapply (safe_first_renew a (lease_key log)); [done..|]. clear m Hm. intros m Hm.
  eapply (safe_takeover a b (lease_key log)); [done..|]. clear m Hm. intros m Hm.
  eapply (safe_fenced a b (lease_key log)); done.
Qed.

(** ** The suite *)

(** A store's steps, with the atomic clock that the fake clock is. *)
Definition with_clock {S : Type} (step : forall R, S -> KvCall R -> R -> S -> Prop) (R : Type) (s : S * Z)
    (c : LeaseSuiteCall R) : R -> S * Z -> Prop :=
  match c with
  | OnKv c => fun r s' => step _ s.1 (Kv c) r s'.1 /\ s'.2 = s.2
  | OnClock op => fun outcome s' => (outcome, s'.2) = atomic_op op s.2 /\ s'.1 = s.1
  end.

Lemma with_clock_conforms {S : Type} (step : forall R, S -> KvCall R -> R -> S -> Prop) (stands_for : S -> Items -> Prop) :
  Conforms step kv_spec kv_pre stands_for ->
  Conforms (with_clock step) lease_spec lease_pre (fun s m => stands_for s.1 m.1 /\ s.2 = m.2).
Proof.
  intros Hc. constructor. intros R c [s t] [m t'] r [s' t''] [Hs Et] Hp H. simpl in Hs, Et. subst t'.
  destruct c as [A c|op]; simpl in *.
  - destruct H as [H ->]. destruct (conforms _ (Kv c) s m r s' Hs Hp H) as (m' & Ha & Hs'). by exists (m', t).
  - destruct H as [H ->]. by exists (m, t'').
Qed.

(** Over any store that keeps the contract of [ReplicatedKv] on the calls that the DynamoDB backend
    supports at least, and a fake clock started anywhere but in the last 161 seconds of its range, the lease
    suite does not panic: the first region acquires, holds and renews the lease, the other takes it over only
    once it is a minute past its expiry, and then fences the first out. *)
Theorem lease_suite_accepts {S : Type} (step : forall R, S -> KvCall R -> R -> S -> Prop)
    (stands_for : S -> Items -> Prop) (fresh : S -> Prop) (t0 : Z) :
  Conforms step kv_spec kv_pre stands_for -> (forall s, fresh s -> stands_for s ∅) ->
  0 <= t0 -> t0 + 161 * nanos_per_sec <= u64_max ->
  ~ suite_runs (with_clock step) (fun s => fresh s.1 /\ s.2 = t0) [lease_suite] false.
Proof.
  intros Hc Hf Ht0 Hend. pose proof (with_clock_conforms step stands_for Hc).
  apply (suite_passes (with_clock step) lease_spec lease_pre (fun s m => stands_for s.1 m.1 /\ s.2 = m.2) _
    (fun m => m = (∅, t0))).
  - intros s [Hs Et]. exists (∅, t0). split; [done|]. split; [by apply Hf|done].
  - constructor; [|constructor]. intros m ->. by apply lease_suite_safe.
Qed.

(** On the in-memory store the suite ends, and only by passing. *)
Theorem memory_passes_lease_suite t0 :
  0 <= t0 -> t0 + 161 * nanos_per_sec <= u64_max ->
  let runs := suite_runs (exec_step (lease_exec atomic_op)) (fun s => s = (memory_new, t0)) [lease_suite] in
  runs true /\ ~ runs false.
Proof.
  intros Ht0 Hend runs.
  assert (Conforms (exec_step (lease_exec atomic_op)) lease_spec lease_pre (=)).
  { constructor. intros R c s m r s' -> _ E. exists s'. split; [|done]. destruct c as [A c|op]; unfold exec_step in E; simpl in *.
    - pose proof (memory_applied c m.1) as H. destruct (memory c m.1) as [r0 m0]. by injection E as <- <-.
    - destruct (atomic_op op m.2) as [o n]. by injection E as <- <-. }
  apply (suite_ends_passing (lease_exec atomic_op) lease_spec lease_pre (=) _ (fun m => m = (∅, t0))); [by exists (∅, t0)|].
  constructor; [|constructor]. intros m ->. by apply lease_suite_safe.
Qed.

(** The DynamoDB backend, on the server in memory, with the clock at its epoch. *)
Lemma lease_suite_accepts_witness :
  ~ suite_runs (with_clock (ddb_exec_step toy_client)) (fun s => s.1 = ∅ /\ s.2 = 0) [lease_suite] false.
Proof.
  apply (lease_suite_accepts (ddb_exec_step toy_client) (fun t m => table_rep t m) (fun t => t = ∅) 0).
  - apply (ddb_conforms toy_client (fun t => t)).
  - intros t ->. apply rep_empty.
  - lia.
  - vm_compute. discriminate.
Defined.

(** A store that writes whatever the conditions does not pass, nor does a clock at the end of its range. *)
Definition unconditional_lease_exec (R : Type) (c : LeaseSuiteCall R) : Items * Z -> R * (Items * Z) :=
  match c with
  | OnKv c => fun s => let '(r, items) := unconditional_exec _ (Kv c) s.1 in (r, (items, s.2))
  | OnClock op => lease_exec atomic_op _ (OnClock op)
  end.

Example broken_lease_suites_fail :
  suite_runs (exec_step unconditional_lease_exec) (fun s => s = (memory_new, 0)) [lease_suite] false /\
  suite_runs (exec_step (lease_exec atomic_op)) (fun s => s = (memory_new, u64_max)) [lease_suite] false.
Proof.
  split; [apply (suite_runs_alone unconditional_lease_exec (memory_new, 0) [lease_suite])
         |apply (suite_runs_alone (lease_exec atomic_op) (memory_new, u64_max) [lease_suite])].
Qed.
