(* ===== verification/HsmSuite.v ===== *)
(** * The conformance suite of [Hsm]: [cloud-test-suite/src/hsm.rs]

    The cases of the suite, as programs over the calls of the trait; the [p256] crate that checks the
    signatures is a parameter, and so are the messages that [proptest] draws.

    Every module that keeps the contract of the trait passes the suite; so does the in-memory module,
    over a random source that does not fail and does not repeat itself. *)

From stdpp Require Import gmap.
From S2P Require Import Prelude Format Signing KV Hsm SignerFacts Suite KvSuite.

Local Open Scope mtc_scope.
Local Open Scope suite_scope.
Local Open Scope Z_scope.

Inductive HsmCall : Type -> Type :=
| HsmSign (key_handle : KeyHandle) (data : list byte) : HsmCall (result (list byte) CloudError)
| HsmGetPublicKey (key_handle : KeyHandle) : HsmCall (result PublicKey CloudError)
| HsmGenerateKey (spec : KeySpec) : HsmCall (result KeyHandle CloudError)
| HsmIsFipsValidated : HsmCall bool.

Abbreviation HsmTest := (Test HsmCall).

Definition message_bytes (s : string) : list byte := String.list_byte_of_string s.
Definition long_message : string :=
  "a message long enough to span more than one SHA-256 block of " +:+
  "input so a backend cannot special-case short buffers only, which is " +:+
  "exactly the kind of off-by-one a fixed-size test vector would miss".
Definition DETERMINISTIC_MESSAGES : list (list byte) :=
  [[]; message_bytes "checkpoint bytes"; message_bytes long_message].
Definition RANDOM_MESSAGE_CASES : nat := 8.

Section HsmSuite.
Context (p : P256).

Definition generate_and_export (k : KeyHandle -> PublicKey -> HsmTest) : HsmTest :=
  ok! handle := HsmGenerateKey KeySpecEcdsaP256 in
  ok! public_key := HsmGetPublicKey handle in
  k handle public_key.

Definition assert_sign_verifies (handle : KeyHandle) (public_key : PublicKey) (message : list byte) (k : HsmTest) : HsmTest :=
  expect_some (from_public_key_der p (public_spki_der public_key)) (fun verifying_key =>
  ok! signature_bytes := HsmSign handle message in
  assert! len signature_bytes =? 64;
  expect_some (sig_from_slice p signature_bytes) (fun signature =>
  assert! p256_verify p verifying_key message signature;
  k)).

Definition test_generate_sign_verify_round_trip : HsmTest :=
  generate_and_export (fun handle public_key =>
  for_each DETERMINISTIC_MESSAGES (assert_sign_verifies handle public_key) Passed).

Definition test_distinct_keys_produce_distinct_public_keys : HsmTest :=
  generate_and_export (fun handle_a public_key_a =>
  generate_and_export (fun handle_b public_key_b =>
  assert! negb (String.eqb handle_a handle_b);
  assert! negb (bool_decide (public_spki_der public_key_a = public_spki_der public_key_b));
  Passed)).

Definition test_sign_with_unknown_handle_is_not_found : HsmTest :=
  err! err := HsmSign "cts/hsm/no-such-key" (message_bytes "data") in
  assert! is_not_found err;
  Passed.

Definition test_get_public_key_with_unknown_handle_is_not_found : HsmTest :=
  err! err := HsmGetPublicKey "cts/hsm/no-such-key" in
  assert! is_not_found err;
  Passed.

Definition test_is_fips_validated_matches_expected (expected_fips : bool) : HsmTest :=
  call! before := HsmIsFipsValidated in
  assert! Bool.eqb before expected_fips;
  generate_and_export (fun handle public_key =>
  assert_sign_verifies handle public_key (message_bytes "posture-check")
  (call! after := HsmIsFipsValidated in
   assert! Bool.eqb after expected_fips;
   Passed)).

(** [draw]: the samples of the message strategy. *)
Definition test_random_message_sign_verify_property (draw : nat -> option (list byte)) : HsmTest :=
  generate_and_export (fun handle public_key =>
  for_each (seq 0 RANDOM_MESSAGE_CASES) (fun i rest =>
    expect_some (draw i) (fun message => assert_sign_verifies handle public_key message rest)) Passed).

(** [run_hsm_suite]. *)
Definition hsm_suite (expected_fips : bool) (draw : nat -> option (list byte)) : list HsmTest :=
  [test_generate_sign_verify_round_trip;
   test_distinct_keys_produce_distinct_public_keys;
   test_sign_with_unknown_handle_is_not_found;
   test_get_public_key_with_unknown_handle_is_not_found;
   test_is_fips_validated_matches_expected expected_fips;
   test_random_message_sign_verify_property draw].

End HsmSuite.

(** The in-memory module as a function of the call. *)
Definition hsm_exec (p : P256) (p256_sign : P256SigningKey p -> list byte -> P256Signature p)
    (getrandom_fill : nat -> option (list byte)) (R : Type) (c : HsmCall R) : MemoryHsm p -> R * MemoryHsm p :=
  let instance := memory_hsm p p256_sign getrandom_fill in
  match c with
  | HsmSign key_handle data => hsm_sign key_handle data
  | HsmGetPublicKey key_handle => hsm_get_public_key key_handle
  | HsmGenerateKey spec => hsm_generate_key spec
  | HsmIsFipsValidated => fun h => (is_fips_validated h, h)
  end.

(** The public keys of a module's handles. *)
Abbreviation Keys := (gmap KeyHandle (list byte)).

Section Suite.
Context (p : P256).

(** ** The contract

    A module is the public keys of its handles. A key that is generated is under a handle that is new,
    and its public key is not another's; what is signed with a handle verifies under its key;
    without a key, a handle is not found. *)

Definition hsm_spec (fips : bool) (R : Type) (m : Keys) (c : HsmCall R) : R -> Keys -> Prop :=
  match c with
  | HsmSign handle data => fun r m' => m' = m /\
      match m !! handle with
      | None => r = Err (NotFound handle)
      | Some der => exists bytes v s, r = Ok bytes /\ len bytes = 64 /\ from_public_key_der p der = Some v /\
          sig_from_slice p bytes = Some s /\ p256_verify p v data s = true
      end
  | HsmGetPublicKey handle => fun r m' => m' = m /\
      match m !! handle with
      | None => r = Err (NotFound handle)
      | Some der => r = Ok (public_key_from_spki_der der)
      end
  | HsmGenerateKey _ => fun r m' => exists handle der, r = Ok handle /\ m !! handle = None /\
      is_Some (from_public_key_der p der) /\ (forall handle', m !! handle' <> Some der) /\ m' = <[handle := der]> m
  | HsmIsFipsValidated => fun r m' => r = fips /\ m' = m
  end.

(** No case generates more than two keys. *)
Definition hsm_pre (R : Type) (m : Keys) (c : HsmCall R) : Prop :=
  match c with HsmGenerateKey _ => (size m < 2)%nat | _ => True end.

(** ** What the suite needs of it *)

Section Contract.
Context (fips : bool).
Abbreviation hsm_safe := (safe (hsm_spec fips) hsm_pre).

Lemma safe_generate (m : Keys) (k : KeyHandle -> PublicKey -> HsmTest) :
  (size m < 2)%nat ->
  (forall handle der, m !! handle = None -> is_Some (from_public_key_der p der) -> (forall handle', m !! handle' <> Some der) ->
     hsm_safe (k handle (public_key_from_spki_der der)) (<[handle := der]> m)) ->
  hsm_safe (generate_and_export k) m.
Proof.
  intros Hsize Hk. split; [exact Hsize|]. intros r m' (handle & der & -> & Hn & Hv & Hd & ->). cbn [expect].
  split; [exact I|]. intros r m' [-> Hr]. rewrite lookup_insert_eq in Hr. subst r. by apply Hk.
Qed.

Lemma safe_sign_verifies (m : Keys) handle der message k :
  m !! handle = Some der -> is_Some (from_public_key_der p der) -> hsm_safe k m ->
  hsm_safe (assert_sign_verifies p handle (public_key_from_spki_der der) message k) m.
Proof.
  intros Hm [v Hv] Hk. unfold assert_sign_verifies. cbn [public_spki_der]. rewrite Hv. cbn [expect_some].
  split; [exact I|]. intros r m' [-> Hr]. rewrite Hm in Hr. destruct Hr as (bytes & v' & s & -> & Hl & Hv' & Hs & Hok).
  simplify_eq. cbn [expect]. rewrite Hl. cbn [assert_that Z.eqb]. change (64 =? 64) with true. cbn [assert_that].
  rewrite Hs. cbn [expect_some]. by rewrite Hok.
Qed.

Lemma safe_messages {A} (l : list A) (message : A -> option (list byte)) (m : Keys) handle der :
  m !! handle = Some der -> is_Some (from_public_key_der p der) -> (forall a, is_Some (message a)) ->
  hsm_safe (for_each l (fun a rest =>
    expect_some (message a) (fun message => assert_sign_verifies p handle (public_key_from_spki_der der) message rest)) Passed) m.
Proof.
  intros Hm Hv Hd. induction l as [|a l IH]; [exact I|]. cbn [for_each]. destruct (Hd a) as [bytes ->].
  cbn [expect_some]. by apply safe_sign_verifies.
Qed.

Lemma hsm_suite_safe draw : (forall i, is_Some (draw i)) ->
  Forall (fun t => hsm_safe t ∅) (hsm_suite p fips draw).
Proof.
  intros Hd. assert (size (∅ : Keys) < 2)%nat as Hs0 by (rewrite map_size_empty; lia).
  unfold hsm_suite. repeat (apply List.Forall_cons; [|]); [..|constructor].
  - apply safe_generate; [done|]. intros handle der _ Hv _.
    apply (safe_messages DETERMINISTIC_MESSAGES Some); [by rewrite lookup_insert_eq|done|by eexists].
  - apply safe_generate; [done|]. intros h1 d1 _ Hv1 _. apply safe_generate.
    { rewrite map_size_insert, lookup_empty, map_size_empty. simpl. lia. }
    intros h2 d2 Hn Hv2 Hd2. assert (h1 <> h2) as Hne by (intros ->; by rewrite lookup_insert_eq in Hn).
    assert (d1 <> d2) as Hned by (intros ->; by apply (Hd2 h1); rewrite lookup_insert_eq).
    rewrite (proj2 (String.eqb_neq _ _) Hne). cbn [public_spki_der]. by rewrite bool_decide_eq_false_2 by done.
  - split; [exact I|]. intros r m' [-> Hr]. rewrite lookup_empty in Hr. by subst r.
  - split; [exact I|]. intros r m' [-> Hr]. rewrite lookup_empty in Hr. by subst r.
  - split; [exact I|]. intros r m' [-> ->]. rewrite Bool.eqb_reflx. cbn [assert_that].
    apply safe_generate; [done|]. intros handle der _ Hv _. apply safe_sign_verifies; [by rewrite lookup_insert_eq|done|].
    split; [exact I|]. intros r m' [-> ->]. rewrite Bool.eqb_reflx. exact I.
  - apply safe_generate; [done|]. intros handle der _ Hv _.
    apply (safe_messages _ draw); [by rewrite lookup_insert_eq|done|done].
Qed.
End Contract.
End Suite.

(** ** The in-memory module *)

Section Memory.
Context (p : P256) (Hp : P256_documented p).
Context (p256_sign : P256SigningKey p -> list byte -> P256Signature p).
Context (Hsign : forall k m, p256_verify p (verifying_key p k) m (p256_sign k m) = true).
Context (getrandom_fill : nat -> option (list byte)).

Definition key_der (key : P256SigningKey p) : option (list byte) := to_public_key_der p (verifying_key p key).

(** The random source: its first two draws are keys, and not of one public key. *)
Definition good_source : Prop :=
  (forall n, (n < 2)%nat -> exists bytes key der,
     getrandom_fill n = Some bytes /\ sk_from_slice p bytes = Some key /\ key_der key = Some der) /\
  (forall bytes bytes' key key', getrandom_fill 0 = Some bytes -> getrandom_fill 1 = Some bytes' ->
     sk_from_slice p bytes = Some key -> sk_from_slice p bytes' = Some key' -> key_der key <> key_der key').

(** A key of the source's first [n] draws. *)
Definition drawn_before (n : nat) (key : P256SigningKey p) : Prop :=
  exists i bytes, (i < n)%nat /\ getrandom_fill i = Some bytes /\ sk_from_slice p bytes = Some key.

Record exports (h : MemoryHsm p) (m : Keys) : Prop := {
  exports_handles : handles_allocated p h;
  exports_count : hm_next_id h = Z.of_nat (size m) /\ hm_draws h = size m;
  exports_keys : forall handle, m !! handle = hm_keys h !! handle ≫= key_der;
  exports_drawn : forall handle key, hm_keys h !! handle = Some key -> is_Some (key_der key) /\ drawn_before (hm_draws h) key
}.

Lemma exports_new : exports memory_hsm_new ∅.
Proof. split; [apply handles_allocated_new|by rewrite map_size_empty|done|done]. Qed.

Lemma exports_lookup h m handle der : exports h m -> m !! handle = Some der ->
  exists key, hm_keys h !! handle = Some key /\ key_der key = Some der.
Proof.
  intros [_ _ Hk _] Hm. rewrite Hk in Hm. destruct (hm_keys h !! handle) as [key|]; [|done]. by exists key.
Qed.

Lemma exports_absent h m handle : exports h m -> m !! handle = None -> hm_keys h !! handle = None.
Proof.
  intros [_ _ Hk Hd] Hm. rewrite Hk in Hm. destruct (hm_keys h !! handle) as [key|] eqn:E; [|done].
  destruct (Hd _ _ E) as [[der Hder] _]. cbn in Hm. congruence.
Qed.

(** With such a source the first draw gives the key. *)
Lemma generate_run h : good_source -> (hm_draws h < 2)%nat ->
  exists bytes key der, getrandom_fill (hm_draws h) = Some bytes /\ sk_from_slice p bytes = Some key /\ key_der key = Some der /\
    memory_generate_key p getrandom_fill KeySpecEcdsaP256 h =
      (Ok (memory_handle (hm_next_id h)),
       MkMemoryHsm (<[memory_handle (hm_next_id h) := key]> (hm_keys h)) ((hm_next_id h + 1) mod 2 ^ 64) (S (hm_draws h))).
Proof.
  intros [Hg _] Hlt. destruct (Hg (hm_draws h) Hlt) as (bytes & key & der & Eb & Ek & Ed). exists bytes, key, der.
  split_and!; [done..|]. unfold memory_generate_key, random_signing_key, MAX_ATTEMPTS, bind. cbn [draw_signing_key].
  by rewrite Eb, Ek.
Qed.

Lemma generate_exports h m : good_source -> exports h m -> (size m < 2)%nat ->
  exists handle h' der, memory_generate_key p getrandom_fill KeySpecEcdsaP256 h = (Ok handle, h') /\
    m !! handle = None /\ is_Some (from_public_key_der p der) /\ (forall handle', m !! handle' <> Some der) /\
    exports h' (<[handle := der]> m).
Proof.
  intros Hg He Hsize. pose proof He as [Hok [Hn Hdraws] Hk Hd].
  destruct (generate_run h Hg) as (bytes & key & der & Eb & Ek & Ed & Erun); [lia|].
  destruct (generate_preserves p getrandom_fill h _ _ Hok ltac:(lia) Erun) as (Hok' & Hfree & _).
  assert (m !! memory_handle (hm_next_id h) = None) as Hm by (by rewrite Hk, Hfree).
  eexists _, _, der. split; [exact Erun|]. split; [done|]. split; [|split].
  - eexists. by apply (der_roundtrip p Hp).
  - intros handle' Hm'. destruct (exports_lookup h m handle' der He Hm') as (key' & Hk' & Hd').
    destruct (Hd _ _ Hk') as [_ (i & bytes' & Hi & Eb' & Ek')]. assert (i = 0%nat) as -> by lia.
    assert (hm_draws h = 1%nat) as Eh by lia. rewrite Eh in Eb.
    apply (proj2 Hg _ _ _ _ Eb' Eb Ek' Ek). congruence.
  - split; cbn [hm_keys hm_next_id hm_draws]; [done| | |].
    + rewrite map_size_insert_None by done. rewrite Z.mod_small; lia.
    + intros handle. destruct (decide (memory_handle (hm_next_id h) = handle)) as [<-|Hne].
      * by rewrite !lookup_insert_eq.
      * by rewrite !lookup_insert_ne.
    + intros handle k [[<- <-]|[_ Hl]]%lookup_insert_Some.
      * split; [by exists der|]. exists (hm_draws h), bytes. split; [lia|done].
      * destruct (Hd _ _ Hl) as [? (i & b & Hi & ?)]. split; [done|]. exists i, b. split; [lia|done].
Qed.

Lemma memory_hsm_conforms : good_source ->
  Conforms (exec_step (hsm_exec p p256_sign getrandom_fill)) (hsm_spec p false) hsm_pre exports.
Proof.
  intros Hg. constructor. intros R [handle data|handle|[]|] h m r h' He Hpre E.
  - change (memory_sign p p256_sign handle data h = (r, h')) in E. exists m. destruct (m !! handle) as [der|] eqn:Em.
    + destruct (exports_lookup h m handle der He Em) as (key & Hk & Hd).
      rewrite (memory_sign_held p p256_sign _ _ _ data Hk) in E. injection E as <- <-. split; [|done]. split; [done|]. rewrite Em.
      exists (sig_to_bytes p (p256_sign key data)), (verifying_key p key), (p256_sign key data).
      split_and!; [done|apply (sig_length p Hp)|by apply (der_roundtrip p Hp)|apply (sig_roundtrip p Hp)|apply Hsign].
    + rewrite (memory_sign_absent p p256_sign _ _ data (exports_absent _ _ _ He Em)) in E. injection E as <- <-.
      split; [|done]. split; [done|]. by rewrite Em.
  - change (memory_get_public_key p handle h = (r, h')) in E. exists m. unfold memory_get_public_key, find_key, bind, read_state, lift in E. destruct (m !! handle) as [der|] eqn:Em.
    + destruct (exports_lookup h m handle der He Em) as (key & Hk & Hd). unfold key_der in Hd. rewrite Hk in E.
      cbn [ok_or] in E. rewrite Hd in E. injection E as <- <-. split; [|done]. split; [done|]. by rewrite Em.
    + rewrite (exports_absent _ _ _ He Em) in E. injection E as <- <-. split; [|done]. split; [done|]. by rewrite Em.
  - destruct (generate_exports h m Hg He Hpre) as (handle & h1 & der & E1 & Hn & Hv & Hd & He').
    change (memory_generate_key p getrandom_fill KeySpecEcdsaP256 h = (r, h')) in E. rewrite E1 in E. injection E as <- <-.
    exists (<[handle := der]> m). split; [|done]. exists handle, der. by split_and!.
  - change ((false, h) = (r, h')) in E. injection E as <- <-. by exists m.
Qed.

(** The in-memory module passes: the suite ends, and only so. *)
Theorem memory_passes_hsm_suite draw : good_source -> (forall i, is_Some (draw i)) ->
  let runs := suite_runs (exec_step (hsm_exec p p256_sign getrandom_fill)) (fun h => h = memory_hsm_new) (hsm_suite p false draw) in
  runs true /\ ~ runs false.
Proof.
  intros Hg Hd runs. pose proof (memory_hsm_conforms Hg).
  apply (suite_ends_passing (hsm_exec p p256_sign getrandom_fill) (hsm_spec p false) hsm_pre exports memory_hsm_new (fun m => m = ∅)).
  - exists ∅. split; [done|apply exports_new].
  - apply (List.Forall_impl _ (P := fun t => safe (hsm_spec p false) hsm_pre t ∅)); [by intros t Ht m ->|by apply hsm_suite_safe].
Qed.
End Memory.

(** Every module that keeps the contract, whatever its FIPS posture, passes the suite that expects
    this posture. *)
Theorem hsm_suite_accepts {S : Type} (p : P256) (step : forall R, S -> HsmCall R -> R -> S -> Prop)
    (stands_for : S -> Keys -> Prop) (fresh : S -> Prop) (fips : bool) (draw : nat -> option (list byte)) :
  Conforms step (hsm_spec p fips) hsm_pre stands_for -> (forall s, fresh s -> stands_for s ∅) ->
  (forall i, is_Some (draw i)) -> ~ suite_runs step fresh (hsm_suite p fips draw) false.
Proof.
  intros Hc Hf Hd. apply (suite_passes step (hsm_spec p fips) hsm_pre stands_for fresh (fun m => m = ∅)).
  - intros s Hs. exists ∅. split; [done|by apply Hf].
  - apply (List.Forall_impl _ (P := fun t => safe (hsm_spec p fips) hsm_pre t ∅)); [by intros t Ht m ->|by apply hsm_suite_safe].
Qed.

(** The toy crate and its source. *)
Lemma toy_fill_good : good_source toy_p256 toy_fill.
Proof.
  split.
  - intros n Hn. destruct n as [|[|]]; [..|lia]; eexists _, _, _; split_and!; reflexivity.
  - intros bytes bytes' key key' [= <-] [= <-]. vm_compute. by intros [= <-] [= <-].
Qed.

Lemma hsm_suite_accepts_witness :
  ~ suite_runs (exec_step (hsm_exec toy_p256 toy_p256_sign toy_fill)) (fun h => h = memory_hsm_new)
      (hsm_suite toy_p256 false (fun _ => Some [])) false.
Proof.
  apply (hsm_suite_accepts toy_p256 (exec_step (hsm_exec toy_p256 toy_p256_sign toy_fill)) (exports toy_p256 toy_fill)
    (fun h => h = memory_hsm_new) false (fun _ => Some [])).
  - apply memory_hsm_conforms; [apply toy_p256_documented| |apply toy_fill_good].
    intros k m. apply (sign_verifies toy_p256 toy_p256_documented k m), toy_p256_sign_ok.
  - intros s ->. apply exports_new.
  - intros i. by eexists.
Defined.

(** A source that repeats itself does not pass: the two keys are one. *)
Example repeating_source_fails :
  suite_runs (exec_step (hsm_exec toy_p256 toy_p256_sign (fun _ => toy_fill 0))) (fun h => h = memory_hsm_new)
    (hsm_suite toy_p256 false (fun _ => Some [])) false.
Proof. apply (suite_runs_alone (hsm_exec toy_p256 toy_p256_sign (fun _ => toy_fill 0)) memory_hsm_new (hsm_suite toy_p256 false (fun _ => Some []))). Qed.
