(* ===== verification/AdminModels.v ===== *)
(** * The models of the admin API: [crates/admin-api-server/src/models.rs], [admin-api-client/src/models/]

    The two families of wire types generated from one specification: the server's, with their form
    encoding ([Display], [FromStr]) and their header values, and the client's; and both families'
    JSON. [chrono] is a parameter, and so is the [http] crate's header value.

    What the server writes as JSON the client reads back, and the other way round. The form encoding
    is no such pair: it reads back some models, loses fields of others, and never reads two. *)

From Stdlib Require Import Ascii.
From S2P Require Import Prelude Format ParseInt.

Local Open Scope mtc_scope.
Local Open Scope Z_scope.

(** ** Parameters: [chrono], [http] *)

(** [DateTime<Utc>], [DateTime<FixedOffset>]: the text of their [Serialize] and their [FromStr];
    [to_rfc3339]; the conversion from a [SystemTime], which panics out of range. *)
Record Chrono : Type := MkChrono {
  Utc : Type;
  FixedOffset : Type;
  utc_text : Utc -> string;
  utc_from_str : string -> result Utc string;
  fixed_text : FixedOffset -> string;
  fixed_from_str : string -> result FixedOffset string;
  to_rfc3339 : FixedOffset -> string;
  utc_from_system_time : Z -> option Utc;
  with_utc : FixedOffset -> Utc;
  with_offset_zero : Utc -> FixedOffset
}.

(** RFC 3339 has years of four digits; times in them are read back as they were written, at the
    same instant by the other type. *)
Class ChronoLaws (c : Chrono) : Type := {
  plain : Utc c -> Prop;
  fixed_reads_utc u : plain u -> fixed_from_str c (utc_text c u) = Ok (with_offset_zero c u);
  utc_reads_fixed f : plain (with_utc c f) -> utc_from_str c (fixed_text c f) = Ok (with_utc c f);
  with_utc_offset_zero u : with_utc c (with_offset_zero c u) = u
}.

(** [HeaderValue::from_str], [HeaderValue::to_str]. *)
Record Headers : Type := MkHeaders {
  HeaderValue : Type;
  header_from_str : string -> option HeaderValue;
  header_to_str : HeaderValue -> option string
}.

(** ** The form encoding *)

(** [str::split(c)]. *)
Fixpoint split_char (c : ascii) (s : string) : list string :=
  match s with
  | EmptyString => [EmptyString]
  | String d s' =>
      if decide (d = c) then EmptyString :: split_char c s'
      else match split_char c s' with
           | part :: rest => String d part :: rest
           | [] => [String d EmptyString]
           end
  end.

(** [join(",")]. *)
Fixpoint join_comma (parts : list string) : string :=
  match parts with
  | [] => EmptyString
  | [part] => part
  | part :: rest => part +:+ String ","%char (join_comma rest)
  end.

(** [params.into_iter().flatten().collect::<Vec<_>>().join(",")]. *)
Definition show_params (params : list (option string)) : string := join_comma (flat_map option_list params).

(** The loop of every [from_str]: keys and values alternate. *)
Fixpoint parse_params {Rep} (missing : string) (push : string -> string -> Rep -> result Rep string)
    (parts : list string) (rep : Rep) : result Rep string :=
  match parts with
  | [] => Ok rep
  | [_] => Err missing
  | key :: val :: rest => let? rep' := push key val rep in parse_params missing push rest rep'
  end.

(** [into_iter().next()], [ok_or_else]. *)
Definition required {A} (missing : string) (values : list A) : result A string := ok_or (head values) missing.

(** [i64::from_str], [bool::from_str] with their errors as texts. *)
Definition i64_from_str (s : string) : result Z string := map_err int_error_text (parse_i64 s).
Definition bool_from_str (s : string) : result bool string :=
  if decide (s = "true"%string) then Ok true
  else if decide (s = "false"%string) then Ok false
  else Err "provided string was not `true` or `false`"%string.
Definition bool_to_string (b : bool) : string := if b then "true" else "false".

(** ** The server's models *)

Section Server.
Context (c : Chrono).
Local Open Scope string_scope.

Record CheckpointStatus : Type := MkCheckpointStatus { tree_size : Z; root_hash : string; timestamp : Utc c }.
Record ErrorResponse : Type := MkErrorResponse { code : string; message : string }.
Record HealthzResponse : Type := MkHealthzResponse { hz_status : string }.
Record LeaseStatus : Type := MkLeaseStatus { holder : string; epoch : Z; expires_at : Utc c }.
Record ReadinessCheck : Type := MkReadinessCheck { rc_name : string; rc_ok : bool; detail : option string }.
Record ReadyzResponse : Type := MkReadyzResponse { rz_status : string; checks : list ReadinessCheck }.
Record ServiceInfo : Type := MkServiceInfo {
  si_name : string; si_version : string; si_region : string; started_at : option (Utc c)
}.
Record StatusResponse : Type := MkStatusResponse {
  service : ServiceInfo; lease : option LeaseStatus; checkpoint : option CheckpointStatus
}.

(** [ReadinessCheck::new], [ServiceInfo::new], [StatusResponse::new]: the optional fields are absent. *)
Definition readiness_check_new (name : string) (ok : bool) : ReadinessCheck := MkReadinessCheck name ok None.
Definition service_info_new (name version region : string) : ServiceInfo := MkServiceInfo name version region None.
Definition status_response_new (service : ServiceInfo) : StatusResponse := MkStatusResponse service None None.

(** [Display]. *)
Definition show_checkpoint_status (x : CheckpointStatus) : string :=
  show_params [Some "tree_size"; Some (decimal_i64 (tree_size x)); Some "root_hash"; Some (root_hash x)].
Definition show_error_response (x : ErrorResponse) : string :=
  show_params [Some "code"; Some (code x); Some "message"; Some (message x)].
Definition show_healthz_response (x : HealthzResponse) : string :=
  show_params [Some "status"; Some (hz_status x)].
Definition show_lease_status (x : LeaseStatus) : string :=
  show_params [Some "holder"; Some (holder x); Some "epoch"; Some (decimal_i64 (epoch x))].
Definition show_readiness_check (x : ReadinessCheck) : string :=
  show_params [Some "name"; Some (rc_name x); Some "ok"; Some (bool_to_string (rc_ok x));
               (fun d => join_comma ["detail"; d]) <$> detail x].
Definition show_readyz_response (x : ReadyzResponse) : string :=
  show_params [Some "status"; Some (rz_status x)].
Definition show_service_info (x : ServiceInfo) : string :=
  show_params [Some "name"; Some (si_name x); Some "version"; Some (si_version x); Some "region"; Some (si_region x)].
Definition show_status_response (x : StatusResponse) : string := show_params [].

(** [FromStr]: the intermediate representation of a model collects the values of each key in order, and
    the first of each is kept. *)
Record CheckpointStatusRep : Type := MkCheckpointStatusRep {
  rep_tree_size : list Z; rep_root_hash : list string; rep_timestamp : list (Utc c)
}.
Definition push_checkpoint_status (key val : string) (r : CheckpointStatusRep) : result CheckpointStatusRep string :=
  if decide (key = "tree_size") then
    let? v := i64_from_str val in Ok (MkCheckpointStatusRep (rep_tree_size r ++ [v]) (rep_root_hash r) (rep_timestamp r))
  else if decide (key = "root_hash") then
    Ok (MkCheckpointStatusRep (rep_tree_size r) (rep_root_hash r ++ [val]) (rep_timestamp r))
  else if decide (key = "timestamp") then
    let? v := utc_from_str c val in
    Ok (MkCheckpointStatusRep (rep_tree_size r) (rep_root_hash r) (rep_timestamp r ++ [v]))
  else Err "Unexpected key while parsing CheckpointStatus".
Definition parse_checkpoint_status (s : string) : result CheckpointStatus string :=
  let? r := parse_params "Missing value while parsing CheckpointStatus" push_checkpoint_status (split_char "," s)
              (MkCheckpointStatusRep [] [] []) in
  let? tree_size := required "tree_size missing in CheckpointStatus" (rep_tree_size r) in
  let? root_hash := required "root_hash missing in CheckpointStatus" (rep_root_hash r) in
  let? timestamp := required "timestamp missing in CheckpointStatus" (rep_timestamp r) in
  Ok (MkCheckpointStatus tree_size root_hash timestamp).

Record ErrorResponseRep : Type := MkErrorResponseRep { rep_code : list string; rep_message : list string }.
Definition push_error_response (key val : string) (r : ErrorResponseRep) : result ErrorResponseRep string :=
  if decide (key = "code") then Ok (MkErrorResponseRep (rep_code r ++ [val]) (rep_message r))
  else if decide (key = "message") then Ok (MkErrorResponseRep (rep_code r) (rep_message r ++ [val]))
  else Err "Unexpected key while parsing ErrorResponse".
Definition parse_error_response (s : string) : result ErrorResponse string :=
  let? r := parse_params "Missing value while parsing ErrorResponse" push_error_response (split_char "," s)
              (MkErrorResponseRep [] []) in
  let? code := required "code missing in ErrorResponse" (rep_code r) in
  let? message := required "message missing in ErrorResponse" (rep_message r) in
  Ok (MkErrorResponse code message).

Definition push_healthz_response (key val : string) (r : list string) : result (list string) string :=
  if decide (key = "status") then Ok (r ++ [val])%list else Err "Unexpected key while parsing HealthzResponse".
Definition parse_healthz_response (s : string) : result HealthzResponse string :=
  let? r := parse_params "Missing value while parsing HealthzResponse" push_healthz_response (split_char "," s) [] in
  let? status := required "status missing in HealthzResponse" r in
  Ok (MkHealthzResponse status).

Record LeaseStatusRep : Type := MkLeaseStatusRep {
  rep_holder : list string; rep_epoch : list Z; rep_expires_at : list (Utc c)
}.
Definition push_lease_status (key val : string) (r : LeaseStatusRep) : result LeaseStatusRep string :=
  if decide (key = "holder") then Ok (MkLeaseStatusRep (rep_holder r ++ [val]) (rep_epoch r) (rep_expires_at r))
  else if decide (key = "epoch") then
    let? v := i64_from_str val in Ok (MkLeaseStatusRep (rep_holder r) (rep_epoch r ++ [v]) (rep_expires_at r))
  else if decide (key = "expires_at") then
    let? v := utc_from_str c val in Ok (MkLeaseStatusRep (rep_holder r) (rep_epoch r) (rep_expires_at r ++ [v]))
  else Err "Unexpected key while parsing LeaseStatus".
Definition parse_lease_status (s : string) : result LeaseStatus string :=
  let? r := parse_params "Missing value while parsing LeaseStatus" push_lease_status (split_char "," s)
              (MkLeaseStatusRep [] [] []) in
  let? holder := required "holder missing in LeaseStatus" (rep_holder r) in
  let? epoch := required "epoch missing in LeaseStatus" (rep_epoch r) in
  let? expires_at := required "expires_at missing in LeaseStatus" (rep_expires_at r) in
  Ok (MkLeaseStatus holder epoch expires_at).

Record ReadinessCheckRep : Type := MkReadinessCheckRep {
  rep_name : list string; rep_ok : list bool; rep_detail : list string
}.
Definition push_readiness_check (key val : string) (r : ReadinessCheckRep) : result ReadinessCheckRep string :=
  if decide (key = "name") then Ok (MkReadinessCheckRep (rep_name r ++ [val]) (rep_ok r) (rep_detail r))
  else if decide (key = "ok") then
    let? v := bool_from_str val in Ok (MkReadinessCheckRep (rep_name r) (rep_ok r ++ [v]) (rep_detail r))
  else if decide (key = "detail") then Ok (MkReadinessCheckRep (rep_name r) (rep_ok r) (rep_detail r ++ [val]))
  else Err "Unexpected key while parsing ReadinessCheck".
Definition parse_readiness_check (s : string) : result ReadinessCheck string :=
  let? r := parse_params "Missing value while parsing ReadinessCheck" push_readiness_check (split_char "," s)
              (MkReadinessCheckRep [] [] []) in
  let? name := required "name missing in ReadinessCheck" (rep_name r) in
  let? ok := required "ok missing in ReadinessCheck" (rep_ok r) in
  Ok (MkReadinessCheck name ok (head (rep_detail r))).

Record ReadyzResponseRep : Type := MkReadyzResponseRep {
  rep_status : list string; rep_checks : list (list ReadinessCheck)
}.
Definition push_readyz_response (key val : string) (r : ReadyzResponseRep) : result ReadyzResponseRep string :=
  if decide (key = "status") then Ok (MkReadyzResponseRep (rep_status r ++ [val]) (rep_checks r))
  else if decide (key = "checks") then
    Err "Parsing a container in this style is not supported in ReadyzResponse"
  else Err "Unexpected key while parsing ReadyzResponse".
Definition parse_readyz_response (s : string) : result ReadyzResponse string :=
  let? r := parse_params "Missing value while parsing ReadyzResponse" push_readyz_response (split_char "," s)
              (MkReadyzResponseRep [] []) in
  let? status := required "status missing in ReadyzResponse" (rep_status r) in
  let? checks := required "checks missing in ReadyzResponse" (rep_checks r) in
  Ok (MkReadyzResponse status checks).

Record ServiceInfoRep : Type := MkServiceInfoRep {
  rep_si_name : list string; rep_si_version : list string; rep_si_region : list string; rep_started_at : list (Utc c)
}.
Definition push_service_info (key val : string) (r : ServiceInfoRep) : result ServiceInfoRep string :=
  if decide (key = "name") then
    Ok (MkServiceInfoRep (rep_si_name r ++ [val]) (rep_si_version r) (rep_si_region r) (rep_started_at r))
  else if decide (key = "version") then
    Ok (MkServiceInfoRep (rep_si_name r) (rep_si_version r ++ [val]) (rep_si_region r) (rep_started_at r))
  else if decide (key = "region") then
    Ok (MkServiceInfoRep (rep_si_name r) (rep_si_version r) (rep_si_region r ++ [val]) (rep_started_at r))
  else if decide (key = "started_at") then
    let? v := utc_from_str c val in
    Ok (MkServiceInfoRep (rep_si_name r) (rep_si_version r) (rep_si_region r) (rep_started_at r ++ [v]))
  else Err "Unexpected key while parsing ServiceInfo".
Definition parse_service_info (s : string) : result ServiceInfo string :=
  let? r := parse_params "Missing value while parsing ServiceInfo" push_service_info (split_char "," s)
              (MkServiceInfoRep [] [] [] []) in
  let? name := required "name missing in ServiceInfo" (rep_si_name r) in
  let? version := required "version missing in ServiceInfo" (rep_si_version r) in
  let? region := required "region missing in ServiceInfo" (rep_si_region r) in
  Ok (MkServiceInfo name version region (head (rep_started_at r))).

Record StatusResponseRep : Type := MkStatusResponseRep {
  rep_service : list ServiceInfo; rep_lease : list LeaseStatus; rep_checkpoint : list CheckpointStatus
}.
Definition push_status_response (key val : string) (r : StatusResponseRep) : result StatusResponseRep string :=
  if decide (key = "service") then
    let? v := parse_service_info val in
    Ok (MkStatusResponseRep (rep_service r ++ [v]) (rep_lease r) (rep_checkpoint r))
  else if decide (key = "lease") then
    let? v := parse_lease_status val in
    Ok (MkStatusResponseRep (rep_service r) (rep_lease r ++ [v]) (rep_checkpoint r))
  else if decide (key = "checkpoint") then
    let? v := parse_checkpoint_status val in
    Ok (MkStatusResponseRep (rep_service r) (rep_lease r) (rep_checkpoint r ++ [v]))
  else Err "Unexpected key while parsing StatusResponse".
Definition parse_status_response (s : string) : result StatusResponse string :=
  let? r := parse_params "Missing value while parsing StatusResponse" push_status_response (split_char "," s)
              (MkStatusResponseRep [] [] []) in
  let? service := required "service missing in StatusResponse" (rep_service r) in
  Ok (MkStatusResponse service (head (rep_lease r)) (head (rep_checkpoint r))).

(** [TryFrom] between a model and a header value; the error's text is the model's name and the text that
    could not be converted. *)
Inductive HeaderError : Type :=
| InvalidHeaderValue (model hdr_value : string)
| UnableToConvert (model hdr_value err : string)
| NotAString (model : string).

Section HeaderValues.
Context (h : Headers).

Definition to_header {A} (model : string) (show : A -> string) (x : A) : result (HeaderValue h) HeaderError :=
  let hdr_value := show x in
  ok_or (header_from_str h hdr_value) (InvalidHeaderValue model hdr_value).
Definition of_header {A} (model : string) (parse : string -> result A string) (hdr_value : HeaderValue h) :
    result A HeaderError :=
  match header_to_str h hdr_value with
  | Some value => map_err (UnableToConvert model value) (parse value)
  | None => Err (NotAString model)
  end.

Definition checkpoint_status_to_header := to_header "CheckpointStatus" show_checkpoint_status.
Definition checkpoint_status_of_header := of_header "CheckpointStatus" parse_checkpoint_status.
Definition error_response_to_header := to_header "ErrorResponse" show_error_response.
Definition error_response_of_header := of_header "ErrorResponse" parse_error_response.
Definition healthz_response_to_header := to_header "HealthzResponse" show_healthz_response.
Definition healthz_response_of_header := of_header "HealthzResponse" parse_healthz_response.
Definition lease_status_to_header := to_header "LeaseStatus" show_lease_status.
Definition lease_status_of_header := of_header "LeaseStatus" parse_lease_status.
Definition readiness_check_to_header := to_header "ReadinessCheck" show_readiness_check.
Definition readiness_check_of_header := of_header "ReadinessCheck" parse_readiness_check.
Definition readyz_response_to_header := to_header "ReadyzResponse" show_readyz_response.
Definition readyz_response_of_header := of_header "ReadyzResponse" parse_readyz_response.
Definition service_info_to_header := to_header "ServiceInfo" show_service_info.
Definition service_info_of_header := of_header "ServiceInfo" parse_service_info.
Definition status_response_to_header := to_header "StatusResponse" show_status_response.
Definition status_response_of_header := of_header "StatusResponse" parse_status_response.
End HeaderValues.
End Server.

(** ** JSON documents

    What [serde_json] writes a value as, and what a derived [Deserialize] sees of a text: members
    keep their order, and a repeated one is seen twice. *)

Inductive JsonDoc : Type :=
| DNull
| DBool (b : bool)
| DInt (z : Z)
| DFloat
| DString (s : string)
| DArray (values : list JsonDoc)
| DObject (members : list (string * JsonDoc)).

(** The levels of nesting, of which [serde_json] reads less than 128. *)
Fixpoint depth (d : JsonDoc) : nat :=
  match d with
  | DArray values => S (list_max (map depth values))
  | DObject members => S (list_max (map (fun m => depth m.2) members))
  | _ => 0%nat
  end.

(** The members of one name. *)
Definition members_named (name : string) (members : list (string * JsonDoc)) : list JsonDoc :=
  snd <$> List.filter (fun m => String.eqb m.1 name) members.

(** The fields of a derived struct: from an object, each at most once, others ignored; from an array, in
    order and all of them. *)
Definition fields (names : list string) (d : JsonDoc) : option (list (option JsonDoc)) :=
  match d with
  | DObject members =>
      mapM (fun name => match members_named name members with
                        | [] => Some None
                        | [v] => Some (Some v)
                        | _ => None
                        end) names
  | DArray values => if decide (length values = length names) then Some (Some <$> values) else None
  | _ => None
  end.

Definition take_string (field : option JsonDoc) : option string :=
  match field with Some (DString s) => Some s | _ => None end.
Definition take_bool (field : option JsonDoc) : option bool :=
  match field with Some (DBool b) => Some b | _ => None end.
Definition take_i64 (field : option JsonDoc) : option Z :=
  match field with Some (DInt z) => i64_checked z | _ => None end.
Definition take_with {A} (read : JsonDoc -> option A) (field : option JsonDoc) : option A :=
  match field with Some d => read d | None => None end.
(** [Option<T>]: an absent field and [null] are [None]. *)
Definition take_option {A} (take : option JsonDoc -> option A) (field : option JsonDoc) : option (option A) :=
  match field with None | Some DNull => Some None | Some d => Some <$> take (Some d) end.
Definition take_vec {A} (read : JsonDoc -> option A) (field : option JsonDoc) : option (list A) :=
  match field with Some (DArray values) => mapM read values | _ => None end.
(** A [DateTime] from its text. *)
Definition take_time {A} (parse : string -> result A string) (field : option JsonDoc) : option A :=
  s ← take_string field; ok (parse s).
(** An enum of unit variants, by its name or as an object of it and [null]. *)
Definition take_variant {A} (variants : list (string * A)) (field : option JsonDoc) : option A :=
  name ← match field with
         | Some (DString s) | Some (DObject [(s, DNull)]) => Some s
         | _ => None
         end;
  snd <$> List.find (fun v => String.eqb v.1 name) variants.

(** [skip_serializing_if = "Option::is_none"]. *)
Definition optional_member {A} (name : string) (write : A -> JsonDoc) (x : option A) : list (string * JsonDoc) :=
  match x with Some a => [(name, write a)] | None => [] end.

Section Json.
Context (c : Chrono).
Local Open Scope string_scope.

(** *** The server's [Serialize] *)

Definition utc_json (t : Utc c) : JsonDoc := DString (utc_text c t).
Definition checkpoint_status_json (x : CheckpointStatus c) : JsonDoc :=
  DObject [("tree_size", DInt (tree_size c x)); ("root_hash", DString (root_hash c x));
           ("timestamp", utc_json (timestamp c x))].
Definition error_response_json (x : ErrorResponse) : JsonDoc :=
  DObject [("code", DString (code x)); ("message", DString (message x))].
Definition healthz_response_json (x : HealthzResponse) : JsonDoc := DObject [("status", DString (hz_status x))].
Definition lease_status_json (x : LeaseStatus c) : JsonDoc :=
  DObject [("holder", DString (holder c x)); ("epoch", DInt (epoch c x)); ("expires_at", utc_json (expires_at c x))].
Definition readiness_check_json (x : ReadinessCheck) : JsonDoc :=
  DObject ([("name", DString (rc_name x)); ("ok", DBool (rc_ok x))] ++ optional_member "detail" DString (detail x))%list.
Definition readyz_response_json (x : ReadyzResponse) : JsonDoc :=
  DObject [("status", DString (rz_status x)); ("checks", DArray (readiness_check_json <$> checks x))].
Definition service_info_json (x : ServiceInfo c) : JsonDoc :=
  DObject ([("name", DString (si_name c x)); ("version", DString (si_version c x)); ("region", DString (si_region c x))]
           ++ optional_member "started_at" utc_json (started_at c x))%list.
Definition status_response_json (x : StatusResponse c) : JsonDoc :=
  DObject ([("service", service_info_json (service c x))]
           ++ optional_member "lease" lease_status_json (lease c x)
           ++ optional_member "checkpoint" checkpoint_status_json (checkpoint c x))%list.

(** *** The client's models *)

Record ClientCheckpointStatus : Type := MkClientCheckpointStatus {
  c_tree_size : Z; c_root_hash : string; c_timestamp : FixedOffset c
}.
Record ClientErrorResponse : Type := MkClientErrorResponse { c_code : string; c_message : string }.
(** [healthz_response::Status], [readyz_response::Status]. *)
Inductive HealthzStatus : Type := StatusOk.
Inductive ReadyzStatus : Type := Ready | NotReady.
Record ClientHealthzResponse : Type := MkClientHealthzResponse { c_hz_status : HealthzStatus }.
Record ClientLeaseStatus : Type := MkClientLeaseStatus {
  c_holder : string; c_epoch : Z; c_expires_at : FixedOffset c
}.
Record ClientReadinessCheck : Type := MkClientReadinessCheck {
  c_name : string; c_ok : bool; c_detail : option string
}.
Record ClientReadyzResponse : Type := MkClientReadyzResponse {
  c_rz_status : ReadyzStatus; c_checks : list ClientReadinessCheck
}.
Record ClientServiceInfo : Type := MkClientServiceInfo {
  c_si_name : string; c_si_version : string; c_si_region : string; c_started_at : option (FixedOffset c)
}.
Record ClientStatusResponse : Type := MkClientStatusResponse {
  c_service : ClientServiceInfo; c_lease : option ClientLeaseStatus; c_checkpoint : option ClientCheckpointStatus
}.

Definition healthz_variants : list (string * HealthzStatus) := [("ok", StatusOk)].
Definition readyz_variants : list (string * ReadyzStatus) := [("ready", Ready); ("not_ready", NotReady)].

(** [Deserialize]. *)
Definition read_checkpoint_status (d : JsonDoc) : option ClientCheckpointStatus :=
  match fields ["tree_size"; "root_hash"; "timestamp"] d with
  | Some [a; b; t] =>
      tree_size ← take_i64 a; root_hash ← take_string b; timestamp ← take_time (fixed_from_str c) t;
      Some (MkClientCheckpointStatus tree_size root_hash timestamp)
  | _ => None
  end.
Definition read_error_response (d : JsonDoc) : option ClientErrorResponse :=
  match fields ["code"; "message"] d with
  | Some [a; b] => code ← take_string a; message ← take_string b; Some (MkClientErrorResponse code message)
  | _ => None
  end.
Definition read_healthz_response (d : JsonDoc) : option ClientHealthzResponse :=
  match fields ["status"] d with
  | Some [a] => status ← take_variant healthz_variants a; Some (MkClientHealthzResponse status)
  | _ => None
  end.
Definition read_lease_status (d : JsonDoc) : option ClientLeaseStatus :=
  match fields ["holder"; "epoch"; "expires_at"] d with
  | Some [a; b; t] =>
      holder ← take_string a; epoch ← take_i64 b; expires_at ← take_time (fixed_from_str c) t;
      Some (MkClientLeaseStatus holder epoch expires_at)
  | _ => None
  end.
Definition read_readiness_check (d : JsonDoc) : option ClientReadinessCheck :=
  match fields ["name"; "ok"; "detail"] d with
  | Some [a; b; e] =>
      name ← take_string a; ok ← take_bool b; detail ← take_option take_string e;
      Some (MkClientReadinessCheck name ok detail)
  | _ => None
  end.
Definition read_readyz_response (d : JsonDoc) : option ClientReadyzResponse :=
  match fields ["status"; "checks"] d with
  | Some [a; b] =>
      status ← take_variant readyz_variants a; checks ← take_vec read_readiness_check b;
      Some (MkClientReadyzResponse status checks)
  | _ => None
  end.
Definition read_service_info (d : JsonDoc) : option ClientServiceInfo :=
  match fields ["name"; "version"; "region"; "started_at"] d with
  | Some [a; b; e; t] =>
      name ← take_string a; version ← take_string b; region ← take_string e;
      started_at ← take_option (take_time (fixed_from_str c)) t;
      Some (MkClientServiceInfo name version region started_at)
  | _ => None
  end.
Definition read_status_response (d : JsonDoc) : option ClientStatusResponse :=
  match fields ["service"; "lease"; "checkpoint"] d with
  | Some [a; b; e] =>
      service ← take_with read_service_info a; lease ← take_option (take_with read_lease_status) b;
      checkpoint ← take_option (take_with read_checkpoint_status) e;
      Some (MkClientStatusResponse service lease checkpoint)
  | _ => None
  end.

(** *** The client's [Serialize] and the server's [Deserialize] of a status *)

Definition fixed_json (t : FixedOffset c) : JsonDoc := DString (fixed_text c t).
Definition client_checkpoint_status_json (x : ClientCheckpointStatus) : JsonDoc :=
  DObject [("tree_size", DInt (c_tree_size x)); ("root_hash", DString (c_root_hash x));
           ("timestamp", fixed_json (c_timestamp x))].
Definition client_lease_status_json (x : ClientLeaseStatus) : JsonDoc :=
  DObject [("holder", DString (c_holder x)); ("epoch", DInt (c_epoch x)); ("expires_at", fixed_json (c_expires_at x))].
Definition client_service_info_json (x : ClientServiceInfo) : JsonDoc :=
  DObject ([("name", DString (c_si_name x)); ("version", DString (c_si_version x)); ("region", DString (c_si_region x))]
           ++ optional_member "started_at" fixed_json (c_started_at x))%list.
Definition client_status_response_json (x : ClientStatusResponse) : JsonDoc :=
  DObject ([("service", client_service_info_json (c_service x))]
           ++ optional_member "lease" client_lease_status_json (c_lease x)
           ++ optional_member "checkpoint" client_checkpoint_status_json (c_checkpoint x))%list.

Definition server_read_checkpoint_status (d : JsonDoc) : option (CheckpointStatus c) :=
  match fields ["tree_size"; "root_hash"; "timestamp"] d with
  | Some [a; b; t] =>
      tree_size ← take_i64 a; root_hash ← take_string b; timestamp ← take_time (utc_from_str c) t;
      Some (MkCheckpointStatus c tree_size root_hash timestamp)
  | _ => None
  end.
Definition server_read_lease_status (d : JsonDoc) : option (LeaseStatus c) :=
  match fields ["holder"; "epoch"; "expires_at"] d with
  | Some [a; b; t] =>
      holder ← take_string a; epoch ← take_i64 b; expires_at ← take_time (utc_from_str c) t;
      Some (MkLeaseStatus c holder epoch expires_at)
  | _ => None
  end.
Definition server_read_service_info (d : JsonDoc) : option (ServiceInfo c) :=
  match fields ["name"; "version"; "region"; "started_at"] d with
  | Some [a; b; e; t] =>
      name ← take_string a; version ← take_string b; region ← take_string e;
      started_at ← take_option (take_time (utc_from_str c)) t;
      Some (MkServiceInfo c name version region started_at)
  | _ => None
  end.
Definition server_read_status_response (d : JsonDoc) : option (StatusResponse c) :=
  match fields ["service"; "lease"; "checkpoint"] d with
  | Some [a; b; e] =>
      service ← take_with server_read_service_info a; lease ← take_option (take_with server_read_lease_status) b;
      checkpoint ← take_option (take_with server_read_checkpoint_status) e;
      Some (MkStatusResponse c service lease checkpoint)
  | _ => None
  end.
End Json.

(** ** The form encoding: what is read back *)

Lemma split_char_avoids c s : avoids c s -> split_char c s = [s].
Proof.
  induction s as [|d s IH]; simpl; [done|]. intros [Hd Hs]. by rewrite decide_False, (IH Hs).
Qed.

Lemma split_char_app c a s : avoids c a -> split_char c (a +:+ String c s) = a :: split_char c s.
Proof.
  induction a as [|d a IH]; simpl; [by rewrite decide_True|]. intros [Hd Ha].
  by rewrite decide_False, (IH Ha).
Qed.

Lemma split_char_nonempty c s : split_char c s <> [].
Proof. destruct s; simpl; [done|]. case_decide; [done|]. by case_match. Qed.

Lemma split_join parts :
  parts <> [] -> Forall (avoids ","%char) parts -> split_char ","%char (join_comma parts) = parts.
Proof.
  intros Hne H. induction H as [|part rest Hp Hr IH]; [done|].
  destruct rest as [|next rest]; [by apply split_char_avoids|].
  change (join_comma (part :: next :: rest)) with (part +:+ String ","%char (join_comma (next :: rest))).
  rewrite split_char_app by done. by rewrite IH.
Qed.

Lemma split_char_parts c s : Forall (avoids c) (split_char c s).
Proof.
  induction s as [|d s IH]; simpl; [by repeat constructor|].
  case_decide; [by constructor|]. destruct (split_char c s); [by repeat constructor|].
  inversion IH; subst. by repeat constructor.
Qed.

Lemma avoids_decimal_i64 z : avoids ","%char (decimal_i64 z).
Proof. by apply decimal_i64_avoids. Qed.

Lemma avoids_bool b : avoids ","%char (bool_to_string b).
Proof. by destruct b; repeat split. Qed.

#[local] Hint Resolve avoids_decimal_i64 avoids_bool : core.
#[local] Arguments i64_from_str : simpl never.
#[local] Arguments decimal_i64 : simpl never.

Lemma i64_from_str_decimal z : in_i64 z -> i64_from_str (decimal_i64 z) = Ok z.
Proof. intros Hz. unfold i64_from_str. by rewrite parse_i64_decimal. Qed.

Lemma bool_from_str_to_string b : bool_from_str (bool_to_string b) = Ok b.
Proof. by destruct b. Qed.

(** The text of a model is split into its keys and values. *)
Ltac split_shown :=
  rewrite split_join by (try done; repeat constructor; auto; by repeat split).

Section Forms.
Context (c : Chrono).

(** A value without a separator is no model: a status cannot be read from a form. *)
Lemma parse_params_single {Rep} missing (push : string -> string -> Rep -> result Rep string) s rep :
  avoids ","%char s -> parse_params missing push (split_char ","%char s) rep = Err missing.
Proof. intros Hs. by rewrite split_char_avoids. Qed.

Lemma push_status_response_service key val r r' :
  avoids ","%char val -> push_status_response c key val r = Ok r' -> rep_service c r' = rep_service c r.
Proof.
  intros Hv. unfold push_status_response, parse_service_info, parse_lease_status, parse_checkpoint_status.
  rewrite !parse_params_single by done. by repeat case_decide.
Qed.

Lemma parse_params_service parts : forall r r',
  Forall (avoids ","%char) parts ->
  parse_params "Missing value while parsing StatusResponse" (push_status_response c) parts r = Ok r' ->
  rep_service c r' = rep_service c r.
Proof.
  induction parts as [parts IH] using (induction_ltof1 _ (@length string)).
  destruct parts as [|key [|val rest]]; intros r r' Hp; simpl; [by intros [= ->]|done|].
  inversion Hp as [|? ? _ Hp']; subst. inversion Hp' as [|? ? Hv Hr]; subst.
  destruct (push_status_response c key val r) as [r1|e] eqn:E; [|done]. intros H.
  rewrite (IH rest ltac:(unfold ltof; simpl; lia) r1 r' Hr H). by apply (push_status_response_service key val).
Qed.

(** The form encoding of the server's models, on texts without commas: an error, a liveness answer
    and a readiness check are read back as they were; a service is read back without its start; a
    checkpoint, a lease and a readiness answer are refused, because their encoding omits a field
    their parser requires; and no text at all is read as a status, whose parts would need commas. *)
Theorem form_roundtrip :
  (forall x : ErrorResponse, avoids ","%char (code x) -> avoids ","%char (message x) ->
     parse_error_response (show_error_response x) = Ok x) /\
  (forall x : HealthzResponse, avoids ","%char (hz_status x) ->
     parse_healthz_response (show_healthz_response x) = Ok x) /\
  (forall x : ReadinessCheck, avoids ","%char (rc_name x) -> (forall d, detail x = Some d -> avoids ","%char d) ->
     parse_readiness_check (show_readiness_check x) = Ok x) /\
  (forall x : ServiceInfo c, avoids ","%char (si_name c x) -> avoids ","%char (si_version c x) ->
     avoids ","%char (si_region c x) ->
     parse_service_info c (show_service_info c x) =
       Ok (service_info_new c (si_name c x) (si_version c x) (si_region c x))) /\
  (forall x : CheckpointStatus c, in_i64 (tree_size c x) -> avoids ","%char (root_hash c x) ->
     parse_checkpoint_status c (show_checkpoint_status c x) = Err "timestamp missing in CheckpointStatus"%string) /\
  (forall x : LeaseStatus c, in_i64 (epoch c x) -> avoids ","%char (holder c x) ->
     parse_lease_status c (show_lease_status c x) = Err "expires_at missing in LeaseStatus"%string) /\
  (forall x : ReadyzResponse, avoids ","%char (rz_status x) ->
     parse_readyz_response (show_readyz_response x) = Err "checks missing in ReadyzResponse"%string) /\
  (forall s, exists e, parse_status_response c s = Err e).
Proof.
  split_and!.
  - intros [a b] Ha Hb. unfold parse_error_response, show_error_response, show_params. simpl flat_map.
    by split_shown.
  - intros [a] Ha. unfold parse_healthz_response, show_healthz_response, show_params. simpl flat_map.
    by split_shown.
  - intros [a b [d|]] Ha Hd; unfold parse_readiness_check, show_readiness_check, show_params; simpl flat_map; simpl in Ha, Hd.
    + change (join_comma _) with (join_comma ["name"; a; "ok"; bool_to_string b; "detail"; d]%string).
      specialize (Hd d eq_refl). split_shown. by destruct b.
    + split_shown. by destruct b.
  - intros [a b d t] Ha Hb Hd. unfold parse_service_info, show_service_info, show_params. simpl flat_map.
    by split_shown.
  - intros [n r t] Hn Hr. unfold parse_checkpoint_status, show_checkpoint_status, show_params. simpl flat_map.
    split_shown. cbn [parse_params]. unfold push_checkpoint_status at 1. rewrite decide_True by done.
    by rewrite i64_from_str_decimal.
  - intros [h n t] Hn Hh. unfold parse_lease_status, show_lease_status, show_params. simpl flat_map.
    split_shown. cbn [parse_params]. unfold push_lease_status at 1. rewrite decide_True by done.
    unfold push_lease_status at 1. rewrite decide_False, decide_True by done. by rewrite i64_from_str_decimal.
  - intros [a ch] Ha. unfold parse_readyz_response, show_readyz_response, show_params. simpl flat_map.
    by split_shown.
  - intros s. unfold parse_status_response.
    destruct (parse_params _ _ _ _) as [r|e] eqn:E; [|by exists e].
    rewrite (parse_params_service _ _ _ (split_char_parts _ _) E). simpl. by eexists.
Qed.
End Forms.

(** ** JSON: what the other side reads *)

Section Wire.
Context (c : Chrono) {laws : ChronoLaws c}.
Local Open Scope string_scope.

(** The client's value of a server's. *)
Definition client_checkpoint_status (x : CheckpointStatus c) : ClientCheckpointStatus c :=
  MkClientCheckpointStatus c (tree_size c x) (root_hash c x) (with_offset_zero c (timestamp c x)).
Definition client_lease_status (x : LeaseStatus c) : ClientLeaseStatus c :=
  MkClientLeaseStatus c (holder c x) (epoch c x) (with_offset_zero c (expires_at c x)).
Definition client_readiness_check (x : ReadinessCheck) : ClientReadinessCheck :=
  MkClientReadinessCheck (rc_name x) (rc_ok x) (detail x).
Definition client_service_info (x : ServiceInfo c) : ClientServiceInfo c :=
  MkClientServiceInfo c (si_name c x) (si_version c x) (si_region c x) (with_offset_zero c <$> started_at c x).
Definition client_status_response (x : StatusResponse c) : ClientStatusResponse c :=
  MkClientStatusResponse c (client_service_info (service c x)) (client_lease_status <$> lease c x)
    (client_checkpoint_status <$> checkpoint c x).

(** The values that have a wire form: numbers of an [i64], times with a year of four digits. *)
Definition checkpoint_status_ok (x : CheckpointStatus c) : Prop := in_i64 (tree_size c x) /\ plain (timestamp c x).
Definition lease_status_ok (x : LeaseStatus c) : Prop := in_i64 (epoch c x) /\ plain (expires_at c x).
Definition service_info_ok (x : ServiceInfo c) : Prop := forall t, started_at c x = Some t -> plain t.
Definition status_response_ok (x : StatusResponse c) : Prop :=
  service_info_ok (service c x) /\ (forall l, lease c x = Some l -> lease_status_ok l) /\
  (forall k, checkpoint c x = Some k -> checkpoint_status_ok k).

Lemma read_readiness_check_json x :
  read_readiness_check (readiness_check_json x) = Some (client_readiness_check x).
Proof. by destruct x as [n o [d|]]. Qed.

Lemma read_readiness_checks_json l :
  mapM read_readiness_check (readiness_check_json <$> l) = Some (client_readiness_check <$> l).
Proof.
  apply mapM_Some_2. induction l as [|x l IH]; constructor; [apply read_readiness_check_json|done].
Qed.

(** A readiness answer's status is one the client knows. *)
Lemma read_readyz_response_json x s :
  take_variant readyz_variants (Some (DString (rz_status x))) = Some s ->
  read_readyz_response (readyz_response_json x) =
    Some (MkClientReadyzResponse s (client_readiness_check <$> checks x)).
Proof.
  intros Hs. unfold read_readyz_response, readyz_response_json. cbn [fields members_named].
  change (take_variant readyz_variants (Some (DString (rz_status x))) ≫= (fun status =>
    take_vec read_readiness_check (Some (DArray (readiness_check_json <$> checks x))) ≫= (fun checks =>
    Some (MkClientReadyzResponse status checks))) = Some (MkClientReadyzResponse s (client_readiness_check <$> checks x))).
  rewrite Hs. simpl. by rewrite read_readiness_checks_json.
Qed.

Lemma read_lease_status_json x :
  lease_status_ok x -> read_lease_status c (lease_status_json c x) = Some (client_lease_status x).
Proof.
  destruct x as [h n t]. intros [Hn Ht]. simpl in *. unfold read_lease_status. cbn.
  unfold take_time. cbn. by rewrite i64_checked_Some, fixed_reads_utc.
Qed.

Lemma read_checkpoint_status_json x :
  checkpoint_status_ok x -> read_checkpoint_status c (checkpoint_status_json c x) = Some (client_checkpoint_status x).
Proof.
  destruct x as [n h t]. intros [Hn Ht]. simpl in *. unfold read_checkpoint_status. cbn.
  unfold take_time. cbn. by rewrite i64_checked_Some, fixed_reads_utc.
Qed.

Lemma read_service_info_json x :
  service_info_ok x -> read_service_info c (service_info_json c x) = Some (client_service_info x).
Proof.
  destruct x as [n v r [t|]]; intros Ht; [|done]. unfold read_service_info. cbn.
  unfold take_time. cbn. by rewrite (fixed_reads_utc t (Ht t eq_refl)).
Qed.

Lemma read_status_response_json x :
  status_response_ok x -> read_status_response c (status_response_json c x) = Some (client_status_response x).
Proof.
  destruct x as [s l k]. intros (Hs & Hl & Hk). simpl in *.
  pose proof (read_service_info_json s Hs) as Es.
  destruct l as [l|], k as [k|]; unfold read_status_response; cbn -[read_service_info service_info_json
    read_lease_status lease_status_json read_checkpoint_status checkpoint_status_json]; rewrite Es; cbn -[read_service_info service_info_json
    read_lease_status lease_status_json read_checkpoint_status checkpoint_status_json];
    try (rewrite (read_lease_status_json l (Hl l eq_refl)); cbn -[read_checkpoint_status checkpoint_status_json]);
    try (rewrite (read_checkpoint_status_json k (Hk k eq_refl))); done.
Qed.

(** Back: the server reads what the client writes. *)
Lemma server_reads_time t : plain t -> utc_from_str c (fixed_text c (with_offset_zero c t)) = Ok t.
Proof. intros Ht. rewrite utc_reads_fixed, with_utc_offset_zero; rewrite ?with_utc_offset_zero; done. Qed.

Lemma server_reads_lease x :
  lease_status_ok x -> server_read_lease_status c (client_lease_status_json c (client_lease_status x)) = Some x.
Proof.
  destruct x as [h n t]. intros [Hn Ht]. simpl in *. unfold server_read_lease_status. cbn.
  unfold take_time. cbn. by rewrite i64_checked_Some, server_reads_time.
Qed.

Lemma server_reads_checkpoint x :
  checkpoint_status_ok x ->
  server_read_checkpoint_status c (client_checkpoint_status_json c (client_checkpoint_status x)) = Some x.
Proof.
  destruct x as [n h t]. intros [Hn Ht]. simpl in *. unfold server_read_checkpoint_status. cbn.
  unfold take_time. cbn. by rewrite i64_checked_Some, server_reads_time.
Qed.

Lemma server_reads_service x :
  service_info_ok x -> server_read_service_info c (client_service_info_json c (client_service_info x)) = Some x.
Proof.
  destruct x as [n v r [t|]]; intros Ht; [|done]. unfold server_read_service_info. cbn.
  unfold take_time. cbn. by rewrite (server_reads_time t (Ht t eq_refl)).
Qed.

(** The two families of generated models agree on the wire: a status the server writes is read by
    the client as the same status, its times with the offset zero, absent parts absent; and what the
    client writes of it the server reads as the status it was. *)
Theorem status_wire_roundtrip x :
  status_response_ok x ->
  read_status_response c (status_response_json c x) = Some (client_status_response x) /\
  server_read_status_response c (client_status_response_json c (client_status_response x)) = Some x.
Proof.
  intros Hx. split; [by apply read_status_response_json|]. destruct x as [s l k].
  destruct Hx as (Hs & Hl & Hk). simpl in *. pose proof (server_reads_service s Hs) as Es.
  destruct l as [l|], k as [k|]; unfold server_read_status_response;
    cbn -[server_read_service_info client_service_info_json server_read_lease_status client_lease_status_json
      server_read_checkpoint_status client_checkpoint_status_json]; rewrite Es;
    cbn -[server_read_lease_status client_lease_status_json server_read_checkpoint_status client_checkpoint_status_json];
    try (rewrite (server_reads_lease l (Hl l eq_refl));
         cbn -[server_read_checkpoint_status client_checkpoint_status_json]);
    try (rewrite (server_reads_checkpoint k (Hk k eq_refl))); done.
Qed.
End Wire.

(** ** A calendar that runs: instants as their decimal seconds *)

Definition toy_parse (s : string) : result Z string := map_err int_error_text (parse_uint 64 s).
Definition toy_chrono : Chrono :=
  MkChrono Z Z decimal toy_parse decimal toy_parse decimal (fun t => Some (t / 10 ^ 9)) (fun f => f) (fun u => u).
#[export] Instance toy_chrono_laws : ChronoLaws toy_chrono.
Proof.
  apply (Build_ChronoLaws toy_chrono in_u64); simpl; [intros u Hu..|done]; unfold toy_parse;
    by rewrite parse_uint_decimal.
Defined.

Definition toy_status : StatusResponse toy_chrono :=
  MkStatusResponse toy_chrono (MkServiceInfo toy_chrono "mtc-ca" "0.1.0" "us-east-1" (Some 12))
    (Some (MkLeaseStatus toy_chrono "us-east-1" 42 17)) None.

Lemma status_wire_roundtrip_witness :
  read_status_response toy_chrono (status_response_json toy_chrono toy_status) =
    Some (client_status_response toy_chrono toy_status) /\
  server_read_status_response toy_chrono
    (client_status_response_json toy_chrono (client_status_response toy_chrono toy_status)) = Some toy_status.
Proof.
  apply (status_wire_roundtrip toy_chrono toy_status). split_and!.
  - intros t [= <-]. by split.
  - intros l [= <-]. by repeat split.
  - done.
Defined.

Lemma form_roundtrip_witness :
  parse_readiness_check (show_readiness_check (MkReadinessCheck "hsm" false (Some "unreachable"%string))) =
    Ok (MkReadinessCheck "hsm" false (Some "unreachable"%string)).
Proof.
  apply (proj1 (proj2 (proj2 (form_roundtrip toy_chrono)))); [by repeat split|].
  intros d [= <-]. by repeat split.
Defined.

(** A comma in a text is not escaped: the name of a failing check can make it be read as passing,
    and the hash of a checkpoint supplies the field that its encoding omits. *)
Example comma_in_name :
  parse_readiness_check (show_readiness_check (MkReadinessCheck "hsm,ok,true" false None)) =
    Ok (MkReadinessCheck "hsm" true None).
Proof. reflexivity. Qed.
Example comma_in_hash :
  parse_checkpoint_status toy_chrono (show_checkpoint_status toy_chrono
    (MkCheckpointStatus toy_chrono 7 "ab,timestamp,5" 9)) = Ok (MkCheckpointStatus toy_chrono 7 "ab" 5).
Proof. reflexivity. Qed.
