(* ===== verification/AdminApi.v ===== *)
(** * The admin API, end to end: [crates/admin/src/], [admin-api-server/src/server/], [apis/],
      [admin-api-client/src/apis/], [mtcctl/src/]

    The service's handlers over its state, the generated server that renders what they return, the
    generated client that reads it, and the command line that prints it. [serde_json], [http]'s status
    codes, [axum]'s routing, [reqwest] and the printers of tables, JSON and YAML are parameters.

    What an operator reads is what the service's state said: readiness and its failing checks,
    identity and start time; and every failure has its exit code. *)

From S2P Require Import Prelude Format ParseInt AdminModels.

Local Open Scope mtc_scope.
Local Open Scope Z_scope.

(** ** The service's state ([admin/src/state.rs]) *)

Record ServiceIdentity : Type := MkServiceIdentity { id_name : string; id_version : string; id_region : string }.
Record DependencyCheck : Type := MkDependencyCheck { dc_name : string; dc_ok : bool; dc_detail : option string }.

(** [DependencyCheck::ok], [DependencyCheck::failing]. *)
Definition check_ok (name : string) : DependencyCheck := MkDependencyCheck name true None.
Definition check_failing (name detail : string) : DependencyCheck := MkDependencyCheck name false (Some detail).

Class CaStateProvider (S : Type) : Type := {
  ca_identity : S -> ServiceIdentity;
  ca_readiness_checks : S -> list DependencyCheck
}.

(** [AppState]: the clock is read once, when it is built. *)
Record AppState (S : Type) : Type := MkAppState { ca : S; app_started_at : Z }.
Arguments MkAppState {S} ca app_started_at.
Arguments ca {S} a.
Arguments app_started_at {S} a.
Definition app_state_new {S} (ca : S) (now : Z) : AppState S := MkAppState ca now.

(** [InMemoryCaState]. *)
Record InMemoryCaState : Type := MkInMemoryCaState { mem_identity : ServiceIdentity; mem_checks : list DependencyCheck }.
Definition in_memory_new (identity : ServiceIdentity) : InMemoryCaState := MkInMemoryCaState identity [].
Definition with_check (s : InMemoryCaState) (check : DependencyCheck) : InMemoryCaState :=
  MkInMemoryCaState (mem_identity s) (mem_checks s ++ [check]).
(** [Default]: the identity of the development server of [main.rs], at this crate's version. *)
Definition in_memory_default (cargo_pkg_version : string) : InMemoryCaState :=
  in_memory_new (MkServiceIdentity "mtc-ca" cargo_pkg_version "local").
#[export] Instance in_memory_provider : CaStateProvider InMemoryCaState := {|
  ca_identity := mem_identity;
  ca_readiness_checks := mem_checks
|}.

(** ** Errors ([admin/src/error.rs]) *)

Inductive AdminApiError : Type := Internal (what : string).
Definition error_code (e : AdminApiError) : string := match e with Internal _ => "internal_error" end.
Definition error_status (e : AdminApiError) : Z := match e with Internal _ => 500 end.
Definition error_to_string (e : AdminApiError) : string :=
  match e with Internal what => "internal error: " +:+ what end.

(** ** Parameters *)

(** Code that may panic. *)
Inductive Run (A : Type) : Type :=
| Panics
| Runs (a : A).
Arguments Panics {A}.
Arguments Runs {A} a.

(** [serde_json]: texts of documents, and texts that are none. *)
Record SerdeJson : Type := MkSerdeJson {
  Text : Type;
  to_vec : JsonDoc -> option Text;
  from_str : Text -> option JsonDoc;
  plain_text : string -> Text
}.

(** Documents whose numbers are [i64]s. *)
Fixpoint doc_ok (d : JsonDoc) : bool :=
  match d with
  | DInt z => bool_decide (i64_checked z = Some z)
  | DFloat => false
  | DArray values => forallb doc_ok values
  | DObject members => forallb (fun m => doc_ok m.2) members
  | _ => true
  end.

(** A document that is written is read back, down to the depth [serde_json] reads. *)
Class SerdeJsonLaws (j : SerdeJson) : Prop := {
  reads_back d : doc_ok d = true -> (depth d < 128)%nat ->
    exists text, to_vec j d = Some text /\ from_str j text = Some d
}.

Section AdminApi.
Context (c : Chrono) (j : SerdeJson).

Record Response : Type := MkResponse { status : Z; content_type : option string; body : Text j }.

(** A handler's [Result<Response, StatusCode>]. *)
Definition Handled : Type := Run (result Response Z).

(** [StatusCode::from_u16]: [None] below 100 and above 999. *)
Context (status_from_u16 : Z -> option Z).

(** ** The generated server ([admin-api-server/src/]) *)

Inductive GetHealthzResponse : Type := Status200_ProcessIsAlive (b : HealthzResponse).
Inductive GetReadyzResponse : Type :=
| Status200_ServiceIsReadyToServe (b : ReadyzResponse)
| Status503_ServiceIsNotReady (b : ReadyzResponse).
Inductive GetStatusResponse : Type :=
| Status200_CurrentServiceStatus (b : StatusResponse c)
| Status0_UnexpectedError (b : ErrorResponse).

(** [Health], [Status] and [ErrorHandler], for one request. *)
Record Api (E : Type) : Type := MkApi {
  get_healthz : Run (result GetHealthzResponse E);
  get_readyz : Run (result GetReadyzResponse E);
  get_status : Run (result GetStatusResponse E);
  handle_error : E -> result Response Z
}.
Arguments get_healthz {E} _.
Arguments get_readyz {E} _.
Arguments get_status {E} _.
Arguments handle_error {E} _ _.

(** [ErrorHandler::handle_error] by default. *)
Definition default_handle_error {E} (error : E) : result Response Z := Ok (MkResponse 500 None (plain_text j "")).

(** What the server does with a body for each status: the builder's status, the content type, the JSON.
    The headers of a builder whose status was refused are [None], which is unwrapped. *)
Definition json_response (code : Z) (d : JsonDoc) : Handled :=
  match status_from_u16 code with
  | None => Panics
  | Some code =>
      Runs (let? text := ok_or (to_vec j d) 500 in
            Ok (MkResponse code (Some "application/json"%string) text))
  end.

(** The generated validations have nothing to check. *)
Definition get_healthz_validation : result unit Empty_set := Ok tt.
Definition get_readyz_validation : result unit Empty_set := Ok tt.
Definition get_status_validation : result unit Empty_set := Ok tt.

Definition get_healthz_handler {E} (api : Api E) : Handled :=
  match get_healthz_validation with
  | Err none => match none with end
  | Ok _ =>
      match get_healthz api with
      | Panics => Panics
      | Runs (Ok (Status200_ProcessIsAlive b)) => json_response 200 (healthz_response_json b)
      | Runs (Err why) => Runs (handle_error api why)
      end
  end.

Definition get_readyz_handler {E} (api : Api E) : Handled :=
  match get_readyz_validation with
  | Err none => match none with end
  | Ok _ =>
      match get_readyz api with
      | Panics => Panics
      | Runs (Ok (Status200_ServiceIsReadyToServe b)) => json_response 200 (readyz_response_json b)
      | Runs (Ok (Status503_ServiceIsNotReady b)) => json_response 503 (readyz_response_json b)
      | Runs (Err why) => Runs (handle_error api why)
      end
  end.

Definition get_status_handler {E} (api : Api E) : Handled :=
  match get_status_validation with
  | Err none => match none with end
  | Ok _ =>
      match get_status api with
      | Panics => Panics
      | Runs (Ok (Status200_CurrentServiceStatus b)) => json_response 200 (status_response_json c b)
      | Runs (Ok (Status0_UnexpectedError b)) => json_response 0 (error_response_json b)
      | Runs (Err why) => Runs (handle_error api why)
      end
  end.

(** [server::new]: the routes of [GET] requests. *)
Definition routes {E} (api : Api E) : list (string * Handled) :=
  [("/healthz", get_healthz_handler api); ("/readyz", get_readyz_handler api); ("/status", get_status_handler api)]%string.

(** ** The handlers ([admin/src/handlers/health.rs]) *)

Definition to_wire_time (time : Z) : Run (Utc c) :=
  match utc_from_system_time c time with Some t => Runs t | None => Panics end.
Definition to_wire_check (check : DependencyCheck) : ReadinessCheck :=
  MkReadinessCheck (dc_name check) (dc_ok check) (dc_detail check).

Definition healthz : Run (result GetHealthzResponse AdminApiError) :=
  Runs (Ok (Status200_ProcessIsAlive (MkHealthzResponse "ok"))).

Definition readyz {S} `{CaStateProvider S} (state : AppState S) : Run (result GetReadyzResponse AdminApiError) :=
  let checks := ca_readiness_checks (ca state) in
  let ready := forallb dc_ok checks in
  let body := MkReadyzResponse (if ready then "ready" else "not_ready") (to_wire_check <$> checks) in
  Runs (Ok (if ready then Status200_ServiceIsReadyToServe body else Status503_ServiceIsNotReady body)).

Definition service_status {S} `{CaStateProvider S} (state : AppState S) : Run (result GetStatusResponse AdminApiError) :=
  let identity := ca_identity (ca state) in
  match to_wire_time (app_started_at state) with
  | Panics => Panics
  | Runs started =>
      let service := MkServiceInfo c (id_name identity) (id_version identity) (id_region identity) (Some started) in
      Runs (Ok (Status200_CurrentServiceStatus (MkStatusResponse c service None None)))
  end.

(** [AdminApiError::into_response]: a [Json] body that cannot be written is a plain 500. *)
Definition error_into_response (e : AdminApiError) : Response :=
  match to_vec j (error_response_json (MkErrorResponse (error_code e) (error_to_string e))) with
  | Some text => MkResponse (error_status e) (Some "application/json"%string) text
  | None => MkResponse 500 (Some "text/plain; charset=utf-8"%string) (plain_text j "serde_json error")
  end.
Definition health_handle_error (e : AdminApiError) : result Response Z := Ok (error_into_response e).

(** [HealthApi], [router]. *)
Definition health_api {S} `{CaStateProvider S} (state : AppState S) : Api AdminApiError :=
  MkApi AdminApiError healthz (readyz state) (service_status state) health_handle_error.
Definition router {S} `{CaStateProvider S} (state : AppState S) : list (string * Handled) := routes (health_api state).

(** ** The generated client ([admin-api-client/src/apis/]) *)

Inductive ContentType : Type := Json | PlainText | Unsupported (unknown_type : string).

(** [starts_with], [contains]. *)
Definition starts_with (p s : string) : bool := String.prefix p s.
Definition str_contains (p s : string) : bool := match String.index 0 p s with Some _ => true | None => false end.
Definition content_type_from (content_type : string) : ContentType :=
  (if starts_with "application" content_type && str_contains "json" content_type then Json
   else if starts_with "text/plain" content_type then PlainText
   else Unsupported content_type)%bool.

Context (ReqwestError : Type).
(** [client.execute] of a [GET] request, and [resp.text()]. *)
Context (execute : string -> result Response ReqwestError) (text : Response -> result (Text j) ReqwestError).

(** [Error<T>]. *)
Inductive ClientError (T : Type) : Type :=
| Reqwest (e : ReqwestError)
| Serde
| Io
| ResponseError (status : Z) (content : Text j) (entity : option T).
Arguments Reqwest {T} e.
Arguments Serde {T}.
Arguments Io {T}.
Arguments ResponseError {T} status content entity.

Inductive GetHealthzError : Type := HealthzUnknownValue (d : JsonDoc).
Inductive GetReadyzError : Type := ReadyzStatus503 (r : ClientReadyzResponse) | ReadyzUnknownValue (d : JsonDoc).
Inductive GetStatusError : Type := DefaultResponse (r : ClientErrorResponse) | StatusUnknownValue (d : JsonDoc).

(** [serde(untagged)]: the first variant that reads. *)
Definition read_healthz_error (d : JsonDoc) : GetHealthzError := HealthzUnknownValue d.
Definition read_readyz_error (d : JsonDoc) : GetReadyzError :=
  match read_readyz_response d with Some r => ReadyzStatus503 r | None => ReadyzUnknownValue d end.
Definition read_status_error (d : JsonDoc) : GetStatusError :=
  match read_error_response d with Some r => DefaultResponse r | None => StatusUnknownValue d end.

(** What the three generated functions do with their path and their types. *)
Definition call_api {A T} (read : JsonDoc -> option A) (read_error : JsonDoc -> T) (uri_str : string) :
    result A (ClientError T) :=
  let? resp := map_err Reqwest (execute uri_str) in
  let content_type := default "application/octet-stream"%string (content_type resp) in
  if negb ((400 <=? status resp) && (status resp <? 500)) && negb ((500 <=? status resp) && (status resp <? 600)) then
    let? content := map_err Reqwest (text resp) in
    match content_type_from content_type with
    | Json => ok_or (from_str j content ≫= read) Serde
    | PlainText => Err Serde
    | Unsupported _ => Err Serde
    end
  else
    let? content := map_err Reqwest (text resp) in
    Err (ResponseError (status resp) content (read_error <$> from_str j content)).

Definition client_get_healthz (base_path : string) : result ClientHealthzResponse (ClientError GetHealthzError) :=
  call_api read_healthz_response read_healthz_error (base_path +:+ "/healthz").
Definition client_get_readyz (base_path : string) : result ClientReadyzResponse (ClientError GetReadyzError) :=
  call_api read_readyz_response read_readyz_error (base_path +:+ "/readyz").
Definition client_get_status (base_path : string) : result (ClientStatusResponse c) (ClientError GetStatusError) :=
  call_api (read_status_response c) read_status_error (base_path +:+ "/status").

(** ** The command line ([mtcctl/src/]) *)

(** [cli.rs]. *)
Inductive OutputFormat : Type := Human | JsonFormat | Yaml.
Record GlobalArgs : Type := MkGlobalArgs { output : OutputFormat; endpoint : string; yes : bool; confirm : bool }.
Definition confirmed (g : GlobalArgs) : bool := yes g || confirm g.

Inductive LogCommand : Type := LogInspect | LogInclusion | LogConsistency | LogVerify.
Inductive CertCommand : Type := CertIssue | CertLookup | CertRevoke.
Inductive BatchCommand : Type := BatchList | BatchInspect.
Inductive LeaseCommand : Type := LeaseShow | LeaseRenew.
Inductive FailoverCommand : Type := FailoverStatus | FailoverInitiate.
Inductive RevocationCommand : Type := RevocationList | RevocationAdd | RevocationDistribute.
Inductive PruneCommand : Type := PruneStatus | PruneRun.
Inductive AuditCommand : Type := AuditRun | AuditHistory | AuditVerify.
Inductive ReportCommand : Type := ReportIssuance | ReportRevocation | ReportCompliance.
Inductive AdapterCommand : Type := AdapterList | AdapterStatus | AdapterPause.
Inductive Command : Type :=
| CmdStatus
| CmdLog (sub : LogCommand)
| CmdCert (sub : CertCommand)
| CmdBatch (sub : BatchCommand)
| CmdLease (sub : LeaseCommand)
| CmdFailover (sub : FailoverCommand)
| CmdRevocation (sub : RevocationCommand)
| CmdPrune (sub : PruneCommand)
| CmdAudit (sub : AuditCommand)
| CmdReport (sub : ReportCommand)
| CmdAdapter (sub : AdapterCommand)
| CmdRepl
| CmdCompletion.
Record Cli : Type := MkCli { global : GlobalArgs; command : Command }.

(** [error.rs]. *)
Inductive CliError : Type :=
| NotImplemented (command : string)
| ApiError (status : Z) (message : Text j)
| Connection (endpoint : string)
| Render (what : string).
Definition exit_code (e : CliError) : Z :=
  match e with Render _ => 1 | NotImplemented _ => 3 | ApiError _ _ => 4 | Connection _ => 5 end.

(** [client.rs]: [configuration] points the client at the endpoint. *)
Definition configuration (g : GlobalArgs) : string := endpoint g.
Definition cli_classify {T} (endpoint : string) (err : ClientError T) : CliError :=
  match err with
  | ResponseError status content _ => ApiError status content
  | Reqwest _ => Connection endpoint
  | Serde => Connection endpoint
  | Io => Connection endpoint
  end.

(** The printers of tables, JSON and YAML. *)
Context (table : list (string * string) -> string) (json_pretty yaml : JsonDoc -> result string string).

(** [output.rs]: what is printed on standard output. *)
Definition render {A} (write : A -> JsonDoc) (value : A) (format : OutputFormat) (human : A -> string) :
    result string CliError :=
  match format with
  | Human => Ok (human value)
  | JsonFormat => map_err Render (json_pretty (write value))
  | Yaml => map_err Render (yaml (write value))
  end.
Definition emit {A} (write : A -> JsonDoc) (value : A) (format : OutputFormat) (human : A -> string) :
    result string CliError := render write value format human.

(** [commands/status.rs]. *)
Definition status_rows (s : ClientStatusResponse c) : list (string * string) :=
  let service := c_service c s in
  ([("name", c_si_name c service); ("version", c_si_version c service); ("region", c_si_region c service)]%string
   ++ match c_started_at c service with
      | Some t => [("started_at"%string, to_rfc3339 c t)] | None => []
      end
   ++ match c_lease c s with
      | Some l => [("lease.holder", c_holder c l); ("lease.epoch", decimal_i64 (c_epoch c l));
                   ("lease.expires_at", to_rfc3339 c (c_expires_at c l))]%string
      | None => []
      end
   ++ match c_checkpoint c s with
      | Some k => [("checkpoint.tree_size", decimal_i64 (c_tree_size c k)); ("checkpoint.root_hash", c_root_hash c k);
                   ("checkpoint.timestamp", to_rfc3339 c (c_timestamp c k))]%string
      | None => []
      end).
Definition render_human (s : ClientStatusResponse c) : string := table (status_rows s).
Definition status_run (g : GlobalArgs) : result string CliError :=
  let? status := map_err (cli_classify (endpoint g)) (client_get_status (configuration g)) in
  emit (client_status_response_json c) status (output g) render_human.

Definition not_implemented (command : string) : CliError := NotImplemented command.

(** [run]. *)
Definition cli_run (cli : Cli) : result string CliError :=
  match command cli with
  | CmdStatus => status_run (global cli)
  | CmdLog sub => Err (not_implemented match sub with
      | LogInspect => "log inspect" | LogInclusion => "log inclusion"
      | LogConsistency => "log consistency" | LogVerify => "log verify" end)
  | CmdCert sub => Err (not_implemented match sub with
      | CertIssue => "cert issue" | CertLookup => "cert lookup" | CertRevoke => "cert revoke" end)
  | CmdBatch sub => Err (not_implemented match sub with
      | BatchList => "batch list" | BatchInspect => "batch inspect" end)
  | CmdLease sub => Err (not_implemented match sub with
      | LeaseShow => "lease show" | LeaseRenew => "lease renew" end)
  | CmdFailover sub => Err (not_implemented match sub with
      | FailoverStatus => "failover status" | FailoverInitiate => "failover initiate" end)
  | CmdRevocation sub => Err (not_implemented match sub with
      | RevocationList => "revocation list" | RevocationAdd => "revocation add"
      | RevocationDistribute => "revocation distribute" end)
  | CmdPrune sub => Err (not_implemented match sub with
      | PruneStatus => "prune status" | PruneRun => "prune run" end)
  | CmdAudit sub => Err (not_implemented match sub with
      | AuditRun => "audit run" | AuditHistory => "audit history" | AuditVerify => "audit verify" end)
  | CmdReport sub => Err (not_implemented match sub with
      | ReportIssuance => "report issuance" | ReportRevocation => "report revocation"
      | ReportCompliance => "report compliance" end)
  | CmdAdapter sub => Err (not_implemented match sub with
      | AdapterList => "adapter list" | AdapterStatus => "adapter status" | AdapterPause => "adapter pause" end)
  | CmdRepl => Err (not_implemented "repl")
  | CmdCompletion => Err (not_implemented "completion")
  end.

(** [main], once the arguments are parsed: standard output, what is reported on standard error, the
    exit code. *)
Definition main (cli : Cli) : option string * option CliError * Z :=
  match cli_run cli with
  | Ok printed => (Some printed, None, 0)
  | Err err => (None, Some err, exit_code err)
  end.

(** ** What an operator reads *)

Context {claws : ChronoLaws c} {jlaws : SerdeJsonLaws j}.
Context (status_valid : forall n, 100 <= n < 1000 -> status_from_u16 n = Some n).
Context (status_invalid : forall n, ~ 100 <= n < 1000 -> status_from_u16 n = None).

(** The routes are served at the endpoint: a [GET] of a route's path reaches its handler, an answer
    arrives with its body, an error status without one, and a panic closes the connection. *)
Definition served (endpoint : string) (rs : list (string * Handled)) : Prop :=
  Forall (fun '(path, h) =>
    match h with
    | Runs (Ok resp) => execute (endpoint +:+ path) = Ok resp /\ text resp = Ok (body resp)
    | Runs (Err code) => exists resp, execute (endpoint +:+ path) = Ok resp /\ status resp = code /\
                                      text resp = Ok (plain_text j "")
    | Panics => exists e, execute (endpoint +:+ path) = Err e
    end) rs.

Lemma json_response_read code d :
  100 <= code < 1000 -> doc_ok d = true -> (depth d < 128)%nat ->
  exists content, json_response code d =
    Runs (Ok (MkResponse code (Some "application/json"%string) content)) /\ from_str j content = Some d.
Proof.
  intros Hc Hd Hn. destruct (reads_back d Hd Hn) as (content & Hw & Hr). exists content.
  unfold json_response. by rewrite status_valid, Hw.
Qed.

(** What the client makes of a JSON answer. *)
Lemma call_api_json {A T} (read : JsonDoc -> option A) (read_error : JsonDoc -> T) uri code content d :
  execute uri = Ok (MkResponse code (Some "application/json"%string) content) ->
  text (MkResponse code (Some "application/json"%string) content) = Ok content -> from_str j content = Some d ->
  call_api read read_error uri =
    if ((400 <=? code) && (code <? 500)) || ((500 <=? code) && (code <? 600))
    then Err (ResponseError code content (Some (read_error d)))
    else ok_or (read d) Serde.
Proof.
  intros He Ht Hf. unfold call_api. rewrite He. cbn [map_err status content_type]. rewrite Ht. cbn [map_err]. rewrite Hf. simpl.
  by destruct ((400 <=? code) && (code <? 500)), ((500 <=? code) && (code <? 600)).
Qed.

Lemma doc_ok_readiness_check x : doc_ok (readiness_check_json x) = true /\ depth (readiness_check_json x) = 1%nat.
Proof. by destruct x as [n o [d|]]. Qed.

Lemma doc_ok_readyz x : doc_ok (readyz_response_json x) = true /\ (depth (readyz_response_json x) <= 3)%nat.
Proof.
  destruct x as [s l]. unfold readyz_response_json. cbn [doc_ok depth forallb map snd rz_status checks].
  assert (forallb doc_ok (readiness_check_json <$> l) = true) as ->.
  { apply forallb_forall. intros d (x & <- & _)%in_map_iff. apply doc_ok_readiness_check. }
  split; [done|]. assert (list_max (map depth (readiness_check_json <$> l)) <= 1)%nat as Hm.
  { apply list_max_le, List.Forall_forall. intros n (d & <- & (x & <- & _)%in_map_iff)%in_map_iff.
    by rewrite (proj2 (doc_ok_readiness_check x)). }
  simpl. lia.
Qed.

Section Served.
Context {S : Type} {provider : CaStateProvider S} (state : AppState S) (ep : string).
Context (Hserved : served ep (router state)).

Lemma served_json path code d :
  In (path, json_response code d) (router state) ->
  100 <= code < 1000 -> doc_ok d = true -> (depth d < 128)%nat ->
  exists content, execute (ep +:+ path) = Ok (MkResponse code (Some "application/json"%string) content) /\
    text (MkResponse code (Some "application/json"%string) content) = Ok content /\ from_str j content = Some d.
Proof.
  intros Hin Hc Hd Hn. destruct (json_response_read code d Hc Hd Hn) as (content & E & Hf). exists content.
  unfold served in Hserved. rewrite List.Forall_forall in Hserved.
  pose proof (Hserved _ Hin) as H. simpl in H. rewrite E in H. by destruct H.
Qed.

Definition read_checks : list ClientReadinessCheck :=
  (fun check => MkClientReadinessCheck (dc_name check) (dc_ok check) (dc_detail check)) <$>
    ca_readiness_checks (ca state).

Lemma healthz_read : client_get_healthz ep = Ok (MkClientHealthzResponse StatusOk).
Proof.
  destruct (served_json "/healthz" 200 (healthz_response_json (MkHealthzResponse "ok"))) as (content & He & Ht & Hf);
    [by left|done|done|simpl; lia|].
  unfold client_get_healthz. by rewrite (call_api_json _ _ _ _ _ _ He Ht Hf).
Qed.

Lemma readyz_read :
  exists content,
  client_get_readyz ep =
    if forallb dc_ok (ca_readiness_checks (ca state))
    then Ok (MkClientReadyzResponse Ready read_checks)
    else Err (ResponseError 503 content (Some (ReadyzStatus503 (MkClientReadyzResponse NotReady read_checks)))).
Proof.
  set (ready := forallb dc_ok (ca_readiness_checks (ca state))).
  set (b := MkReadyzResponse (if ready then "ready" else "not_ready")
              (to_wire_check <$> ca_readiness_checks (ca state))).
  destruct (doc_ok_readyz b) as [Hd Hn].
  destruct (served_json "/readyz" (if ready then 200 else 503) (readyz_response_json b)) as (content & He & Ht & Hf);
    [|by destruct ready|done|lia|].
  { right; left. unfold get_readyz_handler. simpl. unfold readyz. fold ready. fold b. by destruct ready. }
  exists content. unfold client_get_readyz. rewrite (call_api_json _ _ _ _ _ _ He Ht Hf). unfold read_readyz_error.
  rewrite (read_readyz_response_json b (if ready then Ready else NotReady)) by (by unfold b; destruct ready).
  assert (client_readiness_check <$> checks b = read_checks) as -> by (by unfold b; simpl; rewrite <- list_fmap_compose).
  by destruct ready.
Qed.

Definition read_status (started : Utc c) : ClientStatusResponse c :=
  let identity := ca_identity (ca state) in
  MkClientStatusResponse c
    (MkClientServiceInfo c (id_name identity) (id_version identity) (id_region identity)
       (Some (with_offset_zero c started))) None None.

Lemma status_read started :
  utc_from_system_time c (app_started_at state) = Some started -> plain started ->
  client_get_status ep = Ok (read_status started).
Proof.
  intros Hs Hp.
  set (b := MkStatusResponse c (MkServiceInfo c (id_name (ca_identity (ca state))) (id_version (ca_identity (ca state)))
              (id_region (ca_identity (ca state))) (Some started)) None None).
  destruct (served_json "/status" 200 (status_response_json c b)) as (content & He & Ht & Hf);
    [|done|done|simpl; lia|].
  { right; right; left. unfold get_status_handler. simpl. unfold service_status, to_wire_time. by rewrite Hs. }
  unfold client_get_status. rewrite (call_api_json _ _ _ _ _ _ He Ht Hf). simpl.
  rewrite (read_status_response_json c b); [done|]. split_and!; [|done|done]. by intros t [= <-].
Qed.
End Served.

(** C35. The admin API end to end. With the service's routes served at an endpoint, over [serde_json],
    [chrono] and [http] as documented: the generated client reads the process as alive; it reads the
    service as ready, with its checks, exactly when every check passes, and otherwise gets the status 503
    with all checks, their failures and details, as the typed error; it reads the service's identity and
    the start time, and no lease or checkpoint; [mtcctl status] prints these and exits with 0. *)
Theorem admin_end_to_end {S} {provider : CaStateProvider S} (state : AppState S) (ep : string)
    (started : Utc c) (y cf : bool) :
  served ep (router state) ->
  utc_from_system_time c (app_started_at state) = Some started -> plain started ->
  let identity := ca_identity (ca state) in
  let all := read_checks state in
  client_get_healthz ep = Ok (MkClientHealthzResponse StatusOk) /\
  (exists content, client_get_readyz ep =
     if forallb dc_ok (ca_readiness_checks (ca state)) then Ok (MkClientReadyzResponse Ready all)
     else Err (ResponseError 503 content (Some (ReadyzStatus503 (MkClientReadyzResponse NotReady all))))) /\
  client_get_status ep = Ok (read_status state started) /\
  main (MkCli (MkGlobalArgs Human ep y cf) CmdStatus) =
    (Some (table [("name", id_name identity); ("version", id_version identity); ("region", id_region identity);
                  ("started_at", to_rfc3339 c (with_offset_zero c started))]%string), None, 0).
Proof.
  intros Hs Ht Hp identity all. pose proof (status_read state ep Hs started Ht Hp) as Hst.
  split_and!; [by apply (healthz_read state)|by apply readyz_read|done|].
  unfold main, cli_run, status_run, configuration. cbn [command global endpoint output]. by rewrite Hst.
Qed.

(** ** Failures *)

(** A handler that fails is reported to the client as the shared error model, and [mtcctl] exits with 4. *)
Lemma failing_handler_reported (api : Api AdminApiError) (e : AdminApiError) ep g :
  get_status api = Runs (Err e) -> handle_error api = health_handle_error ->
  served ep (routes api) -> endpoint g = ep ->
  exists content, main (MkCli g CmdStatus) =
      (None, Some (ApiError 500 content), 4) /\
    client_get_status ep =
      Err (ResponseError 500 content (Some (DefaultResponse (MkClientErrorResponse (error_code e) (error_to_string e))))).
Proof.
  intros Hst Hh Hs <-. inversion Hs as [|? ? _ Hs1]; subst. inversion Hs1 as [|? ? _ Hs2]; subst.
  inversion Hs2 as [|? ? Hx _]; subst. unfold get_status_handler in Hx. simpl in Hx. rewrite Hst, Hh in Hx.
  destruct (reads_back (error_response_json (MkErrorResponse (error_code e) (error_to_string e))))
    as (content & Hw & Hr); [done|simpl; lia|].
  unfold health_handle_error, error_into_response in Hx. rewrite Hw in Hx. destruct Hx as [He Ht].
  assert (error_status e = 500) as E5 by (by destruct e). rewrite E5 in *.
  assert (client_get_status (endpoint g) = Err (ResponseError 500 content
    (Some (DefaultResponse (MkClientErrorResponse (error_code e) (error_to_string e)))))) as Hc.
  { unfold client_get_status. by rewrite (call_api_json _ _ _ _ _ _ He Ht Hr). }
  exists content. split; [|done]. unfold main, cli_run, status_run, configuration. cbn [command global]. by rewrite Hc.
Qed.

(** The answer the specification calls [default], an unexpected error, cannot be sent: its status is
    written as 0, which is none, and the handler panics before it writes anything. The operator sees a
    broken connection. *)
Lemma unexpected_error_panics {E} (api : Api E) (b : ErrorResponse) ep g :
  get_status api = Runs (Ok (Status0_UnexpectedError b)) ->
  get_status_handler api = Panics /\
  (served ep (routes api) -> endpoint g = ep ->
   main (MkCli g CmdStatus) = (None, Some (Connection ep), 5)).
Proof.
  intros Hst. assert (get_status_handler api = Panics) as Hp.
  { unfold get_status_handler. simpl. rewrite Hst. unfold json_response. by rewrite status_invalid by lia. }
  split; [done|]. intros Hs <-. inversion Hs as [|? ? _ Hs1]; subst. inversion Hs1 as [|? ? _ Hs2]; subst.
  inversion Hs2 as [|? ? Hx _]; subst. rewrite Hp in Hx. destruct Hx as [e He].
  unfold main, cli_run, status_run, configuration, client_get_status, call_api. cbn [command global].
  by rewrite He.
Qed.

(** Every command that is not implemented yet says its own name, and no other does. *)
Lemma unimplemented_commands_distinct g g' cmd cmd' name :
  cli_run (MkCli g cmd) = Err (NotImplemented name) ->
  cli_run (MkCli g' cmd') = Err (NotImplemented name) -> cmd = cmd'.
Proof.
  assert (forall g, cli_run (MkCli g CmdStatus) <> Err (NotImplemented name)) as Hn.
  { intros g0. unfold cli_run, status_run, emit, render. cbn [command global].
    destruct (client_get_status _) as [s|[]]; simpl; [|done..]. destruct (output g0); [done| |];
      match goal with |- map_err _ ?r <> _ => by destruct r end. }
  destruct cmd as [|[]|[]|[]|[]|[]|[]|[]|[]|[]|[]| |]; intros H H';
    try (by destruct (Hn _ H)); injection H as <-;
    destruct cmd' as [|[]|[]|[]|[]|[]|[]|[]|[]|[]|[]| |]; try done; by destruct (Hn _ H').
Qed.

(** The exit code tells the kinds of failure apart, and from success and from [clap]'s own 2. *)
Lemma exit_code_kinds e : exit_code e <> 0 /\ exit_code e <> 2.
Proof. by destruct e. Qed.
End AdminApi.

(** ** A deployment that runs: a service whose module is unreachable *)

Definition toy_json : SerdeJson := MkSerdeJson JsonDoc Some Some DString.
#[export] Instance toy_json_laws : SerdeJsonLaws toy_json.
Proof. split. intros d _ _. by exists d. Defined.

Definition toy_status_code (n : Z) : option Z := if (100 <=? n) && (n <? 1000) then Some n else None.
Lemma toy_status_code_valid n : 100 <= n < 1000 -> toy_status_code n = Some n.
Proof. intros [H1 H2]. unfold toy_status_code. by rewrite (proj2 (Z.leb_le _ _) H1), (proj2 (Z.ltb_lt _ _) H2). Qed.

Definition toy_state : AppState InMemoryCaState :=
  app_state_new (with_check (with_check (in_memory_new (MkServiceIdentity "mtc-ca" "0.1.0" "us-east-1"))
    (check_ok "storage")) (check_failing "hsm" "unreachable")) (12 * 10 ^ 9).
Definition toy_router : list (string * Handled toy_json) := router toy_chrono toy_json toy_status_code toy_state.
Definition toy_execute (uri : string) : result (Response toy_json) unit :=
  match List.find (fun r => String.eqb ("http://localhost:8080" +:+ r.1) uri) toy_router with
  | Some (_, Runs (Ok resp)) => Ok resp
  | _ => Err tt
  end.
Definition toy_text (resp : Response toy_json) : result JsonDoc unit := Ok (body toy_json resp).
Definition toy_table (rows : list (string * string)) : string := join_comma ((fun r => r.1 +:+ "=" +:+ r.2) <$> rows).

Lemma admin_end_to_end_witness :
  exists content,
  client_get_readyz toy_json unit toy_execute toy_text "http://localhost:8080" =
    Err (ResponseError toy_json unit GetReadyzError 503 content
      (Some (ReadyzStatus503 (MkClientReadyzResponse NotReady
        [MkClientReadinessCheck "storage" true None; MkClientReadinessCheck "hsm" false (Some "unreachable"%string)])))) /\
  main toy_chrono toy_json unit toy_execute toy_text toy_table (fun _ => Err EmptyString) (fun _ => Err EmptyString)
    (MkCli (MkGlobalArgs Human "http://localhost:8080" false false) CmdStatus) =
  (Some "name=mtc-ca,version=0.1.0,region=us-east-1,started_at=12"%string, None, 0).
Proof.
  pose proof (admin_end_to_end toy_chrono toy_json toy_status_code unit toy_execute toy_text toy_table
    (fun _ => Err EmptyString) (fun _ => Err EmptyString) toy_status_code_valid toy_state
    "http://localhost:8080" 12 false false) as H.
  destruct H as (_ & (content & Hr) & _ & Hm); [by repeat constructor|reflexivity|by split|].
  exists content. split; [exact Hr|exact Hm].
Defined.
