(* ===== verification/Backend.v ===== *)
(** * Choosing and wiring the backends: [crates/cloud-backend/src/], [storage/src/],
      [cloud-aws/src/config.rs]

    The provider and its configuration, the factory that wires the four capabilities of a process, the
    settings of an S3 client, and the storage facade over a backend, of which no method is written yet.
    A handle ([Arc<dyn Trait>]) is the place of what it shares in the process.

    A configuration is read back from what it prints; the in-memory object store and its lock are one
    store, and each built backend has its own. *)

From stdpp Require Import gmap.
From S2P Require Import Prelude Types Tile LogEntry Checkpoint CheckpointFacts Signing KV KVContract Lease Hsm ObjectStore ObjectStoreFacts SoftHsm.

Local Open Scope mtc_scope.
Local Open Scope Z_scope.

(** ** Configuration ([config.rs]) *)

Inductive Provider : Type := Memory | Aws | Localstack.
#[export] Instance Provider_eq_dec : EqDecision Provider.
Proof. solve_decision. Defined.

(** [as_str], which [Display] writes. *)
Definition provider_as_str (p : Provider) : string :=
  match p with Memory => "memory" | Aws => "aws" | Localstack => "localstack" end.

Inductive ProviderConfigError : Type :=
| UnknownProvider (found : string)
| EmptyEnvVar (var : string).

(** [FromStr], through which [Deserialize] goes. *)
Definition provider_from_str (raw : string) : result Provider ProviderConfigError :=
  if decide (raw = "memory"%string) then Ok Memory
  else if decide (raw = "aws"%string) then Ok Aws
  else if decide (raw = "localstack"%string) then Ok Localstack
  else Err (UnknownProvider raw).

Record BackendConfig : Type := MkBackendConfig { provider : Provider }.
Definition ENV_PROVIDER : string := "MTC_BACKEND_PROVIDER".

(** [from_lookup]; [from_env] looks in the environment. *)
Definition backend_from_lookup (lookup : string -> option string) : result BackendConfig ProviderConfigError :=
  let? provider :=
    match lookup ENV_PROVIDER with
    | Some value => if blank value then Err (EmptyEnvVar ENV_PROVIDER) else provider_from_str value
    | None => Ok Memory
    end in
  Ok (MkBackendConfig provider).

Lemma provider_from_str_as_str p : provider_from_str (provider_as_str p) = Ok p.
Proof. by destruct p. Qed.

Lemma provider_from_str_Ok raw p : provider_from_str raw = Ok p <-> raw = provider_as_str p.
Proof.
  split; [|intros ->; apply provider_from_str_as_str]. unfold provider_from_str.
  repeat case_decide; [by intros [= <-]..|done].
Qed.

(** The configuration an environment gives: the in-memory backend if it says nothing, what it names if
    it names a provider, and an error if it is blank or names none. *)
Lemma backend_from_lookup_spec lookup :
  backend_from_lookup lookup =
    match lookup ENV_PROVIDER with
    | None => Ok (MkBackendConfig Memory)
    | Some value =>
        if blank value then Err (EmptyEnvVar ENV_PROVIDER)
        else match provider_from_str value with Ok p => Ok (MkBackendConfig p) | Err e => Err e end
    end.
Proof. unfold backend_from_lookup. destruct (lookup _); [|done]. by destruct (blank _). Qed.

(** ** The factory ([factory.rs], [lib.rs]) *)

Inductive BackendError : Type := UnimplementedProvider (provider : Provider).

(** What the handles of a process share. *)
Record Process (p : P256) : Type := MkProcess {
  object_stores : list MemoryObjectStore;
  kv_stores : list Items;
  hsms : list (MemoryHsm p)
}.
Arguments MkProcess {p}.
Arguments object_stores {p}.
Arguments kv_stores {p}.
Arguments hsms {p}.

Record Backend : Type := MkBackend {
  object_store : nat;
  object_lock : nat;
  replicated_kv : nat;
  hsm : nat
}.

Section Factory.
Context {p : P256}.

(** [build_memory_backend]: one new object store behind two of the handles. *)
Definition build_memory_backend (w : Process p) : Backend * Process p :=
  let store := length (object_stores w) in
  (MkBackend store store (length (kv_stores w)) (length (hsms w)),
   MkProcess (object_stores w ++ [memory_object_store_new]) (kv_stores w ++ [memory_new])
     (hsms w ++ [memory_hsm_new])).

Definition build_backend (cfg : BackendConfig) (w : Process p) : result Backend BackendError * Process p :=
  match provider cfg with
  | Memory => let '(b, w') := build_memory_backend w in (Ok b, w')
  | Aws | Localstack => (Err (UnimplementedProvider (provider cfg)), w)
  end.

(** ** Calls through the handles *)

(** The handle a call of one of the two traits of objects is made through. *)
Definition handle_of (b : Backend) {A} (c : StoreCall A) : nat :=
  match c with
  | CallPutWithRetention _ _ _ | CallExtendRetention _ _ | CallGetRetention _ => object_lock b
  | _ => object_store b
  end.

(** A call on the store of a handle; [clocks] are each store's readings of the clock. *)
Definition call_objects (clocks : nat -> nat -> Z) (b : Backend) {A} (c : StoreCall A) (w : Process p) :
    option (result A CloudError) * Process p :=
  match object_stores w !! handle_of b c with
  | None => (None, w)
  | Some s =>
      let '(r, s') := memory_call (clocks (handle_of b c)) c s in
      (Some r, MkProcess (<[handle_of b c := s']> (object_stores w)) (kv_stores w) (hsms w))
  end.

(** Calls of any backends of the process, in any order. *)
Fixpoint call_all (clocks : nat -> nat -> Z) (calls : list (Backend * sigT StoreCall)) (w : Process p) : Process p :=
  match calls with
  | [] => w
  | (b, existT _ c) :: rest => call_all clocks rest (call_objects clocks b c w).2
  end.

(** Both handles of objects are of one store. *)
Definition one_store (b : Backend) : Prop := object_lock b = object_store b.

(** The calls that go to a store. *)
Definition calls_on (l : nat) (calls : list (Backend * sigT StoreCall)) : list (sigT StoreCall) :=
  snd <$> List.filter (fun x => Nat.eqb (object_store x.1) l) calls.

Lemma handle_of_one b {A} (c : StoreCall A) : one_store b -> handle_of b c = object_store b.
Proof. intros E. by destruct c. Qed.

Lemma call_objects_one clocks b s w {A} (c : StoreCall A) :
  one_store b -> object_stores w !! object_store b = Some s ->
  (call_objects clocks b c w).1 = Some (memory_call (clocks (object_store b)) c s).1 /\
  object_stores (call_objects clocks b c w).2 =
    <[object_store b := (memory_call (clocks (object_store b)) c s).2]> (object_stores w).
Proof.
  intros H Es. unfold call_objects. rewrite (handle_of_one b c H), Es.
  by destruct (memory_call (clocks (object_store b)) c s) as [r s'].
Qed.

Lemma call_objects_other clocks b w {A} (c : StoreCall A) l :
  one_store b -> l <> object_store b -> object_stores (call_objects clocks b c w).2 !! l = object_stores w !! l.
Proof.
  intros H Hl. unfold call_objects. rewrite (handle_of_one b c H).
  destruct (object_stores w !! object_store b) as [s|]; [|done].
  destruct (memory_call _ c s) as [r s']. simpl. by apply list_lookup_insert_ne.
Qed.

(** A store sees the calls that go to it, and no others. *)
Lemma call_all_store clocks l calls : forall w s,
  Forall (fun x => one_store x.1) calls -> object_stores w !! l = Some s ->
  object_stores (call_all clocks calls w) !! l = Some (run_calls (clocks l) (calls_on l calls) s).
Proof.
  induction calls as [|[b [A c]] calls IH]; intros w s Hc Hs; [done|].
  apply Forall_cons in Hc as [Hb Hc]. simpl in Hb. cbn [call_all].
  unfold calls_on. cbn [List.filter fst]. destruct (Nat.eqb_spec (object_store b) l) as [<-|Hne].
  - destruct (call_objects_one clocks b s w c Hb Hs) as [_ E]. simpl. apply IH; [done|].
    rewrite E. apply list_lookup_insert_eq. by apply lookup_lt_Some in Hs.
  - apply IH; [done|]. by rewrite call_objects_other.
Qed.

(** A backend the factory builds keeps what it retains: the handle of the lock and the handle of
    the store are of one store, new and of no other backend. So once an object is put with
    retention through the lock, then whatever calls its own handles and those of other
    backends of the process make, in any order, as long as the clock is before the end of retention: it
    is read unchanged through the store's handle, and deleting it or overwriting it there is refused. The other
    providers are refused when they are built, and nothing is built. *)
Theorem backend_retains (clocks : nat -> nat -> Z) (cfg : BackendConfig) (w w1 : Process p) (b : Backend)
    (key : string) (bytes : list byte) (until : Z) (w2 : Process p) (calls : list (Backend * sigT StoreCall)) :
  build_backend cfg w = (Ok b, w1) ->
  call_objects clocks b (CallPutWithRetention key bytes until) w1 = (Some (Ok tt), w2) ->
  Forall (fun x => one_store x.1) calls ->
  let w3 := call_all clocks calls w2 in
  (forall s n, object_stores w3 !! object_store b = Some s -> (n <= readings s)%nat -> clocks (object_store b) n < until) ->
  provider cfg = Memory /\ one_store b /\ object_stores w !! object_store b = None /\
  (call_objects clocks b (CallGet key) w3).1 = Some (Ok bytes) /\
  (exists reason, (call_objects clocks b (CallDelete key) w3).1 = Some (Err (RetentionViolation reason))) /\
  (forall bytes', exists reason,
     (call_objects clocks b (CallPut key bytes' overwrite) w3).1 = Some (Err (RetentionViolation reason))).
Proof.
  intros Hb Hp Hc w3 Hu. unfold build_backend in Hb. destruct (provider cfg) eqn:Ep; [|done..].
  injection Hb as <- <-. set (b := MkBackend _ _ _ _) in *.
  assert (one_store b) as H1 by done.
  destruct (call_objects_one clocks b memory_object_store_new
              (MkProcess (object_stores w ++ [memory_object_store_new]) (kv_stores w ++ [memory_new]) (hsms w ++ [memory_hsm_new]))
              (CallPutWithRetention key bytes until) H1) as [_ E2]; [by apply list_lookup_middle|].
  rewrite Hp in E2. set (clock := clocks (object_store b)) in *.
  set (s1 := (memory_call clock (CallPutWithRetention key bytes until) memory_object_store_new).2) in *.
  assert (object_stores w2 !! object_store b = Some s1) as Hs1.
  { simpl in E2. rewrite E2. apply list_lookup_insert_eq. rewrite length_app. simpl. lia. }
  pose proof (call_all_store clocks (object_store b) calls w2 s1 Hc Hs1) as Hs3. fold w3 clock in Hs3.
  set (s3 := run_calls clock (calls_on (object_store b) calls) s1) in *.
  set (o := MkStoredObject bytes (clock 0%nat) (Some until)).
  assert (objects s1 !! key = Some o) as Hk by apply lookup_insert_eq.
  destruct (run_calls_keep clock (calls_on (object_store b) calls) key o until s1) as (u & Hle & Hs'); [by exists until|intros n Hn; apply (Hu s3 n Hs3); apply Hn|].
  destruct (kept_protected clock s3 key o u Hs') as (Hg & _ & (r & Hd) & Hov & _); [pose proof (Hu s3 (readings s3) Hs3 (le_n _)); lia|].
  split_and!; [done|done|by apply lookup_ge_None_2| | |].
  - rewrite (proj1 (call_objects_one clocks b s3 w3 (CallGet key) H1 Hs3)). exact (f_equal Some Hg).
  - exists r. rewrite (proj1 (call_objects_one clocks b s3 w3 (CallDelete key) H1 Hs3)). exact (f_equal Some Hd).
  - intros bytes'. destruct (Hov bytes') as [r' Ho]. exists r'.
    rewrite (proj1 (call_objects_one clocks b s3 w3 (CallPut key bytes' overwrite) H1 Hs3)). exact (f_equal Some Ho).
Qed.
End Factory.

(** An entry retained until 100, and a second backend that writes and deletes its own object of that name. *)
Definition toy_clocks (l n : nat) : Z := 10 + Z.of_nat n.
Definition first_backend : Backend := MkBackend 0 0 0 0.
Definition second_backend : Backend := MkBackend 1 1 1 1.
Definition two_backends : Process toy_p256 :=
  (build_memory_backend (build_memory_backend (MkProcess [] [] [])).2).2.
Definition toy_calls : list (Backend * sigT StoreCall) :=
  [(second_backend, existT _ (CallPut "entries/0" [x09] if_not_exists));
   (first_backend, existT _ (CallDelete "entries/0"));
   (second_backend, existT _ (CallDelete "entries/0"))].

Lemma backend_retains_witness :
  let w1 := (build_memory_backend (MkProcess (p := toy_p256) [] [] [])).2 in
  let w2 := (call_objects toy_clocks first_backend (CallPutWithRetention "entries/0" [x01; x02] 100) w1).2 in
  (call_objects toy_clocks first_backend (CallGet "entries/0") (call_all toy_clocks toy_calls w2)).1 = Some (Ok [x01; x02]).
Proof.
  cbv zeta.
  apply (backend_retains toy_clocks (MkBackendConfig Memory) (MkProcess (p := toy_p256) [] [] [])
    (build_memory_backend (MkProcess [] [] [])).2 first_backend "entries/0" [x01; x02] 100
    (call_objects toy_clocks first_backend (CallPutWithRetention "entries/0" [x01; x02] 100)
       (build_memory_backend (MkProcess [] [] [])).2).2 toy_calls);
    [reflexivity|reflexivity|by repeat constructor|].
  intros s n Hs Hn. unfold toy_clocks. vm_compute in Hs. injection Hs as <-. simpl in Hn. lia.
Defined.

(** Had the factory made two stores, the lock would retain nothing of what the store holds: its
    object is deleted under retention. *)
Example separate_stores_retain_nothing :
  let w := MkProcess (p := toy_p256) [memory_object_store_new; memory_object_store_new] [] [] in
  let b := MkBackend 0 1 0 0 in
  let calls := [(b, existT _ (CallPut "entries/0" [x01] if_not_exists));
                (b, existT _ (CallPutWithRetention "entries/0" [x01] 100))] in
  (call_objects toy_clocks b (CallDelete "entries/0") (call_all toy_clocks calls w)).1 = Some (Ok tt).
Proof. vm_compute. reflexivity. Qed.

(** ** The settings of an S3 client ([cloud-aws/src/config.rs]) *)

Record StaticCredentials : Type := MkStaticCredentials { access_key_id : string; secret_access_key : string }.
Record S3Config : Type := MkS3Config {
  bucket : string;
  region_name : string;
  endpoint_url : option string;
  credentials : option StaticCredentials;
  force_path_style : bool
}.

(** [S3Config::localstack]. *)
Definition localstack_config (bucket endpoint_url : string) : S3Config :=
  MkS3Config bucket "us-east-1" (Some endpoint_url) (Some (MkStaticCredentials "test" "test")) true.

(** [build_client]: what the SDK's builder is told, in order. *)
Inductive BuilderCall : Type :=
| BehaviorVersionLatest
| SetRegion (region : string)
| ForcePathStyle (b : bool)
| EndpointUrl (url : string)
| CredentialsProvider (access_key_id secret_access_key : string) (provider_name : string).
Definition build_client (config : S3Config) : list BuilderCall :=
  [BehaviorVersionLatest; SetRegion (region_name config); ForcePathStyle (force_path_style config)]
  ++ match endpoint_url config with Some url => [EndpointUrl url] | None => [] end
  ++ match credentials config with
     | Some creds => [CredentialsProvider (access_key_id creds) (secret_access_key creds) "cloud-aws-static"]
     | None => []
     end.

(** The same for the DynamoDB client ([cloud-aws/src/ddb_replicated_kv.rs]), which has no path style. *)
Record DynamoDbCredentials : Type := MkDynamoDbCredentials { ddb_access_key_id : string; ddb_secret_access_key : string }.
Record DynamoDbConfig : Type := MkDynamoDbConfig {
  ddb_config_table : string;
  ddb_region : string;
  ddb_endpoint_url : option string;
  ddb_credentials : option DynamoDbCredentials
}.
Definition ddb_localstack_config (table endpoint_url : string) : DynamoDbConfig :=
  MkDynamoDbConfig table "us-east-1" (Some endpoint_url) (Some (MkDynamoDbCredentials "test" "test")).
Definition ddb_build_client (config : DynamoDbConfig) : list BuilderCall :=
  [BehaviorVersionLatest; SetRegion (ddb_region config)]
  ++ match ddb_endpoint_url config with Some url => [EndpointUrl url] | None => [] end
  ++ match ddb_credentials config with
     | Some creds => [CredentialsProvider (ddb_access_key_id creds) (ddb_secret_access_key creds) "cloud-aws-ddb-static"]
     | None => []
     end.

(** [DynamoDbReplicatedKv], [S3ObjectStore] and their constructors: a client and what it targets. *)
Record DynamoDbReplicatedKv : Type := MkDynamoDbReplicatedKv { ddb_client : list BuilderCall; ddb_table : string }.
Definition DynamoDbReplicatedKv_new (config : DynamoDbConfig) : DynamoDbReplicatedKv :=
  MkDynamoDbReplicatedKv (ddb_build_client config) (ddb_config_table config).
Record S3ObjectStore : Type := MkS3ObjectStore { s3_client : list BuilderCall; s3_bucket : string }.
Definition S3ObjectStore_new (config : S3Config) : S3ObjectStore :=
  MkS3ObjectStore (build_client config) (bucket config).

(** Without an endpoint and credentials of its own, a client is left to the SDK's own resolution of both. *)
Lemma standard_resolution (config : S3Config) (config' : DynamoDbConfig) :
  endpoint_url config = None -> credentials config = None ->
  ddb_endpoint_url config' = None -> ddb_credentials config' = None ->
  forall call, call ∈ s3_client (S3ObjectStore_new config) ++ ddb_client (DynamoDbReplicatedKv_new config') ->
  match call with EndpointUrl _ | CredentialsProvider _ _ _ => False | _ => True end.
Proof.
  intros H1 H2 H3 H4 call. unfold S3ObjectStore_new, DynamoDbReplicatedKv_new, build_client, ddb_build_client.
  simpl. rewrite H1, H2, H3, H4. simpl. rewrite !elem_of_cons, elem_of_nil. naive_solver.
Qed.

(** ** The storage facade ([storage/src/]) *)

(** [config.rs]: the prefix of the partition keys of a log's coordination items. *)
Record StorageConfig : Type := MkStorageConfig { st_bucket : string; st_table : string; st_log_id : string; st_retention_days : Z }.
Definition coordination_prefix (config : StorageConfig) : string := "log#" +:+ st_log_id config.

(** [types.rs]. *)
Record StorageLease : Type := MkStorageLease { sl_region : string; sl_holder_id : string; sl_epoch : Epoch; sl_expires_at : Z }.
Inductive BatchStatus : Type := Pending | Committed | Abandoned.
Record BatchState : Type := MkBatchState {
  bs_batch_id : BatchId; bs_start : Index; bs_end : Index; bs_status : BatchStatus; bs_epoch : Epoch
}.

(** [error.rs]; a [CloudError] converts with [From]. *)
Inductive StorageError : Type :=
| LostLease
| StorageAlreadyExists (resource : string)
| StorageNotFound (resource : string)
| InvalidState (reason : string)
| Unimplemented (method : string)
| BackendFailure (e : CloudError).
Definition storage_error_from (e : CloudError) : StorageError := BackendFailure e.

(** The methods of [Storage], by what they return. *)
Inductive StorageCall : Type -> Type :=
| ReadLease : StorageCall StorageLease
| AllocateIndices (count : Z) (epoch : Epoch) : StorageCall (Index * Index)
| PersistBatchState (batch_id : BatchId) (start end_ : Index) (status : BatchStatus) (epoch : Epoch) : StorageCall unit
| WriteEntries (start : Index) (entries : list LogEntry) : StorageCall unit
| WriteTiles (tiles : list Tile) : StorageCall unit
| CommitCheckpoint (checkpoint : Checkpoint Signed) (batch_id : BatchId) (epoch : Epoch) : StorageCall unit
| ReadLatestCheckpoint : StorageCall (Checkpoint Signed)
| QueryPendingBatches : StorageCall (list BatchState)
| MarkBatchAbandoned (batch : BatchState) : StorageCall unit.

(** [S3DdbStorage]: no method uses the backend yet. *)
Record S3DdbStorage : Type := MkS3DdbStorage { sd_backend : Backend; sd_config : StorageConfig }.
Definition s3ddb_call {p A} (self : S3DdbStorage) (c : StorageCall A) (w : Process p) : result A StorageError * Process p :=
  (Err (Unimplemented match c with
        | ReadLease => "read_lease"
        | AllocateIndices _ _ => "allocate_indices"
        | PersistBatchState _ _ _ _ _ => "persist_batch_state"
        | WriteEntries _ _ => "write_entries"
        | WriteTiles _ => "write_tiles"
        | CommitCheckpoint _ _ _ => "commit_checkpoint"
        | ReadLatestCheckpoint => "read_latest_checkpoint"
        | QueryPendingBatches => "query_pending_batches"
        | MarkBatchAbandoned _ => "mark_batch_abandoned"
        end), w).

(** The lease item of a log has the partition the facade's prefix names. *)
Lemma lease_key_prefix (config : StorageConfig) (log_id : LogId) :
  st_log_id config = String.string_of_list_byte (as_str log_id) ->
  lease_key log_id = (coordination_prefix config +:+ "/" +:+ LEASE_SORT_KEY)%string.
Proof. intros E. unfold lease_key, coordination_prefix. by rewrite E, Format.str_app_assoc. Qed.
